(** * The GraphQL mirror of [src/graphql/mirror.js], embedded in Rocq

    The mirror keeps a local relational copy of a remote GraphQL object
    graph.  This development embeds the store (the SQLite tables the
    module creates), the registrar, the outdated finder, the connection
    query builder, the two ingesters and the extractor, and proves the
    properties the specification states about them.

    Conventions of the embedding.

    - A JavaScript string is a [string]; [String.length] counts its code
      units.
    - A JavaScript object used as a dictionary is an association list in
      insertion order: [Object.keys] is [map fst], and its own property
      of a key is the first binding of the key.  Reading a key that the
      object does not have gives what [Object.prototype] has under that
      name, if anything: [inherits] says for which names.
    - A number of a response is held as the text [JSON.stringify] writes
      for it, which is all the mirror does with it.
    - What the built-in objects of the runtime hold under each name,
      and what a boolean, a number or a string holds, is not in the
      source: these are the parameters [builtin_get] and [scalar_get] of
      the class [Runtime].
    - A SQL table is the list of its rows in insertion order; a nullable
      column is an [option].
    - A method that reads or writes the database is a function from the
      database to a [Result]: either a value and the new database, or the
      message of the thrown [Error] and the database as the throw left it
      (what a surrounding transaction then rolls back). *)

From Stdlib Require Import String Ascii List ZArith Lia Bool Arith.
From Stdlib Require Import Decimal DecimalNat DecimalZ DecimalString.
Import ListNotations.
Local Open Scope list_scope.
Local Open Scope string_scope.
Local Open Scope Z_scope.

Set Implicit Arguments.
Set Warnings "-register-all".

(** ** Strings *)

Definition Typename := string.
Definition Fieldname := string.
Definition ObjectId := string.

(** The double quote character, and the one-character strings used when
    messages are glued together. *)
Definition dquote_char : ascii := ascii_of_nat 34.
Definition dquote : string := String dquote_char EmptyString.

(** [Array.prototype.join]. *)
Fixpoint join (sep : string) (parts : list string) : string :=
  match parts with
  | [] => EmptyString
  | [p] => p
  | p :: rest => p ++ sep ++ join sep rest
  end.

(** [String(n)] for a non-negative integer such as a string length. *)
Definition String_of_nat (n : nat) : string :=
  NilEmpty.string_of_uint (Nat.to_uint n).

(** [String(z)] for an integer. *)
Definition String_of_Z (z : Z) : string :=
  NilEmpty.string_of_int (Z.to_int z).

Definition hex_digit (n : nat) : ascii :=
  nth n [ "0"; "1"; "2"; "3"; "4"; "5"; "6"; "7"; "8"; "9";
          "a"; "b"; "c"; "d"; "e"; "f" ]%char "0"%char.

(** What [JSON.stringify] writes for one code unit of a string: the two
    characters it must escape, the short escapes of the control
    characters, [\u00XX] for the other control characters, and the
    character itself otherwise. *)
Definition json_escape_char (c : ascii) : string :=
  let n := nat_of_ascii c in
  if (n =? 34)%nat then "\" ++ dquote
  else if (n =? 92)%nat then "\\"
  else if (n =? 8)%nat then "\b"
  else if (n =? 12)%nat then "\f"
  else if (n =? 10)%nat then "\n"
  else if (n =? 13)%nat then "\r"
  else if (n =? 9)%nat then "\t"
  else if (n <? 32)%nat then
    "\u00" ++ String (hex_digit (n / 16)) (String (hex_digit (n mod 16)) EmptyString)
  else String c EmptyString.

Fixpoint json_escape (s : string) : string :=
  match s with
  | EmptyString => EmptyString
  | String c rest => json_escape_char c ++ json_escape rest
  end.

(** [JSON.stringify] on a string (the [s] of the error messages). *)
Definition JSON_stringify_string (s : string) : string :=
  dquote ++ json_escape s ++ dquote.

(** [String.prototype.startsWith]. *)
Fixpoint startsWith (prefix s : string) : bool :=
  match prefix, s with
  | EmptyString, _ => true
  | String a p, String b r => Ascii.eqb a b && startsWith p r
  | String _ _, EmptyString => false
  end.

(** [String.prototype.split] on a one-character separator: the pieces
    between the occurrences of [sep], at least one piece. *)
Fixpoint split_on (sep : ascii) (s : string) : list string :=
  match s with
  | EmptyString => [EmptyString]
  | String c rest =>
      if Ascii.eqb c sep then EmptyString :: split_on sep rest
      else match split_on sep rest with
           | [] => [String c EmptyString]
           | p :: ps => String c p :: ps
           end
  end.

(** ** Dictionaries *)

Section Dict.
Variable V : Type.

Definition Dict := list (string * V).

(** [obj[key]], [None] standing for [undefined]. *)
Fixpoint dict_get (key : string) (d : Dict) : option V :=
  match d with
  | [] => None
  | (k, v) :: rest => if String.eqb k key then Some v else dict_get key rest
  end.

(** [obj[key] = v]: an existing key keeps its place, a new one goes last. *)
Fixpoint dict_set (key : string) (v : V) (d : Dict) : Dict :=
  match d with
  | [] => [(key, v)]
  | (k, w) :: rest =>
      if String.eqb k key then (k, v) :: rest
      else (k, w) :: dict_set key v rest
  end.

(** [Object.keys(obj)]. *)
Definition dict_keys (d : Dict) : list string := map fst d.

End Dict.

(** The names of the properties of [Object.prototype].  Every object
    written [{}] or made by [JSON.parse] inherits them: reading one of
    these names on an object that has no such key gives a function (for
    [__proto__], the prototype itself), not [undefined]. *)
Definition Object_prototype : list string :=
  [ "constructor"; "__defineGetter__"; "__defineSetter__"; "hasOwnProperty";
    "__lookupGetter__"; "__lookupSetter__"; "isPrototypeOf";
    "propertyIsEnumerable"; "toString"; "valueOf"; "__proto__";
    "toLocaleString" ].

Definition inherits (key : string) : bool :=
  existsb (String.eqb key) Object_prototype.

(** ** SQL identifiers and parameter names *)

Definition is_word_char (c : ascii) : bool :=
  let n := nat_of_ascii c in
  ((65 <=? n) && (n <=? 90) || (97 <=? n) && (n <=? 122)
   || (48 <=? n) && (n <=? 57) || (n =? 95))%nat.

(** [isSqlSafe]: no character outside [[A-Za-z0-9_]]. *)
Fixpoint isSqlSafe (token : string) : bool :=
  match token with
  | EmptyString => true
  | String c rest => is_word_char c && isSqlSafe rest
  end.

(** The two functions of [parameterNameFor] in
    [_nontransactionallyUpdateOwnData]. *)
Module parameterNameFor.

Definition topLevelField (fieldname : Fieldname) : string :=
  join "_" ["t"; fieldname].

Definition nestedField (nestFieldname eggFieldname : Fieldname) : string :=
  join "_" ["n"; String_of_nat (String.length nestFieldname);
            nestFieldname; eggFieldname].

End parameterNameFor.

(** ** The schema *)

(** Modelled from the spec: the schema descriptor of [./schema], which the
    mirror imports and only reads.  A schema maps typenames to types; an
    object type maps fieldnames to field types; a nested field maps egg
    names to primitive or node eggs; a union lists its clauses. *)
Inductive Fidelity := FAITHFUL | UNFAITHFUL.

Inductive EggFieldType :=
| EGG_PRIMITIVE
| EGG_NODE (elementType : Typename) (fidelity : Fidelity).

Inductive FieldType :=
| ID
| PRIMITIVE
| NODE (elementType : Typename) (fidelity : Fidelity)
| CONNECTION (elementType : Typename)
| NESTED (eggs : Dict EggFieldType).

Inductive SchemaType :=
| SCALAR
| ENUM
| OBJECT (fields : Dict FieldType)
| UNION (clauses : Dict bool).

Definition Schema := Dict SchemaType.

(** [type.type] as the messages print it. *)
Definition type_tag (t : SchemaType) : string :=
  match t with
  | SCALAR => "SCALAR"
  | ENUM => "ENUM"
  | OBJECT _ => "OBJECT"
  | UNION _ => "UNION"
  end.

Definition field_tag (f : FieldType) : string :=
  match f with
  | ID => "ID"
  | PRIMITIVE => "PRIMITIVE"
  | NODE _ _ => "NODE"
  | CONNECTION _ => "CONNECTION"
  | NESTED _ => "NESTED"
  end.

(** ** Pure code that may throw *)

Inductive Except (A : Type) :=
| Return (a : A)
| Raise (msg : string).
Arguments Return {A} a.
Arguments Raise {A} msg.

Definition ebind {A B} (c : Except A) (k : A -> Except B) : Except B :=
  match c with
  | Return a => k a
  | Raise msg => Raise msg
  end.

(** A [for ... of] loop whose body may throw, threading the variables the
    body updates. *)
Fixpoint efold {X S} (body : S -> X -> Except S) (xs : list X) (s : S)
  : Except S :=
  match xs with
  | [] => Return s
  | x :: rest => ebind (body s x) (efold body rest)
  end.

(** What reading a property of [undefined] throws. *)
Definition TypeError_undefined (property : string) : string :=
  "TypeError: Cannot read property '" ++ property ++ "' of undefined".

Definition unfaithful_message : string :=
  "Handling unfaithful fields is not yet implemented".

(** ** SchemaInfo *)

Record NestedFieldInfo := {
  primitives : Dict EggFieldType;
  nodes : Dict EggFieldType
}.

Record ObjectTypeInfo := {
  fields : Dict FieldType;
  nestedFields : Dict NestedFieldInfo;
  primitiveFieldNames : list Fieldname;
  linkFieldNames : list Fieldname;
  connectionFieldNames : list Fieldname;
  nestedFieldNames : list Fieldname
}.

Record UnionTypeInfo := { clauses : list Typename }.

Record SchemaInfo := {
  objectTypes : Dict ObjectTypeInfo;
  unionTypes : Dict UnionTypeInfo
}.

(** The inner loop of [_buildSchemaInfo] over the eggs of a nested
    field: [for (const eggFieldname of Object.keys(field.eggs))], reading
    [field.eggs[eggFieldname]]. *)
Definition buildNestedFieldData (eggs : Dict EggFieldType)
  : Except NestedFieldInfo :=
  efold
    (fun (data : NestedFieldInfo) (eggFieldname : Fieldname) =>
       match dict_get eggFieldname eggs with
       | None => Raise (TypeError_undefined "type")
       | Some EGG_PRIMITIVE =>
           Return {| primitives :=
                       dict_set eggFieldname EGG_PRIMITIVE (primitives data);
                     nodes := nodes data |}
       | Some (EGG_NODE _ UNFAITHFUL) => Raise unfaithful_message
       | Some (EGG_NODE elementType FAITHFUL) =>
           Return {| primitives := primitives data;
                     nodes :=
                       dict_set eggFieldname (EGG_NODE elementType FAITHFUL)
                                (nodes data) |}
       end)
    (dict_keys eggs) {| primitives := []; nodes := [] |}.

(** The loop of [_buildSchemaInfo] over the fields of an object type:
    [for (const fieldname of Object.keys(type.fields))], reading
    [type.fields[fieldname]].  (The entry is stored in the result before
    the loop fills it; a throw discards both.) *)
Definition buildObjectTypeInfo (typeFields : Dict FieldType)
  : Except ObjectTypeInfo :=
  efold
    (fun (entry : ObjectTypeInfo) (fieldname : Fieldname) =>
       match dict_get fieldname typeFields with
       | None => Raise (TypeError_undefined "type")
       | Some ID => Return entry
       | Some PRIMITIVE =>
           Return {| fields := fields entry;
                     nestedFields := nestedFields entry;
                     primitiveFieldNames :=
                       (primitiveFieldNames entry ++ [fieldname])%list;
                     linkFieldNames := linkFieldNames entry;
                     connectionFieldNames := connectionFieldNames entry;
                     nestedFieldNames := nestedFieldNames entry |}
       | Some (NODE _ UNFAITHFUL) => Raise unfaithful_message
       | Some (NODE _ FAITHFUL) =>
           Return {| fields := fields entry;
                     nestedFields := nestedFields entry;
                     primitiveFieldNames := primitiveFieldNames entry;
                     linkFieldNames := (linkFieldNames entry ++ [fieldname])%list;
                     connectionFieldNames := connectionFieldNames entry;
                     nestedFieldNames := nestedFieldNames entry |}
       | Some (CONNECTION _) =>
           Return {| fields := fields entry;
                     nestedFields := nestedFields entry;
                     primitiveFieldNames := primitiveFieldNames entry;
                     linkFieldNames := linkFieldNames entry;
                     connectionFieldNames :=
                       (connectionFieldNames entry ++ [fieldname])%list;
                     nestedFieldNames := nestedFieldNames entry |}
       | Some (NESTED eggs) =>
           ebind (buildNestedFieldData eggs) (fun nestedFieldData =>
           Return {| fields := fields entry;
                     nestedFields :=
                       dict_set fieldname nestedFieldData (nestedFields entry);
                     primitiveFieldNames := primitiveFieldNames entry;
                     linkFieldNames := linkFieldNames entry;
                     connectionFieldNames := connectionFieldNames entry;
                     nestedFieldNames :=
                       (nestedFieldNames entry ++ [fieldname])%list |})
       end)
    (dict_keys typeFields)
    {| fields := typeFields; nestedFields := [];
       primitiveFieldNames := []; linkFieldNames := [];
       connectionFieldNames := []; nestedFieldNames := [] |}.

(** [_buildSchemaInfo]: [for (const typename of Object.keys(schema))],
    reading [schema[typename]]. *)
Definition _buildSchemaInfo (schema : Schema) : Except SchemaInfo :=
  efold
    (fun (result : SchemaInfo) (typename : Typename) =>
       match dict_get typename schema with
       | None => Raise (TypeError_undefined "type")
       | Some SCALAR => Return result
       | Some ENUM => Return result
       | Some (OBJECT typeFields) =>
           ebind (buildObjectTypeInfo typeFields) (fun entry =>
           Return {| objectTypes := dict_set typename entry (objectTypes result);
                     unionTypes := unionTypes result |})
       | Some (UNION typeClauses) =>
           Return {| objectTypes := objectTypes result;
                     unionTypes :=
                       dict_set typename {| clauses := dict_keys typeClauses |}
                                (unionTypes result) |}
       end)
    (dict_keys schema) {| objectTypes := []; unionTypes := [] |}.

(** ** Response values *)

(** A value of the [data] of a GraphQL response, as [JSON.parse] gives
    it: [null], a boolean, a number, a string, or an object.  A number is
    held as the text that [JSON.stringify] writes for it (["3"],
    ["0.5"], ["1e+21"]). *)
Inductive Value :=
| VNull
| VBool (b : bool)
| VNumber (text : string)
| VString (s : string)
| VObject (members : list (string * Value)).

(** A non-null [NodeFieldResult]: the object [{__typename, id}]. *)
Record NodeRef := {
  ref_typename : Typename;
  ref_id : ObjectId
}.

Definition NodeFieldResult := option NodeRef.

(** One element of an [OwnDataUpdateResult]: its [__typename], its [id]
    and its other keys, each a [PrimitiveResult], a [NodeFieldResult] or
    a [NestedFieldResult] as the schema says. *)
Record Entry := {
  entry_typename : Typename;
  entry_id : ObjectId;
  entry_fields : Dict Value
}.

Definition OwnDataUpdateResult := list Entry.

(** What reading a key of an object of the response gives, when it is
    not [undefined]: a value of the response, or a built-in object of the
    runtime.  A built-in is named by the keys that lead to it from
    [Object.prototype], and comes with what [JSON.stringify] gives for
    it: [undefined] (here [None]) for a function. *)
Inductive Read :=
| Plain (value : Value)
| Builtin (json : option string) (path : list string).

(** The runtime the mirror runs in, for what the source does not say of
    it: [builtin_get path key] is the result of reading [key] on the
    built-in that [path] leads to, and [scalar_get value key] that of
    reading [key] on a boolean, a number or a string (the [length] of a
    string, a method of its wrapper).  The read may throw (the accessors
    [caller] and [arguments] of a function do), give [undefined], or give
    a value. *)
Class Runtime := {
  builtin_get : list string -> string -> Except (option Read);
  scalar_get : Value -> string -> Except (option Read)
}.

(** What a plain object inherits under a key: the function
    [Object.prototype[key]], or for [__proto__] the prototype itself,
    which has no enumerable key. *)
Definition inherited (key : string) : option Read :=
  if inherits key then
    Some (Builtin (if String.eqb key "__proto__" then Some "{}" else None)
                  [key])
  else None.

(** [object[key]] on an object of the response. *)
Definition member_get (key : string) (members : Dict Value) : option Read :=
  match dict_get key members with
  | Some value => Some (Plain value)
  | None => inherited key
  end.

(** [entry[fieldname]]. *)
Definition entry_get (entry : Entry) (fieldname : Fieldname)
  : option Read :=
  if String.eqb fieldname "__typename" then
    Some (Plain (VString (entry_typename entry)))
  else if String.eqb fieldname "id" then
    Some (Plain (VString (entry_id entry)))
  else member_get fieldname (entry_fields entry).

(** [topLevelNested == null]. *)
Definition is_nullish (topLevelNested : Read) : bool :=
  match topLevelNested with
  | Plain VNull => true
  | _ => false
  end.

(** [topLevelNested == null ? null : topLevelNested[eggFieldname]].  A
    nested field of a response is [null] or an object; a record that has
    no value for the field may inherit a built-in under its name, and a
    response may hold a boolean, a number or a string where an object
    was asked for. *)
Definition egg_get `{Runtime} (topLevelNested : Read)
    (eggFieldname : Fieldname) : Except (option Read) :=
  match topLevelNested with
  | Plain VNull => Return (Some (Plain VNull))
  | Plain (VObject members) => Return (member_get eggFieldname members)
  | Plain scalar => scalar_get scalar eggFieldname
  | Builtin _ path => builtin_get path eggFieldname
  end.

(** A value read as a [NodeFieldResult]: [null], or an object whose
    [__typename] and [id] are strings.  Any other value is not a
    [NodeFieldResult], and registering it throws (the ids and the
    typenames of the objects of the store are strings). *)
Definition asNodeFieldResult (v : Value) : Except NodeFieldResult :=
  match v with
  | VNull => Return None
  | VObject members =>
      match dict_get "__typename" members, dict_get "id" members with
      | Some (VString typename), Some (VString id) =>
          Return (Some {| ref_typename := typename; ref_id := id |})
      | _, _ => Raise "TypeError: not a node reference"
      end
  | _ => Raise "TypeError: not a node reference"
  end.

Record PageInfo := {
  hasNextPage : bool;
  endCursor : option string
}.

Record ConnectionFieldResult := {
  totalCount : Z;
  pageInfo : PageInfo;
  result_nodes : list NodeFieldResult
}.

(** A [NodeConnectionsUpdateResult]: the [id] and the other keys. *)
Record NodeConnectionsUpdateResult := {
  nc_id : ObjectId;
  nc_fields : Dict ConnectionFieldResult
}.

(** A value of an [UpdateResult]; the key under which it arrives says
    which of the two the code takes it for. *)
Inductive TopLevelResult :=
| OwnDataResult (records : OwnDataUpdateResult)
| NodeConnectionsResult (record : NodeConnectionsUpdateResult).

Definition UpdateResult := Dict TopLevelResult.

(** [JSON.stringify] on a value. *)
Fixpoint JSON_stringify (v : Value) : string :=
  match v with
  | VNull => "null"
  | VBool true => "true"
  | VBool false => "false"
  | VNumber text => text
  | VString s => JSON_stringify_string s
  | VObject members =>
      "{" ++ join ","
               ((fix each (ms : list (string * Value)) : list string :=
                   match ms with
                   | [] => []
                   | (k, w) :: rest =>
                       (JSON_stringify_string k ++ ":" ++ JSON_stringify w)
                         :: each rest
                   end) members)
          ++ "}"
  end.

(** [JSON.stringify] on what a read gave: [None] for [undefined]. *)
Definition JSON_stringify_read (r : Read) : option string :=
  match r with
  | Plain value => Some (JSON_stringify value)
  | Builtin json _ => json
  end.

(** ** The database *)

Inductive SqlValue :=
| SqlNull
| SqlInteger (z : Z)
| SqlText (s : string).

Definition UpdateId := Z.

Record UpdateRow := {
  u_rowid : Z;
  u_time_epoch_millis : Z
}.

Record ObjectRow := {
  o_id : ObjectId;
  o_typename : Typename;
  o_last_update : option UpdateId
}.

Record LinkRow := {
  l_rowid : Z;
  l_parent_id : ObjectId;
  l_fieldname : Fieldname;
  l_child_id : option ObjectId
}.

Record ConnectionRow := {
  c_rowid : Z;
  c_object_id : ObjectId;
  c_fieldname : Fieldname;
  c_last_update : option UpdateId;
  c_total_count : option Z;
  c_has_next_page : option Z;
  c_end_cursor : option string
}.

Record EntryRow := {
  e_rowid : Z;
  e_connection_id : Z;
  e_idx : Z;
  e_child_id : option ObjectId
}.

(** A row of a [primitives_T] table: the [id] and the other columns. *)
Record PrimitivesRow := {
  p_id : ObjectId;
  p_values : Dict SqlValue
}.

Record PrimitivesTable := {
  pt_columns : list string;
  pt_rows : list PrimitivesRow
}.

(** The tables [_initialize] creates after [meta]: the five structural
    tables and, by table name, the [primitives_T] tables. *)
Record Tables := {
  updates : list UpdateRow;
  objects : list ObjectRow;
  links : list LinkRow;
  connections : list ConnectionRow;
  connection_entries : list EntryRow;
  primitives_tables : Dict PrimitivesTable
}.

(** A database connection.  [meta] is [None] while the table [meta] does
    not exist, [Some None] while it has no row, and [Some (Some config)]
    once it has its row; [tables] is [None] until the structural tables
    are created. *)
Record Db := {
  inTransaction : bool;
  meta : option (option string);
  tables : option Tables
}.

Definition empty_db : Db :=
  {| inTransaction := false; meta := None; tables := None |}.

Definition empty_tables : Tables :=
  {| updates := []; objects := []; links := []; connections := [];
     connection_entries := []; primitives_tables := [] |}.

(** ** Methods on the database *)

Inductive Result (A : Type) :=
| Ok (a : A) (db : Db)
| Throw (msg : string) (db : Db).
Arguments Ok {A} a db.
Arguments Throw {A} msg db.

Definition M (A : Type) := Db -> Result A.

Definition ret {A} (a : A) : M A := fun db => Ok a db.

Definition throw {A} (msg : string) : M A := fun db => Throw msg db.

Definition bind {A B} (c : M A) (k : A -> M B) : M B :=
  fun db =>
    match c db with
    | Ok a db' => k a db'
    | Throw msg db' => Throw msg db'
    end.

Notation "x <- c ;; k" := (bind c (fun x => k))
  (at level 61, c at next level, right associativity).
Notation "c ;;; k" := (bind c (fun _ => k))
  (at level 61, right associativity).

(** Running pure code that may throw. *)
Definition lift {A} (c : Except A) : M A :=
  match c with
  | Return a => ret a
  | Raise msg => throw msg
  end.

(** A [for ... of] loop over statements. *)
Fixpoint forEach {X} (xs : list X) (body : X -> M unit) : M unit :=
  match xs with
  | [] => ret tt
  | x :: rest => body x ;;; forEach rest body
  end.

(** Reading and replacing the tables; a statement on a table that does
    not exist throws. *)
Definition getTables : M Tables :=
  fun db =>
    match tables db with
    | Some t => Ok t db
    | None => Throw "SqliteError: no such table" db
    end.

Definition putTables (t : Tables) : M unit :=
  fun db =>
    Ok tt {| inTransaction := inTransaction db; meta := meta db;
             tables := Some t |}.

(** [_inTransaction]: refuse a connection already in a transaction;
    otherwise [BEGIN], run the callback, and [COMMIT] when it returns or
    [ROLLBACK] to the state at [BEGIN] when it throws.  (No callback of
    this module ends the transaction itself.) *)
Definition _inTransaction {A} (fn : M A) : M A :=
  fun db =>
    if inTransaction db then Throw "already in transaction" db
    else
      match fn {| inTransaction := true; meta := meta db; tables := tables db |} with
      | Ok a db' =>
          Ok a {| inTransaction := false; meta := meta db'; tables := tables db' |}
      | Throw msg _ => Throw msg db
      end.

(** ** SQL statements of the store

    Each definition below is one statement of [mirror.js], on the model
    of the tables.  The comparisons of [TEXT] columns are exact (SQLite's
    default collation); table and column names are compared without
    regard to ASCII case, as SQLite does. *)

Definition ascii_lower (c : ascii) : ascii :=
  let n := nat_of_ascii c in
  if ((65 <=? n) && (n <=? 90))%nat then ascii_of_nat (n + 32) else c.

Fixpoint sql_lower (s : string) : string :=
  match s with
  | EmptyString => EmptyString
  | String c rest => String (ascii_lower c) (sql_lower rest)
  end.

Definition sql_name_eqb (a b : string) : bool :=
  String.eqb (sql_lower a) (sql_lower b).

Fixpoint sql_names_distinct (names : list string) : bool :=
  match names with
  | [] => true
  | n :: rest => negb (existsb (sql_name_eqb n) rest) && sql_names_distinct rest
  end.

Definition option_eqb {A} (eqb : A -> A -> bool) (x y : option A) : bool :=
  match x, y with
  | Some a, Some b => eqb a b
  | None, None => true
  | _, _ => false
  end.

(** The largest element, [None] for [MAX] over no row. *)
Fixpoint max_of (zs : list Z) : option Z :=
  match zs with
  | [] => None
  | z :: rest =>
      match max_of rest with
      | None => Some z
      | Some w => Some (Z.max z w)
      end
  end.

(** The rowid SQLite gives a row inserted without one: one more than the
    largest in the table, 1 in an empty table. *)
Definition next_rowid (rowids : list Z) : Z :=
  match max_of rowids with
  | None => 1
  | Some r => r + 1
  end.

(** [CREATE TABLE IF NOT EXISTS meta (...)]. *)
Definition sql_create_meta_if_not_exists : M unit :=
  fun db =>
    match meta db with
    | Some _ => Ok tt db
    | None => Ok tt {| inTransaction := inTransaction db; meta := Some None;
                       tables := tables db |}
    end.

(** [SELECT config FROM meta], plucked, first row. *)
Definition sql_select_config : M (option string) :=
  fun db =>
    match meta db with
    | Some row => Ok row db
    | None => Throw "SqliteError: no such table: meta" db
    end.

(** [INSERT INTO meta (zero, config) VALUES (0, ?)]. *)
Definition sql_insert_meta (blob : string) : M unit :=
  fun db =>
    match meta db with
    | Some None => Ok tt {| inTransaction := inTransaction db;
                            meta := Some (Some blob); tables := tables db |}
    | Some (Some _) => Throw "SqliteError: UNIQUE constraint failed: meta.zero" db
    | None => Throw "SqliteError: no such table: meta" db
    end.

(** The statements of [structuralTables], run in order: the tables
    [updates], [objects], [links], [connections], [connection_entries]
    and their indexes. *)
Definition sql_create_structural_tables : M unit :=
  fun db =>
    match tables db with
    | Some _ => Throw "SqliteError: table updates already exists" db
    | None => Ok tt {| inTransaction := inTransaction db; meta := meta db;
                       tables := Some empty_tables |}
    end.

(** The SQL identifier a double-quoted name denotes. *)
Fixpoint drop_last (s : string) : string :=
  match s with
  | EmptyString => EmptyString
  | String c EmptyString => EmptyString
  | String c rest => String c (drop_last rest)
  end.

Definition sql_identifier (quoted : string) : string :=
  match quoted with
  | EmptyString => EmptyString
  | String _ rest => drop_last rest
  end.

Definition set_primitives_tables (t : Tables) (p : Dict PrimitivesTable)
  : Tables :=
  {| updates := updates t; objects := objects t; links := links t;
     connections := connections t;
     connection_entries := connection_entries t;
     primitives_tables := p |}.

(** [CREATE TABLE ${tableName} (id TEXT NOT NULL PRIMARY KEY, "c1", ...,
    FOREIGN KEY(id) REFERENCES objects(id))]. *)
Definition sql_create_primitives_table (tableName : string)
    (columns : list string) : M unit :=
  t <- getTables ;;
  if existsb (fun kv => sql_name_eqb (fst kv) (sql_identifier tableName))
             (primitives_tables t)
  then throw ("SqliteError: table " ++ tableName ++ " already exists")
  else if negb (sql_names_distinct ("id" :: columns))
  then throw "SqliteError: duplicate column name"
  else
    putTables
      (set_primitives_tables t
         (primitives_tables t
            ++ [(sql_identifier tableName,
                 {| pt_columns := columns; pt_rows := [] |})])%list).

(** [INSERT INTO updates (time_epoch_millis) VALUES (?)], giving the
    rowid of the new row. *)
Definition sql_insert_update (time : Z) : M UpdateId :=
  t <- getTables ;;
  let rowid := next_rowid (map u_rowid (updates t)) in
  putTables
    {| updates := (updates t
                     ++ [{| u_rowid := rowid; u_time_epoch_millis := time |}])%list;
       objects := objects t; links := links t;
       connections := connections t;
       connection_entries := connection_entries t;
       primitives_tables := primitives_tables t |} ;;;
  ret rowid.

(** The typename under which an id is registered, if it is. *)
Definition registered_typename (t : Tables) (id : ObjectId)
  : option Typename :=
  option_map o_typename (find (fun o => String.eqb (o_id o) id) (objects t)).

(** [SELECT typename FROM objects WHERE id = ?], plucked, first row. *)
Definition sql_select_typename (id : ObjectId) : M (option Typename) :=
  t <- getTables ;;
  ret (registered_typename t id).

(** [INSERT INTO objects (id, last_update, typename)
    VALUES (:id, NULL, :typename)]. *)
Definition sql_insert_object (id : ObjectId) (typename : Typename) : M unit :=
  t <- getTables ;;
  if existsb (fun o => String.eqb (o_id o) id) (objects t)
  then throw "SqliteError: UNIQUE constraint failed: objects.id"
  else
    putTables
      {| updates := updates t;
         objects := (objects t
                       ++ [{| o_id := id; o_typename := typename;
                              o_last_update := None |}])%list;
         links := links t; connections := connections t;
         connection_entries := connection_entries t;
         primitives_tables := primitives_tables t |}.

(** [INSERT INTO ${tableName} (id) VALUES (?)]: the other columns of the
    new row are NULL. *)
Definition sql_insert_primitives_row (tableName : string) (id : ObjectId)
  : M unit :=
  t <- getTables ;;
  match dict_get (sql_identifier tableName) (primitives_tables t) with
  | None => throw ("SqliteError: no such table: " ++ sql_identifier tableName)
  | Some table =>
      if existsb (fun r => String.eqb (p_id r) id) (pt_rows table)
      then throw "SqliteError: UNIQUE constraint failed: id"
      else
        putTables
          (set_primitives_tables t
             (dict_set (sql_identifier tableName)
                {| pt_columns := pt_columns table;
                   pt_rows :=
                     (pt_rows table
                        ++ [{| p_id := id;
                               p_values :=
                                 map (fun c => (c, SqlNull)) (pt_columns table) |}])%list |}
                (primitives_tables t)))
  end.

(** [INSERT INTO links (parent_id, fieldname, child_id)
    VALUES (:id, :fieldname, NULL)]. *)
Definition sql_insert_link (id : ObjectId) (fieldname : Fieldname) : M unit :=
  t <- getTables ;;
  if existsb (fun l => String.eqb (l_parent_id l) id
                       && String.eqb (l_fieldname l) fieldname) (links t)
  then throw "SqliteError: UNIQUE constraint failed: links.parent_id, links.fieldname"
  else
    putTables
      {| updates := updates t; objects := objects t;
         links := (links t
                     ++ [{| l_rowid := next_rowid (map l_rowid (links t));
                            l_parent_id := id; l_fieldname := fieldname;
                            l_child_id := None |}])%list;
         connections := connections t;
         connection_entries := connection_entries t;
         primitives_tables := primitives_tables t |}.

(** [INSERT INTO connections (object_id, fieldname)
    VALUES (:id, :fieldname)]: the four other columns are NULL. *)
Definition sql_insert_connection (id : ObjectId) (fieldname : Fieldname)
  : M unit :=
  t <- getTables ;;
  if existsb (fun c => String.eqb (c_object_id c) id
                       && String.eqb (c_fieldname c) fieldname) (connections t)
  then throw "SqliteError: UNIQUE constraint failed: connections.object_id, connections.fieldname"
  else
    putTables
      {| updates := updates t; objects := objects t; links := links t;
         connections :=
           (connections t
              ++ [{| c_rowid := next_rowid (map c_rowid (connections t));
                     c_object_id := id; c_fieldname := fieldname;
                     c_last_update := None; c_total_count := None;
                     c_has_next_page := None; c_end_cursor := None |}])%list;
         connection_entries := connection_entries t;
         primitives_tables := primitives_tables t |}.

(** ** The mirror *)

Record Options := { blacklistedIds : Dict bool }.

(** The object whose canonical encoding is stored in [meta.config]. *)
Record Config := {
  version : string;
  schema : Schema;
  options : Options
}.

(** A [Mirror] instance, apart from its database connection, which the
    methods thread as their state. *)
Record Mirror := {
  _schema : Schema;
  _schemaInfo : SchemaInfo;
  _blacklistedIds : Dict bool
}.

(** [_primitivesTableName]. *)
Definition _primitivesTableName (typename : Typename) : Except string :=
  if negb (isSqlSafe typename) then
    Raise ("Invariant violation: invalid object type name "
             ++ JSON_stringify_string typename)
  else Return (dquote ++ "primitives_" ++ typename ++ dquote).

(** [type.nestedFields[fieldname]], about to be read for [property]. *)
Definition nestedFieldData (type : ObjectTypeInfo) (fieldname : Fieldname)
    (property : string) : Except NestedFieldInfo :=
  match dict_get fieldname (nestedFields type) with
  | Some data => Return data
  | None => Raise (TypeError_undefined property)
  end.

(** A loop whose body only checks. *)
Definition eforEach {X} (xs : list X) (body : X -> Except unit) : Except unit :=
  efold (fun _ x => body x) xs tt.

(** The column names of [primitives_T] after [id], as [_initialize],
    [_nontransactionallyUpdateOwnData] and [extract] list them: the
    primitive fields, the nested fields, and ["f1.f2"] for every primitive
    egg [f2] of every nested field [f1]. *)
Definition eggColumns (type : ObjectTypeInfo) : Except (list (Fieldname * Fieldname)) :=
  efold
    (fun acc f1 =>
       ebind (nestedFieldData type f1 "primitives") (fun data =>
       Return (acc ++ map (fun f2 => (f1, f2)) (dict_keys (primitives data)))%list))
    (nestedFieldNames type) [].

Definition eggColumnName (pair : Fieldname * Fieldname) : string :=
  fst pair ++ "." ++ snd pair.

Section Methods.

(** [stringify] of the package json-stable-stringify, on the
    configuration object. *)
Variable stringify : Config -> string.

(** The runtime, for the built-ins a record may inherit. *)
Context {runtime : Runtime}.

(** The body of the loop of [_initialize] over the object types. *)
Definition createPrimitivesTable (typename : Typename) (type : ObjectTypeInfo)
  : M unit :=
  lift (if negb (isSqlSafe typename) then
          Raise ("invalid object type name: " ++ JSON_stringify_string typename)
        else Return tt) ;;;
  lift (eforEach (primitiveFieldNames type) (fun fieldname =>
          if negb (isSqlSafe fieldname) then
            Raise ("invalid field name: " ++ JSON_stringify_string fieldname)
          else Return tt)) ;;;
  lift (eforEach (nestedFieldNames type) (fun fieldname =>
          if negb (isSqlSafe fieldname) then
            Raise ("invalid field name: " ++ JSON_stringify_string fieldname)
          else
            ebind (nestedFieldData type fieldname "primitives") (fun data =>
            eforEach (dict_keys (primitives data)) (fun childFieldname =>
              if negb (isSqlSafe childFieldname) then
                Raise ("invalid field name: "
                         ++ JSON_stringify_string childFieldname
                         ++ " under " ++ JSON_stringify_string fieldname)
              else Return tt)))) ;;;
  tableName <- lift (_primitivesTableName typename) ;;
  eggs <- lift (eggColumns type) ;;
  sql_create_primitives_table tableName
    (primitiveFieldNames type ++ nestedFieldNames type
       ++ map eggColumnName eggs)%list.

(** [_initialize]. *)
Definition _initialize (m : Mirror) : M unit :=
  let blob :=
    stringify {| version := "MIRROR_v3"; schema := _schema m;
                 options := {| blacklistedIds := _blacklistedIds m |} |} in
  _inTransaction
    (sql_create_meta_if_not_exists ;;;
     existingBlob <- sql_select_config ;;
     match existingBlob with
     | Some existing =>
         if String.eqb existing blob then ret tt
         else throw ("Database already populated with "
                       ++ "incompatible schema, options, or version")
     | None =>
         sql_insert_meta blob ;;;
         sql_create_structural_tables ;;;
         forEach (dict_keys (objectTypes (_schemaInfo m)))
           (fun typename =>
              match dict_get typename (objectTypes (_schemaInfo m)) with
              | Some type => createPrimitivesTable typename type
              | None => throw (TypeError_undefined "primitiveFieldNames")
              end)
     end).

(** The constructor: build the schema info and the blacklist, then
    initialize. *)
Definition Mirror_constructor (schema : Schema)
    (blacklist : list ObjectId) : M Mirror :=
  schemaInfo <- lift (_buildSchemaInfo schema) ;;
  let m := {| _schema := schema; _schemaInfo := schemaInfo;
              _blacklistedIds :=
                fold_left (fun result id => dict_set id true result)
                          blacklist [] |} in
  _initialize m ;;;
  ret m.

(** [_createUpdate]; the timestamp is [+updateTimestamp]. *)
Definition _createUpdate (updateTimestamp : Z) : M UpdateId :=
  sql_insert_update updateTimestamp.

(** [_nontransactionallyRegisterObject].  For a typename that is no key
    of the schema but names a built-in, [this._schema[typename]] is that
    built-in: it is not [null], and its [type] is [undefined]. *)
Definition _nontransactionallyRegisterObject (m : Mirror)
    (typename : Typename) (id : ObjectId) : M unit :=
  existingTypename <- sql_select_typename id ;;
  match existingTypename with
  | Some existing =>
      if String.eqb existing typename then ret tt
      else throw ("Inconsistent type for ID " ++ JSON_stringify_string id
                    ++ ": expected " ++ JSON_stringify_string existing
                    ++ ", got " ++ JSON_stringify_string typename)
  | None =>
      match dict_get typename (_schema m) with
      | None =>
          if inherits typename then
            throw ("Cannot add object of non-object type: "
                     ++ JSON_stringify_string typename ++ " (undefined)")
          else throw ("Unknown type: " ++ JSON_stringify_string typename)
      | Some (OBJECT _) =>
          sql_insert_object id typename ;;;
          tableName <- lift (_primitivesTableName typename) ;;
          sql_insert_primitives_row tableName id ;;;
          match dict_get typename (objectTypes (_schemaInfo m)) with
          | None => throw (TypeError_undefined "linkFieldNames")
          | Some objectType =>
              forEach (linkFieldNames objectType)
                (fun fieldname => sql_insert_link id fieldname) ;;;
              forEach (nestedFieldNames objectType)
                (fun parentFieldname =>
                   data <- lift (nestedFieldData objectType parentFieldname "nodes") ;;
                   forEach (dict_keys (nodes data))
                     (fun childFieldname =>
                        sql_insert_link id
                          (parentFieldname ++ "." ++ childFieldname))) ;;;
              forEach (connectionFieldNames objectType)
                (fun fieldname => sql_insert_connection id fieldname)
          end
      | Some type =>
          throw ("Cannot add object of non-object type: "
                   ++ JSON_stringify_string typename
                   ++ " (" ++ type_tag type ++ ")")
      end
  end.

(** [registerObject]. *)
Definition registerObject (m : Mirror) (typename : Typename) (id : ObjectId)
  : M unit :=
  _inTransaction (_nontransactionallyRegisterObject m typename id).

(** [this._blacklistedIds[id]] as a condition.  The blacklist is the
    object [{[id]: true}]: the condition holds for its keys, and for the
    names it inherits, under which it reads a built-in. *)
Definition blacklisted (m : Mirror) (id : string) : bool :=
  match dict_get id (_blacklistedIds m) with
  | Some listed => listed
  | None => inherits id
  end.

(** [_nontransactionallyRegisterNodeFieldResult]. *)
Definition _nontransactionallyRegisterNodeFieldResult (m : Mirror)
    (result : NodeFieldResult) : M (option ObjectId) :=
  match result with
  | None => ret None
  | Some r =>
      if blacklisted m (ref_id r) then ret None
      else
        _nontransactionallyRegisterObject m (ref_typename r) (ref_id r) ;;;
        ret (Some (ref_id r))
  end.

(** What the database driver throws when given [undefined] to bind. *)
Definition cannot_bind_undefined : string :=
  "TypeError: SQLite3 can only bind numbers, strings, Buffers, and null".

(** [String(result.id)] for a value that is not [null]: the key under
    which [this._blacklistedIds[result.id]] is read.  No boolean, number
    or string, and no built-in, has a property [id]. *)
Definition id_key (value : Value) : string :=
  match value with
  | VObject members =>
      match dict_get "id" members with
      | Some (VString id) => id
      | Some VNull => "null"
      | Some (VBool true) => "true"
      | Some (VBool false) => "false"
      | Some (VNumber text) => text
      | Some (VObject _) => "[object Object]"
      | None => "undefined"
      end
  | _ => "undefined"
  end.

(** [this._nontransactionallyRegisterNodeFieldResult(link)] on what a
    record gave for a node field.  A value that is no node reference is
    not [null] either: the blacklist is read under the key of its [id],
    and when that is not blacklisted the registration throws.  A
    built-in has no [id]: the blacklist is read under the key
    ["undefined"], and when that is not blacklisted the registrar asks
    the database for the typename of [undefined], which the driver
    refuses to bind. *)
Definition registerNodeFieldValue (m : Mirror) (link : Read)
  : M (option ObjectId) :=
  match link with
  | Plain value =>
      match asNodeFieldResult value with
      | Return result => _nontransactionallyRegisterNodeFieldResult m result
      | Raise msg =>
          if blacklisted m (id_key value) then ret None else throw msg
      end
  | Builtin _ _ =>
      if blacklisted m "undefined" then ret None
      else throw cannot_bind_undefined
  end.

(** *** The outdated finder *)

Record PlanObject := {
  po_typename : Typename;
  po_id : ObjectId
}.

(** An [endCursor] of a plan is [None] for [undefined] (never fetched),
    [Some None] for [null], and [Some (Some c)] for the cursor [c]. *)
Record PlanConnection := {
  pc_objectTypename : Typename;
  pc_objectId : ObjectId;
  pc_fieldname : Fieldname;
  pc_endCursor : option (option string)
}.

Record QueryPlan := {
  plan_objects : list PlanObject;
  plan_connections : list PlanConnection;
  plan_typenames : list ObjectId
}.

(** [row LEFT OUTER JOIN updates ON row.last_update = updates.rowid]: the
    matching rows of [updates], or one NULL row when there is none. *)
Definition left_outer_join_updates (last_update : option UpdateId)
    (us : list UpdateRow) : list (option UpdateRow) :=
  match filter (fun u => option_eqb Z.eqb last_update (Some (u_rowid u))) us with
  | [] => [None]
  | matches => map Some matches
  end.

(** [updates.time_epoch_millis < :timeEpochMillisThreshold] on a joined
    row; a comparison with NULL does not hold. *)
Definition older_than (threshold : Z) (u : option UpdateRow) : bool :=
  match u with
  | Some row => u_time_epoch_millis row <? threshold
  | None => false
  end.

Definition is_null {A} (x : option A) : bool :=
  match x with
  | None => true
  | Some _ => false
  end.

(** A BOOLEAN column in a condition: NULL and 0 do not hold. *)
Definition sql_truthy (x : option Z) : bool :=
  match x with
  | Some z => negb (z =? 0)
  | None => false
  end.

(** The first query of [_findOutdated]. *)
Definition sql_outdated_objects (t : Tables) (threshold : Z)
  : list PlanObject :=
  map (fun row : ObjectRow * option UpdateRow =>
         {| po_typename := o_typename (fst row); po_id := o_id (fst row) |})
    (filter (fun row : ObjectRow * option UpdateRow =>
               is_null (o_last_update (fst row)) || older_than threshold (snd row))
       (flat_map (fun o =>
                    map (fun u => (o, u))
                        (left_outer_join_updates (o_last_update o) (updates t)))
                 (objects t))).

(** A row of the second query of [_findOutdated], before the [map]. *)
Record OutdatedConnectionRow := {
  ocr_objectTypename : Typename;
  ocr_objectId : ObjectId;
  ocr_fieldname : Fieldname;
  ocr_neverUpdated : bool;
  ocr_endCursor : option string
}.

(** The second query of [_findOutdated]: [connections] left-joined with
    [updates], joined with [objects] on the object id. *)
Definition sql_outdated_connections (t : Tables) (threshold : Z)
  : list OutdatedConnectionRow :=
  map (fun row : ConnectionRow * option UpdateRow * ObjectRow =>
         let '(c, _, o) := row in
         {| ocr_objectTypename := o_typename o;
            ocr_objectId := c_object_id c;
            ocr_fieldname := c_fieldname c;
            ocr_neverUpdated := is_null (c_last_update c);
            ocr_endCursor := c_end_cursor c |})
    (filter (fun row : ConnectionRow * option UpdateRow * ObjectRow =>
               let '(c, u, _) := row in
               sql_truthy (c_has_next_page c)
               || is_null (c_last_update c)
               || older_than threshold u)
       (flat_map (fun c =>
                    flat_map (fun u =>
                                map (fun o => (c, u, o))
                                    (filter (fun o => String.eqb (c_object_id c) (o_id o))
                                            (objects t)))
                             (left_outer_join_updates (c_last_update c) (updates t)))
                 (connections t))).

(** [_findOutdated]; the threshold is [+since]. *)
Definition _findOutdated (since : Z) : M QueryPlan :=
  _inTransaction
    (t <- getTables ;;
     let objects := sql_outdated_objects t since in
     let connections :=
       map (fun entry =>
              {| pc_objectTypename := ocr_objectTypename entry;
                 pc_objectId := ocr_objectId entry;
                 pc_fieldname := ocr_fieldname entry;
                 pc_endCursor :=
                   if ocr_neverUpdated entry then None
                   else Some (ocr_endCursor entry) |})
           (sql_outdated_connections t since) in
     ret {| plan_objects := objects; plan_connections := connections;
            plan_typenames := [] |}).

(** *** Queries *)

(** Modelled from the spec: the constructors of [./queries] that the
    mirror calls as [Queries.build]: [literal(v)], [list(vs)],
    [field(name, args, selections)] with [{}] and [[]] for omitted
    arguments and selections, and [inlineFragment(type, selections)]. *)
Inductive LiteralValue :=
| LitNull
| LitNumber (z : Z)
| LitString (s : string).

Inductive QueryValue :=
| literal (v : LiteralValue)
| list_value (vs : list QueryValue).

Inductive Selection :=
| field (name : Fieldname) (args : Dict QueryValue) (selections : list Selection)
| inlineFragment (typeCondition : Typename) (selections : list Selection).

(** [b.literal(endCursor)] for a cursor that is a string or [null]. *)
Definition literal_of_cursor (cursor : option string) : QueryValue :=
  match cursor with
  | None => literal LitNull
  | Some c => literal (LitString c)
  end.

(** [_queryShallow].  A built-in found under the typename has no
    [type]: the [default] case throws [new Error(undefined)], whose
    message is empty. *)
Definition _queryShallow (m : Mirror) (typename : Typename)
  : Except (list Selection) :=
  match dict_get typename (_schema m) with
  | None =>
      if inherits typename then Raise EmptyString
      else Raise ("No such type: " ++ JSON_stringify_string typename)
  | Some SCALAR =>
      Raise ("Cannot create selections for scalar type: "
               ++ JSON_stringify_string typename)
  | Some ENUM =>
      Raise ("Cannot create selections for enum type: "
               ++ JSON_stringify_string typename)
  | Some (OBJECT _) => Return [field "__typename" [] []; field "id" [] []]
  | Some (UNION _) =>
      match dict_get typename (unionTypes (_schemaInfo m)) with
      | None => Raise (TypeError_undefined "clauses")
      | Some union =>
          Return (field "__typename" [] []
                    :: map (fun clause => inlineFragment clause [field "id" [] []])
                           (clauses union))
      end
  end.

(** [_queryConnection]; [endCursor] is [None] for [undefined]. *)
Definition _queryConnection (m : Mirror) (typename : Typename)
    (fieldname : Fieldname) (endCursor : option (option string))
    (connectionPageSize : Z) : Except (list Selection) :=
  match dict_get typename (_schema m) with
  | None =>
      if inherits typename then
        Raise ("Cannot query connection on non-object type "
                 ++ JSON_stringify_string typename ++ " (undefined)")
      else Raise ("No such type: " ++ JSON_stringify_string typename)
  | Some (OBJECT _) =>
      match dict_get typename (objectTypes (_schemaInfo m)) with
      | None => Raise (TypeError_undefined "fields")
      | Some objectType =>
          match dict_get fieldname (fields objectType) with
          | None =>
              if inherits fieldname then
                Raise ("Cannot query non-connection field "
                         ++ JSON_stringify_string typename ++ "."
                         ++ JSON_stringify_string fieldname
                         ++ " (undefined)")
              else
                Raise ("Object type " ++ JSON_stringify_string typename
                         ++ " has no field "
                         ++ JSON_stringify_string fieldname)
          | Some (CONNECTION elementType) =>
              let connectionArguments :=
                [("first", literal (LitNumber connectionPageSize))] in
              let connectionArguments :=
                match endCursor with
                | Some cursor =>
                    dict_set "after" (literal_of_cursor cursor) connectionArguments
                | None => connectionArguments
                end in
              ebind (_queryShallow m elementType) (fun shallow =>
              Return
                [field fieldname connectionArguments
                   [field "totalCount" [] [];
                    field "pageInfo" []
                      [field "endCursor" [] []; field "hasNextPage" [] []];
                    field "nodes" [] shallow]])
          | Some other =>
              Raise ("Cannot query non-connection field "
                       ++ JSON_stringify_string typename ++ "."
                       ++ JSON_stringify_string fieldname
                       ++ " (" ++ field_tag other ++ ")")
          end
      end
  | Some type =>
      Raise ("Cannot query connection on non-object type "
               ++ JSON_stringify_string typename
               ++ " (" ++ type_tag type ++ ")")
  end.

(** *** Statements of the ingesters *)

Definition newline : string := String (ascii_of_nat 10) EmptyString.

Definition JSON_stringify_sql (v : SqlValue) : string :=
  match v with
  | SqlNull => "null"
  | SqlInteger z => String_of_Z z
  | SqlText s => JSON_stringify_string s
  end.

(** [JSON.stringify] on a dictionary of bound parameters. *)
Definition JSON_stringify_bindings (args : Dict SqlValue) : string :=
  "{" ++ join ","
           (map (fun kv : string * SqlValue =>
                   JSON_stringify_string (fst kv) ++ ":"
                     ++ JSON_stringify_sql (snd kv))
                args)
      ++ "}".

Definition sql_of_option_string (x : option string) : SqlValue :=
  match x with
  | None => SqlNull
  | Some s => SqlText s
  end.

(** A prepared statement that writes: its source, whether it returns
    data, what running it with bound parameters does (giving the number
    of rows changed), and how [JSON.stringify] prints the parameters. *)
Record Statement (Args : Type) := {
  stmt_source : string;
  stmt_returnsData : bool;
  stmt_run : Args -> M Z;
  stmt_args : Args -> Dict SqlValue
}.

(** [_makeSingleUpdateFunction]. *)
Definition _makeSingleUpdateFunction {Args} (stmt : Statement Args)
  : Except (Args -> M unit) :=
  if stmt_returnsData stmt then
    Raise ("Cannot create update function for statement that returns data: "
             ++ stmt_source stmt)
  else
    Return (fun args =>
      changes <- stmt_run stmt args ;;
      if negb (changes =? 1) then
        throw ("Bad change count: "
                 ++ "{" ++ JSON_stringify_string "source" ++ ":"
                 ++ JSON_stringify_string (stmt_source stmt) ++ ","
                 ++ JSON_stringify_string "args" ++ ":"
                 ++ JSON_stringify_bindings (stmt_args stmt args) ++ ","
                 ++ JSON_stringify_string "changes" ++ ":"
                 ++ String_of_Z changes ++ "}")
      else ret tt).

Definition foreign_key_failed : string :=
  "SqliteError: FOREIGN KEY constraint failed".

(** Whether [updates] has a row with this rowid. *)
Definition update_exists (t : Tables) (updateId : UpdateId) : bool :=
  existsb (fun u => u_rowid u =? updateId) (updates t).

(** The rowid of the connection of an object under a fieldname, if the
    object has it. *)
Definition connection_rowid (t : Tables) (objectId : ObjectId)
    (fieldname : Fieldname) : option Z :=
  option_map c_rowid
    (find (fun c => String.eqb (c_object_id c) objectId
                    && String.eqb (c_fieldname c) fieldname)
          (connections t)).

(** [SELECT rowid FROM connections
    WHERE object_id = :objectId AND fieldname = :fieldname], plucked,
    first row. *)
Definition sql_select_connection_rowid (objectId : ObjectId)
    (fieldname : Fieldname) : M (option Z) :=
  t <- getTables ;;
  ret (connection_rowid t objectId fieldname).

(** [UPDATE connections SET last_update = :updateId,
    total_count = :totalCount, has_next_page = :hasNextPage,
    end_cursor = :endCursor WHERE rowid = :connectionId].  The new
    [last_update] must be the rowid of an update. *)
Definition sql_update_connection (updateId : UpdateId) (total : Z)
    (hasNext : Z) (cursor : option string) (connectionId : Z) : M unit :=
  t <- getTables ;;
  if existsb (fun c => c_rowid c =? connectionId) (connections t)
     && negb (update_exists t updateId)
  then throw foreign_key_failed
  else
    putTables
      {| updates := updates t; objects := objects t; links := links t;
         connections :=
           map (fun c =>
                  if c_rowid c =? connectionId then
                    {| c_rowid := c_rowid c; c_object_id := c_object_id c;
                       c_fieldname := c_fieldname c;
                       c_last_update := Some updateId;
                       c_total_count := Some total;
                       c_has_next_page := Some hasNext;
                       c_end_cursor := cursor |}
                  else c)
               (connections t);
         connection_entries := connection_entries t;
         primitives_tables := primitives_tables t |}.

(** The entries of one connection, in table order. *)
Definition entries_of (t : Tables) (connectionId : Z) : list EntryRow :=
  filter (fun e => e_connection_id e =? connectionId) (connection_entries t).

(** [SELECT IFNULL(MAX(idx), 0) + 1 FROM connection_entries
    WHERE connection_id = :connectionId], plucked. *)
Definition sql_select_next_index (connectionId : Z) : M Z :=
  t <- getTables ;;
  ret (match max_of (map e_idx (entries_of t connectionId)) with
       | None => 0
       | Some i => i
       end + 1).

(** [INSERT INTO connection_entries (connection_id, idx, child_id)
    VALUES (:connectionId, :idx, :childId)]. *)
Definition sql_insert_entry (connectionId : Z) (idx : Z)
    (childId : option ObjectId) : M unit :=
  t <- getTables ;;
  if existsb (fun e => (e_connection_id e =? connectionId) && (e_idx e =? idx))
             (connection_entries t)
  then throw "SqliteError: UNIQUE constraint failed: connection_entries.connection_id, connection_entries.idx"
  else
    putTables
      {| updates := updates t; objects := objects t; links := links t;
         connections := connections t;
         connection_entries :=
           (connection_entries t
              ++ [{| e_rowid := next_rowid (map e_rowid (connection_entries t));
                     e_connection_id := connectionId; e_idx := idx;
                     e_child_id := childId |}])%list;
         primitives_tables := primitives_tables t |}.

(** [SELECT COUNT(1) FROM objects WHERE id = ?], plucked. *)
Definition sql_count_objects (id : ObjectId) : M Z :=
  t <- getTables ;;
  ret (Z.of_nat (length (filter (fun o => String.eqb (o_id o) id) (objects t)))).

(** [UPDATE objects SET last_update = :updateId WHERE id = :objectId]. *)
Definition sql_update_last_update (args : ObjectId * UpdateId) : M Z :=
  let (objectId, updateId) := args in
  t <- getTables ;;
  if existsb (fun o => String.eqb (o_id o) objectId) (objects t)
     && negb (update_exists t updateId)
  then throw foreign_key_failed
  else
    putTables
      {| updates := updates t;
         objects :=
           map (fun o =>
                  if String.eqb (o_id o) objectId then
                    {| o_id := o_id o; o_typename := o_typename o;
                       o_last_update := Some updateId |}
                  else o)
               (objects t);
         links := links t; connections := connections t;
         connection_entries := connection_entries t;
         primitives_tables := primitives_tables t |} ;;;
    ret (Z.of_nat (length (filter (fun o => String.eqb (o_id o) objectId)
                                  (objects t)))).

Definition setLastUpdate_statement : Statement (ObjectId * UpdateId) :=
  {| stmt_source :=
       "UPDATE objects SET last_update = :updateId" ++ newline
         ++ "WHERE id = :objectId";
     stmt_returnsData := false;
     stmt_run := sql_update_last_update;
     stmt_args := fun args =>
       [("objectId", SqlText (fst args)); ("updateId", SqlInteger (snd args))] |}.

(** The object given to a statement with named parameters: under each
    name a value, or [undefined] (here [None]). *)
Definition Bindings := Dict (option SqlValue).

(** One named parameter of a statement, bound from the object: the key
    must be there, and its value must not be [undefined]. *)
Definition bound_parameter (name : string) (bindings : Bindings)
  : Except SqlValue :=
  match dict_get name bindings with
  | None => Raise "RangeError: Missing named parameter"
  | Some None => Raise cannot_bind_undefined
  | Some (Some v) => Return v
  end.

(** The values an [UPDATE primitives_T SET "c1" = :p1, ...] assigns, in
    the order of the assignments; every parameter must be bound. *)
Definition assignments (sets : list (string * string))
    (bindings : Bindings) : Except (list (string * SqlValue)) :=
  efold
    (fun acc set =>
       ebind (bound_parameter (snd set) bindings) (fun v =>
       Return (acc ++ [(fst set, v)])%list))
    sets [].

(** The keys of the object that [JSON.stringify] prints: those whose
    value is not [undefined]. *)
Definition defined (bindings : Bindings) : Dict SqlValue :=
  flat_map (fun kv : string * option SqlValue =>
              match snd kv with
              | Some v => [(fst kv, v)]
              | None => []
              end)
           bindings.

(** Assigning to a row, left to right: the rightmost assignment to a
    column is the one that stays. *)
Definition assign (values : list (string * SqlValue)) (row : Dict SqlValue)
  : Dict SqlValue :=
  fold_left (fun vs a => dict_set (fst a) (snd a) vs) values row.

Definition sql_value_eqb (a b : SqlValue) : bool :=
  match a, b with
  | SqlNull, SqlNull => true
  | SqlInteger x, SqlInteger y => x =? y
  | SqlText x, SqlText y => String.eqb x y
  | _, _ => false
  end.

(** Preparing [UPDATE ${tableName} SET ... WHERE id = :id]: the table
    and the columns must exist. *)
Definition sql_prepare_update_primitives (tableName : string)
    (sets : list (string * string)) : M unit :=
  t <- getTables ;;
  match dict_get (sql_identifier tableName) (primitives_tables t) with
  | None => throw ("SqliteError: no such table: " ++ sql_identifier tableName)
  | Some table =>
      if forallb (fun set => existsb (String.eqb (fst set)) (pt_columns table)) sets
      then ret tt
      else throw "SqliteError: no such column"
  end.

(** Running [UPDATE ${tableName} SET "c1" = :p1, ... WHERE id = :id]. *)
Definition sql_update_primitives (tableName : string)
    (sets : list (string * string)) (bindings : Bindings) : M Z :=
  t <- getTables ;;
  match dict_get (sql_identifier tableName) (primitives_tables t) with
  | None => throw ("SqliteError: no such table: " ++ sql_identifier tableName)
  | Some table =>
      values <- lift (assignments sets bindings) ;;
      match bound_parameter "id" bindings with
      | Raise msg => throw msg
      | Return id =>
          let selected r := sql_value_eqb (SqlText (p_id r)) id in
          putTables
            (set_primitives_tables t
               (dict_set (sql_identifier tableName)
                  {| pt_columns := pt_columns table;
                     pt_rows :=
                       map (fun r =>
                              if selected r then
                                {| p_id := p_id r;
                                   p_values := assign values (p_values r) |}
                              else r)
                           (pt_rows table) |}
                  (primitives_tables t))) ;;;
          ret (Z.of_nat (length (filter selected (pt_rows table))))
      end
  end.

Definition updatePrimitives_statement (tableName : string)
    (sets : list (string * string)) : Statement Bindings :=
  {| stmt_source :=
       "UPDATE " ++ tableName ++ " SET "
         ++ join ", "
              (map (fun set => dquote ++ fst set ++ dquote ++ " = :" ++ snd set)
                   sets)
         ++ " WHERE id = :id";
     stmt_returnsData := false;
     stmt_run := sql_update_primitives tableName sets;
     stmt_args := defined |}.

Record LinkUpdate := {
  parentId : ObjectId;
  link_fieldname : Fieldname;
  childId : option ObjectId
}.

(** [UPDATE links SET child_id = :childId
    WHERE parent_id = :parentId AND fieldname = :fieldname].  (The child
    is NULL or an object just registered, so the foreign key holds.) *)
Definition sql_update_link (args : LinkUpdate) : M Z :=
  t <- getTables ;;
  let selected l :=
    String.eqb (l_parent_id l) (parentId args)
    && String.eqb (l_fieldname l) (link_fieldname args) in
  putTables
    {| updates := updates t; objects := objects t;
       links :=
         map (fun l =>
                if selected l then
                  {| l_rowid := l_rowid l; l_parent_id := l_parent_id l;
                     l_fieldname := l_fieldname l;
                     l_child_id := childId args |}
                else l)
             (links t);
       connections := connections t;
       connection_entries := connection_entries t;
       primitives_tables := primitives_tables t |} ;;;
  ret (Z.of_nat (length (filter selected (links t)))).

Definition updateLink_statement : Statement LinkUpdate :=
  {| stmt_source :=
       "UPDATE links SET child_id = :childId" ++ newline
         ++ "WHERE parent_id = :parentId AND fieldname = :fieldname";
     stmt_returnsData := false;
     stmt_run := sql_update_link;
     stmt_args := fun args =>
       [("parentId", SqlText (parentId args));
        ("fieldname", SqlText (link_fieldname args));
        ("childId", sql_of_option_string (childId args))] |}.

(** *** The ingesters *)

(** A [for ... of] loop that threads a variable the body updates. *)
Fixpoint forEachWith {X S} (xs : list X) (s : S) (body : S -> X -> M S)
  : M S :=
  match xs with
  | [] => ret s
  | x :: rest => s' <- body s x ;; forEachWith rest s' body
  end.

(** [_nontransactionallyUpdateConnection]; [hasNextPage] is stored as
    [+hasNextPage]. *)
Definition _nontransactionallyUpdateConnection (m : Mirror)
    (updateId : UpdateId) (objectId : ObjectId) (fieldname : Fieldname)
    (queryResult : ConnectionFieldResult) : M unit :=
  connectionId <- sql_select_connection_rowid objectId fieldname ;;
  match connectionId with
  | None =>
      throw ("No such connection: " ++ JSON_stringify_string objectId
               ++ "." ++ JSON_stringify_string fieldname)
  | Some connectionId =>
      sql_update_connection updateId (totalCount queryResult)
        (if hasNextPage (pageInfo queryResult) then 1 else 0)
        (endCursor (pageInfo queryResult)) connectionId ;;;
      nextIndex <- sql_select_next_index connectionId ;;
      forEachWith (result_nodes queryResult) nextIndex
        (fun nextIndex node =>
           childId <- _nontransactionallyRegisterNodeFieldResult m node ;;
           let idx := nextIndex in
           sql_insert_entry connectionId idx childId ;;;
           ret (nextIndex + 1)) ;;;
      ret tt
  end.

(** [_updateConnection]. *)
Definition _updateConnection (m : Mirror) (updateId : UpdateId)
    (objectId : ObjectId) (fieldname : Fieldname)
    (queryResult : ConnectionFieldResult) : M unit :=
  _inTransaction
    (_nontransactionallyUpdateConnection m updateId objectId fieldname
       queryResult).

(** The first block of [_nontransactionallyUpdateOwnData]: every record
    is of a registered object and has the typename of the batch. *)
Definition checkObjectsExist (typename : Typename)
    (queryResult : OwnDataUpdateResult) : M unit :=
  forEach queryResult (fun entry =>
    count <- sql_count_objects (entry_id entry) ;;
    if count =? 0 then
      throw ("Cannot update data for nonexistent node: "
               ++ JSON_stringify_string (entry_id entry))
    else if negb (String.eqb (entry_typename entry) typename) then
      throw ("Result set has inconsistent typenames: "
               ++ JSON_stringify_string typename ++ " vs. "
               ++ JSON_stringify_string (entry_typename entry))
    else ret tt).

(** The second block: set each node's [last_update]. *)
Definition setLastUpdates (updateId : UpdateId)
    (queryResult : OwnDataUpdateResult) : M unit :=
  update <- lift (_makeSingleUpdateFunction setLastUpdate_statement) ;;
  forEach queryResult (fun entry => update (entry_id entry, updateId)).

Definition missing_on (entry : Entry) (typename : Typename) : string :=
  "on " ++ JSON_stringify_string (entry_id entry) ++ " "
    ++ "of type " ++ JSON_stringify_string typename ++ " (got undefined)".

(** The dictionary [primitives] that the third block binds for one
    record (called [bound] while it is built): the [id], the JSON text
    of every top-level primitive, and for every nested field its presence
    (0 when the field is [null], 1 otherwise) and the JSON text of every
    primitive egg.  Where [JSON.stringify] gives [undefined], that is
    what the key holds. *)
Definition primitivesOf (typename : Typename) (objectType : ObjectTypeInfo)
    (entry : Entry) : Except Bindings :=
  ebind
    (efold
       (fun bound fieldname =>
          match entry_get entry fieldname with
          | None =>
              Raise ("Missing primitive " ++ JSON_stringify_string fieldname
                       ++ " " ++ missing_on entry typename)
          | Some primitive =>
              Return (dict_set (parameterNameFor.topLevelField fieldname)
                               (option_map SqlText (JSON_stringify_read primitive))
                               bound)
          end)
       (primitiveFieldNames objectType)
       [("id", Some (SqlText (entry_id entry)))])
    (efold
       (fun bound nestFieldname =>
          match entry_get entry nestFieldname with
          | None =>
              Raise ("Missing nested field "
                       ++ JSON_stringify_string nestFieldname
                       ++ " " ++ missing_on entry typename)
          | Some topLevelNested =>
              let bound :=
                dict_set (parameterNameFor.topLevelField nestFieldname)
                  (Some (SqlInteger (if is_nullish topLevelNested then 0 else 1)))
                  bound in
              ebind (nestedFieldData objectType nestFieldname "primitives")
                (fun data =>
              efold
                (fun bound eggFieldname =>
                   ebind (egg_get topLevelNested eggFieldname) (fun eggValue =>
                   match eggValue with
                   | None =>
                       Raise ("Missing nested field "
                                ++ JSON_stringify_string nestFieldname ++ "."
                                ++ JSON_stringify_string eggFieldname
                                ++ " " ++ missing_on entry typename)
                   | Some primitive =>
                       Return
                         (dict_set
                            (parameterNameFor.nestedField nestFieldname eggFieldname)
                            (option_map SqlText (JSON_stringify_read primitive))
                            bound)
                   end))
                (dict_keys (primitives data)) bound)
          end)
       (nestedFieldNames objectType)).

(** The assignments of the statement of the third block, as pairs of a
    column and the parameter bound to it. *)
Definition primitivesUpdates (objectType : ObjectTypeInfo)
  : Except (list (string * string)) :=
  ebind (eggColumns objectType) (fun eggs =>
  Return
    (map (fun f => (f, parameterNameFor.topLevelField f))
         (primitiveFieldNames objectType)
     ++ map (fun f => (f, parameterNameFor.topLevelField f))
         (nestedFieldNames objectType)
     ++ map (fun pair => (eggColumnName pair,
                          parameterNameFor.nestedField (fst pair) (snd pair)))
         eggs)%list).

(** The third block: update each node's primitive data. *)
Definition updateAllPrimitives (typename : Typename)
    (objectType : ObjectTypeInfo) (queryResult : OwnDataUpdateResult)
  : M unit :=
  updates <- lift (primitivesUpdates objectType) ;;
  updatePrimitives <-
    match updates with
    | [] => ret (fun _ : Bindings => ret tt)
    | _ =>
        tableName <- lift (_primitivesTableName typename) ;;
        sql_prepare_update_primitives tableName updates ;;;
        lift (_makeSingleUpdateFunction
                (updatePrimitives_statement tableName updates))
    end ;;
  forEach queryResult (fun entry =>
    primitives <- lift (primitivesOf typename objectType entry) ;;
    updatePrimitives primitives).

(** [entry[nestFieldname]] in the fourth block, which tests it with
    [== null] only: [undefined] is as good as [null] there. *)
Definition nested_get (entry : Entry) (nestFieldname : Fieldname) : Read :=
  match entry_get entry nestFieldname with
  | None => Plain VNull
  | Some value => value
  end.

(** The links of the node eggs of one nested field of a record in the
    fourth block. *)
Definition updateEggLinksOf (m : Mirror) (typename : Typename)
    (objectType : ObjectTypeInfo) (updateLink : LinkUpdate -> M unit)
    (entry : Entry) (nestFieldname : Fieldname) : M unit :=
  let topLevelNested := nested_get entry nestFieldname in
  data <- lift (nestedFieldData objectType nestFieldname "nodes") ;;
  forEach (dict_keys (nodes data)) (fun childFieldname =>
    childValue <- lift (egg_get topLevelNested childFieldname) ;;
    match childValue with
    | None =>
        throw ("Missing nested field "
                 ++ JSON_stringify_string nestFieldname ++ "."
                 ++ JSON_stringify_string childFieldname
                 ++ " " ++ missing_on entry typename)
    | Some link =>
        childId <- registerNodeFieldValue m link ;;
        updateLink {| parentId := entry_id entry;
                      link_fieldname := nestFieldname ++ "." ++ childFieldname;
                      childId := childId |}
    end).

(** The links of one record in the fourth block: first the top-level
    links, then the node eggs of the nested fields. *)
Definition updateLinksOf (m : Mirror) (typename : Typename)
    (objectType : ObjectTypeInfo) (updateLink : LinkUpdate -> M unit)
    (entry : Entry) : M unit :=
  forEach (linkFieldNames objectType) (fun fieldname =>
    match entry_get entry fieldname with
    | None =>
        throw ("Missing node reference " ++ JSON_stringify_string fieldname
                 ++ " " ++ missing_on entry typename)
    | Some link =>
        childId <- registerNodeFieldValue m link ;;
        updateLink {| parentId := entry_id entry; link_fieldname := fieldname;
                      childId := childId |}
    end) ;;;
  forEach (nestedFieldNames objectType)
    (updateEggLinksOf m typename objectType updateLink entry).

(** The fourth block: update each node's links. *)
Definition updateAllLinks (m : Mirror) (typename : Typename)
    (objectType : ObjectTypeInfo) (queryResult : OwnDataUpdateResult)
  : M unit :=
  updateLink <- lift (_makeSingleUpdateFunction updateLink_statement) ;;
  forEach queryResult (updateLinksOf m typename objectType updateLink).

(** [_nontransactionallyUpdateOwnData].  The object type is looked up
    before the first block and first read in the third.  (A typename
    that names a built-in is handled as in the registrar.) *)
Definition _nontransactionallyUpdateOwnData (m : Mirror)
    (updateId : UpdateId) (queryResult : OwnDataUpdateResult) : M unit :=
  match queryResult with
  | [] => ret tt
  | first :: _ =>
      let typename := entry_typename first in
      match dict_get typename (_schema m) with
      | None =>
          if inherits typename then
            throw ("Cannot update data for non-object type: "
                     ++ JSON_stringify_string typename ++ " (undefined)")
          else throw ("Unknown type: " ++ JSON_stringify_string typename)
      | Some (OBJECT _) =>
          checkObjectsExist typename queryResult ;;;
          setLastUpdates updateId queryResult ;;;
          match dict_get typename (objectTypes (_schemaInfo m)) with
          | None => throw (TypeError_undefined "primitiveFieldNames")
          | Some objectType =>
              updateAllPrimitives typename objectType queryResult ;;;
              updateAllLinks m typename objectType queryResult
          end
      | Some type =>
          throw ("Cannot update data for non-object type: "
                   ++ JSON_stringify_string typename
                   ++ " (" ++ type_tag type ++ ")")
      end
  end.

(** [_updateOwnData]. *)
Definition _updateOwnData (m : Mirror) (updateId : UpdateId)
    (queryResult : OwnDataUpdateResult) : M unit :=
  _inTransaction (_nontransactionallyUpdateOwnData m updateId queryResult).

(** [_nontransactionallyUpdateData]: each top-level key is routed by its
    prefix; a value of the other kind than its key announces is a type
    error. *)
Definition _nontransactionallyUpdateData (m : Mirror) (updateId : UpdateId)
    (queryResult : UpdateResult) : M unit :=
  forEach queryResult (fun kv =>
    let (topLevelKey, rawValue) := kv in
    if startsWith "owndata_" topLevelKey then
      match rawValue with
      | OwnDataResult updateRecord =>
          _nontransactionallyUpdateOwnData m updateId updateRecord
      | NodeConnectionsResult _ => throw "TypeError: not an own-data result"
      end
    else if startsWith "node_" topLevelKey then
      match rawValue with
      | NodeConnectionsResult updateRecord =>
          forEach (nc_fields updateRecord) (fun field =>
            if String.eqb (fst field) "id" then ret tt
            else
              _nontransactionallyUpdateConnection m updateId
                (nc_id updateRecord) (fst field) (snd field))
      | OwnDataResult _ => throw "TypeError: not a connections result"
      end
    else
      throw ("Bad key in query result: " ++ JSON_stringify_string topLevelKey)).

(** [_updateData]. *)
Definition _updateData (m : Mirror) (updateId : UpdateId)
    (queryResult : UpdateResult) : M unit :=
  _inTransaction (_nontransactionallyUpdateData m updateId queryResult).

(** The transaction that ends [_updateStep], once the response [result]
    has arrived: create the update, then ingest under it. *)
Definition ingestStep (m : Mirror) (now : Z) (result : UpdateResult) : M unit :=
  _inTransaction
    (updateId <- _createUpdate now ;;
     _nontransactionallyUpdateData m updateId result).

(** *** The extractor *)

(** A value inside an extracted structure: a JSON value, a reference to
    the extracted object with a given id (the objects are shared, and the
    structure may be circular), or the array of a connection. *)
Inductive Extracted :=
| XNull
| XBool (b : bool)
| XNumber (text : string)
| XString (s : string)
| XObject (members : list (string * Extracted))
| XRef (target : ObjectId)
| XArray (items : list Extracted).

Definition Members := list (string * Extracted).

(** The result of [extract]: the objects created for this call, by id,
    and the id of the one returned. *)
Record ExtractedGraph := {
  graph_objects : Dict Members;
  graph_root : ObjectId
}.

(** A parsed JSON value as a value of the structure. *)
Fixpoint embed (v : Value) : Extracted :=
  match v with
  | VNull => XNull
  | VBool b => XBool b
  | VNumber text => XNumber text
  | VString s => XString s
  | VObject members =>
      XObject ((fix each (ms : list (string * Value)) : Members :=
                  match ms with
                  | [] => []
                  | (k, w) :: rest => (k, embed w) :: each rest
                  end) members)
  end.

(** [direct_dependencies]: the links with a child, and the entries with
    a child under the object of their connection.  (The [UNION] drops
    duplicates, which does not change what is reachable.) *)
Definition direct_dependencies (t : Tables) : list (ObjectId * ObjectId) :=
  (flat_map (fun l =>
               match l_child_id l with
               | Some child => [(l_parent_id l, child)]
               | None => []
               end)
            (links t)
   ++ flat_map (fun c =>
                  flat_map (fun e =>
                              if c_rowid c =? e_connection_id e then
                                match e_child_id e with
                                | Some child => [(c_object_id c, child)]
                                | None => []
                                end
                              else [])
                           (connection_entries t))
               (connections t))%list.

Definition is_child_of (deps : list (ObjectId * ObjectId)) (parent child : ObjectId)
  : bool :=
  existsb (fun d => String.eqb (fst d) parent && String.eqb (snd d) child) deps.

(** The recursive common table expression [transitive_dependencies]: a
    queue of rows to expand; each row taken from the queue joins the
    result, and its children not yet queued join the queue.  [remaining]
    holds the ids not yet queued. *)
Fixpoint closure_loop (fuel : nat) (deps : list (ObjectId * ObjectId))
    (queue remaining result : list ObjectId) : list ObjectId :=
  match fuel with
  | O => result
  | S fuel' =>
      match queue with
      | [] => result
      | x :: rest =>
          closure_loop fuel' deps
            (rest ++ filter (is_child_of deps x) remaining)
            (filter (fun c => negb (is_child_of deps x c)) remaining)
            (result ++ [x])
      end
  end.

Definition transitive_dependencies (t : Tables) (rootId : ObjectId)
  : list ObjectId :=
  let deps := direct_dependencies t in
  let remaining :=
    filter (fun c => negb (String.eqb c rootId))
           (nodup string_dec (map snd deps)) in
  closure_loop (S (length remaining)) deps [rootId] remaining [].

(** The rows put into the temporary table: [objects] joined with
    [transitive_dependencies] on the id. *)
Definition sql_transitive_objects (t : Tables) (rootId : ObjectId)
  : list (ObjectId * Typename) :=
  map (fun o => (o_id o, o_typename o))
      (filter (fun o => existsb (String.eqb (o_id o))
                                (transitive_dependencies t rootId))
              (objects t)).

(** The query of the freshness check: the objects of the temporary table
    never updated, then their connections never updated. *)
Definition sql_never_updated (t : Tables) (temp : list (ObjectId * Typename))
  : list (ObjectId * option Fieldname) :=
  (flat_map (fun row =>
               flat_map (fun o =>
                           if String.eqb (fst row) (o_id o) && is_null (o_last_update o)
                           then [(o_id o, None)] else [])
                        (objects t))
            temp
   ++ flat_map (fun row =>
                  flat_map (fun o =>
                              if String.eqb (fst row) (o_id o) then
                                flat_map (fun c =>
                                            if String.eqb (o_id o) (c_object_id c)
                                               && is_null (c_last_update c)
                                            then [(o_id o, Some (c_fieldname c))]
                                            else [])
                                         (connections t)
                              else [])
                           (objects t))
               temp)%list.

(** A row of the query of own data: the id and the other selected
    columns under their names. *)
Record SelectedRow := {
  row_id : ObjectId;
  row_values : Dict SqlValue
}.

(** [SELECT ${selections} FROM ${temporaryTableName}
    JOIN ${primitivesTableName} USING (id)]. *)
Definition sql_select_primitives (temp : list (ObjectId * Typename))
    (tableName : string) (columns : list string) : M (list SelectedRow) :=
  t <- getTables ;;
  match dict_get (sql_identifier tableName) (primitives_tables t) with
  | None => throw ("SqliteError: no such table: " ++ sql_identifier tableName)
  | Some table =>
      if negb (forallb (fun c => existsb (String.eqb c) (pt_columns table)) columns)
      then throw "SqliteError: no such column"
      else
        ret (flat_map
               (fun row =>
                  map (fun r =>
                         {| row_id := p_id r;
                            row_values :=
                              fold_left
                                (fun values column =>
                                   match dict_get column (p_values r) with
                                   | Some v => dict_set column v values
                                   | None => dict_set column SqlNull values
                                   end)
                                columns [] |})
                      (filter (fun r => String.eqb (fst row) (p_id r))
                              (pt_rows table)))
               temp)
  end.

(** [String(isPresent)] in the corruption message. *)
Definition String_of_sql (v : option SqlValue) : string :=
  match v with
  | None => "undefined"
  | Some SqlNull => "null"
  | Some (SqlInteger z) => String_of_Z z
  | Some (SqlText s) => s
  end.

Definition cannot_set_property : string :=
  "TypeError: Cannot set property of a value that is not an object".

(** [object[nestName][eggName] = value] unless [object[nestName]] is
    [null], while the record of a row is built: the value found there is
    [null], an object, or another JSON value. *)
Definition set_egg (object : Members) (nestName eggName : Fieldname)
    (value : Extracted) : Except Members :=
  match dict_get nestName object with
  | Some XNull => Return object
  | Some (XObject members) =>
      Return (dict_set nestName (XObject (dict_set eggName value members)) object)
  | _ => Raise cannot_set_property
  end.

(** [JSON.parse], of the language. *)
Variable JSON_parse : string -> Except Value.

(** [JSON.parse(rawValue)]: the argument is first made a string. *)
Definition parse_raw (rawValue : SqlValue) : Except Value :=
  match rawValue with
  | SqlText text => JSON_parse text
  | SqlInteger z => JSON_parse (String_of_Z z)
  | SqlNull => JSON_parse "null"
  end.

(** The record created for one row: [id], [__typename], a slot for each
    nested field, and the parsed primitives. *)
Definition objectOfRow (typename : Typename) (objectType : ObjectTypeInfo)
    (row : SelectedRow) : Except Members :=
  ebind
    (efold
       (fun object fieldname =>
          match dict_get fieldname (row_values row) with
          | Some (SqlInteger 1) => Return (dict_set fieldname (XObject []) object)
          | Some (SqlInteger 0) => Return (dict_set fieldname XNull object)
          | isPresent =>
              Raise ("Corruption: nested field " ++ JSON_stringify_string fieldname
                       ++ " on " ++ JSON_stringify_string (row_id row)
                       ++ " set to " ++ String_of_sql isPresent)
          end)
       (nestedFieldNames objectType)
       [("id", XString (row_id row)); ("__typename", XString typename)])
    (efold
       (fun object kv =>
          let (key, rawValue) := kv : string * SqlValue in
          if String.eqb key "id" then Return object
          else
            match rawValue with
            | SqlInteger 0 | SqlInteger 1 => Return object
            | _ =>
                ebind (parse_raw rawValue) (fun value =>
                match split_on "." key with
                | [_] => Return (dict_set key (embed value) object)
                | [nestName; eggName] =>
                    set_egg object nestName eggName (embed value)
                | _ =>
                    Raise ("Corruption: bad field name: "
                             ++ JSON_stringify_string key)
                end)
            end)
       (row_values row)).

(** [NullUtil.get(allObjects.get(id))], of [../util/null]: the object, or
    an error when there is none. *)
Definition getObject (allObjects : Dict Members) (id : ObjectId)
  : Except Members :=
  match dict_get id allObjects with
  | Some object => Return object
  | None => Raise "undefined"
  end.

(** The child placed for a [childId]: [null], or the object with that
    id, which must have been created. *)
Definition resolveChild (allObjects : Dict Members) (child : option ObjectId)
  : Except Extracted :=
  match child with
  | None => Return XNull
  | Some id => ebind (getObject allObjects id) (fun _ => Return (XRef id))
  end.

(** One turn of the loop that adds the links. *)
Definition addLink (allObjects : Dict Members) (link : LinkRow)
  : Except (Dict Members) :=
  ebind (getObject allObjects (l_parent_id link)) (fun parent =>
  ebind (resolveChild allObjects (l_child_id link)) (fun child =>
  match split_on "." (l_fieldname link) with
  | [_] =>
      Return (dict_set (l_parent_id link)
                (dict_set (l_fieldname link) child parent) allObjects)
  | [nestName; eggName] =>
      match dict_get nestName parent with
      | Some XNull => Return allObjects
      | Some (XObject members) =>
          Return (dict_set (l_parent_id link)
                    (dict_set nestName
                       (XObject (dict_set eggName child members)) parent)
                    allObjects)
      | Some (XRef target) =>
          ebind (getObject allObjects target) (fun other =>
          Return (dict_set target (dict_set eggName child other) allObjects))
      | _ => Raise cannot_set_property
      end
  | _ =>
      Raise ("Corruption: bad link name: "
               ++ JSON_stringify_string (l_fieldname link))
  end)).

(** [ORDER BY]: a stable insertion sort by a comparison. *)
Fixpoint insert_by {X} (leb : X -> X -> bool) (x : X) (l : list X) : list X :=
  match l with
  | [] => [x]
  | y :: rest => if leb x y then x :: y :: rest else y :: insert_by leb x rest
  end.

Definition sort_by {X} (leb : X -> X -> bool) (l : list X) : list X :=
  fold_right (insert_by leb) [] l.

Definition idx_leb (a b : EntryRow) : bool := e_idx a <=? e_idx b.


(** A row of the query of connection data; the entry is [None] for a
    connection without entries ([hasContents] is then 0). *)
Record ConnectionDatum := {
  datum_parentId : ObjectId;
  datum_fieldname : Fieldname;
  datum_entry : option EntryRow
}.

(** [ORDER BY objects.id, connections.fieldname, connection_entries.idx
    ASC]; NULL sorts first. *)
Definition datum_leb (a b : ConnectionDatum) : bool :=
  match String.compare (datum_parentId a) (datum_parentId b) with
  | Lt => true
  | Gt => false
  | Eq =>
      match String.compare (datum_fieldname a) (datum_fieldname b) with
      | Lt => true
      | Gt => false
      | Eq =>
          match datum_entry a, datum_entry b with
          | None, _ => true
          | Some _, None => false
          | Some x, Some y => idx_leb x y
          end
      end
  end.

(** The query of connection data: the temporary table joined with
    [objects] and [connections], left-joined with [connection_entries]. *)
Definition sql_connection_data (t : Tables) (temp : list (ObjectId * Typename))
  : list ConnectionDatum :=
  sort_by datum_leb
    (flat_map
       (fun row =>
          flat_map
            (fun o =>
               flat_map
                 (fun c =>
                    match entries_of t (c_rowid c) with
                    | [] => [{| datum_parentId := o_id o;
                                datum_fieldname := c_fieldname c;
                                datum_entry := None |}]
                    | entries =>
                        map (fun e => {| datum_parentId := o_id o;
                                         datum_fieldname := c_fieldname c;
                                         datum_entry := Some e |})
                            entries
                    end)
                 (filter (fun c => String.eqb (o_id o) (c_object_id c))
                         (connections t)))
            (filter (fun o => String.eqb (fst row) (o_id o)) (objects t)))
       temp).

(** The query of links: the temporary table joined with [links] on the
    parent. *)
Definition sql_select_links (t : Tables) (temp : list (ObjectId * Typename))
  : list LinkRow :=
  flat_map (fun row =>
              filter (fun l => String.eqb (fst row) (l_parent_id l)) (links t))
           temp.

(** One turn of the loop that adds the connections.  Under a name that
    the record inherits, [parent[datum.fieldname]] is a built-in, not
    [undefined]: no array is put there, and a built-in has no [push]. *)
Definition addConnectionDatum (allObjects : Dict Members)
    (datum : ConnectionDatum) : Except (Dict Members) :=
  ebind (getObject allObjects (datum_parentId datum)) (fun parent =>
  let parent :=
    match dict_get (datum_fieldname datum) parent with
    | None =>
        if inherits (datum_fieldname datum) then parent
        else dict_set (datum_fieldname datum) (XArray []) parent
    | Some _ => parent
    end in
  let allObjects := dict_set (datum_parentId datum) parent allObjects in
  match datum_entry datum with
  | None => Return allObjects
  | Some entry =>
      ebind (resolveChild allObjects (e_child_id entry)) (fun child =>
      match dict_get (datum_fieldname datum) parent with
      | Some (XArray items) =>
          Return (dict_set (datum_parentId datum)
                    (dict_set (datum_fieldname datum)
                       (XArray (items ++ [child])) parent)
                    allObjects)
      | _ => Raise "TypeError: push is not a function"
      end)
  end).

(** The loop of [extract] over the typenames: one query of own data per
    typename, one record per row. *)
Definition createObjects (m : Mirror) (temp : list (ObjectId * Typename))
    (allObjects : Dict Members) (typename : Typename) : M (Dict Members) :=
  match dict_get typename (objectTypes (_schemaInfo m)) with
  | None =>
      throw ("Corruption: unknown object type " ++ JSON_stringify_string typename)
  | Some objectType =>
      primitivesTableName <- lift (_primitivesTableName typename) ;;
      eggs <- lift (eggColumns objectType) ;;
      rows <- sql_select_primitives temp primitivesTableName
                (primitiveFieldNames objectType ++ nestedFieldNames objectType
                   ++ map eggColumnName eggs)%list ;;
      lift (efold
              (fun allObjects row =>
                 ebind (objectOfRow typename objectType row) (fun object =>
                 Return (dict_set (row_id row) object allObjects)))
              rows allObjects)
  end.

Definition never_fetched_message (rootId : ObjectId)
    (entry : ObjectId * option Fieldname) : string :=
  let missingData :=
    match snd entry with
    | None => "own data"
    | Some fieldname => JSON_stringify_string fieldname ++ " connection"
    end in
  JSON_stringify_string rootId ++ " transitively depends on "
    ++ JSON_stringify_string (fst entry) ++ ", "
    ++ "but that object's " ++ missingData ++ " has never been fetched".

(** [extract].  The temporary table is created under an unused name,
    filled, read and dropped within the call; here it is the local value
    [temp]. *)
Definition extract (m : Mirror) (rootId : ObjectId) : M ExtractedGraph :=
  _inTransaction
    (t <- getTables ;;
     let temp := sql_transitive_objects t rootId in
     let typenames := nodup string_dec (map snd temp) in
     match sql_never_updated t temp with
     | entry :: _ => throw (never_fetched_message rootId entry)
     | [] =>
         allObjects <- forEachWith typenames [] (createObjects m temp) ;;
         allObjects <- lift (efold addLink (sql_select_links t temp) allObjects) ;;
         allObjects <- lift (efold addConnectionDatum
                                   (sql_connection_data t temp) allObjects) ;;
         match dict_get rootId allObjects with
         | None => throw ("No such object: " ++ JSON_stringify_string rootId)
         | Some _ =>
             ret {| graph_objects := allObjects; graph_root := rootId |}
         end
     end).

(** [SELECT last_update IS NOT NULL AS initialized, end_cursor AS endCursor
    FROM connections
    WHERE object_id = :objectId AND fieldname = :fieldname], first row. *)
Definition sql_select_end_cursor (objectId : ObjectId) (fieldname : Fieldname)
  : M (option (bool * option string)) :=
  t <- getTables ;;
  ret (option_map
         (fun c => (negb (is_null (c_last_update c)), c_end_cursor c))
         (find (fun c => String.eqb (c_object_id c) objectId
                         && String.eqb (c_fieldname c) fieldname)
               (connections t))).

(** [_getEndCursor]: [None] for [undefined], as in a plan. *)
Definition _getEndCursor (objectId : ObjectId) (fieldname : Fieldname)
  : M (option (option string)) :=
  result <- sql_select_end_cursor objectId fieldname ;;
  match result with
  | None =>
      throw ("No such connection: " ++ JSON_stringify_string objectId
               ++ "." ++ JSON_stringify_string fieldname)
  | Some (initialized, endCursor) =>
      ret (if initialized then Some endCursor else None)
  end.

(** *** The databases of a mirror *)

(** The steps that change the database of a mirror: registering an
    object, the four ingestion methods, and the transaction that ends an
    update step.  A call that throws is rolled back and changes nothing. *)
Inductive mirror_step (m : Mirror) : Db -> Db -> Prop :=
| step_registerObject typename id db db' :
    registerObject m typename id db = Ok tt db' -> mirror_step m db db'
| step_createUpdate now updateId db db' :
    _inTransaction (_createUpdate now) db = Ok updateId db' ->
    mirror_step m db db'
| step_updateConnection updateId objectId fieldname queryResult db db' :
    _updateConnection m updateId objectId fieldname queryResult db = Ok tt db' ->
    mirror_step m db db'
| step_updateOwnData updateId queryResult db db' :
    _updateOwnData m updateId queryResult db = Ok tt db' ->
    mirror_step m db db'
| step_updateData updateId queryResult db db' :
    _updateData m updateId queryResult db = Ok tt db' ->
    mirror_step m db db'
| step_ingestStep now result db db' :
    ingestStep m now result db = Ok tt db' ->
    mirror_step m db db'.

(** The databases a mirror can be in: the one its constructor made of an
    empty database, for a schema and a list of blacklisted ids, and those
    its steps lead to.  (Constructing a mirror again over such a database,
    for the same schema and list, changes nothing.) *)
Inductive mirror_db (schema : Schema) (blacklist : list ObjectId) (m : Mirror)
  : Db -> Prop :=
| mirror_db_constructed db :
    Mirror_constructor schema blacklist empty_db = Ok m db ->
    mirror_db schema blacklist m db
| mirror_db_step db db' :
    mirror_db schema blacklist m db -> mirror_step m db db' ->
    mirror_db schema blacklist m db'.

End Methods.

(** * The vocabulary of the properties

    The predicates in which the properties of the mirror are stated and
    proved, and a small mirror on which the theorems are instantiated. *)

Section Vocabulary.

Context {runtime : Runtime}.

(** ** Specifications of methods

    [spec R Q c]: whenever [c] returns, its value satisfies [Q]; and
    whether it returns or throws, the database it leaves is related by
    [R] to the one it was given. *)


Definition anything {A} (_ : A) : Prop := True.



(** The tables exist and satisfy [I]. *)
Definition holds (I : Tables -> Prop) (db : Db) : Prop :=
  exists t, tables db = Some t /\ I t.

(** [hoare I Q c]: run on tables that satisfy [I], when [c] returns the
    tables satisfy [I] and the value satisfies [Q]. *)
Definition hoare {A} (I : Tables -> Prop) (Q : A -> Prop) (c : M A) : Prop :=
  forall db, holds I db ->
    match c db with
    | Ok a db' => holds I db' /\ Q a
    | Throw _ _ => True
    end.

(** ** Names *)

(** A string without the separator of the parameter names, and one
    without the separator of the egg columns and egg links. *)
Fixpoint no_underscore (s : string) : Prop :=
  match s with
  | EmptyString => True
  | String c rest => c <> "_"%char /\ no_underscore rest
  end.

Fixpoint no_dot (s : string) : Prop :=
  match s with
  | EmptyString => True
  | String c rest => c <> "."%char /\ no_dot rest
  end.

(** ** Initialization and registration *)

(** The encoding of the configuration of a mirror, which [_initialize]
    stores and compares; and the message of a mismatch. *)
Definition blob_of (stringify : Config -> string) (m : Mirror) : string :=
  stringify {| version := "MIRROR_v3"; schema := _schema m;
               options := {| blacklistedIds := _blacklistedIds m |} |}.

Definition incompatible_message : string :=
  "Database already populated with incompatible schema, options, or version".

(** The child id the registrar gives for a node of a response: none for
    [null] and for a blacklisted id, the id otherwise. *)
Definition resolved (m : Mirror) (node : NodeFieldResult) : option ObjectId :=
  match node with
  | None => None
  | Some r => if blacklisted m (ref_id r) then None else Some (ref_id r)
  end.

(** ** The outdated finder *)

(** The update a row points to is older than the threshold. *)
Definition update_older_than (t : Tables) (since : Z)
    (last_update : option UpdateId) : Prop :=
  exists u, In u (updates t) /\ last_update = Some (u_rowid u)
            /\ u_time_epoch_millis u < since.

(** An object is outdated: never updated, or updated before the
    threshold. *)
Definition object_outdated (t : Tables) (since : Z) (o : ObjectRow) : Prop :=
  o_last_update o = None \/ update_older_than t since (o_last_update o).

(** A connection is outdated: it has a next page, or was never updated,
    or was updated before the threshold. *)
Definition connection_outdated (t : Tables) (since : Z) (c : ConnectionRow)
  : Prop :=
  (exists z, c_has_next_page c = Some z /\ z <> 0)
  \/ c_last_update c = None
  \/ update_older_than t since (c_last_update c).

(** The update joined to a row whose [last_update] is given. *)
Definition joined_update (t : Tables) (last_update : option UpdateId)
  : option UpdateRow :=
  find (fun u => option_eqb Z.eqb last_update (Some (u_rowid u))) (updates t).

(** The object row joined to a connection, and its typename. *)
Definition owner (t : Tables) (c : ConnectionRow) : option ObjectRow :=
  find (fun o => String.eqb (c_object_id c) (o_id o)) (objects t).

Definition owner_typename (t : Tables) (c : ConnectionRow) : Typename :=
  match owner t c with
  | Some o => o_typename o
  | None => EmptyString
  end.

(** ** Connection ingestion *)



(** The [n] consecutive integers from [start]. *)
Fixpoint consecutive (start : Z) (n : nat) : list Z :=
  match n with
  | O => []
  | S k => start :: consecutive (start + 1) k
  end.

(** The index the next entry of a connection gets: one more than the
    largest there, 1 when the connection has no entry. *)
Definition first_index (t : Tables) (connectionId : Z) : Z :=
  match max_of (map e_idx (entries_of t connectionId)) with
  | None => 1
  | Some i => i + 1
  end.


(** ** Own-data ingestion *)

(** What the names of a built object type cover, for the fields read so
    far. *)
Definition covers (typeFields : Dict FieldType) (entry : ObjectTypeInfo)
    (f : Fieldname) : Prop :=
  (dict_get f typeFields = Some PRIMITIVE -> In f (primitiveFieldNames entry))
  /\ (forall elementType fidelity,
         dict_get f typeFields = Some (NODE elementType fidelity) ->
         In f (linkFieldNames entry))
  /\ (forall eggs,
         dict_get f typeFields = Some (NESTED eggs) ->
         In f (nestedFieldNames entry)
         /\ exists data, dict_get f (nestedFields entry) = Some data
                         /\ buildNestedFieldData eggs = Return data).


(** The object is registered; and no write unregisters it. *)
Definition registered (id0 : ObjectId) (t : Tables) : Prop :=
  In id0 (map o_id (objects t)).





(** ** Freshness on extraction *)

(** One object directly depends on another: a link of the first has the
    second as child, or an entry of a connection of the first has. *)
Inductive depends_on (t : Tables) : ObjectId -> ObjectId -> Prop :=
| depends_link l child :
    In l (links t) -> l_child_id l = Some child ->
    depends_on t (l_parent_id l) child
| depends_entry c e child :
    In c (connections t) -> In e (connection_entries t) ->
    e_connection_id e = c_rowid c -> e_child_id e = Some child ->
    depends_on t (c_object_id c) child.

(** The ids transitively reachable from a root. *)
Inductive reachable (t : Tables) (rootId : ObjectId) : ObjectId -> Prop :=
| reachable_root : reachable t rootId rootId
| reachable_step x y :
    reachable t rootId x -> depends_on t x y -> reachable t rootId y.

(** What the freshness check looks for: a registered object reachable
    from the root whose own data was never fetched ([None]), or one of
    whose connections was never fetched ([Some fieldname]). *)
Definition never_fetched (t : Tables) (rootId : ObjectId)
    (entry : ObjectId * option Fieldname) : Prop :=
  reachable t rootId (fst entry)
  /\ exists o, In o (objects t) /\ o_id o = fst entry
     /\ match snd entry with
        | None => o_last_update o = None
        | Some fieldname =>
            exists c, In c (connections t) /\ c_object_id c = fst entry
                      /\ c_fieldname c = fieldname /\ c_last_update c = None
        end.

(** The state of the queue of [closure_loop] between two turns: the root
    and the children of the rows already in the result are in the result
    or the queue; every child not yet queued is in [remaining]; what was
    queued is reachable; and the turns left suffice. *)
Definition closure_invariant (t : Tables) (rootId : ObjectId) (fuel : nat)
    (queue remaining result : list ObjectId) : Prop :=
  In rootId (result ++ queue)%list
  /\ (forall x y, In x result -> In (x, y) (direct_dependencies t) ->
                  In y (result ++ queue)%list)
  /\ (forall x y, In (x, y) (direct_dependencies t) ->
        In y remaining \/ In y (result ++ queue)%list)
  /\ (forall x, In x (result ++ queue)%list -> reachable t rootId x)
  /\ (length queue + length remaining <= fuel)%nat.

(** ** The blacklist *)









(** ** The writes of a mirror

    [triple P c Q]: run on tables that satisfy [P], when [c] returns a
    value it has changed nothing but the tables, and the tables it
    leaves satisfy [Q] of that value. *)

Definition with_tables (db : Db) (t : Tables) : Db :=
  {| inTransaction := inTransaction db; meta := meta db; tables := Some t |}.

Definition triple {A} (P : Tables -> Prop) (c : M A)
    (Q : A -> Tables -> Prop) : Prop :=
  forall db t, tables db = Some t -> P t ->
    match c db with
    | Ok a db' => exists t', db' = with_tables db t' /\ Q a t'
    | Throw _ _ => True
    end.

(** A child written to a link or to an entry of a connection: none, or
    an object that is registered and not blacklisted. *)
Definition known_child (m : Mirror) (child : option ObjectId) (t : Tables)
  : Prop :=
  match child with
  | None => True
  | Some id => registered id t /\ blacklisted m id = false
  end.

(** The child the registrar gives, when it returns, for what a record
    holds for a node field: that of the node reference for a value of
    the response, none for a built-in ([None] where the registrar
    throws whatever the database). *)
Definition link_child (m : Mirror) (link : Read) : option (option ObjectId) :=
  match link with
  | Plain value =>
      match asNodeFieldResult value with
      | Return result => Some (resolved m result)
      | Raise _ => if blacklisted m (id_key value) then Some None else None
      end
  | Builtin _ _ => if blacklisted m "undefined" then Some None else None
  end.


(** The link updates a record of a response yields: one for a field it
    has a value for, and one for a node egg of a nested field (a nested
    field it has no value for being read as [null]); the child is the
    one the registrar gives for the node. *)
Inductive entry_link (m : Mirror) (entry : Entry) : LinkUpdate -> Prop :=
| entry_link_field fieldname link child :
    entry_get entry fieldname = Some link ->
    link_child m link = Some child ->
    entry_link m entry
      {| parentId := entry_id entry; link_fieldname := fieldname;
         childId := child |}
| entry_link_egg nestFieldname childFieldname link child :
    egg_get (nested_get entry nestFieldname) childFieldname
      = Return (Some link) ->
    link_child m link = Some child ->
    entry_link m entry
      {| parentId := entry_id entry;
         link_fieldname := nestFieldname ++ "." ++ childFieldname;
         childId := child |}.

(** A connection with this rowid exists. *)
Definition has_connection (connectionId : Z) (t : Tables) : Prop :=
  exists c, In c (connections t) /\ c_rowid c = connectionId.

(** The tables as [_initialize] leaves them: the structural tables are
    empty, and so is every table of primitives. *)
Definition blank (t : Tables) : Prop :=
  updates t = [] /\ objects t = [] /\ links t = [] /\ connections t = []
  /\ connection_entries t = []
  /\ forall key table, In (key, table) (primitives_tables t) ->
                       pt_rows table = [].

(** ** Invariants of the databases of a mirror *)

(** The keys of the tables: the rowids of each table, the ids of the
    objects, the (parent, fieldname) of the links, the (object,
    fieldname) of the connections, the (connection, index) of the
    entries, and the ids in each table of primitives, are pairwise
    distinct. *)
Definition keys_unique (t : Tables) : Prop :=
  NoDup (map u_rowid (updates t))
  /\ NoDup (map o_id (objects t))
  /\ NoDup (map l_rowid (links t))
  /\ NoDup (map (fun l => (l_parent_id l, l_fieldname l)) (links t))
  /\ NoDup (map c_rowid (connections t))
  /\ NoDup (map (fun c => (c_object_id c, c_fieldname c)) (connections t))
  /\ NoDup (map e_rowid (connection_entries t))
  /\ NoDup (map (fun e => (e_connection_id e, e_idx e)) (connection_entries t))
  /\ forall key table,
       dict_get key (primitives_tables t) = Some table ->
       NoDup (map p_id (pt_rows table)).

(** Every reference of a row resolves: the update of an object or of a
    connection is a row of [updates]; the parent of a link, the object
    of a connection and the id of a row of primitives are registered
    objects; so is the child of a link or of an entry, when it has one;
    and the connection of an entry is a row of [connections]. *)
Definition references_resolve (t : Tables) : Prop :=
  (forall o updateId,
      In o (objects t) -> o_last_update o = Some updateId ->
      update_exists t updateId = true)
  /\ (forall l, In l (links t) ->
        registered (l_parent_id l) t
        /\ forall child, l_child_id l = Some child -> registered child t)
  /\ (forall c, In c (connections t) ->
        registered (c_object_id c) t
        /\ forall updateId, c_last_update c = Some updateId ->
                            update_exists t updateId = true)
  /\ (forall e, In e (connection_entries t) ->
        has_connection (e_connection_id e) t
        /\ forall child, e_child_id e = Some child -> registered child t)
  /\ (forall key table r,
        dict_get key (primitives_tables t) = Some table ->
        In r (pt_rows table) -> registered (p_id r) t).

(** The columns of a connection agree, as the [CHECK] constraints of the
    table demand: a connection that was never updated has no total
    count, no [has_next_page] and no end cursor; one that was updated
    has a total count, and 0 or 1 as [has_next_page]. *)
Definition connections_consistent (t : Tables) : Prop :=
  forall c, In c (connections t) ->
    match c_last_update c with
    | None =>
        c_total_count c = None /\ c_has_next_page c = None
        /\ c_end_cursor c = None
    | Some _ =>
        (exists total, c_total_count c = Some total)
        /\ (c_has_next_page c = Some 0 \/ c_has_next_page c = Some 1)
    end.

(** The entries of every connection are numbered from 1 without gap, in
    the order of the table. *)
Definition entries_numbered (t : Tables) : Prop :=
  forall connectionId,
    map e_idx (entries_of t connectionId)
    = consecutive 1 (length (entries_of t connectionId)).

(** The rows an object has: its row in the table of primitives of a
    type, a link under a fieldname, a connection under a fieldname. *)
Definition has_primitives_row (typename : Typename) (id : ObjectId)
    (t : Tables) : Prop :=
  exists table row,
    dict_get ("primitives_" ++ typename) (primitives_tables t) = Some table
    /\ In row (pt_rows table) /\ p_id row = id.

Definition has_link (id : ObjectId) (fieldname : Fieldname) (t : Tables)
  : Prop :=
  exists l, In l (links t) /\ l_parent_id l = id /\ l_fieldname l = fieldname.

Definition has_connection_of (id : ObjectId) (fieldname : Fieldname)
    (t : Tables) : Prop :=
  exists c,
    In c (connections t) /\ c_object_id c = id /\ c_fieldname c = fieldname.

(** Every object of the tables is of an object type of the schema and
    has the rows of its type: a row in the table of primitives of the
    type, a link for every node field and for every node egg of every
    nested field, and a connection for every connection field. *)
Definition fully_registered (m : Mirror) (t : Tables) : Prop :=
  forall o, In o (objects t) ->
    exists typeFields,
      dict_get (o_typename o) (_schema m) = Some (OBJECT typeFields)
      /\ has_primitives_row (o_typename o) (o_id o) t
      /\ (forall f elementType fidelity,
             dict_get f typeFields = Some (NODE elementType fidelity) ->
             has_link (o_id o) f t)
      /\ (forall F eggs e elementType fidelity,
             dict_get F typeFields = Some (NESTED eggs) ->
             dict_get e eggs = Some (EGG_NODE elementType fidelity) ->
             has_link (o_id o) (F ++ "." ++ e) t)
      /\ (forall f elementType,
             dict_get f typeFields = Some (CONNECTION elementType) ->
             has_connection_of (o_id o) f t).

(** The kinds of the fields of an object type, by fieldname. *)
Definition is_primitive_field (typeFields : Dict FieldType) (f : Fieldname)
  : bool :=
  match dict_get f typeFields with Some PRIMITIVE => true | _ => false end.

Definition is_node_field (typeFields : Dict FieldType) (f : Fieldname)
  : bool :=
  match dict_get f typeFields with Some (NODE _ _) => true | _ => false end.

Definition is_connection_field (typeFields : Dict FieldType) (f : Fieldname)
  : bool :=
  match dict_get f typeFields with Some (CONNECTION _) => true | _ => false end.

Definition is_nested_field (typeFields : Dict FieldType) (f : Fieldname)
  : bool :=
  match dict_get f typeFields with Some (NESTED _) => true | _ => false end.

(** ** The end cursor of a connection *)

(** The connection of an object under a fieldname, as the statements of
    the mirror find it. *)
Definition connection_of (t : Tables) (objectId : ObjectId)
    (fieldname : Fieldname) : option ConnectionRow :=
  find (fun c => String.eqb (c_object_id c) objectId
                 && String.eqb (c_fieldname c) fieldname)
       (connections t).

(** The connection of the object under the fieldname holds what an
    ingestion of the page under the update stores. *)
Definition connection_stored (updateId : UpdateId)
    (queryResult : ConnectionFieldResult) (objectId : ObjectId)
    (fieldname : Fieldname) (t : Tables) : Prop :=
  exists c,
    connection_of t objectId fieldname = Some c
    /\ c_last_update c = Some updateId
    /\ c_total_count c = Some (totalCount queryResult)
    /\ c_has_next_page c
       = Some (if hasNextPage (pageInfo queryResult) then 1 else 0)
    /\ c_end_cursor c = endCursor (pageInfo queryResult).

(** ** What an ingestion has fetched *)

(** The object is registered, and every row of it has the update as its
    last update. *)
Definition stamped (id : ObjectId) (updateId : UpdateId) (t : Tables) : Prop :=
  registered id t
  /\ forall o, In o (objects t) -> o_id o = id ->
               o_last_update o = Some updateId.

(** The update exists, and every row of it has this time. *)
Definition update_at (updateId : UpdateId) (time : Z) (t : Tables) : Prop :=
  update_exists t updateId = true
  /\ forall u, In u (updates t) -> u_rowid u = updateId ->
               u_time_epoch_millis u = time.

(** ** Schemas that cannot be mirrored *)

(** The schema declares an unfaithful node: a node field, or a node egg
    of a nested field, of an object type. *)
Definition has_unfaithful (schema : Schema) : Prop :=
  exists typename typeFields f,
    dict_get typename schema = Some (OBJECT typeFields)
    /\ ((exists elementType,
            dict_get f typeFields = Some (NODE elementType UNFAITHFUL))
        \/ (exists eggs e elementType,
               dict_get f typeFields = Some (NESTED eggs)
               /\ dict_get e eggs = Some (EGG_NODE elementType UNFAITHFUL))).

(** ** What an own-data ingestion stores *)




(** The table of primitives has a row for the object, and the column of
    its rows for the object holds this value. *)
Definition column_is (tableKey : string) (column : string) (id : ObjectId)
    (value : SqlValue) (t : Tables) : Prop :=
  exists table,
    dict_get tableKey (primitives_tables t) = Some table
    /\ (exists row, In row (pt_rows table) /\ p_id row = id)
    /\ forall row, In row (pt_rows table) -> p_id row = id ->
         dict_get column (p_values row) = Some value.

(** What an ingestion stores for a primitive field of a record: the
    record has a value for it, and the column of the field, in the rows
    of the object in the table of primitives, holds the JSON text of the
    value. *)
Definition primitive_stored (tableKey : string) (entry : Entry)
    (fieldname : Fieldname) (t : Tables) : Prop :=
  exists value text,
    entry_get entry fieldname = Some value
    /\ JSON_stringify_read value = Some text
    /\ column_is tableKey fieldname (entry_id entry) (SqlText text) t.


(** ** When a registration returns *)



(** ** What an own-data ingestion leaves alone *)

(** The rows of an object in [objects], [links] and [connections], and
    in a table of primitives. *)
Definition object_rows (id : ObjectId) (t : Tables) : list ObjectRow :=
  filter (fun o => String.eqb (o_id o) id) (objects t).

Definition link_rows (id : ObjectId) (t : Tables) : list LinkRow :=
  filter (fun l => String.eqb (l_parent_id l) id) (links t).

Definition connection_rows (id : ObjectId) (t : Tables)
  : list ConnectionRow :=
  filter (fun c => String.eqb (c_object_id c) id) (connections t).

Definition primitives_rows (id : ObjectId) (table : PrimitivesTable)
  : list PrimitivesRow :=
  filter (fun r => String.eqb (p_id r) id) (pt_rows table).

(** The object is registered and its rows are those it has in [t0];
    the entries of the connections are those of [t0]. *)
Definition untouched (id : ObjectId) (t0 t : Tables) : Prop :=
  registered id t
  /\ object_rows id t = object_rows id t0
  /\ link_rows id t = link_rows id t0
  /\ connection_rows id t = connection_rows id t0
  /\ connection_entries t = connection_entries t0
  /\ forall key table0,
       dict_get key (primitives_tables t0) = Some table0 ->
       exists table,
         dict_get key (primitives_tables t) = Some table
         /\ primitives_rows id table = primitives_rows id table0.

End Vocabulary.

(** ** A small mirror

    A schema with two object types, a mirror over it with one
    blacklisted id, and the databases a short run of the mirror goes
    through; the theorems below are instantiated on them. *)

(** The runtime of the examples: of the built-ins, only the function
    [Object], which a record inherits as [constructor], is given
    properties: its [name] and its [length]; and of the scalars, a
    string is given its [length]. *)
Definition example_runtime : Runtime :=
  {| builtin_get := fun path key =>
       match path with
       | [name] =>
           if String.eqb name "constructor" then
             if String.eqb key "name" then
               Return (Some (Plain (VString "Object")))
             else if String.eqb key "length" then
               Return (Some (Plain (VNumber "1")))
             else Return None
           else Return None
       | _ => Return None
       end;
     scalar_get := fun scalar key =>
       match scalar with
       | VString s =>
           if String.eqb key "length" then
             Return (Some (Plain (VNumber (String_of_nat (String.length s)))))
           else Return None
       | _ => Return None
       end |}.

Section SmallMirror.

#[local] Existing Instance example_runtime.

Definition example_schema : Schema :=
  [("Issue",
    OBJECT [("id", ID); ("title", PRIMITIVE);
            ("author", NODE "User" FAITHFUL);
            ("comments", CONNECTION "User");
            ("meta", NESTED [("date", EGG_PRIMITIVE);
                             ("user", EGG_NODE "User" FAITHFUL)])]);
   ("User", OBJECT [("id", ID); ("login", PRIMITIVE)])].

Definition example_blacklist : list ObjectId := ["bad"].

(** An encoding of the configuration that tells these examples apart,
    and a parser of the two kinds of JSON text they store: [null], and a
    string without escapes, which is read by dropping its quotes. *)
Definition example_stringify (c : Config) : string :=
  version c ++ ":" ++ join "," (dict_keys (schema c))
    ++ ":" ++ join "," (dict_keys (blacklistedIds (options c))).

Definition example_JSON_parse (text : string) : Except Value :=
  if String.eqb text "null" then Return VNull
  else Return (VString (sql_identifier text)).

Definition database_after {A} (c : M A) (db : Db) : Db :=
  match c db with
  | Ok _ db' => db'
  | Throw _ db' => db'
  end.

Definition example_mirror : Mirror :=
  Eval vm_compute in
    match Mirror_constructor example_stringify example_schema
            example_blacklist empty_db with
    | Ok m _ => m
    | Throw _ _ =>
        {| _schema := []; _schemaInfo := {| objectTypes := []; unionTypes := [] |};
           _blacklistedIds := [] |}
    end.

(** A mirror of another schema. *)
Definition example_other_mirror : Mirror :=
  {| _schema := []; _schemaInfo := {| objectTypes := []; unionTypes := [] |};
     _blacklistedIds := [] |}.

(** The database the constructor makes, then with the issue [i1]
    registered, then with an update begun. *)
Definition example_constructed : Db :=
  Eval vm_compute in
    database_after
      (Mirror_constructor example_stringify example_schema example_blacklist)
      empty_db.

Definition example_registered : Db :=
  Eval vm_compute in
    database_after (registerObject example_mirror "Issue" "i1")
                   example_constructed.

Definition example_begun : Db :=
  Eval vm_compute in
    database_after (_inTransaction (_createUpdate 5)) example_registered.

(** The record of the issue, whose nested field is [null]; and the same
    record without its title. *)
Definition example_issue : Entry :=
  {| entry_typename := "Issue"; entry_id := "i1";
     entry_fields :=
       [("title", VString "A title");
        ("author", VObject [("__typename", VString "User");
                            ("id", VString "u1")]);
        ("meta", VNull)] |}.


Definition example_owned : Db :=
  Eval vm_compute in
    database_after (_updateOwnData example_mirror 1 [example_issue])
                   example_begun.

(** A page of the comments of the issue: a user, [null], and the
    blacklisted id. *)
Definition example_page : ConnectionFieldResult :=
  {| totalCount := 3;
     pageInfo := {| hasNextPage := true; endCursor := Some "cursor1" |};
     result_nodes :=
       [Some {| ref_typename := "User"; ref_id := "u2" |};
        None;
        Some {| ref_typename := "User"; ref_id := "bad" |}] |}.

Definition example_paged : Db :=
  Eval vm_compute in
    database_after
      (_updateConnection example_mirror 1 "i1" "comments" example_page)
      example_owned.

Definition example_user (id : ObjectId) : Entry :=
  {| entry_typename := "User"; entry_id := id;
     entry_fields := [("login", VString id)] |}.

Definition example_complete : Db :=
  Eval vm_compute in
    database_after
      (_updateOwnData example_mirror 1 [example_user "u1"; example_user "u2"])
      example_paged.

Definition tables_of (db : Db) : Tables :=
  match tables db with
  | Some t => t
  | None => empty_tables
  end.

(** The query of the comments of an issue from a known [null] cursor. *)
Definition example_selections : list Selection :=
  Eval vm_compute in
    match _queryConnection example_mirror "Issue" "comments" (Some None) 10 with
    | Return selections => selections
    | Raise _ => []
    end.

(** The graph extracted from the issue once everything is fetched. *)
Definition example_graph : ExtractedGraph :=
  Eval vm_compute in
    match extract example_JSON_parse example_mirror "i1" example_complete with
    | Ok graph _ => graph
    | Throw _ _ => {| graph_objects := []; graph_root := "i1" |}
    end.

(** The database after the transaction that ends an update step whose
    response holds the record of the issue. *)
Definition example_response : UpdateResult :=
  [("owndata_0", OwnDataResult [example_issue])].

Definition example_ingested : Db :=
  Eval vm_compute in
    database_after (ingestStep example_mirror 7 example_response)
                   example_registered.


(** The record of the issue with an object for its nested field, and the
    database after its ingestion. *)
Definition example_issue_dated : Entry :=
  {| entry_typename := "Issue"; entry_id := "i1";
     entry_fields :=
       [("title", VString "A title");
        ("author", VObject [("__typename", VString "User");
                            ("id", VString "u1")]);
        ("meta", VObject [("date", VString "2019");
                          ("user", VObject [("__typename", VString "User");
                                            ("id", VString "u3")])])] |}.

Definition example_owned_dated : Db :=
  Eval vm_compute in
    database_after (_updateOwnData example_mirror 1 [example_issue_dated])
                   example_begun.

(** The fields of the issues of the small schema. *)
Definition example_issue_fields : Dict FieldType :=
  [("id", ID); ("title", PRIMITIVE);
   ("author", NODE "User" FAITHFUL);
   ("comments", CONNECTION "User");
   ("meta", NESTED [("date", EGG_PRIMITIVE);
                    ("user", EGG_NODE "User" FAITHFUL)])].

End SmallMirror.

(** * Properties *)

Section Properties.

Context {runtime : Runtime}.

(** A typename that the schema does not declare: whether it names a
    built-in or not, the method throws. *)
Ltac undeclared tac :=
  match goal with
  | |- context [inherits ?x] => destruct (inherits x); tac
  | _ : context [inherits ?x] |- _ => destruct (inherits x); tac
  end.

(** ** Parameter names *)

Lemma string_of_uint_no_underscore (d : uint) :
  no_underscore (NilEmpty.string_of_uint d).
Proof.
  induction d; simpl; auto; split; auto; discriminate.
Qed.

Lemma split_at_first_underscore (d1 : string) :
  forall d2 r1 r2,
    no_underscore d1 -> no_underscore d2 ->
    (d1 ++ "_" ++ r1 = d2 ++ "_" ++ r2)%string ->
    d1 = d2 /\ r1 = r2.
Proof.
  induction d1 as [|c d1 IH]; intros [|c2 d2] r1 r2 H1 H2 E; simpl in *.
  - inversion E; auto.
  - inversion E; subst. destruct H2 as [H2 _]. congruence.
  - inversion E; subst. destruct H1 as [H1 _]. congruence.
  - inversion E; subst. destruct H1 as [_ H1], H2 as [_ H2].
    destruct (IH d2 r1 r2 H1 H2 H3) as [-> ->]. auto.
Qed.

Lemma append_same_length (a : string) :
  forall b x y,
    String.length a = String.length b ->
    (a ++ x = b ++ y)%string -> a = b /\ x = y.
Proof.
  induction a as [|c a IH]; intros [|c2 b] x y L E; simpl in *;
    try discriminate; auto.
  inversion E; subst. injection L as L.
  destruct (IH b x y L H1) as [-> ->]. auto.
Qed.

Lemma String_of_nat_inj (n m : nat) :
  String_of_nat n = String_of_nat m -> n = m.
Proof.
  unfold String_of_nat. intros E.
  apply DecimalNat.Unsigned.to_uint_inj.
  assert (H : Some (Nat.to_uint n) = Some (Nat.to_uint m)).
  { rewrite <- (NilEmpty.usu (Nat.to_uint n)), <- (NilEmpty.usu (Nat.to_uint m)).
    now rewrite E. }
  now inversion H.
Qed.

(** C7.  The parameter names of own-data ingestion are injective: two
    top-level fields with the same parameter name are the same field, two
    (nested field, egg field) pairs with the same parameter name are the
    same pair, and a top-level name is never a nested name; nothing is
    assumed about the field names, which may contain the separator. *)
Theorem parameterNameFor_injective :
  (forall f g : Fieldname,
      parameterNameFor.topLevelField f = parameterNameFor.topLevelField g ->
      f = g)
  /\ (forall n e n' e' : Fieldname,
         parameterNameFor.nestedField n e = parameterNameFor.nestedField n' e' ->
         n = n' /\ e = e')
  /\ (forall f n e : Fieldname,
         parameterNameFor.topLevelField f <> parameterNameFor.nestedField n e).
Proof.
  unfold parameterNameFor.topLevelField, parameterNameFor.nestedField.
  split; [|split].
  - intros f g H. simpl in H. now inversion H.
  - intros n e n' e' H. simpl in H. inversion H as [E].
    apply split_at_first_underscore in E;
      try apply string_of_uint_no_underscore.
    destruct E as [E1 E2]. apply String_of_nat_inj in E1.
    apply append_same_length in E2; [|assumption].
    destruct E2 as [-> E2]. split; [reflexivity|]. now inversion E2.
  - intros f n e. simpl. discriminate.
Qed.

(** ** Running methods *)

Lemma bind_Ok {A B} (c : M A) (k : A -> M B) db b db'' :
  bind c k db = Ok b db'' ->
  exists a db', c db = Ok a db' /\ k a db' = Ok b db''.
Proof.
  unfold bind. destruct (c db) as [a db'|msg db']; [eauto | discriminate].
Qed.

Lemma lift_Ok {A} (c : Except A) db a db' :
  lift c db = Ok a db' -> c = Return a /\ db' = db.
Proof.
  destruct c; simpl; unfold ret, throw; intros H; inversion H; auto.
Qed.

Lemma getTables_Ok db t db' :
  getTables db = Ok t db' -> tables db = Some t /\ db' = db.
Proof.
  unfold getTables. destruct (tables db); intros H; inversion H; auto.
Qed.

Lemma getTables_Some db t : tables db = Some t -> getTables db = Ok t db.
Proof. unfold getTables. now intros ->. Qed.

(** A connection not in a transaction runs a callback that succeeds
    without changing the store, and is back where it was. *)
Lemma _inTransaction_unchanged {A} (fn : M A) db a :
  inTransaction db = false ->
  (forall db0, fn db0 = Ok a db0) ->
  _inTransaction fn db = Ok a db.
Proof.
  intros Hin Hfn. unfold _inTransaction. rewrite Hin, Hfn. simpl.
  destruct db; simpl in *; now subst.
Qed.

(** A callback that throws leaves the store as it was at [BEGIN]. *)
Lemma _inTransaction_Throw {A} (fn : M A) db msg :
  (forall db0, exists db1, fn db0 = Throw msg db1) ->
  exists msg', _inTransaction fn db = @Throw A msg' db
               /\ (inTransaction db = false -> msg' = msg).
Proof.
  intros Hfn. unfold _inTransaction. destruct (inTransaction db).
  - eexists; split; [reflexivity | discriminate].
  - destruct (Hfn {| inTransaction := true; meta := meta db; tables := tables db |})
      as [db1 ->]. eauto.
Qed.

(** ** Registration *)

(** C2.  When the id is already in [objects]: registering it again under
    the same typename returns and leaves the database as it was (the
    transactional method on a connection that is not in a transaction);
    registering it under another typename throws, the
    non-transactional method with the message of the inconsistent type,
    and the database is as it was. *)
Theorem registerObject_again (m : Mirror) (typename : Typename)
    (id : ObjectId) (db : Db) (t : Tables) (existing : Typename) :
  tables db = Some t ->
  registered_typename t id = Some existing ->
  (existing = typename ->
     _nontransactionallyRegisterObject m typename id db = Ok tt db
     /\ (inTransaction db = false -> registerObject m typename id db = Ok tt db))
  /\ (existing <> typename ->
     _nontransactionallyRegisterObject m typename id db
       = Throw ("Inconsistent type for ID " ++ JSON_stringify_string id
                  ++ ": expected " ++ JSON_stringify_string existing
                  ++ ", got " ++ JSON_stringify_string typename) db
     /\ exists msg, registerObject m typename id db = Throw msg db).
Proof.
  intros Ht Hreg.
  assert (Hsel : forall db0, tables db0 = Some t ->
            sql_select_typename id db0 = Ok (Some existing) db0).
  { intros db0 H0. unfold sql_select_typename, bind, ret.
    now rewrite (getTables_Some _ H0), Hreg. }
  split.
  - intros ->.
    assert (Hnt : forall db0, tables db0 = Some t ->
              _nontransactionallyRegisterObject m typename id db0 = Ok tt db0).
    { intros db0 H0. unfold _nontransactionallyRegisterObject, bind.
      rewrite (Hsel _ H0), String.eqb_refl. reflexivity. }
    split; [now apply Hnt|].
    intros Hin. unfold registerObject, _inTransaction. rewrite Hin, Hnt by assumption.
    destruct db; simpl in *; now subst.
  - intros Hne.
    assert (Hnt : forall db0, tables db0 = Some t ->
              _nontransactionallyRegisterObject m typename id db0
              = Throw ("Inconsistent type for ID " ++ JSON_stringify_string id
                         ++ ": expected " ++ JSON_stringify_string existing
                         ++ ", got " ++ JSON_stringify_string typename) db0).
    { intros db0 H0. unfold _nontransactionallyRegisterObject, bind.
      rewrite (Hsel _ H0).
      destruct (String.eqb_spec existing typename); [contradiction | reflexivity]. }
    split; [now apply Hnt|].
    unfold registerObject, _inTransaction. destruct (inTransaction db); [eauto|].
    rewrite Hnt by assumption. eauto.
Qed.

(** ** Initialization *)

(** C3.  On a database that already has its [meta] row, reached through
    a connection that is not in a transaction: when the stored
    configuration is the encoding of this mirror's version, schema and
    options, [_initialize] returns and the database is as it was; when it
    is not, [_initialize] throws the error of the incompatible schema,
    options, or version, and the database is as it was.  The constructor
    of a schema whose info builds does the same. *)
Theorem _initialize_populated (stringify : Config -> string) (m : Mirror)
    (db : Db) (existing : string) :
  inTransaction db = false ->
  meta db = Some (Some existing) ->
  (existing = blob_of stringify m ->
     _initialize stringify m db = Ok tt db
     /\ forall blacklist,
          _buildSchemaInfo (_schema m) = Return (_schemaInfo m) ->
          _blacklistedIds m
            = fold_left (fun result id => dict_set id true result) blacklist [] ->
          Mirror_constructor stringify (_schema m) blacklist db = Ok m db)
  /\ (existing <> blob_of stringify m ->
     _initialize stringify m db = Throw incompatible_message db
     /\ forall blacklist,
          _buildSchemaInfo (_schema m) = Return (_schemaInfo m) ->
          _blacklistedIds m
            = fold_left (fun result id => dict_set id true result) blacklist [] ->
          Mirror_constructor stringify (_schema m) blacklist db
            = Throw incompatible_message db).
Proof.
  intros Hin Hmeta. destruct db as [tx me ta]; simpl in *; subst.
  assert (Hm : {| _schema := _schema m; _schemaInfo := _schemaInfo m;
                  _blacklistedIds := _blacklistedIds m |} = m) by now destruct m.
  split; intros Hblob.
  - assert (Hinit : _initialize stringify m
                      {| inTransaction := false; meta := Some (Some existing);
                         tables := ta |}
                    = Ok tt {| inTransaction := false; meta := Some (Some existing);
                               tables := ta |}).
    { unfold _initialize, _inTransaction, bind, sql_create_meta_if_not_exists,
        sql_select_config. simpl. fold (blob_of stringify m).
      now rewrite <- Hblob, String.eqb_refl. }
    split; [assumption|].
    intros blacklist Hinfo Hbl. unfold Mirror_constructor, bind.
    rewrite Hinfo. simpl. unfold ret at 1. rewrite <- Hbl, Hm.
    now rewrite Hinit.
  - assert (Hinit : _initialize stringify m
                      {| inTransaction := false; meta := Some (Some existing);
                         tables := ta |}
                    = Throw incompatible_message
                        {| inTransaction := false; meta := Some (Some existing);
                           tables := ta |}).
    { unfold _initialize, _inTransaction, bind, sql_create_meta_if_not_exists,
        sql_select_config. simpl. fold (blob_of stringify m).
      destruct (String.eqb_spec existing (blob_of stringify m)); [contradiction|].
      reflexivity. }
    split; [assumption|].
    intros blacklist Hinfo Hbl. unfold Mirror_constructor, bind.
    rewrite Hinfo. simpl. unfold ret at 1. rewrite <- Hbl, Hm.
    now rewrite Hinit.
Qed.

(** ** The connection query *)

(** C6.  Every selection [_queryConnection] builds is one field, of the
    connection's name, whose arguments are [first], bound to the page
    size, and [after] exactly when the end cursor is not [undefined],
    bound then to the cursor: [null] for the null cursor. *)
Theorem _queryConnection_arguments (m : Mirror) (typename : Typename)
    (fieldname : Fieldname) (endCursor : option (option string))
    (connectionPageSize : Z) (selections : list Selection) :
  _queryConnection m typename fieldname endCursor connectionPageSize
    = Return selections ->
  exists connectionArguments children,
    selections = [field fieldname connectionArguments children]
    /\ dict_get "first" connectionArguments
       = Some (literal (LitNumber connectionPageSize))
    /\ dict_get "after" connectionArguments
       = match endCursor with
         | None => None
         | Some None => Some (literal LitNull)
         | Some (Some cursor) => Some (literal (LitString cursor))
         end
    /\ dict_keys connectionArguments
       = match endCursor with
         | None => ["first"]
         | Some _ => ["first"; "after"]
         end.
Proof.
  unfold _queryConnection. intros H.
  destruct (dict_get typename (_schema m)) as [[| |typeFields|typeClauses]|];
    try discriminate; [|destruct (inherits typename); discriminate].
  destruct (dict_get typename (objectTypes (_schemaInfo m))) as [objectType|];
    try discriminate.
  destruct (dict_get fieldname (fields objectType)) as [[| | | elementType |]|];
    try discriminate; [|destruct (inherits fieldname); discriminate].
  destruct (_queryShallow m elementType) as [shallow|]; try discriminate.
  simpl in H. inversion H; subst; clear H.
  do 2 eexists. split; [reflexivity|].
  destruct endCursor as [[cursor|]|]; simpl; auto.
Qed.

(** ** Own-data ingestion of an empty batch *)

(** C10.  On an empty batch [_nontransactionallyUpdateOwnData] returns
    at once: no error, and the database is the one it was given,
    whatever the mirror, the update and the database. *)
Theorem _nontransactionallyUpdateOwnData_empty (m : Mirror)
    (updateId : UpdateId) (db : Db) :
  _nontransactionallyUpdateOwnData m updateId [] db = Ok tt db.
Proof. reflexivity. Qed.

(** ** The outdated finder *)

Lemma filter_nothing {X} (p : X -> bool) (l : list X) :
  (forall x, In x l -> p x = false) -> filter p l = [].
Proof.
  induction l as [|a l IH]; simpl; intros H; [reflexivity|].
  rewrite (H a) by auto. apply IH. auto.
Qed.

Lemma filter_at_most_one {X K} (key : X -> K) (p : X -> bool) (l : list X) :
  NoDup (map key l) ->
  (forall x y, p x = true -> p y = true -> key x = key y) ->
  filter p l = match find p l with Some x => [x] | None => [] end.
Proof.
  intros Hnd Hp. induction l as [|a l IH]; simpl in *; [reflexivity|].
  inversion Hnd as [|? ? Hnotin Hnd']; subst.
  destruct (p a) eqn:Ea; [|now apply IH].
  f_equal. apply filter_nothing. intros x Hx.
  destruct (p x) eqn:Ex; [|reflexivity].
  exfalso. apply Hnotin. rewrite (Hp a x Ea Ex). now apply in_map.
Qed.

Lemma find_unique {X K} (key : X -> K) (p : X -> bool) (l : list X) (x : X) :
  NoDup (map key l) ->
  (forall x y, p x = true -> p y = true -> key x = key y) ->
  In x l -> p x = true -> find p l = Some x.
Proof.
  intros Hnd Hp. induction l as [|a l IH]; simpl; intros Hin Hx; [contradiction|].
  inversion Hnd as [|? ? Hnotin Hnd']; subst.
  destruct (p a) eqn:Ea.
  - destruct Hin as [->|Hin]; [reflexivity|].
    exfalso. apply Hnotin. rewrite (Hp a x Ea Hx). now apply in_map.
  - destruct Hin as [->|Hin]; [congruence|]. now apply IH.
Qed.

Lemma flat_map_singleton {X Y} (g : X -> Y) (l : list X) :
  flat_map (fun x => [g x]) l = map g l.
Proof. induction l; simpl; congruence. Qed.

Lemma same_rowid (last_update : option UpdateId) (x y : UpdateRow) :
  option_eqb Z.eqb last_update (Some (u_rowid x)) = true ->
  option_eqb Z.eqb last_update (Some (u_rowid y)) = true ->
  u_rowid x = u_rowid y.
Proof.
  destruct last_update as [r|]; simpl; [|discriminate].
  rewrite !Z.eqb_eq. congruence.
Qed.

Lemma left_outer_join_updates_unique (t : Tables) (last_update : option UpdateId) :
  NoDup (map u_rowid (updates t)) ->
  left_outer_join_updates last_update (updates t)
  = [joined_update t last_update].
Proof.
  intros Hnd. unfold left_outer_join_updates, joined_update.
  rewrite (filter_at_most_one u_rowid _ _ Hnd (same_rowid last_update)).
  now destruct (find _ (updates t)).
Qed.

Lemma older_than_joined (t : Tables) (since : Z) (last_update : option UpdateId) :
  NoDup (map u_rowid (updates t)) ->
  older_than since (joined_update t last_update) = true
  <-> update_older_than t since last_update.
Proof.
  intros Hnd. unfold update_older_than, joined_update. split.
  - destruct (find _ (updates t)) as [u|] eqn:Ef; simpl; [|discriminate].
    intros Hlt. apply find_some in Ef. destruct Ef as [Hin Heq].
    exists u. repeat split; auto; [|lia].
    destruct last_update as [r|]; simpl in Heq; [|discriminate].
    apply Z.eqb_eq in Heq. now subst.
  - intros (u & Hin & -> & Hlt).
    rewrite (find_unique u_rowid _ _ u Hnd (same_rowid (Some (u_rowid u))) Hin).
    + simpl. lia.
    + simpl. apply Z.eqb_refl.
Qed.

Lemma is_null_None {A} (x : option A) : is_null x = true <-> x = None.
Proof. destruct x; simpl; split; congruence. Qed.

Lemma sql_truthy_spec (x : option Z) :
  sql_truthy x = true <-> exists z, x = Some z /\ z <> 0.
Proof.
  destruct x as [z|]; simpl.
  - rewrite negb_true_iff, Z.eqb_neq. split; [eauto|].
    intros (z' & E & H). now inversion E; subst.
  - split; [discriminate|]. intros (z & E & _). discriminate.
Qed.

Lemma flat_map_owned {Y} (t : Tables) (g : ConnectionRow -> ObjectRow -> Y)
    (d : ConnectionRow -> Y) (l : list ConnectionRow) :
  (forall c, In c l -> exists o, owner t c = Some o /\ d c = g c o) ->
  flat_map (fun c => match owner t c with Some o => [g c o] | None => [] end) l
  = map d l.
Proof.
  induction l as [|c l IH]; simpl; intros H; [reflexivity|].
  destruct (H c (or_introl eq_refl)) as (o & -> & ->). simpl.
  f_equal. apply IH. auto.
Qed.

(** C5.  On a store whose primary keys and foreign key hold (the rowid
    of [updates], the id of [objects], the object of every connection),
    [_findOutdated] returns the plan whose objects are exactly the rows of
    [objects] never updated or updated before the threshold, and whose
    connections are exactly the rows of [connections] that have a next
    page, or were never updated, or were updated before the threshold,
    each once and in table order; a connection never updated is given
    the end cursor [undefined] ([None]), an updated one its stored
    cursor, [null] ([Some None]) included. *)
Theorem _findOutdated_exact (since : Z) (db : Db) (t : Tables) :
  inTransaction db = false ->
  tables db = Some t ->
  NoDup (map u_rowid (updates t)) ->
  NoDup (map o_id (objects t)) ->
  (forall c, In c (connections t) ->
     exists o, In o (objects t) /\ o_id o = c_object_id c) ->
  exists (plan : QueryPlan) (outdated : ObjectRow -> bool)
         (outdated_connection : ConnectionRow -> bool)
         (typename_of : ConnectionRow -> Typename),
    _findOutdated since db = Ok plan db
    /\ (forall o, outdated o = true <-> object_outdated t since o)
    /\ plan_objects plan
       = map (fun o => {| po_typename := o_typename o; po_id := o_id o |})
             (filter outdated (objects t))
    /\ (forall c, outdated_connection c = true <-> connection_outdated t since c)
    /\ (forall c, In c (connections t) ->
          exists o, In o (objects t) /\ o_id o = c_object_id c
                    /\ typename_of c = o_typename o)
    /\ plan_connections plan
       = map (fun c =>
                {| pc_objectTypename := typename_of c;
                   pc_objectId := c_object_id c;
                   pc_fieldname := c_fieldname c;
                   pc_endCursor :=
                     match c_last_update c with
                     | None => None
                     | Some _ => Some (c_end_cursor c)
                     end |})
             (filter outdated_connection (connections t))
    /\ plan_typenames plan = [].
Proof.
  intros Hin Ht Hu Ho Hfk.
  assert (Hsame : forall c (x y : ObjectRow),
             String.eqb (c_object_id c) (o_id x) = true ->
             String.eqb (c_object_id c) (o_id y) = true -> o_id x = o_id y).
  { intros c x y Hx Hy. apply String.eqb_eq in Hx, Hy. congruence. }
  assert (Hown : forall c, In c (connections t) ->
             exists o, owner t c = Some o /\ In o (objects t)
                       /\ o_id o = c_object_id c).
  { intros c Hc. destruct (Hfk c Hc) as (o & Hino & Hid).
    exists o. repeat split; auto. unfold owner.
    apply (find_unique o_id _ _ o Ho (Hsame c) Hino).
    rewrite Hid. apply String.eqb_refl. }
  eexists.
  exists (fun o => is_null (o_last_update o)
                   || older_than since (joined_update t (o_last_update o))).
  exists (fun c => sql_truthy (c_has_next_page c) || is_null (c_last_update c)
                   || older_than since (joined_update t (c_last_update c))).
  exists (owner_typename t).
  split; [|split; [|split; [|split; [|split; [|split]]]]].
  - unfold _findOutdated, _inTransaction, bind, ret. rewrite Hin. simpl.
    unfold getTables. simpl. rewrite Ht.
    destruct db; simpl in *; subst. reflexivity.
  - intros o. rewrite orb_true_iff, is_null_None, older_than_joined by assumption.
    reflexivity.
  - simpl. unfold sql_outdated_objects.
    rewrite (flat_map_ext _ (fun o => [(o, joined_update t (o_last_update o))])).
    + rewrite flat_map_singleton, filter_map_swap, map_map. reflexivity.
    + intros o. now rewrite left_outer_join_updates_unique.
  - intros c.
    rewrite !orb_true_iff, sql_truthy_spec, is_null_None, older_than_joined
      by assumption.
    unfold connection_outdated. tauto.
  - intros c Hc. destruct (Hown c Hc) as (o & Ho1 & Ho2 & Ho3).
    exists o. repeat split; auto. unfold owner_typename. now rewrite Ho1.
  - simpl. unfold sql_outdated_connections.
    rewrite (flat_map_ext _
               (fun c => match owner t c with
                         | Some o => [(c, joined_update t (c_last_update c), o)]
                         | None => []
                         end)).
    + rewrite (flat_map_owned t
                 (fun c o => (c, joined_update t (c_last_update c), o))
                 (fun c => (c, joined_update t (c_last_update c),
                            match owner t c with
                            | Some o => o
                            | None => {| o_id := EmptyString;
                                         o_typename := EmptyString;
                                         o_last_update := None |}
                            end))).
      * rewrite filter_map_swap, !map_map. apply map_ext.
        intros c. unfold owner_typename.
        destruct (owner t c); destruct (c_last_update c); reflexivity.
      * intros c Hc. destruct (Hown c Hc) as (o & Ho1 & _).
        exists o. now rewrite Ho1.
    + intros c. rewrite left_outer_join_updates_unique by assumption. simpl.
      rewrite app_nil_r.
      rewrite (filter_at_most_one o_id _ _ Ho (Hsame c)).
      fold (owner t c). now destruct (owner t c).
  - reflexivity.
Qed.

(** ** Specifications of methods

    The rules of [spec], for a relation that is reflexive and
    transitive. *)

Section Spec.

Variable R : Db -> Db -> Prop.
Hypothesis R_refl : forall db, R db db.
Hypothesis R_trans : forall a b c, R a b -> R b c -> R a c.








End Spec.




(** The result of a statement built from [getTables] and [putTables]. *)
Ltac destruct_scrutinee :=
  match goal with
  | |- context [match ?x with _ => _ end] =>
      lazymatch x with
      | context [match _ with _ => _ end] => fail
      | _ => destruct x eqn:?
      end
  end.


(** ** What the registrar and the ingesters keep

    A relation [P] between the tables before and after is kept by the
    registrar and the ingesters as soon as it is kept by each kind of
    write they make: replacing [updates], [connections] or the tables of
    primitives, appending an object, setting the update of objects,
    appending a link without child, giving links a child, and appending
    an entry; [G] is what is known of the children
    written, which are those the registrar resolved. *)
Section Frame.

Variable m : Mirror.
Variable P : Tables -> Tables -> Prop.
Variable G : option ObjectId -> Prop.
Hypothesis G_resolved : forall node, G (resolved m node).
Hypothesis P_refl : forall t, P t t.
Hypothesis P_trans : forall a b c, P a b -> P b c -> P a c.
Hypothesis P_updates :
  forall t us, P t {| updates := us; objects := objects t;
                      links := links t; connections := connections t;
                      connection_entries := connection_entries t;
                      primitives_tables := primitives_tables t |}.
Hypothesis P_objects_insert :
  forall t o, P t {| updates := updates t; objects := (objects t ++ [o])%list;
                     links := links t; connections := connections t;
                     connection_entries := connection_entries t;
                     primitives_tables := primitives_tables t |}.
Hypothesis P_objects_update :
  forall t (selected : ObjectRow -> bool) updateId,
    P t {| updates := updates t;
           objects :=
             map (fun o =>
                    if selected o then
                      {| o_id := o_id o; o_typename := o_typename o;
                         o_last_update := Some updateId |}
                    else o)
                 (objects t);
           links := links t; connections := connections t;
           connection_entries := connection_entries t;
           primitives_tables := primitives_tables t |}.
Hypothesis P_primitives :
  forall t p, P t (set_primitives_tables t p).
Hypothesis P_connections :
  forall t cs, P t {| updates := updates t; objects := objects t;
                      links := links t; connections := cs;
                      connection_entries := connection_entries t;
                      primitives_tables := primitives_tables t |}.
Hypothesis P_links_insert :
  forall t rowid id fieldname,
    P t {| updates := updates t; objects := objects t;
           links := (links t ++ [{| l_rowid := rowid; l_parent_id := id;
                                    l_fieldname := fieldname;
                                    l_child_id := None |}])%list;
           connections := connections t;
           connection_entries := connection_entries t;
           primitives_tables := primitives_tables t |}.
Hypothesis P_links_update :
  forall t (selected : LinkRow -> bool) child,
    G child ->
    P t {| updates := updates t; objects := objects t;
           links :=
             map (fun l =>
                    if selected l then
                      {| l_rowid := l_rowid l; l_parent_id := l_parent_id l;
                         l_fieldname := l_fieldname l; l_child_id := child |}
                    else l)
                 (links t);
           connections := connections t;
           connection_entries := connection_entries t;
           primitives_tables := primitives_tables t |}.
Hypothesis P_entries_insert :
  forall t row,
    G (e_child_id row) ->
    P t {| updates := updates t; objects := objects t; links := links t;
           connections := connections t;
           connection_entries := (connection_entries t ++ [row])%list;
           primitives_tables := primitives_tables t |}.
















(** The statements and the blocks of own-data ingestion. *)













(** The statements of connection ingestion, and the method. *)








End Frame.

(** ** Connection ingestion *)




Lemma max_of_upper (zs : list Z) (z : Z) :
  In z zs -> exists m, max_of zs = Some m /\ z <= m.
Proof.
  induction zs as [|y zs IH]; simpl; [contradiction|].
  intros [->|Hin].
  - destruct (max_of zs); eexists; split; try reflexivity; lia.
  - destruct (IH Hin) as (m & -> & Hle). eexists; split; [reflexivity|lia].
Qed.















(** ** Dictionaries and loops *)

Lemma dict_get_set_same {V} (k : string) (v : V) (d : Dict V) :
  dict_get k (dict_set k v d) = Some v.
Proof.
  induction d as [|[k' w] d IH]; simpl.
  - now rewrite String.eqb_refl.
  - destruct (String.eqb k' k) eqn:E; simpl; rewrite E; auto.
Qed.

Lemma dict_get_set_other {V} (k k' : string) (v : V) (d : Dict V) :
  k <> k' -> dict_get k' (dict_set k v d) = dict_get k' d.
Proof.
  intros Hne. induction d as [|[k0 w] d IH]; simpl.
  - destruct (String.eqb_spec k k'); [contradiction | reflexivity].
  - destruct (String.eqb_spec k0 k) as [->|Hk0]; simpl.
    + destruct (String.eqb_spec k k'); [contradiction | reflexivity].
    + destruct (String.eqb k0 k'); auto.
Qed.

Lemma dict_get_In_keys {V} (k : string) (v : V) (d : Dict V) :
  dict_get k d = Some v -> In k (dict_keys d).
Proof.
  induction d as [|[k' w] d IH]; simpl; [discriminate|].
  destruct (String.eqb_spec k' k); auto.
Qed.

Lemma dict_keys_set {V} (k k' : string) (v : V) (d : Dict V) :
  In k' (dict_keys (dict_set k v d)) <-> k' = k \/ In k' (dict_keys d).
Proof.
  induction d as [|[k0 w] d IH]; simpl.
  - intuition.
  - destruct (String.eqb_spec k0 k) as [->|Hk0]; simpl; [intuition|].
    rewrite IH. intuition.
Qed.

Lemma efold_invariant {X S} (I : list X -> S -> Prop)
    (body : S -> X -> Except S) (xs : list X) :
  (forall before x s s', I before s -> body s x = Return s' ->
                         I (before ++ [x])%list s') ->
  forall before s0 s,
    I before s0 -> efold body xs s0 = Return s -> I (before ++ xs)%list s.
Proof.
  intros Hstep. induction xs as [|x xs IH]; simpl; intros before s0 s H0 H.
  - inversion H; subst. now rewrite app_nil_r.
  - destruct (body s0 x) as [s1|] eqn:E; simpl in H; [|discriminate].
    replace (before ++ x :: xs)%list with ((before ++ [x]) ++ xs)%list
      by now rewrite <- app_assoc.
    eapply IH; eauto.
Qed.

Lemma efold_Return_each {X S} (body : S -> X -> Except S) (xs : list X) :
  forall s0 s, efold body xs s0 = Return s ->
  forall x, In x xs -> exists s1 s2, body s1 x = Return s2.
Proof.
  induction xs as [|y xs IH]; simpl; intros s0 s H x Hin; [contradiction|].
  destruct (body s0 y) as [s1|] eqn:E; simpl in H; [|discriminate].
  destruct Hin as [->|Hin]; eauto.
Qed.

Lemma forEach_Ok_each {X} (xs : list X) (body : X -> M unit) :
  forall db db', forEach xs body db = Ok tt db' ->
  forall x, In x xs -> exists d1 d2, body x d1 = Ok tt d2.
Proof.
  induction xs as [|y xs IH]; simpl; intros db db' H x Hin; [contradiction|].
  apply bind_Ok in H. destruct H as ([] & db1 & Hy & Hrest).
  destruct Hin as [->|Hin]; eauto.
Qed.

(** ** The schema info of a schema *)

Lemma buildNestedFieldData_keys eggs data :
  buildNestedFieldData eggs = Return data ->
  forall e,
    (dict_get e eggs = Some EGG_PRIMITIVE -> In e (dict_keys (primitives data)))
    /\ (forall elementType fidelity,
           dict_get e eggs = Some (EGG_NODE elementType fidelity) ->
           In e (dict_keys (nodes data))).
Proof.
  unfold buildNestedFieldData. intros H e.
  assert (Hinv :
    forall x, In x ([] ++ dict_keys eggs)%list ->
      (dict_get x eggs = Some EGG_PRIMITIVE -> In x (dict_keys (primitives data)))
      /\ (forall elementType fidelity,
             dict_get x eggs = Some (EGG_NODE elementType fidelity) ->
             In x (dict_keys (nodes data)))).
  { eapply (efold_invariant
              (fun before d => forall x, In x before ->
                 (dict_get x eggs = Some EGG_PRIMITIVE ->
                  In x (dict_keys (primitives d)))
                 /\ (forall elementType fidelity,
                        dict_get x eggs = Some (EGG_NODE elementType fidelity) ->
                        In x (dict_keys (nodes d))))); [| |exact H].
    - intros before k d d' Hbefore Hbody x Hx. cbv beta in Hbody.
      apply in_app_or in Hx.
      destruct (dict_get k eggs) as [[|et [|]]|] eqn:Ek; try discriminate;
        inversion Hbody; subst; clear Hbody; simpl.
      + split.
        * intros Hp. apply dict_keys_set.
          destruct Hx as [Hx|[<-|[]]]; [right; now apply Hbefore | now left].
        * intros et fid Hn. destruct Hx as [Hx|[<-|[]]];
            [eapply Hbefore; eauto | congruence].
      + split.
        * intros Hp. destruct Hx as [Hx|[<-|[]]];
            [now apply Hbefore | congruence].
        * intros et' fid Hn. apply dict_keys_set.
          destruct Hx as [Hx|[<-|[]]];
            [right; eapply Hbefore; eauto | now left].
    - intros x []. }
  split.
  - intros He. apply Hinv; [|assumption]. simpl. eapply dict_get_In_keys; eauto.
  - intros et fid He. eapply Hinv; [|eassumption]. simpl.
    eapply dict_get_In_keys; eauto.
Qed.

Lemma covers_more typeFields e e' f :
  covers typeFields e f ->
  incl (primitiveFieldNames e) (primitiveFieldNames e') ->
  incl (linkFieldNames e) (linkFieldNames e') ->
  incl (nestedFieldNames e) (nestedFieldNames e') ->
  dict_get f (nestedFields e') = dict_get f (nestedFields e) ->
  covers typeFields e' f.
Proof.
  intros (H1 & H2 & H3) Ip Il In_ Hn. split; [|split].
  - intros Hp. apply Ip. auto.
  - intros et fid Hl. apply Il. eauto.
  - intros eggs Hg. destruct (H3 eggs Hg) as (Hin & data & Hd & Hb).
    split; [now apply In_|]. exists data. now rewrite Hn.
Qed.

Lemma buildObjectTypeInfo_covers typeFields entry :
  buildObjectTypeInfo typeFields = Return entry ->
  forall f, In f (dict_keys typeFields) -> covers typeFields entry f.
Proof.
  unfold buildObjectTypeInfo. intros H.
  change (dict_keys typeFields) with ([] ++ dict_keys typeFields)%list.
  eapply (efold_invariant
            (fun before e => forall f, In f before -> covers typeFields e f));
    [| |exact H]; [|intros f []].
  intros before k e e' Hbefore Hbody f Hf. cbv beta in Hbody.
  apply in_app_or in Hf.
  destruct (String.eqb_spec k f) as [->|Hne].
  - clear Hf.
    destruct (dict_get f typeFields) as [[| |et [|]|et|eggs]|] eqn:Ek;
      try discriminate;
      try (inversion Hbody; subst; clear Hbody; unfold covers; rewrite Ek; simpl;
           split; [|split]; intros; try discriminate;
           apply in_or_app; right; simpl; auto; fail).
    destruct (buildNestedFieldData eggs) as [data|] eqn:Ed; [|discriminate].
    simpl in Hbody. inversion Hbody; subst; clear Hbody.
    unfold covers. rewrite Ek. simpl.
    split; [|split]; intros; try discriminate.
    split; [apply in_or_app; right; simpl; auto|].
    exists data. rewrite dict_get_set_same. split; [reflexivity|]. congruence.
  - assert (Hfb : In f before) by (destruct Hf as [Hf|[Hf|[]]]; congruence).
    specialize (Hbefore f Hfb).
    destruct (dict_get k typeFields) as [[| |et [|]|et|eggs]|] eqn:Ek;
      try discriminate;
      try (inversion Hbody; subst; assumption);
      try (inversion Hbody; subst; clear Hbody;
           apply covers_more with (e := e); simpl; auto using incl_refl, incl_appl;
           fail).
    destruct (buildNestedFieldData eggs) as [data|] eqn:Ed; [|discriminate].
    simpl in Hbody. inversion Hbody; subst; clear Hbody.
    apply covers_more with (e := e); simpl; auto using incl_refl, incl_appl.
    now apply dict_get_set_other.
Qed.


Lemma _buildSchemaInfo_objectType schema info typename typeFields :
  _buildSchemaInfo schema = Return info ->
  dict_get typename schema = Some (OBJECT typeFields) ->
  exists entry, dict_get typename (objectTypes info) = Some entry
                /\ buildObjectTypeInfo typeFields = Return entry.
Proof.
  unfold _buildSchemaInfo. intros H Hget.
  assert (Hinv :
    forall tn, In tn ([] ++ dict_keys schema)%list ->
      forall tf, dict_get tn schema = Some (OBJECT tf) ->
      exists entry, dict_get tn (objectTypes info) = Some entry
                    /\ buildObjectTypeInfo tf = Return entry).
  { eapply (efold_invariant
              (fun before r => forall tn, In tn before ->
                 forall tf, dict_get tn schema = Some (OBJECT tf) ->
                 exists entry, dict_get tn (objectTypes r) = Some entry
                               /\ buildObjectTypeInfo tf = Return entry));
      [| |exact H]; [|intros tn []].
    intros before k r r' Hbefore Hbody tn Htn tf Htf. cbv beta in Hbody.
    apply in_app_or in Htn.
    destruct (dict_get k schema) as [[| |kf|kc]|] eqn:Ek; try discriminate.
    - inversion Hbody; subst. destruct Htn as [Htn|[<-|[]]]; [eauto | congruence].
    - inversion Hbody; subst. destruct Htn as [Htn|[<-|[]]]; [eauto | congruence].
    - destruct (buildObjectTypeInfo kf) as [entry|] eqn:Eb; [|discriminate].
      simpl in Hbody. inversion Hbody; subst; clear Hbody; simpl.
      destruct (String.eqb_spec k tn) as [->|Hne].
      + rewrite dict_get_set_same. exists entry. split; [reflexivity|].
        congruence.
      + rewrite dict_get_set_other by assumption.
        destruct Htn as [Htn|[<-|[]]]; [eauto | contradiction].
    - inversion Hbody; subst; simpl.
      destruct Htn as [Htn|[<-|[]]]; [eauto | congruence]. }
  apply Hinv; [|assumption]. simpl. eapply dict_get_In_keys; eauto.
Qed.

(** ** Own-data ingestion: missing fields *)

Lemma primitivesOf_Return typename objectType entry bound :
  primitivesOf typename objectType entry = Return bound ->
  (forall f, In f (primitiveFieldNames objectType) -> entry_get entry f <> None)
  /\ (forall f, In f (nestedFieldNames objectType) ->
        exists nested,
          entry_get entry f = Some nested
          /\ forall data, dict_get f (nestedFields objectType) = Some data ->
             forall e, In e (dict_keys (primitives data)) ->
                       egg_get nested e <> Return None).
Proof.
  unfold primitivesOf. intros H.
  destruct (efold _ (primitiveFieldNames objectType) _) as [bound1|] eqn:E1;
    [|discriminate].
  simpl in H. split.
  - intros f Hf.
    destruct (efold_Return_each _ _ _ E1 f Hf) as (s1 & s2 & Hbody).
    cbv beta in Hbody. destruct (entry_get entry f); [discriminate|discriminate].
  - intros f Hf.
    destruct (efold_Return_each _ _ _ H f Hf) as (s1 & s2 & Hbody).
    cbv beta in Hbody.
    destruct (entry_get entry f) as [nested|]; [|discriminate].
    exists nested. split; [reflexivity|]. intros data Hdata e He.
    unfold nestedFieldData in Hbody. rewrite Hdata in Hbody. simpl in Hbody.
    destruct (efold_Return_each _ _ _ Hbody e He) as (s3 & s4 & Hegg).
    cbv beta in Hegg.
    destruct (egg_get nested e) as [[v|]|]; simpl in Hegg; discriminate.
Qed.


Lemma checkObjectsExist_Ok typename batch db db' :
  checkObjectsExist typename batch db = Ok tt db' ->
  forall entry, In entry batch -> entry_typename entry = typename.
Proof.
  unfold checkObjectsExist. intros H entry Hin.
  destruct (forEach_Ok_each _ _ _ H entry Hin) as (a & b & Hbody).
  cbv beta in Hbody. apply bind_Ok in Hbody.
  destruct Hbody as (count & c & _ & Hrest).
  destruct (count =? 0); [discriminate|].
  destruct (String.eqb_spec (entry_typename entry) typename);
    [assumption | discriminate].
Qed.

(** What a returning own-data ingestion has done for each record. *)
Lemma updateOwnData_Ok m updateId batch db db' :
  _nontransactionallyUpdateOwnData m updateId batch db = Ok tt db' ->
  forall entry, In entry batch ->
  exists typeFields objectType,
    dict_get (entry_typename entry) (_schema m) = Some (OBJECT typeFields)
    /\ dict_get (entry_typename entry) (objectTypes (_schemaInfo m))
       = Some objectType
    /\ (exists bound,
           primitivesOf (entry_typename entry) objectType entry = Return bound)
    /\ (exists updateLink d1 d2,
           updateLinksOf m (entry_typename entry) objectType updateLink entry d1
           = Ok tt d2).
Proof.
  intros H entry Hin. unfold _nontransactionallyUpdateOwnData in H.
  destruct batch as [|first rest]; [contradiction|].
  destruct (dict_get (entry_typename first) (_schema m))
    as [[| |typeFields|typeClauses]|] eqn:Es; try discriminate;
    [|destruct (inherits (entry_typename first)); discriminate].
  apply bind_Ok in H. destruct H as ([] & db1 & Hcheck & H).
  apply bind_Ok in H. destruct H as ([] & db2 & Hlast & H).
  destruct (dict_get (entry_typename first) (objectTypes (_schemaInfo m)))
    as [objectType|] eqn:Eo; [|discriminate].
  apply bind_Ok in H. destruct H as ([] & db3 & Hprim & Hlinks).
  rewrite (checkObjectsExist_Ok _ _ _ Hcheck entry Hin).
  exists typeFields, objectType. repeat split; auto.
  - unfold updateAllPrimitives in Hprim.
    apply bind_Ok in Hprim. destruct Hprim as (updates & d & _ & Hprim).
    apply bind_Ok in Hprim. destruct Hprim as (update & d' & _ & Hprim).
    destruct (forEach_Ok_each _ _ _ Hprim entry Hin) as (a & b & Hbody).
    cbv beta in Hbody. apply bind_Ok in Hbody.
    destruct Hbody as (bound & c & Hlift & _).
    apply lift_Ok in Hlift. destruct Hlift as [Hb _]. eauto.
  - unfold updateAllLinks in Hlinks.
    apply bind_Ok in Hlinks. destruct Hlinks as (update & d & _ & Hlinks).
    destruct (forEach_Ok_each _ _ _ Hlinks entry Hin) as (a & b & Hbody).
    eauto.
Qed.


(** ** Freshness on extraction *)

Lemma is_child_of_In deps x y :
  is_child_of deps x y = true <-> In (x, y) deps.
Proof.
  unfold is_child_of. rewrite existsb_exists. split.
  - intros ([a b] & Hin & H). simpl in H. apply andb_true_iff in H.
    destruct H as [Ha Hb]. apply String.eqb_eq in Ha, Hb. now subst.
  - intros Hin. exists (x, y). split; [assumption|].
    simpl. now rewrite !String.eqb_refl.
Qed.

Lemma direct_dependencies_spec t x y :
  In (x, y) (direct_dependencies t) <-> depends_on t x y.
Proof.
  unfold direct_dependencies. rewrite in_app_iff, !in_flat_map. split.
  - intros [(l & Hl & H) | (c & Hc & H)].
    + destruct (l_child_id l) as [child|] eqn:E; [|contradiction].
      destruct H as [H|[]]. inversion H; subst. now apply depends_link.
    + apply in_flat_map in H. destruct H as (e & He & H).
      destruct (Z.eqb_spec (c_rowid c) (e_connection_id e)); [|contradiction].
      destruct (e_child_id e) as [child|] eqn:E; [|contradiction].
      destruct H as [H|[]]. inversion H; subst.
      now apply depends_entry with (e := e).
  - intros [l child Hl Hc | c e child Hc He Hid Hch].
    + left. exists l. split; [assumption|]. rewrite Hc. now left.
    + right. exists c. split; [assumption|]. apply in_flat_map.
      exists e. split; [assumption|]. rewrite Hid, Z.eqb_refl, Hch. now left.
Qed.

Lemma filter_partition_length {X} (p : X -> bool) (l : list X) :
  (length (filter p l) + length (filter (fun x => negb (p x)) l))%nat = length l.
Proof.
  induction l as [|a l IH]; simpl; [reflexivity|].
  destruct (p a); simpl; lia.
Qed.

Section Closure.

Variable t : Tables.
Variable rootId : ObjectId.

Let deps := direct_dependencies t.

Lemma closure_loop_closed fuel :
  forall queue remaining result,
    closure_invariant t rootId fuel queue remaining result ->
    let closure := closure_loop fuel deps queue remaining result in
    In rootId closure
    /\ (forall x y, In x closure -> In (x, y) deps -> In y closure)
    /\ (forall x, In x closure -> reachable t rootId x).
Proof.
  induction fuel as [|fuel IH]; intros queue remaining result Hinv;
    unfold closure_invariant in Hinv;
    destruct Hinv as (Hroot & Hclosed & Hcand & Hsound & Hfuel); simpl.
  - destruct queue; [|simpl in Hfuel; lia]. rewrite app_nil_r in *. auto.
  - destruct queue as [|x rest]; [rewrite app_nil_r in *; auto|].
    apply IH. unfold closure_invariant. repeat split.
    + rewrite <- !app_assoc. simpl. apply in_app_iff in Hroot.
      apply in_app_iff. destruct Hroot as [H|[H|H]]; simpl; auto.
      right. right. apply in_app_iff. auto.
    + intros a b Ha Hab. apply in_app_iff in Ha. rewrite <- !app_assoc. simpl.
      destruct Ha as [Ha|[<-|[]]].
      * specialize (Hclosed a b Ha Hab). apply in_app_iff in Hclosed.
        apply in_app_iff. destruct Hclosed as [H|[H|H]]; simpl; auto.
        right. right. apply in_app_iff. auto.
      * destruct (Hcand x b Hab) as [H|H].
        -- apply in_app_iff. right. right. apply in_app_iff. right.
           apply filter_In. split; [assumption|]. now apply is_child_of_In.
        -- apply in_app_iff in H. apply in_app_iff.
           destruct H as [H|[H|H]]; simpl; auto.
           right. right. apply in_app_iff. auto.
    + intros a b Hab. rewrite <- !app_assoc. simpl.
      destruct (Hcand a b Hab) as [H|H].
      * destruct (is_child_of deps x b) eqn:E.
        -- right. apply in_app_iff. right. right. apply in_app_iff. right.
           apply filter_In. auto.
        -- left. apply filter_In. rewrite E. auto.
      * right. apply in_app_iff in H. apply in_app_iff.
        destruct H as [H|[H|H]]; simpl; auto.
        right. right. apply in_app_iff. auto.
    + intros a Ha. rewrite <- !app_assoc in Ha. simpl in Ha.
      apply in_app_iff in Ha. destruct Ha as [Ha|[<-|Ha]].
      * apply Hsound. apply in_app_iff. auto.
      * apply Hsound. apply in_app_iff. simpl. auto.
      * apply in_app_iff in Ha. destruct Ha as [Ha|Ha].
        -- apply Hsound. apply in_app_iff. simpl. auto.
        -- apply filter_In in Ha. destruct Ha as [_ Ha].
           apply is_child_of_In in Ha.
           apply reachable_step with (x := x).
           ++ apply Hsound. apply in_app_iff. simpl. auto.
           ++ now apply direct_dependencies_spec.
    + rewrite length_app. simpl in Hfuel.
      pose proof (filter_partition_length (is_child_of deps x) remaining). lia.
Qed.

(** The ids [transitive_dependencies] computes are the reachable ones. *)
Lemma transitive_dependencies_spec x :
  In x (transitive_dependencies t rootId) <-> reachable t rootId x.
Proof.
  unfold transitive_dependencies. fold deps.
  set (remaining := filter (fun c => negb (String.eqb c rootId))
                           (nodup string_dec (map snd deps))).
  destruct (@closure_loop_closed (S (length remaining)) [rootId] remaining [])
    as (Hroot & Hclosed & Hsound).
  { unfold closure_invariant. simpl. split; [auto|]. split; [intros a b []|].
    split; [|split; [|apply Nat.le_refl]].
    - intros a b Hab. destruct (String.eqb_spec b rootId) as [->|Hne]; [auto|].
      left. apply filter_In. split.
      + apply nodup_In. apply in_map_iff. now exists (a, b).
      + now apply negb_true_iff, String.eqb_neq.
    - intros a [<-|[]]. apply reachable_root. }
  split; [apply Hsound|].
  induction 1 as [|a b _ IH Hdep]; [assumption|].
  apply (Hclosed a b IH). now apply direct_dependencies_spec.
Qed.

End Closure.

Lemma in_transitive_objects t rootId id typename :
  In (id, typename) (sql_transitive_objects t rootId)
  <-> exists o, In o (objects t) /\ o_id o = id /\ o_typename o = typename
                /\ reachable t rootId id.
Proof.
  unfold sql_transitive_objects. rewrite in_map_iff. split.
  - intros (o & Heq & Hin). inversion Heq; subst; clear Heq.
    apply filter_In in Hin. destruct Hin as [Hin Hex].
    apply existsb_exists in Hex. destruct Hex as (x & Hx & Hxo).
    apply String.eqb_eq in Hxo. subst x.
    exists o. repeat split; auto. now apply transitive_dependencies_spec.
  - intros (o & Hin & <- & <- & Hreach). exists o. split; [reflexivity|].
    apply filter_In. split; [assumption|]. apply existsb_exists.
    exists (o_id o). split; [now apply transitive_dependencies_spec|].
    apply String.eqb_refl.
Qed.

(** The rows of the freshness query are the never-fetched dependencies. *)
Lemma in_sql_never_updated t rootId entry :
  In entry (sql_never_updated t (sql_transitive_objects t rootId))
  <-> never_fetched t rootId entry.
Proof.
  unfold sql_never_updated, never_fetched. rewrite in_app_iff, !in_flat_map.
  split.
  - intros [([id tn] & Hrow & H) | ([id tn] & Hrow & H)];
      apply in_flat_map in H; destruct H as (o & Ho & H); simpl in H;
      apply in_transitive_objects in Hrow;
      destruct Hrow as (o' & _ & Hid' & _ & Hreach).
    + destruct (String.eqb_spec id (o_id o)) as [Hid|]; [|contradiction].
      destruct (o_last_update o) eqn:E; [contradiction|]. simpl in H.
      destruct H as [<-|[]]. simpl. rewrite <- Hid. split; [assumption|].
      exists o. auto.
    + destruct (String.eqb_spec id (o_id o)) as [Hid|]; [|contradiction].
      apply in_flat_map in H. destruct H as (c & Hc & H).
      destruct (String.eqb_spec (o_id o) (c_object_id c)) as [Hoc|];
        [|contradiction].
      destruct (c_last_update c) eqn:E; [contradiction|]. simpl in H.
      destruct H as [<-|[]]. simpl. rewrite <- Hid. split; [assumption|].
      exists o. repeat split; auto. exists c. repeat split; auto. congruence.
  - intros [Hreach (o & Ho & Hid & H)]. destruct entry as [id [fieldname|]];
      simpl in *.
    + destruct H as (c & Hc & Hcid & Hf & Hnull). right.
      exists (o_id o, o_typename o). split.
      * apply in_transitive_objects. exists o. repeat split; auto.
        now rewrite Hid.
      * apply in_flat_map. exists o. split; [assumption|]. simpl.
        rewrite String.eqb_refl. apply in_flat_map. exists c.
        split; [assumption|].
        rewrite Hid, <- Hcid, String.eqb_refl, Hnull, Hf. simpl. auto.
    + left. exists (o_id o, o_typename o). split.
      * apply in_transitive_objects. exists o. repeat split; auto.
        now rewrite Hid.
      * apply in_flat_map. exists o. split; [assumption|]. simpl.
        rewrite String.eqb_refl, H, Hid. simpl. auto.
Qed.

(** C8.  When some registered object transitively reachable from the
    root (through the links and the connection entries that have a child)
    was never updated, or some connection of such an object was never
    updated, [extract] throws and the database is as it was.  (On a
    connection that is not in a transaction) the message is the one of a
    never-fetched dependency: it names the root and the id of such an
    object, and says that its own data, or its connection of a given
    name, has never been fetched. *)
Theorem extract_never_fetched (JSON_parse : string -> Except Value)
    (m : Mirror) (rootId : ObjectId) (db : Db)
    (t : Tables) (entry : ObjectId * option Fieldname) :
  tables db = Some t ->
  never_fetched t rootId entry ->
  exists msg,
    extract JSON_parse m rootId db = Throw msg db
    /\ (inTransaction db = false ->
        exists reported,
          never_fetched t rootId reported
          /\ msg = JSON_stringify_string rootId ++ " transitively depends on "
                     ++ JSON_stringify_string (fst reported) ++ ", "
                     ++ "but that object's "
                     ++ match snd reported with
                        | None => "own data"
                        | Some fieldname =>
                            JSON_stringify_string fieldname ++ " connection"
                        end
                     ++ " has never been fetched").
Proof.
  intros Ht Hentry. apply in_sql_never_updated in Hentry.
  unfold extract, _inTransaction.
  destruct (inTransaction db) eqn:Hin.
  - eexists. split; [reflexivity | discriminate].
  - unfold bind, getTables. simpl. rewrite Ht.
    destruct (sql_never_updated t (sql_transitive_objects t rootId))
      as [|reported rest] eqn:E; [contradiction|].
    eexists. split; [reflexivity|]. intros _. exists reported. split.
    + apply in_sql_never_updated. rewrite E. now left.
    + reflexivity.
Qed.

(** ** The blacklist *)






Lemma efold_preserves {X S} (I : S -> Prop) (body : S -> X -> Except S)
    (xs : list X) :
  (forall x s s', In x xs -> I s -> body s x = Return s' -> I s') ->
  forall s0 s, I s0 -> efold body xs s0 = Return s -> I s.
Proof.
  induction xs as [|x xs IH]; simpl; intros Hstep s0 s H0 H.
  - inversion H; now subst.
  - destruct (body s0 x) as [s1|] eqn:E; simpl in H; [|discriminate].
    apply (IH (fun y a b Hy => Hstep y a b (or_intror Hy)) s1 s); eauto.
Qed.










Lemma getObject_Return allObjects id object :
  getObject allObjects id = Return object ->
  dict_get id allObjects = Some object.
Proof.
  unfold getObject. destruct (dict_get id allObjects); intros H;
    inversion H; now subst.
Qed.







Lemma _inTransaction_Ok {A} (fn : M A) db a db' :
  _inTransaction fn db = Ok a db' ->
  inTransaction db = false
  /\ exists db2,
       fn {| inTransaction := true; meta := meta db; tables := tables db |}
       = Ok a db2
       /\ db' = {| inTransaction := false; meta := meta db2;
                   tables := tables db2 |}.
Proof.
  unfold _inTransaction. destruct (inTransaction db); [discriminate|].
  destruct (fn _) as [a' db2|] eqn:E; [|discriminate].
  intros H. inversion H; subst. eauto.
Qed.





















(** ** Own-data ingestion: a nested field that is null *)

(** *** Names *)



Lemma no_dot_not_egg (f1 f2 : string) : ~ no_dot (f1 ++ "." ++ f2).
Proof.
  induction f1 as [|c f1 IH]; simpl.
  - intros [H _]. now apply H.
  - intros [_ H]. now apply IH.
Qed.

Lemma drop_last_append (s : string) (c : ascii) :
  drop_last (s ++ String c EmptyString) = s.
Proof.
  induction s as [|a s IH]; simpl; [reflexivity|].
  destruct (s ++ String c EmptyString)%string eqn:E.
  - destruct s; discriminate.
  - now rewrite IH.
Qed.

Lemma append_associative (a b c : string) :
  ((a ++ b) ++ c = a ++ b ++ c)%string.
Proof. induction a as [|x a IH]; simpl; [reflexivity | now rewrite IH]. Qed.

Lemma primitivesTableName_identifier typename tableName :
  _primitivesTableName typename = Return tableName ->
  sql_identifier tableName = "primitives_" ++ typename.
Proof.
  unfold _primitivesTableName. destruct (negb _); [discriminate|].
  intros H. inversion H; subst; clear H. unfold dquote.
  change (sql_identifier _)
    with (drop_last ("primitives_" ++ typename ++ String dquote_char EmptyString)).
  rewrite <- append_associative. apply drop_last_append.
Qed.

(** *** The parameters bound for a record *)

Lemma primitivesOf_id typename objectType entry bound :
  primitivesOf typename objectType entry = Return bound ->
  dict_get "id" bound = Some (Some (SqlText (entry_id entry))).
Proof.
  unfold primitivesOf. intros H.
  destruct (efold _ (primitiveFieldNames objectType) _) as [bound1|] eqn:E1;
    [|discriminate].
  simpl in H.
  assert (H1 : dict_get "id" bound1 = Some (Some (SqlText (entry_id entry)))).
  { refine (@efold_preserves _ _ (fun s => dict_get "id" s = _) _ _ _ _ _ _ E1);
      [|reflexivity].
    intros f s s' _ Hs Hbody. cbv beta in Hbody.
    destruct (entry_get entry f); [|discriminate].
    inversion Hbody; subst. rewrite dict_get_set_other; [assumption|].
    discriminate. }
  refine (@efold_preserves _ _ (fun s => dict_get "id" s = _) _ _ _ _ _ H1 H).
  intros f s s' _ Hs Hbody. cbv beta in Hbody.
  destruct (entry_get entry f) as [nested|]; [|discriminate].
  destruct (nestedFieldData objectType f "primitives") as [data|];
    [|discriminate].
  simpl in Hbody.
  refine (@efold_preserves _ _ (fun s => dict_get "id" s = _) _ _ _ _ _ _ Hbody).
  - intros e a a' _ Ha Hegg. cbv beta in Hegg.
    destruct (egg_get nested e) as [[v|]|]; try discriminate.
    simpl in Hegg.
    inversion Hegg; subst. rewrite dict_get_set_other; [assumption|].
    discriminate.
  - rewrite dict_get_set_other; [assumption|]. discriminate.
Qed.


(** *** The values assigned to a row *)

Lemma bound_parameter_Return name bindings v :
  bound_parameter name bindings = Return v
  <-> dict_get name bindings = Some (Some v).
Proof.
  unfold bound_parameter. destruct (dict_get name bindings) as [[w|]|];
    split; intros H; inversion H; reflexivity.
Qed.

Lemma assignments_values sets bound values :
  assignments sets bound = Return values ->
  Forall2 (fun set cv => fst cv = fst set
                         /\ dict_get (snd set) bound = Some (Some (snd cv)))
          sets values.
Proof.
  unfold assignments. intros H.
  refine (@efold_invariant _ _
            (fun before acc =>
               Forall2 (fun set cv =>
                          fst cv = fst set
                          /\ dict_get (snd set) bound = Some (Some (snd cv)))
                       before acc) _ _ _ [] _ _ _ H);
    [|constructor].
  intros before set acc acc' Hacc Hbody. cbv beta in Hbody.
  destruct (bound_parameter (snd set) bound) as [v|] eqn:Ev; [|discriminate].
  apply bound_parameter_Return in Ev. simpl in Hbody.
  inversion Hbody; subst. apply Forall2_app; [assumption|].
  constructor; [|constructor]. simpl. auto.
Qed.

Lemma assign_last values F v0 :
  (forall c v, In (c, v) values -> c = F -> v = v0) ->
  (exists v, In (F, v) values) ->
  forall row, dict_get F (assign values row) = Some v0.
Proof.
  unfold assign. induction values as [|[c v] values IH] using rev_ind;
    intros Hall [w Hw] row; [contradiction|].
  rewrite fold_left_app. simpl.
  destruct (String.eqb_spec c F) as [->|Hne].
  - rewrite (Hall F v); [apply dict_get_set_same | | reflexivity].
    apply in_or_app. right. simpl. auto.
  - rewrite dict_get_set_other by assumption.
    apply IH.
    + intros c' v' Hin. apply Hall. apply in_or_app. now left.
    + exists w. apply in_app_or in Hw. destruct Hw as [Hw|[Hw|[]]];
        [assumption | congruence].
Qed.

Lemma Forall2_In_right {X Y} (R : X -> Y -> Prop) (xs : list X) (ys : list Y) :
  Forall2 R xs ys -> forall y, In y ys -> exists x, In x xs /\ R x y.
Proof.
  induction 1 as [|x y xs ys HR _ IH]; intros y' Hin; [contradiction|].
  destruct Hin as [<-|Hin].
  - exists x. split; [now left | assumption].
  - destruct (IH y' Hin) as (x' & Hx & HR'). exists x'. split; [now right|].
    assumption.
Qed.

Lemma Forall2_In_left {X Y} (R : X -> Y -> Prop) (xs : list X) (ys : list Y) :
  Forall2 R xs ys -> forall x, In x xs -> exists y, In y ys /\ R x y.
Proof.
  induction 1 as [|x y xs ys HR _ IH]; intros x' Hin; [contradiction|].
  destruct Hin as [<-|Hin].
  - exists y. split; [now left | assumption].
  - destruct (IH x' Hin) as (y' & Hy & HR'). exists y'. split; [now right|].
    assumption.
Qed.

(** The statement of the third block leaves in the column of a nested
    field the value bound to its presence marker. *)
Lemma updates_marker objectType sets bound values F v0 :
  primitivesUpdates objectType = Return sets ->
  In F (nestedFieldNames objectType) ->
  no_dot F ->
  assignments sets bound = Return values ->
  dict_get (parameterNameFor.topLevelField F) bound = Some (Some v0) ->
  forall row, dict_get F (assign values row) = Some v0.
Proof.
  unfold primitivesUpdates. intros Hsets HF Hdot Hvalues Hbound.
  destruct (eggColumns objectType) as [eggs|]; [|discriminate].
  simpl in Hsets. inversion Hsets; subst sets; clear Hsets.
  apply assignments_values in Hvalues.
  apply assign_last.
  - intros c v Hin Hc.
    destruct (Forall2_In_right Hvalues _ Hin) as (set & Hset & Hfst & Hget).
    cbn [fst snd] in Hfst, Hget.
    apply in_app_or in Hset. destruct Hset as [Hset|Hset];
      [|apply in_app_or in Hset; destruct Hset as [Hset|Hset]];
      apply in_map_iff in Hset; destruct Hset as (x & <- & Hx);
      cbn [fst snd] in *.
    + subst. rewrite Hbound in Hget. now inversion Hget.
    + subst. rewrite Hbound in Hget. now inversion Hget.
    + exfalso. apply (no_dot_not_egg (fst x) (snd x)).
      unfold eggColumnName in Hfst. rewrite <- Hfst, Hc. exact Hdot.
  - assert (Hin : In (F, parameterNameFor.topLevelField F)
        (map (fun f => (f, parameterNameFor.topLevelField f))
             (primitiveFieldNames objectType)
         ++ map (fun f => (f, parameterNameFor.topLevelField f))
             (nestedFieldNames objectType)
         ++ map (fun pair => (eggColumnName pair,
                              parameterNameFor.nestedField (fst pair) (snd pair)))
             eggs)%list).
    { apply in_or_app. right. apply in_or_app. left.
      apply in_map_iff. exists F. auto. }
    destruct (Forall2_In_left Hvalues _ Hin) as ([c v] & Hcv & Hfst & _).
    cbn [fst snd] in Hfst. subst c. eauto.
Qed.

(** *** Invariants of the tables

    The rules of [hoare]. *)

Section Hoare.

Variable I : Tables -> Prop.

Lemma hoare_ret {A} (Q : A -> Prop) (a : A) : Q a -> hoare I Q (ret a).
Proof. intros H db Hdb. simpl. auto. Qed.

Lemma hoare_throw {A} (Q : A -> Prop) (msg : string) : hoare I Q (@throw A msg).
Proof. intros db Hdb. exact Logic.I. Qed.

Lemma hoare_lift {A} (c : Except A) : hoare I (fun a => c = Return a) (lift c).
Proof. destruct c; [now apply hoare_ret | apply hoare_throw]. Qed.

Lemma hoare_bind {A B} (Q : A -> Prop) (Q' : B -> Prop) (c : M A)
    (k : A -> M B) :
  hoare I Q c -> (forall a, Q a -> hoare I Q' (k a)) -> hoare I Q' (bind c k).
Proof.
  intros Hc Hk db Hdb. unfold bind. specialize (Hc db Hdb).
  destruct (c db) as [a db1|msg db1]; [|exact Logic.I].
  destruct Hc as [H1 Ha]. exact (Hk a Ha db1 H1).
Qed.


Lemma hoare_forEach {X} (xs : list X) (body : X -> M unit) :
  (forall x, In x xs -> hoare I anything (body x)) ->
  hoare I anything (forEach xs body).
Proof.
  induction xs as [|x xs IH]; simpl; intros H.
  - now apply hoare_ret.
  - apply hoare_bind with (Q := anything); [apply H; auto|].
    intros _ _. apply IH. auto.
Qed.

Lemma hoare_Ok {A} (Q : A -> Prop) (c : M A) db a db' :
  hoare I Q c -> holds I db -> c db = Ok a db' -> holds I db' /\ Q a.
Proof. intros H Hdb E. specialize (H db Hdb). now rewrite E in H. Qed.

End Hoare.

Lemma forEach_app_Ok {X} (xs ys : list X) (body : X -> M unit) :
  forall db db',
    forEach (xs ++ ys) body db = Ok tt db' ->
    exists d, forEach xs body db = Ok tt d /\ forEach ys body d = Ok tt db'.
Proof.
  induction xs as [|x xs IH]; simpl; intros db db' H.
  - exists db. auto.
  - apply bind_Ok in H. destruct H as ([] & d1 & Hx & Hrest).
    destruct (IH _ _ Hrest) as (d & Hxs & Hys). exists d. split; [|assumption].
    unfold bind. now rewrite Hx.
Qed.

Lemma forEach_split_Ok {X} (xs ys : list X) (x : X) (body : X -> M unit) :
  forall db db',
    forEach (xs ++ x :: ys) body db = Ok tt db' ->
    exists d1 d2,
      forEach xs body db = Ok tt d1
      /\ body x d1 = Ok tt d2
      /\ forEach ys body d2 = Ok tt db'.
Proof.
  intros db db' H. apply forEach_app_Ok in H. destruct H as (d1 & Hxs & H).
  cbn [forEach] in H. apply bind_Ok in H. destruct H as ([] & d2 & Hx & Hys).
  eauto.
Qed.

(** An invariant [I] of the tables is kept by the registrar and by the
    link updates of own-data ingestion as soon as it is kept by each kind
    of write they make: appending an object, appending the row of a new
    object to a table of primitives, appending a link without child,
    appending a connection, and giving a child to the links an update
    selects; [Fresh] is what is known of an id that is not registered,
    [GoodLink] what the link updates made must satisfy. *)
Section Invariant.

Variable m : Mirror.
Variable I : Tables -> Prop.
Variable Fresh : ObjectId -> Prop.
Variable GoodLink : LinkUpdate -> Prop.

Hypothesis I_fresh :
  forall t id, I t -> registered_typename t id = None -> Fresh id.
Hypothesis I_objects_insert :
  forall t o,
    I t ->
    I {| updates := updates t; objects := (objects t ++ [o])%list;
         links := links t; connections := connections t;
         connection_entries := connection_entries t;
         primitives_tables := primitives_tables t |}.
Hypothesis I_primitives_insert :
  forall t key table id values,
    I t -> Fresh id ->
    dict_get key (primitives_tables t) = Some table ->
    I (set_primitives_tables t
         (dict_set key
            {| pt_columns := pt_columns table;
               pt_rows := (pt_rows table
                             ++ [{| p_id := id; p_values := values |}])%list |}
            (primitives_tables t))).
Hypothesis I_links_insert :
  forall t rowid id fieldname,
    I t ->
    I {| updates := updates t; objects := objects t;
         links := (links t ++ [{| l_rowid := rowid; l_parent_id := id;
                                  l_fieldname := fieldname;
                                  l_child_id := None |}])%list;
         connections := connections t;
         connection_entries := connection_entries t;
         primitives_tables := primitives_tables t |}.
Hypothesis I_connections_insert :
  forall t c,
    I t ->
    I {| updates := updates t; objects := objects t; links := links t;
         connections := (connections t ++ [c])%list;
         connection_entries := connection_entries t;
         primitives_tables := primitives_tables t |}.
Hypothesis I_links_update :
  forall t args,
    I t -> GoodLink args ->
    I {| updates := updates t; objects := objects t;
         links :=
           map (fun l =>
                  if String.eqb (l_parent_id l) (parentId args)
                     && String.eqb (l_fieldname l) (link_fieldname args)
                  then
                    {| l_rowid := l_rowid l; l_parent_id := l_parent_id l;
                       l_fieldname := l_fieldname l;
                       l_child_id := childId args |}
                  else l)
               (links t);
         connections := connections t;
         connection_entries := connection_entries t;
         primitives_tables := primitives_tables t |}.

















End Invariant.

(** *** The presence marker of a null nested field *)

Lemma sql_update_primitives_Ok tableName sets bound db changes db' :
  sql_update_primitives tableName sets bound db = Ok changes db' ->
  exists t table values id,
    tables db = Some t
    /\ dict_get (sql_identifier tableName) (primitives_tables t) = Some table
    /\ assignments sets bound = Return values
    /\ dict_get "id" bound = Some (Some id)
    /\ tables db'
       = Some (set_primitives_tables t
                 (dict_set (sql_identifier tableName)
                    {| pt_columns := pt_columns table;
                       pt_rows :=
                         map (fun r =>
                                if sql_value_eqb (SqlText (p_id r)) id then
                                  {| p_id := p_id r;
                                     p_values := assign values (p_values r) |}
                                else r)
                             (pt_rows table) |}
                    (primitives_tables t)))
    /\ changes
       = Z.of_nat (length (filter (fun r => sql_value_eqb (SqlText (p_id r)) id)
                                  (pt_rows table))).
Proof.
  unfold sql_update_primitives. intros H.
  apply bind_Ok in H. destruct H as (t & d & Hget & H).
  apply getTables_Ok in Hget. destruct Hget as [Ht ->].
  destruct (dict_get (sql_identifier tableName) (primitives_tables t))
    as [table|] eqn:Etable; [|discriminate].
  apply bind_Ok in H. destruct H as (values & d & Hvalues & H).
  apply lift_Ok in Hvalues. destruct Hvalues as [Hvalues ->].
  destruct (bound_parameter "id" bound) as [id|] eqn:Eid; [|discriminate].
  apply bound_parameter_Return in Eid.
  apply bind_Ok in H. destruct H as ([] & d & Hput & H).
  unfold putTables in Hput. inversion Hput; subst d; clear Hput.
  unfold ret in H. inversion H; subst; clear H.
  exists t, table, values, id. simpl. repeat split; auto.
Qed.

Lemma single_update_Ok {Args} (stmt : Statement Args) update args db db' :
  _makeSingleUpdateFunction stmt = Return update ->
  update args db = Ok tt db' ->
  stmt_run stmt args db = Ok 1 db'.
Proof.
  unfold _makeSingleUpdateFunction. intros Hmake Hrun.
  destruct (stmt_returnsData stmt); [discriminate|].
  inversion Hmake; subst update; clear Hmake.
  apply bind_Ok in Hrun. destruct Hrun as (changes & d & Hrun & H).
  destruct (Z.eqb_spec changes 1) as [->|Hne]; simpl in H; [|discriminate].
  unfold ret in H. inversion H; subst. assumption.
Qed.

Lemma filter_one_In {X} (f : X -> bool) (l : list X) :
  Z.of_nat (length (filter f l)) = 1 -> exists x, In x l /\ f x = true.
Proof.
  intros H. destruct (filter f l) as [|x rest] eqn:E; [discriminate|].
  assert (Hin : In x (filter f l)) by (rewrite E; now left).
  apply filter_In in Hin. eauto.
Qed.




(** The first block changes nothing, and finds every record's object
    registered. *)
Lemma checkObjectsExist_registered typename batch :
  forall db db',
    checkObjectsExist typename batch db = Ok tt db' ->
    db' = db
    /\ forall entry, In entry batch -> holds (registered (entry_id entry)) db.
Proof.
  unfold checkObjectsExist.
  induction batch as [|first rest IH]; simpl; intros db db' H.
  - unfold ret in H. inversion H. split; [reflexivity | contradiction].
  - apply bind_Ok in H. destruct H as ([] & d1 & Hfirst & Hrest).
    apply bind_Ok in Hfirst. destruct Hfirst as (count & d0 & Hcount & Hfirst).
    unfold sql_count_objects in Hcount. apply bind_Ok in Hcount.
    destruct Hcount as (t & d & Hget & Hcount).
    apply getTables_Ok in Hget. destruct Hget as [Ht ->].
    unfold ret in Hcount. inversion Hcount; subst d0 count; clear Hcount.
    destruct (Z.eqb_spec
                (Z.of_nat (length (filter (fun o => String.eqb (o_id o)
                                                               (entry_id first))
                                          (objects t)))) 0) as [E|E];
      [discriminate|].
    destruct (negb _); [discriminate|].
    unfold ret in Hfirst. inversion Hfirst; subst d1; clear Hfirst.
    destruct (IH _ _ Hrest) as [-> Hall]. split; [reflexivity|].
    intros entry [<-|Hin]; [|auto].
    exists t. split; [assumption|]. unfold registered.
    destruct (filter _ (objects t)) as [|o os] eqn:Ef; [now elim E|].
    assert (Ho : In o (filter (fun o => String.eqb (o_id o) (entry_id first))
                              (objects t))) by (rewrite Ef; now left).
    apply filter_In in Ho. destruct Ho as [Ho Hid].
    apply String.eqb_eq in Hid. rewrite <- Hid. now apply in_map.
Qed.







(** *** The links of the node eggs of a null nested field *)









(** *** The names of a built object type *)





(** ** The writes of a mirror

    The rules of [triple]. *)

Lemma with_tables_same db t : tables db = Some t -> db = with_tables db t.
Proof. intros H. destruct db. simpl in H. now subst. Qed.

Lemma triple_ret {A} (P : Tables -> Prop) (Q : A -> Tables -> Prop) (a : A) :
  (forall t, P t -> Q a t) -> triple P (ret a) Q.
Proof.
  intros H db t Ht HP. simpl. exists t. split; [now apply with_tables_same|].
  auto.
Qed.

Lemma triple_throw {A} (P : Tables -> Prop) (Q : A -> Tables -> Prop) msg :
  triple P (@throw A msg) Q.
Proof. intros db t Ht HP. exact I. Qed.

Lemma triple_lift {A} (P : Tables -> Prop) (c : Except A) :
  triple P (lift c) (fun a t => c = Return a /\ P t).
Proof. destruct c; [apply triple_ret; auto | apply triple_throw]. Qed.

Lemma triple_bind {A B} (P : Tables -> Prop) (Mid : A -> Tables -> Prop)
    (Q : B -> Tables -> Prop) (c : M A) (k : A -> M B) :
  triple P c Mid -> (forall a, triple (Mid a) (k a) Q) ->
  triple P (bind c k) Q.
Proof.
  intros Hc Hk db t Ht HP. unfold bind. specialize (Hc db t Ht HP).
  destruct (c db) as [a db1|msg db1]; [|exact I].
  destruct Hc as (t1 & -> & HR).
  specialize (Hk a (with_tables db t1) t1 eq_refl HR).
  destruct (k a (with_tables db t1)); [|exact I].
  destruct Hk as (t2 & -> & HQ). exists t2. split; [reflexivity | exact HQ].
Qed.

Lemma triple_lift_bind {A B} (P : Tables -> Prop) (Q : B -> Tables -> Prop)
    (c : Except A) (k : A -> M B) :
  (forall a, c = Return a -> triple P (k a) Q) -> triple P (bind (lift c) k) Q.
Proof.
  intros H. destruct c as [a|msg]; simpl.
  - intros db t Ht HP. exact (H a eq_refl db t Ht HP).
  - intros db t Ht HP. exact I.
Qed.

Lemma triple_pure {A} (F : Prop) (P : Tables -> Prop)
    (Q : A -> Tables -> Prop) (c : M A) :
  (F -> triple P c Q) -> triple (fun t => F /\ P t) c Q.
Proof. intros H db t Ht [HF HP]. exact (H HF db t Ht HP). Qed.

Lemma triple_weaken {A} (P P' : Tables -> Prop) (Q Q' : A -> Tables -> Prop)
    (c : M A) :
  (forall t, P' t -> P t) -> (forall a t, Q a t -> Q' a t) ->
  triple P c Q -> triple P' c Q'.
Proof.
  intros HP HQ Hc db t Ht H. specialize (Hc db t Ht (HP t H)).
  destruct (c db); [|exact I]. destruct Hc as (t' & Ht' & Hq). eauto.
Qed.

Lemma triple_and {A} (P P' : Tables -> Prop) (Q Q' : A -> Tables -> Prop)
    (c : M A) :
  triple P c Q -> triple P' c Q' ->
  triple (fun t => P t /\ P' t) c (fun a t => Q a t /\ Q' a t).
Proof.
  intros H H' db t Ht [HP HP']. specialize (H db t Ht HP).
  specialize (H' db t Ht HP'). destruct (c db); [|exact I].
  destruct H as (t1 & Ht1 & HQ), H' as (t2 & Ht2 & HQ').
  rewrite Ht1 in Ht2. inversion Ht2; subst. eauto.
Qed.

Lemma triple_forEach {X} (P : Tables -> Prop) (xs : list X)
    (body : X -> M unit) :
  (forall x, In x xs -> triple P (body x) (fun _ => P)) ->
  triple P (forEach xs body) (fun _ => P).
Proof.
  induction xs as [|x xs IH]; simpl; intros H.
  - now apply triple_ret.
  - apply triple_bind with (Mid := fun _ => P); [apply H; auto|].
    intros _. apply IH. auto.
Qed.

Lemma triple_forEachWith {X S} (P : S -> Tables -> Prop) (xs : list X)
    (body : S -> X -> M S) :
  (forall s x, In x xs -> triple (P s) (body s x) P) ->
  forall s, triple (P s) (forEachWith xs s body) P.
Proof.
  induction xs as [|x xs IH]; simpl; intros H s.
  - now apply triple_ret.
  - apply triple_bind with (Mid := P); [apply H; auto|].
    intros s'. apply IH; auto.
Qed.

Lemma triple_Ok {A} (P : Tables -> Prop) (Q : A -> Tables -> Prop) (c : M A)
    db t a db' :
  triple P c Q -> tables db = Some t -> P t -> c db = Ok a db' ->
  exists t', db' = with_tables db t' /\ Q a t'.
Proof. intros H Ht HP E. specialize (H db t Ht HP). now rewrite E in H. Qed.

(** A transaction that returns keeps what its callback keeps. *)
Lemma _inTransaction_triple {A} (P : Tables -> Prop)
    (Q : A -> Tables -> Prop) (fn : M A) db a db' :
  triple P fn Q -> holds P db -> _inTransaction fn db = Ok a db' ->
  exists t', db' = with_tables db t' /\ Q a t'.
Proof.
  intros Hfn (t & Ht & HP) H. apply _inTransaction_Ok in H.
  destruct H as (Hin & db2 & Hrun & ->).
  eapply triple_Ok in Hrun; [| exact Hfn | exact Ht | exact HP].
  destruct Hrun as (t' & -> & HQ). exists t'. split; [|exact HQ].
  unfold with_tables. simpl. now rewrite Hin.
Qed.

Ltac triple_statement :=
  let db := fresh "db" in
  let t := fresh "t" in
  let Ht := fresh "Ht" in
  let HP := fresh "HP" in
  intros db t Ht HP;
  unfold bind, getTables, putTables, ret, throw;
  rewrite Ht; simpl;
  repeat (destruct_scrutinee; simpl; rewrite ?Ht; simpl; auto);
  try (eexists; split;
       [first [reflexivity | apply with_tables_same; eassumption]|]).

Ltac tthen X := apply triple_bind with (Mid := X).

Lemma existsb_false {X} (f : X -> bool) (l : list X) :
  existsb f l = false -> forall x, In x l -> f x = false.
Proof.
  intros H x Hx. destruct (f x) eqn:E; [|reflexivity].
  assert (existsb f l = true) by (apply existsb_exists; eauto). congruence.
Qed.

Lemma existsb_true {X} (f : X -> bool) (l : list X) :
  existsb f l = true -> exists x, In x l /\ f x = true.
Proof. apply existsb_exists. Qed.

Lemma registered_typename_None t id :
  registered_typename t id = None <-> ~ registered id t.
Proof.
  unfold registered_typename, registered. split.
  - intros H Hin. apply in_map_iff in Hin. destruct Hin as (o & Ho & Hin).
    destruct (find _ (objects t)) eqn:E; [discriminate|].
    pose proof (find_none _ _ E o Hin) as Hn. simpl in Hn.
    rewrite Ho, String.eqb_refl in Hn. discriminate.
  - intros H. destruct (find _ (objects t)) as [o|] eqn:E; [|reflexivity].
    apply find_some in E. destruct E as [Hin Heq].
    apply String.eqb_eq in Heq. exfalso. apply H. rewrite <- Heq.
    now apply in_map.
Qed.

Lemma registered_typename_Some t id typename :
  registered_typename t id = Some typename -> registered id t.
Proof.
  intros H. destruct (registered_typename t id) eqn:E; [|discriminate].
  unfold registered_typename in E.
  destruct (find _ (objects t)) as [o|] eqn:F; [|discriminate].
  apply find_some in F. destruct F as [Hin Heq]. apply String.eqb_eq in Heq.
  unfold registered. rewrite <- Heq. now apply in_map.
Qed.

(** Appending the row of an object that was not registered registers it
    under its typename, and changes the typename of no other. *)
Lemma registered_typename_insert t id typename id' last :
  registered_typename t id = None ->
  registered_typename
    {| updates := updates t;
       objects := (objects t ++ [{| o_id := id; o_typename := typename;
                                    o_last_update := last |}])%list;
       links := links t; connections := connections t;
       connection_entries := connection_entries t;
       primitives_tables := primitives_tables t |} id'
  = if String.eqb id id' then Some typename else registered_typename t id'.
Proof.
  unfold registered_typename. simpl. intros Hnone.
  induction (objects t) as [|o os IH]; simpl.
  - now destruct (String.eqb id id').
  - simpl in Hnone. destruct (String.eqb (o_id o) id) eqn:E; [discriminate|].
    destruct (String.eqb (o_id o) id') eqn:E'.
    + destruct (String.eqb_spec id id'); [|reflexivity].
      subst. congruence.
    + now apply IH.
Qed.

(** *** The registrar, write by write

    An invariant [I] of the tables is kept by the registrar as soon as it
    is kept by the four writes it makes, each under what the registrar
    has checked before it: the row of an object that is not registered,
    of a type the schema declares as an object type; then, for an object
    registered under a typename, its row in the table of primitives of
    the type, which has none for it; a link without child under a
    fieldname it has no link for; and a connection under a fieldname it
    has no connection for. *)
Section Registrar.

Variable m : Mirror.
Variable I : Tables -> Prop.
Variable typename : Typename.
Variable id : ObjectId.

Hypothesis I_object :
  forall t fields,
    I t -> registered_typename t id = None ->
    dict_get typename (_schema m) = Some (OBJECT fields) ->
    I {| updates := updates t;
         objects := (objects t ++ [{| o_id := id; o_typename := typename;
                                      o_last_update := None |}])%list;
         links := links t; connections := connections t;
         connection_entries := connection_entries t;
         primitives_tables := primitives_tables t |}.
Hypothesis I_primitives_row :
  forall t table,
    I t -> registered_typename t id = Some typename ->
    dict_get ("primitives_" ++ typename) (primitives_tables t) = Some table ->
    (forall r, In r (pt_rows table) -> p_id r <> id) ->
    I (set_primitives_tables t
         (dict_set ("primitives_" ++ typename)
            {| pt_columns := pt_columns table;
               pt_rows :=
                 (pt_rows table
                    ++ [{| p_id := id;
                           p_values :=
                             map (fun c => (c, SqlNull)) (pt_columns table) |}])%list |}
            (primitives_tables t))).
Hypothesis I_link :
  forall t fieldname,
    I t -> registered_typename t id = Some typename ->
    (forall l, In l (links t) -> l_parent_id l = id ->
               l_fieldname l <> fieldname) ->
    I {| updates := updates t; objects := objects t;
         links := (links t
                     ++ [{| l_rowid := next_rowid (map l_rowid (links t));
                            l_parent_id := id; l_fieldname := fieldname;
                            l_child_id := None |}])%list;
         connections := connections t;
         connection_entries := connection_entries t;
         primitives_tables := primitives_tables t |}.
Hypothesis I_connection :
  forall t fieldname,
    I t -> registered_typename t id = Some typename ->
    (forall c, In c (connections t) -> c_object_id c = id ->
               c_fieldname c <> fieldname) ->
    I {| updates := updates t; objects := objects t; links := links t;
         connections :=
           (connections t
              ++ [{| c_rowid := next_rowid (map c_rowid (connections t));
                     c_object_id := id; c_fieldname := fieldname;
                     c_last_update := None; c_total_count := None;
                     c_has_next_page := None; c_end_cursor := None |}])%list;
         connection_entries := connection_entries t;
         primitives_tables := primitives_tables t |}.

(** What holds while the rows of a new object are written. *)
Let J (t : Tables) : Prop :=
  I t /\ registered_typename t id = Some typename.

Lemma t_sql_insert_object fields :
  dict_get typename (_schema m) = Some (OBJECT fields) ->
  triple (fun t => I t /\ registered_typename t id = None)
         (sql_insert_object id typename) (fun _ => J).
Proof.
  intros Hschema. unfold sql_insert_object, triple, J. triple_statement.
  destruct HP as [HI Hnone]. split.
  - eapply I_object; eauto.
  - rewrite registered_typename_insert by assumption.
    now rewrite String.eqb_refl.
Qed.

Lemma t_sql_insert_primitives_row tableName :
  _primitivesTableName typename = Return tableName ->
  triple (J) (sql_insert_primitives_row tableName id)
         (fun _ => J).
Proof.
  intros Hname. apply primitivesTableName_identifier in Hname.
  unfold sql_insert_primitives_row, triple, J. rewrite Hname.
  triple_statement. destruct HP as [HI Hreg]. split; [|exact Hreg].
  apply I_primitives_row; auto.
  intros r Hr Heq.
  match goal with
  | H : existsb _ (pt_rows _) = false |- _ =>
      pose proof (existsb_false _ _ H r Hr) as Hn
  end.
  simpl in Hn. rewrite Heq, String.eqb_refl in Hn. discriminate.
Qed.

Lemma t_sql_insert_link fieldname :
  triple (J) (sql_insert_link id fieldname)
         (fun _ => J).
Proof.
  unfold sql_insert_link, triple, J. triple_statement.
  destruct HP as [HI Hreg]. split; [|exact Hreg].
  eapply I_link; eauto. intros l Hl Hp Hf.
  match goal with
  | H : existsb _ (links _) = false |- _ =>
      pose proof (existsb_false _ _ H l Hl) as Hn
  end.
  simpl in Hn. rewrite Hp, Hf, !String.eqb_refl in Hn. discriminate.
Qed.

Lemma t_sql_insert_connection fieldname :
  triple (J) (sql_insert_connection id fieldname)
         (fun _ => J).
Proof.
  unfold sql_insert_connection, triple, J. triple_statement.
  destruct HP as [HI Hreg]. split; [|exact Hreg].
  eapply I_connection; eauto. intros c Hc Hp Hf.
  match goal with
  | H : existsb _ (connections _) = false |- _ =>
      pose proof (existsb_false _ _ H c Hc) as Hn
  end.
  simpl in Hn. rewrite Hp, Hf, !String.eqb_refl in Hn. discriminate.
Qed.

Lemma t_registerObject :
  triple I (_nontransactionallyRegisterObject m typename id)
         (fun _ t => I t /\ registered_typename t id = Some typename).
Proof.
  unfold _nontransactionallyRegisterObject.
  tthen (fun a t => I t /\ registered_typename t id = a).
  { unfold sql_select_typename, triple. triple_statement. auto. }
  intros [existing|].
  - destruct (String.eqb_spec existing typename);
      [subst; now apply triple_ret | apply triple_throw].
  - pose proof t_sql_insert_object as Hobject.
    destruct (dict_get typename (_schema m)) as [[| |fields|typeClauses]|];
      try apply triple_throw; try (undeclared ltac:(apply triple_throw)).
    tthen (fun _ : unit => J); [now apply (Hobject fields)|]. intros _.
    apply triple_lift_bind. intros tableName Hname.
    tthen (fun _ : unit => J);
      [now apply t_sql_insert_primitives_row|]. intros _.
    destruct (dict_get typename (objectTypes (_schemaInfo m))) as [objectType|];
      [|apply triple_throw].
    tthen (fun _ : unit => J).
    { apply triple_forEach. intros f _. apply t_sql_insert_link. }
    intros _.
    tthen (fun _ : unit => J).
    { apply triple_forEach. intros parent _.
      apply triple_lift_bind. intros data _.
      apply triple_forEach. intros child _. apply t_sql_insert_link. }
    intros _.
    apply triple_forEach. intros f _. apply t_sql_insert_connection.
Qed.

End Registrar.

(** What the registrar keeps whatever it registers: the children known,
    the connections there are, and the tables it does not write to. *)
Lemma registerObject_known_child m child typename id :
  triple (known_child m child)
         (_nontransactionallyRegisterObject m typename id)
         (fun _ => known_child m child).
Proof.
  eapply triple_weaken;
    [| | apply t_registerObject with (I := known_child m child)];
    [auto | intros a t H; apply H | | | |];
    intros; destruct child as [c|]; simpl in *; auto;
    unfold registered in *; simpl; try rewrite map_app, in_app_iff; tauto.
Qed.

Lemma registerObject_has_connection m connectionId typename id :
  triple (has_connection connectionId)
         (_nontransactionallyRegisterObject m typename id)
         (fun _ => has_connection connectionId).
Proof.
  eapply triple_weaken;
    [| | apply t_registerObject with (I := has_connection connectionId)];
    [auto | intros a t H; apply H | | | |];
    unfold has_connection; simpl; intros; auto.
  destruct H as (c & Hc & Hr). exists c. rewrite in_app_iff. auto.
Qed.

Lemma registerObject_entries m (K : list EntryRow -> Prop) typename id :
  triple (fun t => K (connection_entries t))
         (_nontransactionallyRegisterObject m typename id)
         (fun _ t => K (connection_entries t)).
Proof.
  eapply triple_weaken;
    [| | apply t_registerObject with (I := fun t => K (connection_entries t))];
    [auto | intros a t H; apply H | | | |]; simpl; auto.
Qed.

Lemma first_index_entries t t' connectionId :
  connection_entries t' = connection_entries t ->
  first_index t' connectionId = first_index t connectionId.
Proof. unfold first_index, entries_of. now intros ->. Qed.

Lemma max_of_app (zs : list Z) (z : Z) :
  (forall y, In y zs -> y < z) -> max_of (zs ++ [z]) = Some z.
Proof.
  induction zs as [|y zs IH]; simpl; intros H; [reflexivity|].
  rewrite IH by auto. f_equal. specialize (H y (or_introl eq_refl)). lia.
Qed.

Lemma first_index_above t connectionId e :
  In e (connection_entries t) -> e_connection_id e = connectionId ->
  e_idx e < first_index t connectionId.
Proof.
  intros Hin Hc. unfold first_index.
  assert (Hi : In (e_idx e) (map e_idx (entries_of t connectionId))).
  { apply in_map. unfold entries_of. apply filter_In. split; [assumption|].
    now apply Z.eqb_eq. }
  destruct (max_of_upper _ _ Hi) as (w & -> & Hle). lia.
Qed.

(** The index after an entry appended at the first index. *)
Lemma first_index_insert t connectionId rowid child :
  first_index
    {| updates := updates t; objects := objects t; links := links t;
       connections := connections t;
       connection_entries :=
         (connection_entries t
            ++ [{| e_rowid := rowid; e_connection_id := connectionId;
                   e_idx := first_index t connectionId;
                   e_child_id := child |}])%list;
       primitives_tables := primitives_tables t |} connectionId
  = first_index t connectionId + 1.
Proof.
  unfold first_index at 1, entries_of. simpl.
  rewrite filter_app. simpl. rewrite Z.eqb_refl, map_app. simpl.
  rewrite max_of_app; [reflexivity|].
  intros y Hy. apply in_map_iff in Hy. destruct Hy as (e & <- & He).
  apply filter_In in He. destruct He as [He Hc]. apply Z.eqb_eq in Hc.
  now apply first_index_above.
Qed.

(** *** The database a constructor makes *)

Lemma createPrimitivesTable_blank typename type :
  triple blank (createPrimitivesTable typename type) (fun _ => blank).
Proof.
  unfold createPrimitivesTable.
  do 3 (tthen (fun (_ : unit) => blank);
        [eapply triple_weaken; [| | apply (triple_lift blank)]; simpl; tauto|];
        intros _).
  apply triple_lift_bind. intros tableName _.
  apply triple_lift_bind. intros eggs _.
  unfold sql_create_primitives_table, triple. triple_statement.
  destruct HP as (Hu & Ho & Hl & Hc & He & Hp). unfold blank. simpl.
  repeat split; auto.
  intros key table Hin. apply in_app_iff in Hin. destruct Hin as [Hin|[Hin|[]]].
  - eauto.
  - now inversion Hin.
Qed.

(** The constructor on an empty database: the mirror it returns has the
    schema, the schema info built from it and the blacklist built from
    the list; the database it leaves is not in a transaction, holds the
    encoding of the configuration, and has blank tables. *)
Lemma Mirror_constructor_Ok (stringify : Config -> string) schema blacklist
    m db :
  Mirror_constructor stringify schema blacklist empty_db = Ok m db ->
  _schema m = schema
  /\ _buildSchemaInfo schema = Return (_schemaInfo m)
  /\ _blacklistedIds m
     = fold_left (fun result id => dict_set id true result) blacklist []
  /\ inTransaction db = false
  /\ meta db = Some (Some (blob_of stringify m))
  /\ holds blank db.
Proof.
  intros H. unfold Mirror_constructor in H.
  apply bind_Ok in H. destruct H as (schemaInfo & db0 & Hinfo & H).
  apply lift_Ok in Hinfo. destruct Hinfo as [Hinfo ->].
  apply bind_Ok in H. destruct H as ([] & db1 & Hinit & Hret).
  unfold ret in Hret. inversion Hret; subst; clear Hret. simpl.
  repeat (split; [auto; fail|]).
  unfold _initialize in Hinit. apply _inTransaction_Ok in Hinit.
  destruct Hinit as (_ & db2 & Hinit & ->).
  unfold bind, sql_create_meta_if_not_exists, sql_select_config, sql_insert_meta,
    sql_create_structural_tables in Hinit. simpl in Hinit.
  eapply triple_Ok with (P := blank) (Q := fun _ => blank) in Hinit.
  - destruct Hinit as (t' & -> & Hblank). simpl. repeat split; auto.
    exists t'. auto.
  - apply triple_forEach. intros typename _.
    destruct (dict_get typename _);
      [now apply createPrimitivesTable_blank | apply triple_throw].
  - reflexivity.
  - unfold blank, empty_tables. simpl. repeat split; auto. intros ? ? [].
Qed.

(** *** The links of a record

    An invariant [I] of the tables that the registrar keeps is kept by
    the link updates of a record as soon as it is kept by giving a known
    child to the links an update selects, for the updates that satisfy
    [G]; and the updates of the record satisfy [G]. *)
Section Links.

Variable m : Mirror.
Variable I : Tables -> Prop.
Variable G : LinkUpdate -> Prop.

Hypothesis I_register :
  forall typename id,
    triple I (_nontransactionallyRegisterObject m typename id) (fun _ => I).
Hypothesis I_link_child :
  forall t args,
    I t -> known_child m (childId args) t -> G args ->
    I {| updates := updates t; objects := objects t;
         links :=
           map (fun l =>
                  if String.eqb (l_parent_id l) (parentId args)
                     && String.eqb (l_fieldname l) (link_fieldname args)
                  then
                    {| l_rowid := l_rowid l; l_parent_id := l_parent_id l;
                       l_fieldname := l_fieldname l;
                       l_child_id := childId args |}
                  else l)
               (links t);
         connections := connections t;
         connection_entries := connection_entries t;
         primitives_tables := primitives_tables t |}.

(** The registrar on a node of a response: the child it gives is
    known. *)
Lemma t_registerNodeFieldResult (K : Tables -> Prop) result :
  (forall typename id,
      triple K (_nontransactionallyRegisterObject m typename id) (fun _ => K)) ->
  triple (fun t => I t /\ K t)
         (_nontransactionallyRegisterNodeFieldResult m result)
         (fun a t => (I t /\ K t) /\ a = resolved m result /\ known_child m a t).
Proof.
  intros HK.
  unfold _nontransactionallyRegisterNodeFieldResult, resolved.
  destruct result as [r|]; [|apply triple_ret; simpl; auto].
  assert (Hreg :
    triple (fun t => I t /\ K t)
      (_nontransactionallyRegisterObject m (ref_typename r) (ref_id r) ;;;
       ret (Some (ref_id r)))
      (fun a t => (I t /\ K t) /\ a = Some (ref_id r)
                  /\ registered (ref_id r) t)).
  { tthen (fun (_ : unit) t => (I t /\ K t) /\ registered (ref_id r) t).
    - eapply triple_weaken;
        [| | apply (triple_and
                      (triple_and (I_register (ref_typename r) (ref_id r))
                                  (HK (ref_typename r) (ref_id r)))
                      (@t_registerObject m (fun _ => True)
                         (ref_typename r) (ref_id r)
                         ltac:(auto) ltac:(auto) ltac:(auto) ltac:(auto)))].
      + simpl. tauto.
      + simpl. intros _ t [H1 [_ H2]]. split; [assumption|].
        eapply registered_typename_Some; eauto.
    - intros _. apply triple_ret. tauto. }
  destruct (blacklisted m (ref_id r)) eqn:Eb;
    [apply triple_ret; simpl; tauto|].
  eapply triple_weaken; [| | exact Hreg]; [auto|].
  intros a t (H1 & -> & H3); simpl; repeat split; try tauto; congruence.
Qed.

Lemma t_registerNode result :
  triple I (_nontransactionallyRegisterNodeFieldResult m result)
         (fun a t => I t /\ a = resolved m result /\ known_child m a t).
Proof.
  eapply triple_weaken;
    [| | apply t_registerNodeFieldResult with (K := fun _ => True)].
  - simpl. auto.
  - simpl. tauto.
  - intros typename id. eapply triple_weaken;
      [| | apply (@t_registerObject m (fun _ => True) typename id
                    ltac:(auto) ltac:(auto) ltac:(auto) ltac:(auto))];
      simpl; auto.
Qed.

Lemma t_single_update {Args} (stmt : Statement Args) update args
    (P : Tables -> Prop) :
  _makeSingleUpdateFunction stmt = Return update ->
  triple P (stmt_run stmt args) (fun _ => I) ->
  triple P (update args) (fun _ => I).
Proof.
  unfold _makeSingleUpdateFunction. destruct (stmt_returnsData stmt);
    [discriminate|].
  intros H Hrun. inversion H; subst; clear H.
  tthen (fun (_ : Z) => I); [exact Hrun|]. intros changes.
  destruct (negb (changes =? 1)); [apply triple_throw | now apply triple_ret].
Qed.

Lemma t_sql_update_link args :
  G args ->
  triple (fun t => I t /\ known_child m (childId args) t)
         (sql_update_link args) (fun _ => I).
Proof.
  intros Hgood. unfold sql_update_link, triple. triple_statement.
  destruct HP. now apply I_link_child.
Qed.

Lemma t_registerNodeValue link :
  triple I (registerNodeFieldValue m link)
         (fun a t => I t /\ link_child m link = Some a /\ known_child m a t).
Proof.
  unfold registerNodeFieldValue, link_child. destruct link as [value|json path].
  - destruct (asNodeFieldResult value) as [result|msg].
    + eapply triple_weaken; [| | apply t_registerNode]; [auto|].
      intros a t (HI & -> & Hknown). auto.
    + destruct (blacklisted m (id_key value));
        [apply triple_ret; simpl; auto | apply triple_throw].
  - destruct (blacklisted m "undefined");
      [apply triple_ret; simpl; auto | apply triple_throw].
Qed.

(** One link of a record: what the record holds is given to the
    registrar, and the link is given the child. *)
Lemma t_link updateLink id fieldname link :
  _makeSingleUpdateFunction updateLink_statement = Return updateLink ->
  (forall child,
      link_child m link = Some child ->
      G {| parentId := id; link_fieldname := fieldname; childId := child |}) ->
  triple I
    (childId <- registerNodeFieldValue m link ;;
     updateLink {| parentId := id; link_fieldname := fieldname;
                   childId := childId |})
    (fun _ => I).
Proof.
  intros Hupdate Hgood.
  tthen (fun a t => I t /\ link_child m link = Some a /\ known_child m a t);
    [apply t_registerNodeValue|].
  intros child. apply triple_weaken
    with (P := fun t => link_child m link = Some child
                        /\ (I t /\ known_child m child t))
         (Q := fun (_ : unit) => I); [tauto | auto |].
  apply triple_pure. intros Hchild.
  eapply t_single_update; [exact Hupdate|]. simpl.
  apply (@t_sql_update_link
           {| parentId := id; link_fieldname := fieldname;
              childId := child |}).
  now apply Hgood.
Qed.

Lemma t_updateEggLinksOf typename objectType updateLink entry nestFieldname :
  _makeSingleUpdateFunction updateLink_statement = Return updateLink ->
  (forall args, entry_link m entry args -> G args) ->
  triple I
    (updateEggLinksOf m typename objectType updateLink entry nestFieldname)
    (fun _ => I).
Proof.
  intros Hupdate Hgood.
  unfold updateEggLinksOf. apply triple_lift_bind. intros data _.
  apply triple_forEach. intros childFieldname _.
  apply triple_lift_bind. intros [link|] Hegg; [|apply triple_throw].
  apply t_link; [assumption|]. intros child Hchild. apply Hgood.
  now apply entry_link_egg with (link := link).
Qed.

Lemma t_updateLinksOf typename objectType updateLink entry :
  _makeSingleUpdateFunction updateLink_statement = Return updateLink ->
  (forall args, entry_link m entry args -> G args) ->
  triple I (updateLinksOf m typename objectType updateLink entry) (fun _ => I).
Proof.
  intros Hupdate Hgood. unfold updateLinksOf.
  tthen (fun _ : unit => I).
  { apply triple_forEach. intros fieldname _.
    destruct (entry_get entry fieldname) as [link|] eqn:Eget;
      [|apply triple_throw].
    apply t_link; [assumption|]. intros child Hchild. apply Hgood.
    now apply entry_link_field with (link := link). }
  intros _. apply triple_forEach. intros nestFieldname _.
  now apply t_updateEggLinksOf.
Qed.

Lemma t_updateAllLinks typename objectType queryResult :
  (forall entry args,
      In entry queryResult -> entry_link m entry args -> G args) ->
  triple I (updateAllLinks m typename objectType queryResult) (fun _ => I).
Proof.
  intros Hgood.
  unfold updateAllLinks. apply triple_lift_bind. intros updateLink Hupdate.
  apply triple_forEach. intros entry Hin. apply t_updateLinksOf; eauto.
Qed.

End Links.


(** *** The ingesters, write by write

    An invariant [I] of the tables that the registrar keeps is kept by
    the ingesters under an update as soon as it is kept by the other
    writes they make, each under what the code has established before
    it: the update of registered objects set to the update, which
    exists; values assigned to the rows of an id in a table of
    primitives; a known child given to links; the columns of a
    connection set with the update, which exists, and [hasNextPage] as
    0 or 1; and an entry appended to a connection that exists, at its
    first free index, with a known child. *)
Section Ingesters.

Variable m : Mirror.
Variable I : Tables -> Prop.
Variable updateId : UpdateId.

Hypothesis I_register :
  forall typename id,
    triple I (_nontransactionallyRegisterObject m typename id) (fun _ => I).
Hypothesis I_last_update :
  forall t objectId,
    I t ->
    (registered objectId t -> update_exists t updateId = true) ->
    I {| updates := updates t;
         objects :=
           map (fun o =>
                  if String.eqb (o_id o) objectId then
                    {| o_id := o_id o; o_typename := o_typename o;
                       o_last_update := Some updateId |}
                  else o)
               (objects t);
         links := links t; connections := connections t;
         connection_entries := connection_entries t;
         primitives_tables := primitives_tables t |}.
Hypothesis I_primitives :
  forall t key table values id,
    I t ->
    dict_get key (primitives_tables t) = Some table ->
    I (set_primitives_tables t
         (dict_set key
            {| pt_columns := pt_columns table;
               pt_rows :=
                 map (fun r =>
                        if sql_value_eqb (SqlText (p_id r)) id then
                          {| p_id := p_id r;
                             p_values := assign values (p_values r) |}
                        else r)
                     (pt_rows table) |}
            (primitives_tables t))).
Hypothesis I_link_child :
  forall t args,
    I t -> known_child m (childId args) t ->
    I {| updates := updates t; objects := objects t;
         links :=
           map (fun l =>
                  if String.eqb (l_parent_id l) (parentId args)
                     && String.eqb (l_fieldname l) (link_fieldname args)
                  then
                    {| l_rowid := l_rowid l; l_parent_id := l_parent_id l;
                       l_fieldname := l_fieldname l;
                       l_child_id := childId args |}
                  else l)
               (links t);
         connections := connections t;
         connection_entries := connection_entries t;
         primitives_tables := primitives_tables t |}.
Hypothesis I_connection_update :
  forall t total hasNext cursor connectionId,
    I t ->
    (has_connection connectionId t -> update_exists t updateId = true) ->
    hasNext = 0 \/ hasNext = 1 ->
    I {| updates := updates t; objects := objects t; links := links t;
         connections :=
           map (fun c =>
                  if c_rowid c =? connectionId then
                    {| c_rowid := c_rowid c; c_object_id := c_object_id c;
                       c_fieldname := c_fieldname c;
                       c_last_update := Some updateId;
                       c_total_count := Some total;
                       c_has_next_page := Some hasNext;
                       c_end_cursor := cursor |}
                  else c)
               (connections t);
         connection_entries := connection_entries t;
         primitives_tables := primitives_tables t |}.
Hypothesis I_entry :
  forall t connectionId child,
    I t -> has_connection connectionId t -> known_child m child t ->
    I {| updates := updates t; objects := objects t; links := links t;
         connections := connections t;
         connection_entries :=
           (connection_entries t
              ++ [{| e_rowid := next_rowid (map e_rowid (connection_entries t));
                     e_connection_id := connectionId;
                     e_idx := first_index t connectionId;
                     e_child_id := child |}])%list;
         primitives_tables := primitives_tables t |}.

Lemma t_checkObjectsExist typename queryResult :
  triple I (checkObjectsExist typename queryResult) (fun _ => I).
Proof.
  unfold checkObjectsExist. apply triple_forEach. intros entry _.
  tthen (fun _ : Z => I).
  { unfold sql_count_objects, triple. triple_statement. assumption. }
  intros count. destruct (count =? 0); [apply triple_throw|].
  destruct (negb _); [apply triple_throw | now apply triple_ret].
Qed.

Lemma t_setLastUpdates queryResult :
  triple I (setLastUpdates updateId queryResult) (fun _ => I).
Proof.
  unfold setLastUpdates. apply triple_lift_bind. intros update Hupdate.
  apply triple_forEach. intros entry _.
  eapply t_single_update; [exact Hupdate|]. simpl.
  unfold sql_update_last_update, triple. triple_statement.
  apply I_last_update; [assumption|]. intros Hreg.
  match goal with
  | H : _ && _ = false |- _ =>
      apply andb_false_iff in H; destruct H as [Hg|Hg]
  end.
  - exfalso. unfold registered in Hreg. apply in_map_iff in Hreg.
    destruct Hreg as (o & Ho & Hin).
    pose proof (existsb_false _ _ Hg o Hin) as Hn. simpl in Hn.
    rewrite Ho, String.eqb_refl in Hn. discriminate.
  - now apply negb_false_iff in Hg.
Qed.

Lemma t_updateAllPrimitives typename objectType queryResult :
  triple I (updateAllPrimitives typename objectType queryResult) (fun _ => I).
Proof.
  unfold updateAllPrimitives. apply triple_lift_bind. intros sets _.
  tthen (fun (update : Bindings -> M unit) t =>
           (forall bound, triple I (update bound) (fun _ => I)) /\ I t).
  - destruct sets as [|set sets].
    + apply triple_ret. intros t Ht. split; [|assumption].
      intros bound. now apply triple_ret.
    + apply triple_lift_bind. intros tableName _.
      tthen (fun _ : unit => I).
      { unfold sql_prepare_update_primitives, triple. triple_statement.
        assumption. }
      intros _.
      destruct (_makeSingleUpdateFunction _) as [update|msg] eqn:Eu;
        [|apply triple_throw].
      apply triple_ret. intros t Ht. split; [|assumption].
      intros bound. eapply t_single_update; [exact Eu|]. simpl.
      intros db t0 Ht0 HP. unfold sql_update_primitives, bind, getTables.
      rewrite Ht0.
      destruct (dict_get (sql_identifier tableName) (primitives_tables t0))
        as [table|] eqn:Et; [|exact Logic.I].
      destruct (assignments (set :: sets) bound) as [values|msg];
        simpl; [|exact Logic.I].
      destruct (bound_parameter "id" bound) as [id|]; simpl;
        [|exact Logic.I].
      eexists; split; [reflexivity|]. now apply I_primitives.
  - intros update. apply triple_pure. intros Hupdate.
    apply triple_forEach. intros entry _.
    apply triple_lift_bind. intros bound _. apply Hupdate.
Qed.

Lemma t_updateOwnData queryResult :
  triple I (_nontransactionallyUpdateOwnData m updateId queryResult)
         (fun _ => I).
Proof.
  unfold _nontransactionallyUpdateOwnData.
  destruct queryResult as [|first rest]; [now apply triple_ret|].
  destruct (dict_get _ (_schema m)) as [[| |fields|typeClauses]|];
    try apply triple_throw; try (undeclared ltac:(apply triple_throw)).
  tthen (fun _ : unit => I); [apply t_checkObjectsExist|]. intros _.
  tthen (fun _ : unit => I); [apply t_setLastUpdates|]. intros _.
  destruct (dict_get _ (objectTypes (_schemaInfo m))) as [objectType|];
    [|apply triple_throw].
  tthen (fun _ : unit => I); [apply t_updateAllPrimitives|]. intros _.
  apply t_updateAllLinks with (G := fun _ => True); auto.
Qed.

Lemma has_connection_rowid t objectId fieldname connectionId :
  connection_rowid t objectId fieldname = Some connectionId ->
  has_connection connectionId t.
Proof.
  unfold connection_rowid, has_connection.
  destruct (find _ (connections t)) as [c|] eqn:E; [|discriminate].
  simpl. intros H. inversion H; subst. apply find_some in E.
  exists c. tauto.
Qed.

Lemma t_sql_update_connection total hasNext cursor connectionId :
  hasNext = 0 \/ hasNext = 1 ->
  triple (fun t => I t /\ has_connection connectionId t)
         (sql_update_connection updateId total hasNext cursor connectionId)
         (fun _ t => I t /\ has_connection connectionId t).
Proof.
  intros Hnext. unfold sql_update_connection, triple. triple_statement.
  destruct HP as [HI Hrow]. split.
  - apply I_connection_update; [assumption | | assumption].
    intros _.
    match goal with
    | H : _ && _ = false |- _ =>
        apply andb_false_iff in H; destruct H as [Hg|Hg]
    end.
    + exfalso. destruct Hrow as (c & Hc & Hr).
      pose proof (existsb_false _ _ Hg c Hc) as Hn. simpl in Hn.
      rewrite Hr, Z.eqb_refl in Hn. discriminate.
    + now apply negb_false_iff in Hg.
  - destruct Hrow as (c & Hc & Hr). unfold has_connection. simpl.
    eexists. split; [apply in_map_iff; exists c; split; [reflexivity|exact Hc]|].
    destruct (c_rowid c =? connectionId); simpl; assumption.
Qed.

Lemma t_updateConnection objectId fieldname queryResult :
  triple I
    (_nontransactionallyUpdateConnection m updateId objectId fieldname
       queryResult)
    (fun _ => I).
Proof.
  unfold _nontransactionallyUpdateConnection.
  tthen (fun a t => I t /\ connection_rowid t objectId fieldname = a).
  { unfold sql_select_connection_rowid, triple. triple_statement. auto. }
  intros [connectionId|]; [|apply triple_throw].
  tthen (fun (_ : unit) t => I t /\ has_connection connectionId t).
  { eapply triple_weaken; [| | apply t_sql_update_connection].
    - intros t [HI Hrow]. split; [exact HI|].
      eapply has_connection_rowid; eauto.
    - auto.
    - destruct (hasNextPage _); auto. }
  intros _.
  pose (P := fun (s : Z) (t : Tables) =>
               I t /\ has_connection connectionId t
               /\ first_index t connectionId = s).
  tthen P.
  { intros db t Ht HP. unfold sql_select_next_index, bind, getTables, ret.
    rewrite Ht. eexists; split; [apply with_tables_same; eassumption|].
    destruct HP. unfold P, first_index. repeat split; auto.
    destruct (max_of _); lia. }
  intros nextIndex.
  tthen P; [|intros s; apply triple_ret; unfold P; tauto].
  apply triple_forEachWith. intros s node _.
  tthen (fun a t => P s t /\ known_child m a t).
  { eapply triple_weaken;
      [| | apply t_registerNodeFieldResult
             with (I := I)
                  (K := fun t => has_connection connectionId t
                                 /\ first_index t connectionId = s)
                  (result := node)].
    - unfold P. tauto.
    - unfold P. simpl. tauto.
    - exact I_register.
    - intros typename id.
      apply triple_and; [apply registerObject_has_connection|].
      apply (registerObject_entries m
               (fun es => match max_of (map e_idx
                                          (filter (fun e => e_connection_id e
                                                            =? connectionId) es))
                          with None => 1 | Some i => i + 1 end = s)). }
  intros child.
  tthen (fun (_ : unit) => P (s + 1));
    [|intros _; apply triple_ret; auto].
  unfold sql_insert_entry, triple, P. triple_statement.
  destruct HP as ((HI & Hc & <-) & Hchild). repeat split.
  - now apply I_entry.
  - exact Hc.
  - apply first_index_insert.
Qed.

Lemma t_updateData queryResult :
  triple I (_nontransactionallyUpdateData m updateId queryResult)
         (fun _ => I).
Proof.
  unfold _nontransactionallyUpdateData. apply triple_forEach.
  intros [topLevelKey rawValue] _.
  destruct (startsWith "owndata_" topLevelKey).
  - destruct rawValue; [apply t_updateOwnData | apply triple_throw].
  - destruct (startsWith "node_" topLevelKey); [|apply triple_throw].
    destruct rawValue; [apply triple_throw|].
    apply triple_forEach. intros field _.
    destruct (String.eqb (fst field) "id");
      [now apply triple_ret | apply t_updateConnection].
Qed.

End Ingesters.

(** *** The steps of a mirror

    An invariant [I] of the tables that the registrar and the writes of
    the ingesters keep, under every update, and that a new update with
    the next rowid keeps, is kept by every step of a mirror; when it
    holds of blank tables, it holds of every database of the mirror. *)
Section Steps.

Variable m : Mirror.
Variable I : Tables -> Prop.

Hypothesis I_register :
  forall typename id,
    triple I (_nontransactionallyRegisterObject m typename id) (fun _ => I).
Hypothesis I_update :
  forall t time,
    I t ->
    I {| updates :=
           (updates t
              ++ [{| u_rowid := next_rowid (map u_rowid (updates t));
                     u_time_epoch_millis := time |}])%list;
         objects := objects t; links := links t;
         connections := connections t;
         connection_entries := connection_entries t;
         primitives_tables := primitives_tables t |}.
Hypothesis I_last_update :
  forall t objectId updateId,
    I t ->
    (registered objectId t -> update_exists t updateId = true) ->
    I {| updates := updates t;
         objects :=
           map (fun o =>
                  if String.eqb (o_id o) objectId then
                    {| o_id := o_id o; o_typename := o_typename o;
                       o_last_update := Some updateId |}
                  else o)
               (objects t);
         links := links t; connections := connections t;
         connection_entries := connection_entries t;
         primitives_tables := primitives_tables t |}.

Hypothesis I_primitives :
  forall t key table values id,
    I t ->
    dict_get key (primitives_tables t) = Some table ->
    I (set_primitives_tables t
         (dict_set key
            {| pt_columns := pt_columns table;
               pt_rows :=
                 map (fun r =>
                        if sql_value_eqb (SqlText (p_id r)) id then
                          {| p_id := p_id r;
                             p_values := assign values (p_values r) |}
                        else r)
                     (pt_rows table) |}
            (primitives_tables t))).
Hypothesis I_link_child :
  forall t args,
    I t -> known_child m (childId args) t ->
    I {| updates := updates t; objects := objects t;
         links :=
           map (fun l =>
                  if String.eqb (l_parent_id l) (parentId args)
                     && String.eqb (l_fieldname l) (link_fieldname args)
                  then
                    {| l_rowid := l_rowid l; l_parent_id := l_parent_id l;
                       l_fieldname := l_fieldname l;
                       l_child_id := childId args |}
                  else l)
               (links t);
         connections := connections t;
         connection_entries := connection_entries t;
         primitives_tables := primitives_tables t |}.
Hypothesis I_connection_update :
  forall t updateId total hasNext cursor connectionId,
    I t ->
    (has_connection connectionId t -> update_exists t updateId = true) ->
    hasNext = 0 \/ hasNext = 1 ->
    I {| updates := updates t; objects := objects t; links := links t;
         connections :=
           map (fun c =>
                  if c_rowid c =? connectionId then
                    {| c_rowid := c_rowid c; c_object_id := c_object_id c;
                       c_fieldname := c_fieldname c;
                       c_last_update := Some updateId;
                       c_total_count := Some total;
                       c_has_next_page := Some hasNext;
                       c_end_cursor := cursor |}
                  else c)
               (connections t);
         connection_entries := connection_entries t;
         primitives_tables := primitives_tables t |}.
Hypothesis I_entry :
  forall t connectionId child,
    I t -> has_connection connectionId t -> known_child m child t ->
    I {| updates := updates t; objects := objects t; links := links t;
         connections := connections t;
         connection_entries :=
           (connection_entries t
              ++ [{| e_rowid := next_rowid (map e_rowid (connection_entries t));
                     e_connection_id := connectionId;
                     e_idx := first_index t connectionId;
                     e_child_id := child |}])%list;
         primitives_tables := primitives_tables t |}.

Lemma t_createUpdate time :
  triple I (_createUpdate time) (fun _ => I).
Proof.
  unfold _createUpdate, sql_insert_update, triple. triple_statement.
  now apply I_update.
Qed.

(** Every step of a mirror changes nothing but the tables, and keeps the
    invariant. *)
Lemma mirror_step_invariant db db' :
  mirror_step m db db' -> holds I db ->
  exists t', db' = with_tables db t' /\ I t'.
Proof.
  intros Hstep Hdb.
  destruct Hstep as [typename id db db' H|now updateId db db' H
                    |updateId objectId fieldname queryResult db db' H
                    |updateId queryResult db db' H
                    |updateId queryResult db db' H
                    |now result db db' H];
    eapply _inTransaction_triple with (Q := fun _ => I) in H;
    try exact Hdb; try exact H.
  - apply I_register.
  - apply t_createUpdate.
  - apply t_updateConnection; auto.
  - apply t_updateOwnData; auto.
  - apply t_updateData; auto.
  - tthen (fun _ : UpdateId => I); [apply t_createUpdate|].
    intros updateId. apply t_updateData; auto.
Qed.

Variable stringify : Config -> string.
Hypothesis I_blank : forall t, blank t -> I t.

(** Every database of the mirror is out of a transaction, holds the
    encoding of the configuration, and satisfies the invariant. *)
Lemma mirror_db_invariant schema blacklist db :
  mirror_db stringify schema blacklist m db ->
  inTransaction db = false
  /\ meta db = Some (Some (blob_of stringify m))
  /\ holds I db.
Proof.
  induction 1 as [db H|db db' _ IH Hstep].
  - apply Mirror_constructor_Ok in H.
    destruct H as (_ & _ & _ & Hin & Hmeta & t & Ht & Hblank).
    repeat split; auto. exists t. auto.
  - destruct IH as (Hin & Hmeta & HI).
    destruct (mirror_step_invariant Hstep HI) as (t' & -> & HI').
    simpl. repeat split; auto. exists t'. auto.
Qed.

End Steps.

(** ** Invariants of the databases of a mirror *)

Lemma next_rowid_fresh (rowids : list Z) : ~ In (next_rowid rowids) rowids.
Proof.
  intros H. unfold next_rowid in H.
  destruct (max_of_upper _ _ H) as (w & Hw & Hle). rewrite Hw in Hle. lia.
Qed.

Lemma NoDup_snoc {X} (l : list X) (x : X) :
  NoDup l -> ~ In x l -> NoDup (l ++ [x]).
Proof.
  intros Hl Hx. apply NoDup_app; auto.
  - constructor; [intros []|constructor].
  - intros y Hy [<-|[]]. contradiction.
Qed.

Lemma map_same_key {X K} (key : X -> K) (f : X -> X) (l : list X) :
  (forall x, key (f x) = key x) -> map key (map f l) = map key l.
Proof. intros H. rewrite map_map. apply map_ext. exact H. Qed.

Ltac same_keys :=
  match goal with
  | |- NoDup (map ?key (map ?f ?l)) =>
      rewrite (map_same_key key f l);
      [assumption
      | intros x; simpl; repeat (destruct_scrutinee; simpl); reflexivity]
  end.

Lemma dict_get_In {V} (k : string) (v : V) (d : Dict V) :
  dict_get k d = Some v -> In (k, v) d.
Proof.
  induction d as [|[k' w] d IH]; simpl; [discriminate|].
  destruct (String.eqb_spec k' k) as [->|Hne]; [|auto].
  intros H. inversion H; subst. auto.
Qed.

Lemma blank_rows t key table :
  blank t -> dict_get key (primitives_tables t) = Some table ->
  pt_rows table = [].
Proof.
  intros (_ & _ & _ & _ & _ & Hp) Hget. apply dict_get_In in Hget. eauto.
Qed.

Lemma mirror_db_keys_unique (stringify : Config -> string) schema blacklist
    m db :
  mirror_db stringify schema blacklist m db -> holds keys_unique db.
Proof.
  intros Hdb.
  eapply (@mirror_db_invariant m keys_unique); [..|exact Hdb].
  - intros typename id. eapply triple_weaken;
      [| | apply t_registerObject with (I := keys_unique)];
      [auto | intros a t H; apply H | | | |];
      unfold keys_unique; simpl.
    + intros t fields (Hu & Ho & Hlr & Hl & Hcr & Hc & Her & He & Hp)
        Hnone _.
      repeat split; auto. rewrite map_app. apply NoDup_snoc; [assumption|].
      now apply registered_typename_None.
    + intros t table (Hu & Ho & Hlr & Hl & Hcr & Hc & Her & He & Hp)
        _ Htable Hfresh.
      repeat split; auto. intros key table' Hget.
      destruct (String.eqb_spec ("primitives_" ++ typename) key) as [<-|Hne].
      * rewrite dict_get_set_same in Hget. inversion Hget; subst; clear Hget.
        simpl. rewrite map_app. apply NoDup_snoc; [eauto|].
        intros Hin. apply in_map_iff in Hin. destruct Hin as (r & Hr & Hin).
        exact (Hfresh r Hin Hr).
      * rewrite dict_get_set_other in Hget by assumption. eauto.
    + intros t f (Hu & Ho & Hlr & Hl & Hcr & Hc & Her & He & Hp)
        _ Hfresh.
      repeat split; auto; rewrite map_app; apply NoDup_snoc; auto.
      * apply next_rowid_fresh.
      * intros Hin. apply in_map_iff in Hin. destruct Hin as (l & Hk & Hin).
        inversion Hk; subst. now apply (Hfresh l Hin).
    + intros t f (Hu & Ho & Hlr & Hl & Hcr & Hc & Her & He & Hp)
        _ Hfresh.
      repeat split; auto; rewrite map_app; apply NoDup_snoc; auto.
      * apply next_rowid_fresh.
      * intros Hin. apply in_map_iff in Hin. destruct Hin as (c & Hk & Hin).
        inversion Hk; subst. now apply (Hfresh c Hin).
  - unfold keys_unique; simpl.
    intros t time (Hu & Ho & Hlr & Hl & Hcr & Hc & Her & He & Hp).
    repeat split; auto. rewrite map_app. apply NoDup_snoc; [assumption|].
    apply next_rowid_fresh.
  - unfold keys_unique; simpl.
    intros t objectId updateId (Hu & Ho & Hlr & Hl & Hcr & Hc & Her & He & Hp) _.
    repeat split; auto. same_keys.
  - unfold keys_unique; simpl.
    intros t key table values id (Hu & Ho & Hlr & Hl & Hcr & Hc & Her & He & Hp)
      Htable.
    repeat split; auto. intros key' table' Hget.
    destruct (String.eqb_spec key key') as [<-|Hne].
    + rewrite dict_get_set_same in Hget. inversion Hget; subst; clear Hget.
      simpl. specialize (Hp _ _ Htable). same_keys.
    + rewrite dict_get_set_other in Hget by assumption. eauto.
  - unfold keys_unique; simpl.
    intros t args (Hu & Ho & Hlr & Hl & Hcr & Hc & Her & He & Hp) _.
    repeat split; auto; same_keys.
  - unfold keys_unique; simpl.
    intros t updateId total hasNext cursor connectionId
      (Hu & Ho & Hlr & Hl & Hcr & Hc & Her & He & Hp) _ _.
    repeat split; auto; same_keys.
  - unfold keys_unique; simpl.
    intros t connectionId child (Hu & Ho & Hlr & Hl & Hcr & Hc & Her & He & Hp) _ _.
    repeat split; auto; rewrite map_app; apply NoDup_snoc; auto.
    + apply next_rowid_fresh.
    + intros Hin. apply in_map_iff in Hin. destruct Hin as (e & Hk & Hin).
      simpl in Hk. inversion Hk as [[Hcid Hidx]].
      pose proof (first_index_above t e Hin eq_refl) as Hlt. lia.
  - intros t Hblank. pose proof (fun key table => @blank_rows t key table Hblank) as Hrows.
    destruct Hblank as (Hu & Ho & Hl & Hc & He & _). unfold keys_unique.
    rewrite Hu, Ho, Hl, Hc, He. simpl.
    repeat split; try constructor.
    intros key table Hget. rewrite (Hrows _ _ Hget). constructor.
Qed.

Lemma registered_last_update id objectId updateId t :
  registered id
    {| updates := updates t;
       objects :=
         map (fun o =>
                if String.eqb (o_id o) objectId then
                  {| o_id := o_id o; o_typename := o_typename o;
                     o_last_update := Some updateId |}
                else o)
             (objects t);
       links := links t; connections := connections t;
       connection_entries := connection_entries t;
       primitives_tables := primitives_tables t |}
  <-> registered id t.
Proof.
  unfold registered. simpl. rewrite map_same_key; [reflexivity|].
  intros o. now destruct (String.eqb (o_id o) objectId).
Qed.

Lemma registered_insert id o t :
  registered id t ->
  registered id
    {| updates := updates t; objects := (objects t ++ [o])%list;
       links := links t; connections := connections t;
       connection_entries := connection_entries t;
       primitives_tables := primitives_tables t |}.
Proof. unfold registered. simpl. rewrite map_app, in_app_iff. auto. Qed.

Lemma update_exists_insert updateId u t :
  update_exists t updateId = true ->
  update_exists
    {| updates := (updates t ++ [u])%list; objects := objects t;
       links := links t; connections := connections t;
       connection_entries := connection_entries t;
       primitives_tables := primitives_tables t |} updateId = true.
Proof.
  unfold update_exists. simpl. rewrite existsb_app. now intros ->.
Qed.

Lemma has_connection_insert connectionId c t :
  has_connection connectionId t ->
  has_connection connectionId
    {| updates := updates t; objects := objects t; links := links t;
       connections := (connections t ++ [c])%list;
       connection_entries := connection_entries t;
       primitives_tables := primitives_tables t |}.
Proof.
  intros (c0 & Hc & Hr). exists c0. simpl. rewrite in_app_iff. auto.
Qed.

Lemma has_connection_update connectionId (f : ConnectionRow -> ConnectionRow) t :
  (forall c, c_rowid (f c) = c_rowid c) ->
  has_connection connectionId t ->
  has_connection connectionId
    {| updates := updates t; objects := objects t; links := links t;
       connections := map f (connections t);
       connection_entries := connection_entries t;
       primitives_tables := primitives_tables t |}.
Proof.
  intros Hf (c0 & Hc & Hr). exists (f c0). simpl. split; [now apply in_map|].
  now rewrite Hf.
Qed.

(** What is known of a table of primitives after one of its tables is
    replaced. *)
Lemma dict_get_set_cases {V} (k k' : string) (v w : V) (d : Dict V) :
  dict_get k' (dict_set k v d) = Some w ->
  (k' = k /\ w = v) \/ (k' <> k /\ dict_get k' d = Some w).
Proof.
  destruct (String.eqb_spec k k') as [<-|Hne].
  - rewrite dict_get_set_same. intros H. inversion H. auto.
  - rewrite dict_get_set_other by assumption. auto.
Qed.

Lemma mirror_db_references_resolve (stringify : Config -> string) schema
    blacklist m db :
  mirror_db stringify schema blacklist m db -> holds references_resolve db.
Proof.
  intros Hdb.
  eapply (@mirror_db_invariant m references_resolve); [..|exact Hdb].
  - intros typename id. eapply triple_weaken;
      [| | apply t_registerObject with (I := references_resolve)];
      [auto | intros a t H; apply H | | | |].
    + intros t fields (Ho & Hl & Hc & He & Hp) Hnone _.
      unfold references_resolve. repeat split.
      * intros o u Hin Hu. simpl in Hin. apply in_app_iff in Hin.
        destruct Hin as [Hin|[<-|[]]]; [|discriminate].
        exact (Ho o u Hin Hu).
      * apply registered_insert. now apply Hl.
      * intros child Hch. apply registered_insert.
        destruct (Hl l H) as [_ Hk]. now apply Hk.
      * apply registered_insert. now apply Hc.
      * intros u Hu. destruct (Hc c H) as [_ Hk]. now apply Hk.
      * now apply He.
      * intros child Hch. apply registered_insert.
        destruct (He e H) as [_ Hk]. now apply Hk.
      * intros key table r Hget Hin. apply registered_insert. eauto.
    + intros t table (Ho & Hl & Hc & He & Hp) Hreg Htable _.
      unfold references_resolve. repeat split; try (apply Hl; assumption);
        try (apply Hc; assumption); try (apply He; assumption); try exact Ho.
      intros key table' r Hget Hin. simpl in Hget.
      apply dict_get_set_cases in Hget. destruct Hget as [[-> ->]|[_ Hget]].
      * simpl in Hin. apply in_app_iff in Hin. destruct Hin as [Hin|[<-|[]]].
        -- exact (Hp _ _ _ Htable Hin).
        -- simpl. eapply registered_typename_Some. exact Hreg.
      * exact (Hp _ _ _ Hget Hin).
    + intros t f (Ho & Hl & Hc & He & Hp) Hreg _.
      apply registered_typename_Some in Hreg.
      unfold references_resolve. repeat split;
        try (apply Hc; assumption); try (apply He; assumption);
        try exact Ho; try exact Hp;
        simpl in H; apply in_app_iff in H; destruct H as [H|[<-|[]]];
        try (apply Hl; assumption); simpl; auto; discriminate.
    + intros t f (Ho & Hl & Hc & He & Hp) Hreg _.
      apply registered_typename_Some in Hreg.
      unfold references_resolve. repeat split;
        try (apply Hl; assumption); try exact Ho; try exact Hp.
      * simpl in H. apply in_app_iff in H. destruct H as [H|[<-|[]]];
          [now apply Hc | exact Hreg].
      * simpl in H. apply in_app_iff in H. destruct H as [H|[<-|[]]];
          [now apply Hc | discriminate].
      * apply has_connection_insert. now apply He.
      * now apply He.
  - intros t time (Ho & Hl & Hc & He & Hp).
    unfold references_resolve. repeat split;
      try (apply Hl; assumption); try (apply He; assumption);
      try exact Hp; try (apply Hc; assumption).
    + intros o u Hin Hu. apply update_exists_insert. eauto.
    + intros u Hu. apply update_exists_insert.
      destruct (Hc c H) as [_ Hk]. now apply Hk.
  - intros t objectId updateId (Ho & Hl & Hc & He & Hp) Hguard.
    unfold references_resolve. repeat split.
    + intros o u Hin Hu. simpl in Hin. apply in_map_iff in Hin.
      destruct Hin as (o0 & <- & Hin).
      destruct (String.eqb_spec (o_id o0) objectId) as [Heq|Hne].
      * simpl in Hu. inversion Hu; subst u. apply Hguard.
        unfold registered. rewrite <- Heq. now apply in_map.
      * exact (Ho o0 u Hin Hu).
    + apply registered_last_update. now apply Hl.
    + intros child Hch. apply registered_last_update.
      destruct (Hl l H) as [_ Hk]. now apply Hk.
    + apply registered_last_update. now apply Hc.
    + intros u Hu. destruct (Hc c H) as [_ Hk]. now apply Hk.
    + now apply He.
    + intros child Hch. apply registered_last_update.
      destruct (He e H) as [_ Hk]. now apply Hk.
    + intros key table r Hget Hin. apply registered_last_update. eauto.
  - intros t key table values id (Ho & Hl & Hc & He & Hp) Htable.
    unfold references_resolve. repeat split; try (apply Hl; assumption);
      try (apply Hc; assumption); try (apply He; assumption); try exact Ho.
    intros key' table' r Hget Hin. simpl in Hget.
    apply dict_get_set_cases in Hget. destruct Hget as [[-> ->]|[_ Hget]].
    + simpl in Hin. apply in_map_iff in Hin. destruct Hin as (r0 & <- & Hin).
      pose proof (Hp _ _ _ Htable Hin) as Hr.
      repeat (destruct_scrutinee; simpl); exact Hr.
    + exact (Hp _ _ _ Hget Hin).
  - intros t args (Ho & Hl & Hc & He & Hp) Hchild.
    unfold references_resolve. repeat split;
      try (apply Hc; assumption); try (apply He; assumption);
      try exact Ho; try exact Hp;
      simpl in H; apply in_map_iff in H; destruct H as (l0 & <- & H);
      destruct (Hl l0 H) as [Hparent Hk];
      destruct (_ && _); simpl; auto.
    intros child Hch. rewrite Hch in Hchild. apply Hchild.
  - intros t updateId total hasNext cursor connectionId
      (Ho & Hl & Hc & He & Hp) Hguard _.
    unfold references_resolve. repeat split;
      try (apply Hl; assumption); try exact Ho; try exact Hp.
    + simpl in H. apply in_map_iff in H. destruct H as (c0 & <- & H).
      destruct (Hc c0 H) as [Hobj _]. now destruct (c_rowid c0 =? connectionId).
    + simpl in H. apply in_map_iff in H. destruct H as (c0 & <- & H).
      destruct (Hc c0 H) as [_ Hk].
      destruct (Z.eqb_spec (c_rowid c0) connectionId) as [Heq|Hne]; [|exact Hk].
      simpl. intros u Hu. inversion Hu; subst u. apply Hguard.
      exists c0. auto.
    + apply has_connection_update;
        [intros c; now destruct (c_rowid c =? connectionId) | now apply He].
    + now apply He.
  - intros t connectionId child (Ho & Hl & Hc & He & Hp) Hconn Hchild.
    unfold references_resolve. repeat split;
      try (apply Hl; assumption); try (apply Hc; assumption);
      try exact Ho; try exact Hp;
      simpl in H; apply in_app_iff in H; destruct H as [H|[<-|[]]];
      try (apply He; assumption); simpl; auto.
    intros c ->. apply Hchild.
  - intros t Hblank. pose proof (fun key table => @blank_rows t key table Hblank) as Hrows.
    destruct Hblank as (Hu & Ho & Hl & Hc & He & _). unfold references_resolve.
    rewrite Ho, Hl, Hc, He. simpl. repeat split; try contradiction.
    intros key table r Hget Hin. rewrite (Hrows _ _ Hget) in Hin. contradiction.
Qed.

Lemma mirror_db_connections_consistent (stringify : Config -> string) schema
    blacklist m db :
  mirror_db stringify schema blacklist m db -> holds connections_consistent db.
Proof.
  intros Hdb.
  eapply (@mirror_db_invariant m connections_consistent); [..|exact Hdb];
    unfold connections_consistent.
  - intros typename id. eapply triple_weaken;
      [| | apply t_registerObject with (I := connections_consistent)];
      [auto | intros a t H; apply H | | | |];
      unfold connections_consistent; simpl; auto.
    intros t f H _ _ c Hin. apply in_app_iff in Hin.
    destruct Hin as [Hin|[<-|[]]]; [now apply H | simpl; auto].
  - auto.
  - auto.
  - auto.
  - auto.
  - simpl. intros t updateId total hasNext cursor connectionId H _ Hnext c Hin.
    apply in_map_iff in Hin. destruct Hin as (c0 & <- & Hin).
    destruct (c_rowid c0 =? connectionId); [|now apply H].
    simpl. split; [eauto|]. destruct Hnext as [->| ->]; auto.
  - auto.
  - intros t (_ & _ & _ & Hc & _) c Hin. rewrite Hc in Hin. contradiction.
Qed.

Lemma consecutive_snoc (n : nat) :
  forall start,
    consecutive start (S n)
    = (consecutive start n ++ [start + Z.of_nat n])%list.
Proof.
  induction n as [|n IH]; intros start.
  - simpl. f_equal. lia.
  - change (consecutive start (S (S n)))
      with (start :: consecutive (start + 1) (S n)).
    rewrite IH. simpl. do 3 f_equal. lia.
Qed.

Lemma max_of_consecutive (n : nat) :
  forall start,
    max_of (consecutive start n)
    = match n with O => None | S k => Some (start + Z.of_nat k) end.
Proof.
  induction n as [|n IH]; intros start; [reflexivity|].
  simpl. rewrite IH. destruct n; f_equal; lia.
Qed.

Lemma mirror_db_entries_numbered (stringify : Config -> string) schema
    blacklist m db :
  mirror_db stringify schema blacklist m db -> holds entries_numbered db.
Proof.
  intros Hdb.
  eapply (@mirror_db_invariant m entries_numbered); [..|exact Hdb];
    unfold entries_numbered, entries_of.
  - intros typename id. eapply triple_weaken;
      [| | apply t_registerObject with (I := entries_numbered)];
      [auto | intros a t H; apply H | | | |];
      unfold entries_numbered, entries_of; simpl; auto.
  - auto.
  - auto.
  - auto.
  - auto.
  - auto.
  - simpl. intros t connectionId child H _ _ c.
    rewrite filter_app, map_app, length_app. simpl.
    destruct (Z.eqb_spec connectionId c) as [->|Hne]; simpl.
    + rewrite Nat.add_1_r, consecutive_snoc, <- H. f_equal.
      unfold first_index, entries_of. rewrite H, max_of_consecutive.
      destruct (length _); f_equal; lia.
    + rewrite !app_nil_r, Nat.add_0_r. apply H.
  - intros t (_ & _ & _ & _ & He & _) c. now rewrite He.
Qed.

(** ** Registering a new object *)

Lemma with_tables_eta db t :
  tables db = Some t ->
  db = with_tables db
         {| updates := updates t; objects := objects t; links := links t;
            connections := connections t;
            connection_entries := connection_entries t;
            primitives_tables := primitives_tables t |}.
Proof. intros H. destruct db, t; simpl in *; now subst. Qed.

(** The links a loop of [sql_insert_link] appends: one per fieldname,
    in order, of the object, without child. *)
Lemma insert_links_Ok id (fieldnames : list Fieldname) :
  forall db db' t,
    tables db = Some t ->
    forEach fieldnames (fun fieldname => sql_insert_link id fieldname) db
    = Ok tt db' ->
    exists ls,
      db' = with_tables db
              {| updates := updates t; objects := objects t;
                 links := (links t ++ ls)%list;
                 connections := connections t;
                 connection_entries := connection_entries t;
                 primitives_tables := primitives_tables t |}
      /\ map l_fieldname ls = fieldnames
      /\ Forall (fun l => l_parent_id l = id /\ l_child_id l = None) ls.
Proof.
  induction fieldnames as [|f fs IH]; intros db db' t Ht H.
  - assert (db' = db) by (simpl in H; unfold ret in H; now inversion H).
    subst db'. exists []. rewrite app_nil_r.
    repeat split; auto using with_tables_eta.
  - cbn [forEach] in H. apply bind_Ok in H. destruct H as ([] & db1 & Hins & H).
    unfold sql_insert_link, bind, getTables, putTables, throw in Hins.
    rewrite Ht in Hins. destruct (existsb _ (links t)); [discriminate|].
    inversion Hins; subst; clear Hins.
    eapply IH in H; [|reflexivity]. destruct H as (ls & -> & Hf & Hall).
    simpl. eexists (_ :: ls). rewrite <- app_assoc. simpl.
    split; [reflexivity|]. split; [now rewrite Hf|].
    constructor; auto.
Qed.

Lemma insert_connections_Ok id (fieldnames : list Fieldname) :
  forall db db' t,
    tables db = Some t ->
    forEach fieldnames (fun fieldname => sql_insert_connection id fieldname) db
    = Ok tt db' ->
    exists cs,
      db' = with_tables db
              {| updates := updates t; objects := objects t;
                 links := links t;
                 connections := (connections t ++ cs)%list;
                 connection_entries := connection_entries t;
                 primitives_tables := primitives_tables t |}
      /\ map c_fieldname cs = fieldnames
      /\ Forall (fun c => c_object_id c = id /\ c_last_update c = None
                          /\ c_total_count c = None
                          /\ c_has_next_page c = None
                          /\ c_end_cursor c = None) cs
      /\ forall c, In c (connections t) -> c_object_id c = id ->
                   ~ In (c_fieldname c) fieldnames.
Proof.
  induction fieldnames as [|f fs IH]; intros db db' t Ht H.
  - assert (db' = db) by (simpl in H; unfold ret in H; now inversion H).
    subst db'. exists []. rewrite app_nil_r.
    repeat split; auto using with_tables_eta.
  - cbn [forEach] in H. apply bind_Ok in H. destruct H as ([] & db1 & Hins & H).
    unfold sql_insert_connection, bind, getTables, putTables, throw in Hins.
    rewrite Ht in Hins.
    destruct (existsb _ (connections t)) eqn:Eguard; [discriminate|].
    inversion Hins; subst; clear Hins.
    eapply IH in H; [|reflexivity]. destruct H as (cs & -> & Hf & Hall & Hnew).
    simpl. eexists (_ :: cs). rewrite <- app_assoc. simpl.
    split; [reflexivity|]. split; [now rewrite Hf|].
    split; [constructor; auto|].
    intros c Hc Hid [Hf0|Hin].
    + pose proof (existsb_false _ _ Eguard c Hc) as Hn. simpl in Hn.
      rewrite Hid, Hf0, !String.eqb_refl in Hn. discriminate.
    + apply (Hnew c); auto. simpl. apply in_app_iff. auto.
Qed.

(** The links the loop over the nested fields appends: of the object,
    without child, and among them one for every node egg of every
    nested field. *)
Lemma insert_egg_links_Ok id objectType (nestFieldnames : list Fieldname) :
  forall db db' t,
    tables db = Some t ->
    forEach nestFieldnames
      (fun parentFieldname =>
         data <- lift (nestedFieldData objectType parentFieldname "nodes") ;;
         forEach (dict_keys (nodes data))
           (fun childFieldname =>
              sql_insert_link id (parentFieldname ++ "." ++ childFieldname)))
      db = Ok tt db' ->
    exists ls,
      db' = with_tables db
              {| updates := updates t; objects := objects t;
                 links := (links t ++ ls)%list;
                 connections := connections t;
                 connection_entries := connection_entries t;
                 primitives_tables := primitives_tables t |}
      /\ Forall (fun l => l_parent_id l = id /\ l_child_id l = None) ls
      /\ forall F data e,
           In F nestFieldnames ->
           dict_get F (nestedFields objectType) = Some data ->
           In e (dict_keys (nodes data)) ->
           In (F ++ "." ++ e) (map l_fieldname ls).
Proof.
  induction nestFieldnames as [|F0 Fs IH]; intros db db' t Ht H.
  - assert (db' = db) by (simpl in H; unfold ret in H; now inversion H).
    subst db'. exists []. rewrite app_nil_r.
    repeat split; auto using with_tables_eta.
  - cbn [forEach] in H. apply bind_Ok in H. destruct H as ([] & db1 & Hegg & H).
    apply bind_Ok in Hegg. destruct Hegg as (data0 & db0 & Hdata & Hegg).
    apply lift_Ok in Hdata. destruct Hdata as [Hdata ->].
    pose proof (insert_links_Ok id
                  (map (fun e => F0 ++ "." ++ e) (dict_keys (nodes data0))))
      as Hloop.
    assert (Hsame : forall (es : list string) d,
      forEach (map (fun e => F0 ++ "." ++ e) es)
              (fun fieldname => sql_insert_link id fieldname) d
      = forEach es (fun e => sql_insert_link id (F0 ++ "." ++ e)) d).
    { induction es as [|e es IHes]; intros d; [reflexivity|].
      cbn [map forEach]. unfold bind. destruct (sql_insert_link _ _ d); auto. }
    rewrite <- Hsame in Hegg.
    destruct (Hloop _ _ _ Ht Hegg) as (ls0 & -> & Hnames & Hall0).
    eapply IH in H; [|reflexivity]. destruct H as (ls & -> & Hall & Hin).
    exists (ls0 ++ ls)%list. simpl. rewrite <- app_assoc.
    split; [reflexivity|]. split; [apply Forall_app; auto|].
    intros F data e [<-|HF] Hget He; rewrite map_app, in_app_iff.
    + left. rewrite Hnames. unfold nestedFieldData in Hdata.
      rewrite Hget in Hdata. inversion Hdata; subst.
      apply in_map_iff. exists e. split; [reflexivity | assumption].
    + right. exact (Hin F data e HF Hget He).
Qed.

(** What registering an id that is not registered writes, when it
    returns: the row of the object, its row in the table of primitives
    of the type, with every column NULL, links without child, among
    them one for every link field and for every node egg of the type,
    and one connection never updated for every connection field; and
    nothing else. *)
Lemma registerObject_new_tables m typename id db t db' :
  tables db = Some t ->
  registered_typename t id = None ->
  _nontransactionallyRegisterObject m typename id db = Ok tt db' ->
  exists typeFields objectType table ls cs,
    dict_get typename (_schema m) = Some (OBJECT typeFields)
    /\ dict_get typename (objectTypes (_schemaInfo m)) = Some objectType
    /\ dict_get ("primitives_" ++ typename) (primitives_tables t) = Some table
    /\ db' = with_tables db
               {| updates := updates t;
                  objects :=
                    (objects t ++ [{| o_id := id; o_typename := typename;
                                      o_last_update := None |}])%list;
                  links := (links t ++ ls)%list;
                  connections := (connections t ++ cs)%list;
                  connection_entries := connection_entries t;
                  primitives_tables :=
                    dict_set ("primitives_" ++ typename)
                      {| pt_columns := pt_columns table;
                         pt_rows :=
                           (pt_rows table
                              ++ [{| p_id := id;
                                     p_values :=
                                       map (fun c => (c, SqlNull))
                                           (pt_columns table) |}])%list |}
                      (primitives_tables t) |}
    /\ Forall (fun l => l_parent_id l = id /\ l_child_id l = None) ls
    /\ (forall f, In f (linkFieldNames objectType) ->
                  In f (map l_fieldname ls))
    /\ (forall F data e,
           In F (nestedFieldNames objectType) ->
           dict_get F (nestedFields objectType) = Some data ->
           In e (dict_keys (nodes data)) ->
           In (F ++ "." ++ e) (map l_fieldname ls))
    /\ Forall (fun c => c_object_id c = id /\ c_last_update c = None
                        /\ c_total_count c = None
                        /\ c_has_next_page c = None
                        /\ c_end_cursor c = None) cs
    /\ map c_fieldname cs = connectionFieldNames objectType
    /\ (forall c, In c (connections t) -> c_object_id c = id ->
                  ~ In (c_fieldname c) (connectionFieldNames objectType)).
Proof.
  intros Ht Hnone H. unfold _nontransactionallyRegisterObject in H.
  apply bind_Ok in H. destruct H as (existing & db0 & Hsel & H).
  unfold sql_select_typename, bind, getTables, ret in Hsel. rewrite Ht in Hsel.
  inversion Hsel; subst existing db0; clear Hsel. rewrite Hnone in H.
  destruct (dict_get typename (_schema m)) as [[| |typeFields|typeClauses]|];
    try discriminate; try (undeclared ltac:(discriminate)).
  apply bind_Ok in H. destruct H as ([] & db1 & Hobj & H).
  unfold sql_insert_object, bind, getTables, putTables, throw in Hobj.
  rewrite Ht in Hobj. destruct (existsb _ (objects t)); [discriminate|].
  inversion Hobj; subst db1; clear Hobj.
  apply bind_Ok in H. destruct H as (tableName & db1 & Hname & H).
  apply lift_Ok in Hname. destruct Hname as [Hname ->].
  apply primitivesTableName_identifier in Hname.
  apply bind_Ok in H. destruct H as ([] & db2 & Hrow & H).
  unfold sql_insert_primitives_row, bind, getTables, putTables, throw in Hrow.
  cbn [tables primitives_tables] in Hrow. rewrite Hname in Hrow.
  destruct (dict_get ("primitives_" ++ typename) (primitives_tables t))
    as [table|]; [|discriminate].
  destruct (existsb _ (pt_rows table)); [discriminate|].
  inversion Hrow; subst db2; clear Hrow.
  destruct (dict_get typename (objectTypes (_schemaInfo m))) as [objectType|];
    [|discriminate].
  apply bind_Ok in H. destruct H as ([] & db3 & Hlinks & H).
  eapply insert_links_Ok in Hlinks; [|reflexivity].
  destruct Hlinks as (ls1 & -> & Hnames1 & Hall1).
  apply bind_Ok in H. destruct H as ([] & db4 & Heggs & H).
  eapply insert_egg_links_Ok in Heggs; [|reflexivity].
  destruct Heggs as (ls2 & -> & Hall2 & Hnames2).
  eapply insert_connections_Ok in H; [|reflexivity].
  destruct H as (cs & -> & Hnames3 & Hall3 & Hnew3).
  exists typeFields, objectType, table, (ls1 ++ ls2)%list, cs.
  repeat split; auto.
  - unfold with_tables, set_primitives_tables. simpl. now rewrite app_assoc.
  - apply Forall_app; auto.
  - intros f Hf. rewrite map_app, in_app_iff, Hnames1. auto.
  - intros F data e HF Hget He. rewrite map_app, in_app_iff. right.
    exact (Hnames2 F data e HF Hget He).
Qed.

(** ** The names of a built object type *)

(** The four lists of names of a built object type are the fieldnames of
    the type, in order, by kind. *)
Lemma buildObjectTypeInfo_names typeFields entry :
  buildObjectTypeInfo typeFields = Return entry ->
  primitiveFieldNames entry
  = filter (is_primitive_field typeFields) (dict_keys typeFields)
  /\ linkFieldNames entry
     = filter (is_node_field typeFields) (dict_keys typeFields)
  /\ connectionFieldNames entry
     = filter (is_connection_field typeFields) (dict_keys typeFields)
  /\ nestedFieldNames entry
     = filter (is_nested_field typeFields) (dict_keys typeFields).
Proof.
  unfold buildObjectTypeInfo. intros H.
  change (dict_keys typeFields) with ([] ++ dict_keys typeFields)%list.
  eapply (efold_invariant
            (fun before e =>
               primitiveFieldNames e
               = filter (is_primitive_field typeFields) before
               /\ linkFieldNames e = filter (is_node_field typeFields) before
               /\ connectionFieldNames e
                  = filter (is_connection_field typeFields) before
               /\ nestedFieldNames e
                  = filter (is_nested_field typeFields) before));
    [| |exact H]; [|simpl; auto].
  intros before k e e' (Hp & Hl & Hc & Hn) Hbody. cbv beta in Hbody.
  rewrite !filter_app. simpl.
  pose proof (eq_refl (is_primitive_field typeFields k)) as Ep.
  pose proof (eq_refl (is_node_field typeFields k)) as El.
  pose proof (eq_refl (is_connection_field typeFields k)) as Ec.
  pose proof (eq_refl (is_nested_field typeFields k)) as En.
  unfold is_primitive_field at 2 in Ep. unfold is_node_field at 2 in El.
  unfold is_connection_field at 2 in Ec. unfold is_nested_field at 2 in En.
  destruct (dict_get k typeFields) as [[| |et [|]|et|eggs]|];
    try discriminate; rewrite Ep, El, Ec, En;
    try (inversion Hbody; subst; clear Hbody; simpl;
         rewrite ?app_nil_r, Hp, Hl, Hc, Hn; auto; fail).
  destruct (buildNestedFieldData eggs); [|discriminate].
  simpl in Hbody. inversion Hbody; subst; clear Hbody; simpl.
  rewrite ?app_nil_r, Hp, Hl, Hc, Hn; auto.
Qed.

Lemma is_connection_field_In typeFields entry f elementType :
  buildObjectTypeInfo typeFields = Return entry ->
  dict_get f typeFields = Some (CONNECTION elementType) ->
  In f (connectionFieldNames entry).
Proof.
  intros H Hget. apply buildObjectTypeInfo_names in H.
  destruct H as (_ & _ & -> & _). apply filter_In.
  split; [eapply dict_get_In_keys; eauto|].
  unfold is_connection_field. now rewrite Hget.
Qed.

(** ** Registering a new object, by the schema *)

Lemma has_link_In id ls fieldname t :
  Forall (fun l => l_parent_id l = id /\ l_child_id l = None) ls ->
  In fieldname (map l_fieldname ls) ->
  incl ls (links t) ->
  exists l, In l (links t) /\ l_parent_id l = id
            /\ l_fieldname l = fieldname /\ l_child_id l = None.
Proof.
  intros Hall Hin Hincl. apply in_map_iff in Hin.
  destruct Hin as (l & Hf & Hin). exists l.
  rewrite Forall_forall in Hall. destruct (Hall l Hin). auto.
Qed.

Lemma schema_rows m typename typeFields objectType id ls cs t :
  _buildSchemaInfo (_schema m) = Return (_schemaInfo m) ->
  dict_get typename (_schema m) = Some (OBJECT typeFields) ->
  dict_get typename (objectTypes (_schemaInfo m)) = Some objectType ->
  Forall (fun l => l_parent_id l = id /\ l_child_id l = None) ls ->
  (forall f, In f (linkFieldNames objectType) -> In f (map l_fieldname ls)) ->
  (forall F data e,
      In F (nestedFieldNames objectType) ->
      dict_get F (nestedFields objectType) = Some data ->
      In e (dict_keys (nodes data)) ->
      In (F ++ "." ++ e) (map l_fieldname ls)) ->
  Forall (fun c => c_object_id c = id /\ c_last_update c = None
                   /\ c_total_count c = None /\ c_has_next_page c = None
                   /\ c_end_cursor c = None) cs ->
  map c_fieldname cs = connectionFieldNames objectType ->
  incl ls (links t) -> incl cs (connections t) ->
  (forall f elementType fidelity,
      dict_get f typeFields = Some (NODE elementType fidelity) ->
      exists l, In l (links t) /\ l_parent_id l = id
                /\ l_fieldname l = f /\ l_child_id l = None)
  /\ (forall F eggs e elementType fidelity,
         dict_get F typeFields = Some (NESTED eggs) ->
         dict_get e eggs = Some (EGG_NODE elementType fidelity) ->
         exists l, In l (links t) /\ l_parent_id l = id
                   /\ l_fieldname l = F ++ "." ++ e /\ l_child_id l = None)
  /\ (forall f elementType,
         dict_get f typeFields = Some (CONNECTION elementType) ->
         exists c, In c (connections t) /\ c_object_id c = id
                   /\ c_fieldname c = f /\ c_last_update c = None
                   /\ c_total_count c = None /\ c_has_next_page c = None
                   /\ c_end_cursor c = None).
Proof.
  intros Hinfo Hschema Htype Hls Hlinks Heggs Hcs Hconns Hl Hc.
  destruct (_buildSchemaInfo_objectType _ _ Hinfo Hschema)
    as (entry & Hentry & Hbuild).
  rewrite Htype in Hentry. inversion Hentry; subst entry; clear Hentry.
  pose proof (buildObjectTypeInfo_covers _ Hbuild) as Hcovers.
  repeat split.
  - intros f et fid Hf.
    destruct (Hcovers f (dict_get_In_keys _ _ Hf)) as (_ & Hnode & _).
    eapply has_link_In; eauto.
  - intros F eggs e et fid HF He.
    destruct (Hcovers F (dict_get_In_keys _ _ HF)) as (_ & _ & Hnested).
    destruct (Hnested eggs HF) as (Hin & data & Hdata & Hbuilt).
    destruct (buildNestedFieldData_keys _ Hbuilt e) as [_ Hnode].
    eapply has_link_In; eauto.
  - intros f et Hf.
    pose proof (is_connection_field_In _ _ Hbuild Hf) as Hin.
    rewrite <- Hconns in Hin. apply in_map_iff in Hin.
    destruct Hin as (c & Hname & Hin). exists c.
    rewrite Forall_forall in Hcs. destruct (Hcs c Hin) as (? & ? & ? & ? & ?).
    repeat split; auto.
Qed.


(** ** Every object has the rows of its type *)

(** Registering an id that is registered, when it returns, has changed
    nothing. *)
Lemma registerObject_registered m typename id db t existing db' :
  tables db = Some t ->
  registered_typename t id = Some existing ->
  _nontransactionallyRegisterObject m typename id db = Ok tt db' ->
  db' = db.
Proof.
  intros Ht Hreg H. unfold _nontransactionallyRegisterObject in H.
  apply bind_Ok in H. destruct H as (found & db0 & Hsel & H).
  unfold sql_select_typename, bind, getTables, ret in Hsel. rewrite Ht in Hsel.
  inversion Hsel; subst found db0; clear Hsel. rewrite Hreg in H.
  destruct (String.eqb existing typename); [|discriminate].
  unfold ret in H. now inversion H.
Qed.

(** The rows of an object stay when rows are added and when rows are
    updated in place. *)
Lemma has_link_more id fieldname t t' :
  (forall l, In l (links t) ->
     exists l', In l' (links t') /\ l_parent_id l' = l_parent_id l
                /\ l_fieldname l' = l_fieldname l) ->
  has_link id fieldname t -> has_link id fieldname t'.
Proof.
  intros H (l & Hin & Hp & Hf). destruct (H l Hin) as (l' & Hin' & Hp' & Hf').
  exists l'. repeat split; congruence.
Qed.

Lemma has_connection_of_more id fieldname t t' :
  (forall c, In c (connections t) ->
     exists c', In c' (connections t') /\ c_object_id c' = c_object_id c
                /\ c_fieldname c' = c_fieldname c) ->
  has_connection_of id fieldname t -> has_connection_of id fieldname t'.
Proof.
  intros H (c & Hin & Hp & Hf). destruct (H c Hin) as (c' & Hin' & Hp' & Hf').
  exists c'. repeat split; congruence.
Qed.

Lemma has_primitives_row_more typename id t t' :
  (forall key table row,
     dict_get key (primitives_tables t) = Some table -> In row (pt_rows table) ->
     exists table' row',
       dict_get key (primitives_tables t') = Some table'
       /\ In row' (pt_rows table') /\ p_id row' = p_id row) ->
  has_primitives_row typename id t -> has_primitives_row typename id t'.
Proof.
  intros H (table & row & Hget & Hin & Hid).
  destruct (H _ _ _ Hget Hin) as (table' & row' & Hget' & Hin' & Hid').
  exists table', row'. repeat split; congruence.
Qed.

Lemma fully_registered_more m t t' :
  (forall o, In o (objects t') ->
     exists o0, In o0 (objects t) /\ o_id o0 = o_id o
                /\ o_typename o0 = o_typename o) ->
  (forall l, In l (links t) ->
     exists l', In l' (links t') /\ l_parent_id l' = l_parent_id l
                /\ l_fieldname l' = l_fieldname l) ->
  (forall c, In c (connections t) ->
     exists c', In c' (connections t') /\ c_object_id c' = c_object_id c
                /\ c_fieldname c' = c_fieldname c) ->
  (forall key table row,
     dict_get key (primitives_tables t) = Some table -> In row (pt_rows table) ->
     exists table' row',
       dict_get key (primitives_tables t') = Some table'
       /\ In row' (pt_rows table') /\ p_id row' = p_id row) ->
  fully_registered m t -> fully_registered m t'.
Proof.
  intros Ho Hl Hc Hp H o Hin. destruct (Ho o Hin) as (o0 & Hin0 & Hid & Hty).
  destruct (H o0 Hin0) as (typeFields & Hschema & Hrow & Hlinks & Heggs & Hconns).
  rewrite Hid, Hty in *. exists typeFields. split; [assumption|].
  split; [eapply has_primitives_row_more; eauto|].
  split; [intros; eapply has_link_more; eauto|].
  split; [intros; eapply has_link_more; eauto|].
  intros; eapply has_connection_of_more; eauto.
Qed.

Lemma same_rows {X} (l : list X) (P : X -> X -> Prop) :
  (forall x, P x x) -> forall x, In x l -> exists x', In x' l /\ P x x'.
Proof. eauto. Qed.

Lemma mapped_rows {X} (l : list X) (f : X -> X) (P : X -> X -> Prop) :
  (forall x, P x (f x)) ->
  forall x, In x l -> exists x', In x' (map f l) /\ P x x'.
Proof. intros H x Hin. exists (f x). split; [now apply in_map | auto]. Qed.

Lemma mapped_rows_back {X} (l : list X) (f : X -> X) (P : X -> X -> Prop) :
  (forall x, P (f x) x) ->
  forall x, In x (map f l) -> exists x', In x' l /\ P x x'.
Proof.
  intros H x Hin. apply in_map_iff in Hin. destruct Hin as (x0 & <- & Hin).
  eauto.
Qed.

Lemma primitives_rows_updated key table (f : PrimitivesRow -> PrimitivesRow)
    (p : Dict PrimitivesTable) :
  dict_get key p = Some table ->
  (forall r, p_id (f r) = p_id r) ->
  forall key' table' row,
    dict_get key' p = Some table' -> In row (pt_rows table') ->
    exists table'' row',
      dict_get key'
        (dict_set key {| pt_columns := pt_columns table;
                         pt_rows := map f (pt_rows table) |} p)
      = Some table''
      /\ In row' (pt_rows table'') /\ p_id row' = p_id row.
Proof.
  intros Hget Hf key' table' row Hget' Hin.
  destruct (String.eqb_spec key key') as [<-|Hne].
  - rewrite dict_get_set_same. rewrite Hget in Hget'. inversion Hget'; subst.
    do 2 eexists. split; [reflexivity|]. simpl.
    split; [apply in_map; exact Hin | apply Hf].
  - rewrite dict_get_set_other by assumption. eauto.
Qed.

Lemma mirror_db_schemaInfo (stringify : Config -> string) schema blacklist
    m db :
  mirror_db stringify schema blacklist m db ->
  _schema m = schema /\ _buildSchemaInfo (_schema m) = Return (_schemaInfo m).
Proof.
  induction 1 as [db H|db db' _ IH _]; [|assumption].
  apply Mirror_constructor_Ok in H. destruct H as (Hs & Hi & _).
  split; [assumption | now rewrite Hs].
Qed.

(** A database of a mirror is out of a transaction and holds the
    encoding of the configuration of the mirror. *)
Lemma mirror_db_idle (stringify : Config -> string) schema blacklist m db :
  mirror_db stringify schema blacklist m db ->
  inTransaction db = false /\ meta db = Some (Some (blob_of stringify m)).
Proof.
  intros Hdb.
  destruct (@mirror_db_invariant m (fun _ => True)) with
    (stringify := stringify) (schema := schema) (blacklist := blacklist)
    (db := db) as (Hin & Hmeta & _); auto.
  intros typename id. eapply triple_weaken;
    [| | apply (@t_registerObject m (fun _ => True) typename id
                  ltac:(auto) ltac:(auto) ltac:(auto) ltac:(auto))];
    simpl; auto.
Qed.

Lemma mirror_db_fully_registered (stringify : Config -> string) schema
    blacklist m db :
  mirror_db stringify schema blacklist m db -> holds (fully_registered m) db.
Proof.
  intros Hdb. destruct (mirror_db_schemaInfo Hdb) as [_ Hinfo].
  eapply (@mirror_db_invariant m (fully_registered m)); [..|exact Hdb].
  - intros typename id db0 t Ht HI.
    destruct (_nontransactionallyRegisterObject m typename id db0)
      as [[] db1|] eqn:E; [|exact Logic.I].
    destruct (registered_typename t id) as [existing|] eqn:Er.
    + rewrite (@registerObject_registered m typename id db0 t existing db1 Ht Er E).
      exists t. split; [now apply with_tables_same | exact HI].
    + eapply registerObject_new_tables in E; [|exact Ht|exact Er].
      destruct E as (typeFields & objectType & table & ls & cs & Hschema
                     & Htype & Htable & -> & Hls & Hlinks & Heggs & Hcs
                     & Hconns & _).
      eexists. split; [reflexivity|].
      match goal with |- fully_registered m ?x => set (t' := x) end.
      assert (Hmore : forall o, In o (objects t) ->
                exists typeFields0,
                  dict_get (o_typename o) (_schema m) = Some (OBJECT typeFields0)
                  /\ has_primitives_row (o_typename o) (o_id o) t'
                  /\ (forall f elementType fidelity,
                         dict_get f typeFields0 = Some (NODE elementType fidelity) ->
                         has_link (o_id o) f t')
                  /\ (forall F eggs e elementType fidelity,
                         dict_get F typeFields0 = Some (NESTED eggs) ->
                         dict_get e eggs = Some (EGG_NODE elementType fidelity) ->
                         has_link (o_id o) (F ++ "." ++ e) t')
                  /\ (forall f elementType,
                         dict_get f typeFields0 = Some (CONNECTION elementType) ->
                         has_connection_of (o_id o) f t')).
      { pose proof (@fully_registered_more m t
                      {| updates := updates t; objects := objects t;
                         links := links t'; connections := connections t';
                         connection_entries := connection_entries t;
                         primitives_tables := primitives_tables t' |}) as Hkeep.
        apply Hkeep; auto; simpl.
        - eauto.
        - intros l Hl. exists l. rewrite in_app_iff. auto.
        - intros c Hc. exists c. rewrite in_app_iff. auto.
        - intros key table' row Hget Hin.
          destruct (String.eqb_spec ("primitives_" ++ typename) key) as [<-|Hne].
          + rewrite dict_get_set_same. rewrite Htable in Hget.
            inversion Hget; subst. do 2 eexists. split; [reflexivity|].
            simpl. rewrite in_app_iff. eauto.
          + rewrite dict_get_set_other by assumption. eauto. }
      intros o Hin. unfold t' in Hin. simpl in Hin. apply in_app_iff in Hin.
      destruct Hin as [Hin|[<-|[]]]; [now apply Hmore|]. simpl.
      exists typeFields. split; [assumption|]. split.
      { do 2 eexists. unfold t'. simpl. rewrite dict_get_set_same.
        split; [reflexivity|]. simpl. rewrite in_app_iff.
        split; [right; left; reflexivity | reflexivity]. }
      destruct (@schema_rows m typename typeFields objectType id ls cs t')
        as (H1 & H2 & H3); auto;
        try (unfold t'; simpl; intros x Hx; apply in_app_iff; auto; fail).
      split; [|split].
      * intros f et fid Hf. destruct (H1 f et fid Hf) as (l & ? & ? & ? & _).
        exists l. auto.
      * intros F eggs e et fid HF He.
        destruct (H2 F eggs e et fid HF He) as (l & ? & ? & ? & _).
        exists l. auto.
      * intros f et Hf. destruct (H3 f et Hf) as (c & ? & ? & ? & _).
        exists c. auto.
  - intros t time. apply fully_registered_more; simpl; eauto.
  - intros t objectId updateId HI _. revert HI.
    apply fully_registered_more; simpl; eauto.
    + apply mapped_rows_back. intros o.
      destruct (String.eqb (o_id o) objectId); auto.
  - intros t key table values id HI Htable. revert HI.
    apply fully_registered_more; simpl; eauto.
    apply primitives_rows_updated; [assumption|].
    intros r. repeat (destruct_scrutinee; simpl); reflexivity.
  - intros t args HI _. revert HI.
    apply fully_registered_more; simpl; eauto.
    apply mapped_rows. intros l. now destruct (_ && _).
  - intros t updateId total hasNext cursor connectionId HI _ _. revert HI.
    apply fully_registered_more; simpl; eauto.
    apply mapped_rows. intros c. now destruct (c_rowid c =? connectionId).
  - intros t connectionId child HI _ _. revert HI.
    apply fully_registered_more; simpl; eauto.
  - intros t (_ & Ho & _) o Hin. rewrite Ho in Hin. contradiction.
Qed.

(** ** The constraints of the tables, in every database of a mirror *)

(** X2.  In every database of a mirror, the keys that
    the table definitions declare are keys: no two updates, links,
    connections or entries share a rowid, no two objects an id, no two
    links a parent and fieldname, no two connections an object and
    fieldname, no two entries a connection and index, and no two rows
    of a table of primitives an id. *)
Theorem keys_unique_always (stringify : Config -> string) (schema : Schema)
    (blacklist : list ObjectId) (m : Mirror) (db : Db) :
  mirror_db stringify schema blacklist m db -> holds keys_unique db.
Proof. apply mirror_db_keys_unique. Qed.

(** X3.  In every database of a mirror, every
    reference the table definitions declare as a foreign key resolves:
    the last update of an object or of a connection is a row of
    [updates]; the parent of a link, the object of a connection and the
    id of a row of primitives are ids of [objects], and so is the child
    of a link or of an entry that has one; the connection of an entry
    is a row of [connections]. *)
Theorem references_resolve_always (stringify : Config -> string)
    (schema : Schema) (blacklist : list ObjectId) (m : Mirror) (db : Db) :
  mirror_db stringify schema blacklist m db -> holds references_resolve db.
Proof. apply mirror_db_references_resolve. Qed.

(** X4.  In every database of a mirror, the
    columns of each connection agree as the [CHECK] constraints of the
    table demand: a connection never updated has no total count, no
    [has_next_page] and no end cursor; an updated one has a total count
    and 0 or 1 as [has_next_page]. *)
Theorem connections_consistent_always (stringify : Config -> string)
    (schema : Schema) (blacklist : list ObjectId) (m : Mirror) (db : Db) :
  mirror_db stringify schema blacklist m db ->
  holds connections_consistent db.
Proof. apply mirror_db_connections_consistent. Qed.

(** X5.  In every database of a mirror, the
    entries of each connection carry the indices 1, 2, ... without gap,
    in the order in which they were added. *)
Theorem entries_numbered_always (stringify : Config -> string)
    (schema : Schema) (blacklist : list ObjectId) (m : Mirror) (db : Db) :
  mirror_db stringify schema blacklist m db -> holds entries_numbered db.
Proof. apply mirror_db_entries_numbered. Qed.


(** ** The end cursor of a connection *)

Lemma find_map_same {X} (p : X -> bool) (f : X -> X) (l : list X) :
  (forall x, p (f x) = p x) -> find p (map f l) = option_map f (find p l).
Proof.
  intros H. induction l as [|x l IH]; simpl; [reflexivity|].
  rewrite H. destruct (p x); auto.
Qed.

Lemma find_app_Some {X} (p : X -> bool) (l l' : list X) (x : X) :
  find p l = Some x -> find p (l ++ l') = Some x.
Proof.
  induction l as [|y l IH]; simpl; [discriminate|].
  destruct (p y); auto.
Qed.

Lemma triple_True_registerObject m typename id :
  triple (fun _ => True) (_nontransactionallyRegisterObject m typename id)
         (fun _ _ => True).
Proof.
  eapply triple_weaken;
    [| | apply (@t_registerObject m (fun _ => True) typename id
                  ltac:(auto) ltac:(auto) ltac:(auto) ltac:(auto))];
    simpl; auto.
Qed.

Lemma registerObject_connection_stored m updateId queryResult objectId
    fieldname typename id :
  triple (connection_stored updateId queryResult objectId fieldname)
         (_nontransactionallyRegisterObject m typename id)
         (fun _ => connection_stored updateId queryResult objectId fieldname).
Proof.
  eapply triple_weaken;
    [| | apply t_registerObject
           with (I := connection_stored updateId queryResult objectId fieldname)];
    [auto | intros a t H; apply H | | | |];
    unfold connection_stored, connection_of; simpl; auto.
  intros t f (c & Hfind & H) _ _. exists c. split; [|exact H].
  now apply find_app_Some.
Qed.

(** An ingestion into a connection, when it returns, has stored the
    update, the total count, whether there is a next page, and the end
    cursor of the page in the connection of the object. *)
Lemma updateConnection_stored m updateId objectId fieldname queryResult :
  triple (fun _ => True)
    (_nontransactionallyUpdateConnection m updateId objectId fieldname
       queryResult)
    (fun _ => connection_stored updateId queryResult objectId fieldname).
Proof.
  pose (K := connection_stored updateId queryResult objectId fieldname).
  unfold _nontransactionallyUpdateConnection.
  tthen (fun a t => connection_rowid t objectId fieldname = a).
  { unfold sql_select_connection_rowid, triple. triple_statement. auto. }
  intros [connectionId|]; [|apply triple_throw].
  tthen (fun (_ : unit) => K).
  { intros db t Ht Hrow. unfold sql_update_connection, bind, getTables,
      putTables, throw. rewrite Ht.
    destruct (_ && _); [exact I|]. eexists. split; [reflexivity|].
    unfold K, connection_stored, connection_of. simpl.
    unfold connection_rowid in Hrow.
    destruct (find _ (connections t)) as [c0|] eqn:Efind; [|discriminate].
    simpl in Hrow. injection Hrow as Hrowid.
    rewrite find_map_same, Efind.
    - simpl. rewrite Hrowid, Z.eqb_refl. eexists. split; [reflexivity|].
      simpl. auto.
    - intros c. now destruct (c_rowid c =? connectionId). }
  intros _.
  tthen (fun (_ : Z) => K).
  { intros db t Ht HK. unfold sql_select_next_index, bind, getTables, ret.
    rewrite Ht. eexists. split; [apply with_tables_same; eassumption|exact HK]. }
  intros nextIndex.
  tthen (fun (_ : Z) => K); [|intros s; now apply triple_ret].
  apply triple_forEachWith with (P := fun (_ : Z) => K). intros s node _.
  tthen (fun (_ : option ObjectId) => K).
  { eapply triple_weaken;
      [| | apply t_registerNodeFieldResult
             with (I := fun _ => True) (K := K) (result := node)].
    - simpl. auto.
    - simpl. tauto.
    - apply triple_True_registerObject.
    - intros typename id. apply registerObject_connection_stored. }
  intros child.
  tthen (fun (_ : unit) => K); [|intros _; now apply triple_ret].
  unfold sql_insert_entry, triple. triple_statement. exact HP.
Qed.

Lemma updateConnection_tables m updateId objectId fieldname queryResult db db' :
  _nontransactionallyUpdateConnection m updateId objectId fieldname
    queryResult db = Ok tt db' ->
  exists t, tables db = Some t.
Proof.
  unfold _nontransactionallyUpdateConnection, sql_select_connection_rowid,
    bind, getTables.
  destruct (tables db) as [t|]; [eauto | discriminate].
Qed.

Lemma _getEndCursor_found objectId fieldname db t c :
  tables db = Some t ->
  connection_of t objectId fieldname = Some c ->
  _getEndCursor objectId fieldname db
  = Ok (match c_last_update c with
        | None => None
        | Some _ => Some (c_end_cursor c)
        end) db.
Proof.
  intros Ht Hc. unfold _getEndCursor, sql_select_end_cursor, bind, getTables, ret.
  rewrite Ht. unfold connection_of in Hc. rewrite Hc. simpl.
  now destruct (c_last_update c).
Qed.

(** X7.  After an ingestion into a connection that returned, the end
    cursor of the connection is the end cursor of the page ingested,
    [null] included. *)
Theorem _getEndCursor_after_update (m : Mirror) (updateId : UpdateId)
    (objectId : ObjectId) (fieldname : Fieldname)
    (queryResult : ConnectionFieldResult) (db db' : Db) :
  _updateConnection m updateId objectId fieldname queryResult db = Ok tt db' ->
  _getEndCursor objectId fieldname db'
  = Ok (Some (endCursor (pageInfo queryResult))) db'.
Proof.
  intros H. unfold _updateConnection in H. apply _inTransaction_Ok in H.
  destruct H as (_ & db2 & H & ->).
  destruct (updateConnection_tables _ _ _ _ _ _ H) as (t & Ht).
  eapply triple_Ok in H; [|apply updateConnection_stored|exact Ht|exact I].
  destruct H as (t' & -> & c & Hc & Hlast & _ & _ & Hcursor).
  erewrite _getEndCursor_found; [|reflexivity|exact Hc].
  now rewrite Hlast, Hcursor.
Qed.

(** X8.  After an object is registered for the first time, the end
    cursor of each connection field of its type is [undefined]. *)
Theorem _getEndCursor_new (m : Mirror) (typename : Typename) (id : ObjectId)
    (db : Db) (t : Tables) (db' : Db) (typeFields : Dict FieldType)
    (fieldname : Fieldname) (elementType : Typename) :
  _buildSchemaInfo (_schema m) = Return (_schemaInfo m) ->
  tables db = Some t ->
  registered_typename t id = None ->
  registerObject m typename id db = Ok tt db' ->
  dict_get typename (_schema m) = Some (OBJECT typeFields) ->
  dict_get fieldname typeFields = Some (CONNECTION elementType) ->
  _getEndCursor id fieldname db' = Ok None db'.
Proof.
  intros Hinfo Ht Hnone H Hschema Hfield. unfold registerObject in H.
  apply _inTransaction_Ok in H. destruct H as (_ & db2 & H & ->).
  eapply registerObject_new_tables in H; [|exact Ht|exact Hnone].
  destruct H as (typeFields' & objectType & table & ls & cs & Hschema' & Htype
                 & Htable & -> & Hls & Hlinks & Heggs & Hcs & Hconns & Hnew).
  rewrite Hschema in Hschema'. inversion Hschema'; subst typeFields'.
  destruct (_buildSchemaInfo_objectType _ _ Hinfo Hschema)
    as (entry & Hentry & Hbuild).
  rewrite Htype in Hentry. inversion Hentry; subst entry; clear Hentry.
  pose proof (is_connection_field_In _ _ Hbuild Hfield) as Hin.
  match goal with |- context [with_tables _ ?x] => set (t' := x) end.
  destruct (connection_of t' id fieldname) as [c|] eqn:Ec.
  - erewrite _getEndCursor_found; [|reflexivity|exact Ec].
    unfold connection_of in Ec. apply find_some in Ec.
    destruct Ec as [Hc Hkey]. apply andb_true_iff in Hkey.
    destruct Hkey as [Hid Hf]. apply String.eqb_eq in Hid, Hf.
    unfold t' in Hc. simpl in Hc. apply in_app_iff in Hc.
    destruct Hc as [Hc|Hc].
    + exfalso. apply (Hnew c Hc Hid). now rewrite Hf.
    + rewrite Forall_forall in Hcs. destruct (Hcs c Hc) as (_ & -> & _).
      reflexivity.
  - exfalso. rewrite <- Hconns in Hin. apply in_map_iff in Hin.
    destruct Hin as (c & Hf & Hc). unfold connection_of in Ec.
    pose proof (find_none _ _ Ec c) as Hn. simpl in Hn.
    rewrite Forall_forall in Hcs. destruct (Hcs c Hc) as (Hid & _).
    rewrite Hid, Hf, !String.eqb_refl in Hn.
    assert (true = false); [|discriminate]. apply Hn.
    unfold t'. simpl. apply in_app_iff. auto.
Qed.

(** X9.  On a database of a mirror, an id that is not registered has no
    connection: reading the end cursor of one throws, and so does an
    ingestion into one, which leaves the database as it was. *)
Theorem connection_of_unregistered (stringify : Config -> string)
    (schema : Schema) (blacklist : list ObjectId) (m : Mirror) (db : Db)
    (t : Tables) (updateId : UpdateId) (objectId : ObjectId)
    (fieldname : Fieldname) (queryResult : ConnectionFieldResult) :
  mirror_db stringify schema blacklist m db ->
  tables db = Some t ->
  registered_typename t objectId = None ->
  _getEndCursor objectId fieldname db
  = Throw ("No such connection: " ++ JSON_stringify_string objectId
             ++ "." ++ JSON_stringify_string fieldname) db
  /\ _updateConnection m updateId objectId fieldname queryResult db
     = Throw ("No such connection: " ++ JSON_stringify_string objectId
                ++ "." ++ JSON_stringify_string fieldname) db.
Proof.
  intros Hdb Ht Hnone.
  destruct (mirror_db_references_resolve Hdb) as (t0 & Ht0 & _ & _ & Hc & _).
  rewrite Ht in Ht0. inversion Ht0; subst t0; clear Ht0.
  assert (Hfind : find (fun c => String.eqb (c_object_id c) objectId
                                 && String.eqb (c_fieldname c) fieldname)
                       (connections t) = None).
  { destruct (find _ (connections t)) as [c|] eqn:E; [|reflexivity].
    apply find_some in E. destruct E as [Hin Hkey].
    apply andb_true_iff in Hkey. destruct Hkey as [Hid _].
    apply String.eqb_eq in Hid. destruct (Hc c Hin) as [Hreg _].
    rewrite Hid in Hreg. apply registered_typename_None in Hnone.
    contradiction. }
  split.
  - unfold _getEndCursor, sql_select_end_cursor, bind, getTables, ret.
    now rewrite Ht, Hfind.
  - unfold _updateConnection, _inTransaction.
    destruct (mirror_db_idle Hdb) as [Hin _]. rewrite Hin.
    unfold _nontransactionallyUpdateConnection, sql_select_connection_rowid,
      connection_rowid, bind, getTables, ret. simpl.
    now rewrite Ht, Hfind.
Qed.

(** ** What an ingestion has fetched *)

Lemma triple_forEach_reach {X} (P Q : Tables -> Prop) (xs : list X)
    (body : X -> M unit) (x0 : X) :
  In x0 xs ->
  (forall x, triple P (body x) (fun _ => P)) ->
  (forall x, triple Q (body x) (fun _ => Q)) ->
  triple P (body x0) (fun _ => Q) ->
  triple P (forEach xs body) (fun _ => Q).
Proof.
  intros Hin HP HQ H0. induction xs as [|x xs IH]; [contradiction|].
  cbn [forEach]. destruct Hin as [->|Hin].
  - tthen (fun _ : unit => Q); [exact H0|]. intros _.
    apply triple_forEach. intros y _. apply HQ.
  - tthen (fun _ : unit => P); [apply HP|]. intros _. now apply IH.
Qed.

Lemma triple_True_updateData m updateId queryResult :
  triple (fun _ => True) (_nontransactionallyUpdateData m updateId queryResult)
         (fun _ _ => True).
Proof.
  apply t_updateData with (I := fun _ : Tables => True); auto.
  intros typename id. apply triple_True_registerObject.
Qed.

(** The registrar keeps the stamp of an object; so do the writes of the
    ingesters under the same update. *)
Lemma registerObject_stamped m id0 updateId typename id :
  triple (stamped id0 updateId)
         (_nontransactionallyRegisterObject m typename id)
         (fun _ => stamped id0 updateId).
Proof.
  eapply triple_weaken;
    [| | apply t_registerObject with (I := stamped id0 updateId)];
    [auto | intros a t H; apply H | | | |]; unfold stamped; simpl; auto.
  intros t fields [Hreg Hall] Hnone _. split; [now apply registered_insert|].
  intros o Hin Hid. apply in_app_iff in Hin.
  destruct Hin as [Hin|[<-|[]]]; [auto|]. simpl in Hid. subst id.
  apply registered_typename_None in Hnone. contradiction.
Qed.

Lemma stamped_last_update id0 updateId objectId t :
  stamped id0 updateId t ->
  stamped id0 updateId
    {| updates := updates t;
       objects :=
         map (fun o =>
                if String.eqb (o_id o) objectId then
                  {| o_id := o_id o; o_typename := o_typename o;
                     o_last_update := Some updateId |}
                else o)
             (objects t);
       links := links t; connections := connections t;
       connection_entries := connection_entries t;
       primitives_tables := primitives_tables t |}.
Proof.
  intros [Hreg Hall]. split; [now apply registered_last_update|].
  simpl. intros o Hin Hid. apply in_map_iff in Hin.
  destruct Hin as (o0 & <- & Hin).
  destruct (String.eqb (o_id o0) objectId); [reflexivity | auto].
Qed.

Lemma updateOwnData_stamped m id0 updateId queryResult :
  triple (stamped id0 updateId)
         (_nontransactionallyUpdateOwnData m updateId queryResult)
         (fun _ => stamped id0 updateId).
Proof.
  apply t_updateOwnData; auto.
  - intros typename id. apply registerObject_stamped.
  - intros t objectId H _. now apply stamped_last_update.
Qed.

Lemma updateData_stamped m id0 updateId queryResult :
  triple (stamped id0 updateId)
         (_nontransactionallyUpdateData m updateId queryResult)
         (fun _ => stamped id0 updateId).
Proof.
  apply t_updateData; auto.
  - intros typename id. apply registerObject_stamped.
  - intros t objectId H _. now apply stamped_last_update.
Qed.

(** The second block of own-data ingestion stamps the objects of the
    batch. *)
Lemma setLastUpdates_stamps updateId batch entry :
  In entry batch ->
  triple (registered (entry_id entry)) (setLastUpdates updateId batch)
         (fun _ => stamped (entry_id entry) updateId).
Proof.
  intros Hin. unfold setLastUpdates. apply triple_lift_bind.
  intros update Hupdate.
  assert (Hrun : forall (P Q : Tables -> Prop) objectId,
    (forall t, P t ->
       Q {| updates := updates t;
            objects :=
              map (fun o =>
                     if String.eqb (o_id o) objectId then
                       {| o_id := o_id o; o_typename := o_typename o;
                          o_last_update := Some updateId |}
                     else o)
                  (objects t);
            links := links t; connections := connections t;
            connection_entries := connection_entries t;
            primitives_tables := primitives_tables t |}) ->
    triple P (update (objectId, updateId)) (fun _ => Q)).
  { intros P Q objectId HPQ.
    unfold _makeSingleUpdateFunction in Hupdate. simpl in Hupdate.
    inversion Hupdate; subst update; clear Hupdate.
    tthen (fun (_ : Z) => Q).
    - unfold sql_update_last_update, triple. triple_statement. auto.
    - intros changes. destruct (negb _);
        [apply triple_throw | now apply triple_ret]. }
  apply triple_forEach_reach with (x0 := entry); [assumption | | |].
  - intros x. apply Hrun. intros t. apply registered_last_update.
  - intros x. apply Hrun. intros t. apply stamped_last_update.
  - apply Hrun. intros t Hreg. split; [now apply registered_last_update|].
    simpl. intros o Ho Hid. apply in_map_iff in Ho.
    destruct Ho as (o0 & <- & Ho).
    destruct (String.eqb_spec (o_id o0) (entry_id entry)) as [Heq|Hne];
      [reflexivity|].
    contradiction.
Qed.

Lemma updateOwnData_stamps m updateId batch entry :
  In entry batch ->
  triple (fun _ => True) (_nontransactionallyUpdateOwnData m updateId batch)
         (fun _ => stamped (entry_id entry) updateId).
Proof.
  intros Hin. unfold _nontransactionallyUpdateOwnData.
  destruct batch as [|first rest] eqn:Ebatch; [contradiction|].
  rewrite <- Ebatch in *.
  destruct (dict_get _ (_schema m)) as [[| |fields|typeClauses]|];
    try apply triple_throw; try (undeclared ltac:(apply triple_throw)).
  tthen (fun (_ : unit) => registered (entry_id entry)).
  { intros db t Ht _.
    destruct (checkObjectsExist (entry_typename first) batch db)
      as [[] db1|] eqn:E; [|exact I].
    apply checkObjectsExist_registered in E. destruct E as [-> Hall].
    destruct (Hall entry Hin) as (t0 & Ht0 & Hreg).
    rewrite Ht in Ht0. inversion Ht0; subst t0.
    exists t. split; [now apply with_tables_same | exact Hreg]. }
  intros _.
  tthen (fun (_ : unit) => stamped (entry_id entry) updateId);
    [now apply setLastUpdates_stamps|]. intros _.
  destruct (dict_get _ (objectTypes (_schemaInfo m))) as [objectType|];
    [|apply triple_throw].
  tthen (fun (_ : unit) => stamped (entry_id entry) updateId).
  { apply t_updateAllPrimitives. unfold stamped. simpl. auto. }
  intros _. apply t_updateAllLinks with (G := fun _ => True); auto.
  intros typename id. apply registerObject_stamped.
Qed.

Lemma updateOwnData_tables m updateId batch db db' :
  _nontransactionallyUpdateOwnData m updateId batch db = Ok tt db' ->
  batch <> [] -> exists t, tables db = Some t.
Proof.
  intros H Hne. destruct (tables db) as [t|] eqn:Et; [eauto|]. exfalso.
  unfold _nontransactionallyUpdateOwnData in H.
  destruct batch as [|first rest]; [now apply Hne|].
  destruct (dict_get _ (_schema m)) as [[| |fields|typeClauses]|];
    try discriminate; try (undeclared ltac:(discriminate)).
  apply bind_Ok in H. destruct H as ([] & d1 & Hcheck & _).
  unfold checkObjectsExist in Hcheck. cbn [forEach] in Hcheck.
  apply bind_Ok in Hcheck. destruct Hcheck as ([] & d2 & Hbody & _).
  apply bind_Ok in Hbody. destruct Hbody as (count & d3 & Hcount & _).
  unfold sql_count_objects in Hcount. apply bind_Ok in Hcount.
  destruct Hcount as (t & d4 & Hget & _). apply getTables_Ok in Hget.
  destruct Hget. congruence.
Qed.

(** X10.  An own-data ingestion that returns has stamped every object of
    the batch: the object is registered, under the typename of its
    record, and each of its rows has the update of the ingestion as
    last update. *)
Theorem _updateOwnData_stamps (m : Mirror) (updateId : UpdateId)
    (batch : OwnDataUpdateResult) (db db' : Db) (entry : Entry) :
  _updateOwnData m updateId batch db = Ok tt db' ->
  In entry batch ->
  exists t',
    tables db' = Some t'
    /\ (exists o, In o (objects t') /\ o_id o = entry_id entry)
    /\ forall o, In o (objects t') -> o_id o = entry_id entry ->
                 o_last_update o = Some updateId.
Proof.
  intros H Hin. unfold _updateOwnData in H. apply _inTransaction_Ok in H.
  destruct H as (_ & db2 & H & ->).
  destruct (@updateOwnData_tables m updateId batch _ db2 H) as (t & Ht);
    [intros ->; contradiction|]. simpl in Ht.
  eapply triple_Ok in H; [|now apply updateOwnData_stamps with (entry := entry)
                          |exact Ht|exact I].
  destruct H as (t' & -> & Hreg & Hall). exists t'.
  split; [reflexivity|]. split; [|exact Hall].
  unfold registered in Hreg. apply in_map_iff in Hreg.
  destruct Hreg as (o & Ho & Hino). eauto.
Qed.

Lemma update_at_insert t time :
  update_at (next_rowid (map u_rowid (updates t))) time
    {| updates :=
         (updates t
            ++ [{| u_rowid := next_rowid (map u_rowid (updates t));
                   u_time_epoch_millis := time |}])%list;
       objects := objects t; links := links t;
       connections := connections t;
       connection_entries := connection_entries t;
       primitives_tables := primitives_tables t |}.
Proof.
  unfold update_at, update_exists. simpl. split.
  - rewrite existsb_app. simpl. rewrite Z.eqb_refl. apply orb_true_r.
  - intros u Hin Hrow. apply in_app_iff in Hin.
    destruct Hin as [Hin|[<-|[]]]; [|reflexivity].
    exfalso. apply (next_rowid_fresh (map u_rowid (updates t))).
    rewrite <- Hrow. now apply in_map.
Qed.

Lemma updateData_update_at m updateId time queryResult :
  triple (update_at updateId time)
         (_nontransactionallyUpdateData m updateId queryResult)
         (fun _ => update_at updateId time).
Proof.
  apply t_updateData; auto.
  intros typename id. eapply triple_weaken;
    [| | apply t_registerObject with (I := update_at updateId time)];
    [auto | intros a t H; apply H | | | |]; auto.
Qed.

Lemma updateData_stamps m updateId queryResult key batch entry :
  In (key, OwnDataResult batch) queryResult ->
  In entry batch ->
  triple (fun _ => True) (_nontransactionallyUpdateData m updateId queryResult)
         (fun _ => stamped (entry_id entry) updateId).
Proof.
  intros Hkey Hin. unfold _nontransactionallyUpdateData.
  apply triple_forEach_reach with (x0 := (key, OwnDataResult batch));
    [assumption | | |].
  - intros x.
    pose proof (@triple_True_updateData m updateId [x]) as H.
    unfold _nontransactionallyUpdateData in H. cbn [forEach] in H.
    intros db t Ht HP. specialize (H db t Ht HP). unfold bind in H.
    destruct (_ db) as [[] db1|]; [|exact I].
    unfold ret in H. destruct H as (t' & H & _). exists t'. auto.
  - intros x.
    pose proof (@updateData_stamped m (entry_id entry) updateId [x]) as H.
    unfold _nontransactionallyUpdateData in H. cbn [forEach] in H.
    intros db t Ht HP. specialize (H db t Ht HP). unfold bind in H.
    destruct (_ db) as [[] db1|]; [|exact I].
    unfold ret in H. exact H.
  - destruct (startsWith "owndata_" key).
    + now apply updateOwnData_stamps.
    + destruct (startsWith "node_" key); apply triple_throw.
Qed.

(** X11.  After the transaction that ends an update step has returned,
    [_findOutdated] lists no object whose own data was in the response,
    for any threshold up to the time of the step. *)
Theorem ingested_not_outdated (m : Mirror) (now : Z) (result : UpdateResult)
    (db db' : Db) (key : string) (batch : OwnDataUpdateResult)
    (entry : Entry) (since : Z) :
  ingestStep m now result db = Ok tt db' ->
  In (key, OwnDataResult batch) result ->
  In entry batch ->
  since <= now ->
  exists plan,
    _findOutdated since db' = Ok plan db'
    /\ ~ In (entry_id entry) (map po_id (plan_objects plan)).
Proof.
  intros H Hkey Hin Hsince. unfold ingestStep in H.
  apply _inTransaction_Ok in H. destruct H as (Hidle & db2 & H & ->).
  apply bind_Ok in H. destruct H as (updateId & db1 & Hcreate & H).
  unfold _createUpdate, sql_insert_update, bind, getTables, putTables, ret
    in Hcreate. simpl in Hcreate.
  destruct (tables db) as [t|] eqn:Et; [|discriminate].
  inversion Hcreate; subst updateId db1; clear Hcreate.
  eapply triple_Ok in H;
    [| apply (triple_and
                (@updateData_stamps m _ result key batch entry Hkey Hin)
                (@updateData_update_at m _ now result))
     | reflexivity
     | split; [exact I | apply update_at_insert]].
  destruct H as (t' & -> & [Hreg Hall] & [_ Htime]).
  unfold _findOutdated, _inTransaction, bind, getTables, ret. simpl.
  eexists. split; [reflexivity|]. simpl.
  intros Hlisted. apply in_map_iff in Hlisted.
  destruct Hlisted as (po & Hid & Hpo). unfold sql_outdated_objects in Hpo.
  apply in_map_iff in Hpo. destruct Hpo as ([o u] & <- & Hrow).
  apply filter_In in Hrow. destruct Hrow as [Hrow Holder].
  apply in_flat_map in Hrow. destruct Hrow as (o' & Ho' & Hjoin).
  apply in_map_iff in Hjoin. destruct Hjoin as (u' & Heq & Hu').
  inversion Heq; subst o' u'; clear Heq. simpl in Hid, Holder.
  rewrite (Hall o Ho' Hid) in Holder, Hu'. simpl in Holder.
  unfold left_outer_join_updates in Hu'.
  destruct (filter _ (updates t')) as [|u0 us] eqn:Ef.
  - destruct Hu' as [<-|[]]. discriminate.
  - apply in_map_iff in Hu'. destruct Hu' as (row & <- & Hin').
    rewrite <- Ef in Hin'. apply filter_In in Hin'.
    destruct Hin' as [Hrowin Hmatch]. simpl in Hmatch.
    apply Z.eqb_eq in Hmatch. simpl in Holder.
    rewrite (Htime row Hrowin (eq_sym Hmatch)) in Holder.
    apply Z.ltb_lt in Holder. lia.
Qed.

(** ** Registering under a type that is no object type *)


(** ** The configuration is never updated *)

Lemma mirror_db_mirror (stringify : Config -> string) schema blacklist m db :
  mirror_db stringify schema blacklist m db ->
  exists info,
    _buildSchemaInfo schema = Return info
    /\ m = {| _schema := schema; _schemaInfo := info;
              _blacklistedIds :=
                fold_left (fun result id => dict_set id true result)
                          blacklist [] |}.
Proof.
  induction 1 as [db H|db db' _ IH _]; [|assumption].
  apply Mirror_constructor_Ok in H. destruct H as (Hs & Hi & Hb & _).
  exists (_schemaInfo m). split; [exact Hi|].
  destruct m; simpl in *. now subst.
Qed.

(** X13.  Every database of a mirror is out
    of a transaction and holds in [meta] the encoding of the
    configuration the mirror was constructed with; so constructing a
    mirror over it again, for the same schema and blacklist, returns
    the same mirror and leaves the database as it is. *)
Theorem configuration_never_updated (stringify : Config -> string)
    (schema : Schema) (blacklist : list ObjectId) (m : Mirror) (db : Db) :
  mirror_db stringify schema blacklist m db ->
  inTransaction db = false
  /\ meta db = Some (Some (blob_of stringify m))
  /\ Mirror_constructor stringify schema blacklist db = Ok m db.
Proof.
  intros Hdb. destruct (mirror_db_idle Hdb) as [Hin Hmeta].
  repeat split; auto.
  destruct (mirror_db_mirror Hdb) as (info & Hinfo & Hm).
  unfold Mirror_constructor, bind. rewrite Hinfo. simpl. rewrite <- Hm.
  unfold _initialize, _inTransaction. rewrite Hin.
  unfold bind, sql_create_meta_if_not_exists, sql_select_config. simpl.
  rewrite Hmeta. unfold blob_of. simpl. rewrite String.eqb_refl. simpl.
  unfold ret. f_equal. destruct db; simpl in *. now subst.
Qed.

(** ** The names the constructor accepts *)


Lemma lift_unit_Ok (c : Except unit) db db' :
  lift c db = Ok tt db' -> c = Return tt /\ db' = db.
Proof. apply lift_Ok. Qed.



(** ** What [_buildSchemaInfo] builds, and when *)

Lemma dict_get_key {V} (k : string) (d : Dict V) :
  In k (dict_keys d) -> exists v, dict_get k d = Some v.
Proof.
  induction d as [|[k' w] d IH]; simpl; [contradiction|].
  intros [->|Hin].
  - rewrite String.eqb_refl. eauto.
  - destruct (String.eqb k' k); eauto.
Qed.

Lemma efold_Raise {X S} (body : S -> X -> Except S) (xs : list X) :
  forall s msg,
    efold body xs s = Raise msg ->
    exists x s1, In x xs /\ body s1 x = Raise msg.
Proof.
  induction xs as [|x xs IH]; simpl; intros s msg H; [discriminate|].
  destruct (body s x) as [s1|msg1] eqn:E; simpl in H.
  - destruct (IH _ _ H) as (y & s2 & Hin & Hy). eauto.
  - inversion H; subst. eauto.
Qed.




Lemma buildNestedFieldData_Raise eggs msg :
  buildNestedFieldData eggs = Raise msg ->
  msg = unfaithful_message
  /\ exists e elementType,
       dict_get e eggs = Some (EGG_NODE elementType UNFAITHFUL).
Proof.
  unfold buildNestedFieldData. intros H. apply efold_Raise in H.
  destruct H as (e & d & Hin & Hbody). cbv beta in Hbody.
  destruct (dict_get_key _ _ Hin) as (v & Hv). rewrite Hv in Hbody.
  destruct v as [|et [|]]; try discriminate.
  inversion Hbody. eauto.
Qed.

Lemma buildObjectTypeInfo_Raise typeFields msg :
  buildObjectTypeInfo typeFields = Raise msg ->
  msg = unfaithful_message
  /\ exists f,
       (exists elementType,
           dict_get f typeFields = Some (NODE elementType UNFAITHFUL))
       \/ (exists eggs e elementType,
              dict_get f typeFields = Some (NESTED eggs)
              /\ dict_get e eggs = Some (EGG_NODE elementType UNFAITHFUL)).
Proof.
  unfold buildObjectTypeInfo. intros H. apply efold_Raise in H.
  destruct H as (f & entry & Hin & Hbody). cbv beta in Hbody.
  destruct (dict_get_key _ _ Hin) as (v & Hv). rewrite Hv in Hbody.
  destruct v as [| |et [|]|et|eggs]; try discriminate.
  - inversion Hbody. split; [reflexivity|]. exists f. left. eauto.
  - destruct (buildNestedFieldData eggs) as [data|msg'] eqn:Ed;
      [discriminate|].
    simpl in Hbody. inversion Hbody; subst msg'.
    destruct (buildNestedFieldData_Raise _ Ed) as (-> & e & et & He).
    split; [reflexivity|]. exists f. right. eauto.
Qed.

Lemma _buildSchemaInfo_Raise schema msg :
  _buildSchemaInfo schema = Raise msg ->
  msg = unfaithful_message /\ has_unfaithful schema.
Proof.
  unfold _buildSchemaInfo. intros H. apply efold_Raise in H.
  destruct H as (typename & result & Hin & Hbody). cbv beta in Hbody.
  destruct (dict_get_key _ _ Hin) as (v & Hv). rewrite Hv in Hbody.
  destruct v as [| |typeFields|typeClauses]; try discriminate.
  destruct (buildObjectTypeInfo typeFields) as [entry|msg'] eqn:Eb;
    [discriminate|].
  simpl in Hbody. inversion Hbody; subst msg'.
  destruct (buildObjectTypeInfo_Raise _ Eb) as (-> & f & Hf).
  split; [reflexivity|]. exists typename, typeFields, f. auto.
Qed.

Lemma _buildSchemaInfo_Return schema info :
  _buildSchemaInfo schema = Return info -> ~ has_unfaithful schema.
Proof.
  intros Hinfo (typename & typeFields & f & Hschema & Hf).
  destruct (_buildSchemaInfo_objectType _ _ Hinfo Hschema)
    as (entry & _ & Hbuild).
  unfold buildObjectTypeInfo in Hbuild.
  destruct Hf as [(et & Hf)|(eggs & e & et & Hf & He)].
  - destruct (efold_Return_each _ _ _ Hbuild f (dict_get_In_keys _ _ Hf))
      as (s1 & s2 & Hbody).
    cbv beta in Hbody. rewrite Hf in Hbody. discriminate.
  - destruct (efold_Return_each _ _ _ Hbuild f (dict_get_In_keys _ _ Hf))
      as (s1 & s2 & Hbody).
    cbv beta in Hbody. rewrite Hf in Hbody.
    destruct (buildNestedFieldData eggs) as [data|] eqn:Ed; [|discriminate].
    unfold buildNestedFieldData in Ed.
    destruct (efold_Return_each _ _ _ Ed e (dict_get_In_keys _ _ He))
      as (d1 & d2 & Hegg).
    cbv beta in Hegg. rewrite He in Hegg. discriminate.
Qed.

(** X16.  [_buildSchemaInfo] throws exactly
    when an object type of the schema has an unfaithful node field or an
    unfaithful node egg in a nested field, and then with the message
    that unfaithful fields are not implemented; on every other schema
    it returns. *)
Theorem _buildSchemaInfo_unfaithful (schema : Schema) :
  (has_unfaithful schema <-> _buildSchemaInfo schema = Raise unfaithful_message)
  /\ (~ has_unfaithful schema <-> exists info, _buildSchemaInfo schema = Return info)
  /\ forall msg, _buildSchemaInfo schema = Raise msg -> msg = unfaithful_message.
Proof.
  destruct (_buildSchemaInfo schema) as [info|msg] eqn:E.
  - pose proof (@_buildSchemaInfo_Return schema info E) as Hnot.
    repeat split; try discriminate; try tauto; eauto.
  - destruct (@_buildSchemaInfo_Raise schema msg E) as [-> Hhas].
    repeat split; auto.
    + intros Hnot. contradiction.
    + intros (info & H). discriminate.
    + intros msg H. now inversion H.
Qed.

(** ** Responses that are refused *)

Lemma _inTransaction_never_Ok {A} (fn : M A) db :
  (forall db0 a db1, fn db0 <> Ok a db1) ->
  exists msg, _inTransaction fn db = Throw msg db.
Proof.
  intros H. unfold _inTransaction. destruct (inTransaction db); [eauto|].
  destruct (fn _) as [a db1|msg db1] eqn:E; [|eauto].
  now elim (H _ _ _ E).
Qed.

(** X17.  A response with a key that starts neither
    with [owndata_] nor with [node_] is refused: [_updateData] throws
    and leaves the database as it was, whatever the other keys hold;
    when the key is the first of the response, the message is that of
    the bad key. *)
Theorem _updateData_bad_key (m : Mirror) (updateId : UpdateId)
    (queryResult : UpdateResult) (db : Db) (key : string)
    (value : TopLevelResult) :
  In (key, value) queryResult ->
  startsWith "owndata_" key = false ->
  startsWith "node_" key = false ->
  (exists msg, _updateData m updateId queryResult db = Throw msg db)
  /\ (forall rest,
         queryResult = (key, value) :: rest ->
         _nontransactionallyUpdateData m updateId queryResult db
         = Throw ("Bad key in query result: " ++ JSON_stringify_string key) db).
Proof.
  intros Hin Hown Hnode. split.
  - unfold _updateData. apply _inTransaction_never_Ok.
    intros db0 [] db1 H. unfold _nontransactionallyUpdateData in H.
    destruct (forEach_Ok_each _ _ _ H _ Hin) as (d1 & d2 & Hbody).
    cbv beta iota in Hbody. rewrite Hown, Hnode in Hbody. discriminate.
  - intros rest ->. unfold _nontransactionallyUpdateData. cbn [forEach].
    unfold bind. now rewrite Hown, Hnode.
Qed.

(** X18.  Own-data ingestion refuses a batch
    whose typename, that of its first record, is not an object type of
    the schema: with the message of the unknown type when the typename
    is no key of the schema and no name of a property of
    [Object.prototype]; with the message of the non-object type, with
    [undefined] for the kind, when it is such a name and no key of the
    schema; with the message of the non-object type, with the kind,
    when the schema declares it as another kind of type.  It refuses a
    batch with a record of an id that is not registered, and a batch
    with a record of another typename than the first: [_updateOwnData]
    throws and leaves the database as it was. *)
Theorem _updateOwnData_rejects (m : Mirror) (updateId : UpdateId)
    (first : Entry) (rest : list Entry) (db : Db) :
  (dict_get (entry_typename first) (_schema m) = None ->
     inherits (entry_typename first) = false ->
     _nontransactionallyUpdateOwnData m updateId (first :: rest) db
     = Throw ("Unknown type: " ++ JSON_stringify_string (entry_typename first))
             db)
  /\ (dict_get (entry_typename first) (_schema m) = None ->
      inherits (entry_typename first) = true ->
      _nontransactionallyUpdateOwnData m updateId (first :: rest) db
      = Throw ("Cannot update data for non-object type: "
                 ++ JSON_stringify_string (entry_typename first)
                 ++ " (undefined)") db)
  /\ (forall type,
         dict_get (entry_typename first) (_schema m) = Some type ->
         (forall typeFields, type <> OBJECT typeFields) ->
         _nontransactionallyUpdateOwnData m updateId (first :: rest) db
         = Throw ("Cannot update data for non-object type: "
                    ++ JSON_stringify_string (entry_typename first)
                    ++ " (" ++ type_tag type ++ ")") db)
  /\ (forall entry t,
         In entry (first :: rest) -> tables db = Some t ->
         ~ registered (entry_id entry) t ->
         exists msg,
           _updateOwnData m updateId (first :: rest) db = Throw msg db)
  /\ (forall entry,
         In entry (first :: rest) ->
         entry_typename entry <> entry_typename first ->
         exists msg,
           _updateOwnData m updateId (first :: rest) db = Throw msg db).
Proof.
  split; [|split; [|split; [|split]]].
  - intros Hschema Hown. unfold _nontransactionallyUpdateOwnData.
    now rewrite Hschema, Hown.
  - intros Hschema Hinherits. unfold _nontransactionallyUpdateOwnData.
    now rewrite Hschema, Hinherits.
  - intros type Hschema Hkind. unfold _nontransactionallyUpdateOwnData.
    rewrite Hschema. destruct type as [| |typeFields|typeClauses];
      try reflexivity.
    now elim (Hkind typeFields).
  - intros entry t Hin Ht Hnot. unfold _updateOwnData, _inTransaction.
    destruct (inTransaction db); [eauto|].
    destruct (_nontransactionallyUpdateOwnData _ _ _ _) as [[] db1|msg db1]
      eqn:E; [|eauto].
    exfalso. unfold _nontransactionallyUpdateOwnData in E.
    destruct (dict_get _ (_schema m)) as [[| |fields|typeClauses]|];
      try discriminate; try (undeclared ltac:(discriminate)).
    apply bind_Ok in E. destruct E as ([] & d1 & Hcheck & _).
    apply checkObjectsExist_registered in Hcheck.
    destruct Hcheck as [_ Hall]. destruct (Hall entry Hin) as (t0 & Ht0 & Hreg).
    simpl in Ht0. rewrite Ht in Ht0. inversion Ht0; subst t0. contradiction.
  - intros entry Hin Hne. unfold _updateOwnData. apply _inTransaction_never_Ok.
    intros db0 [] db1 E. unfold _nontransactionallyUpdateOwnData in E.
    destruct (dict_get _ (_schema m)) as [[| |fields|typeClauses]|];
      try discriminate; try (undeclared ltac:(discriminate)).
    apply bind_Ok in E. destruct E as ([] & d1 & Hcheck & _).
    apply checkObjectsExist_Ok with (entry := entry) in Hcheck; auto.
Qed.

(** ** What an own-data ingestion stores *)


(** *** The links *)

















(** *** The primitives *)

(** The JSON text of a primitive field of the record is bound to the
    parameter of the field. *)
Lemma primitivesOf_field typename objectType entry bound f :
  primitivesOf typename objectType entry = Return bound ->
  In f (primitiveFieldNames objectType) ->
  ~ In f (nestedFieldNames objectType) ->
  exists value,
    entry_get entry f = Some value
    /\ dict_get (parameterNameFor.topLevelField f) bound
       = Some (option_map SqlText (JSON_stringify_read value)).
Proof.
  unfold primitivesOf. intros H Hf Hnot.
  destruct (efold _ (primitiveFieldNames objectType) _) as [bound1|] eqn:E1;
    [|discriminate].
  simpl in H.
  assert (H1 : exists value,
             entry_get entry f = Some value
             /\ dict_get (parameterNameFor.topLevelField f) bound1
                = Some (option_map SqlText (JSON_stringify_read value))).
  { refine (@efold_invariant _ _
              (fun before s =>
                 In f before ->
                 exists value,
                   entry_get entry f = Some value
                   /\ dict_get (parameterNameFor.topLevelField f) s
                      = Some (option_map SqlText (JSON_stringify_read value)))
              _ _ _ [] _ _ _ E1 Hf); [|intros []].
    intros before g s s' Hbefore Hbody Hin. cbv beta in Hbody.
    destruct (entry_get entry g) as [primitive|] eqn:Eg; [|discriminate].
    inversion Hbody; subst s'; clear Hbody.
    destruct (String.eqb_spec g f) as [->|Hne].
    - exists primitive. split; [assumption | apply dict_get_set_same].
    - apply in_app_or in Hin.
      destruct Hin as [Hin|[Hin|[]]]; [|contradiction].
      destruct (Hbefore Hin) as (value & Hvalue & Hget). exists value.
      split; [assumption|]. rewrite dict_get_set_other; [assumption|].
      unfold parameterNameFor.topLevelField. simpl. congruence. }
  clear E1. destruct H1 as (value & Hvalue & Hget). exists value.
  split; [assumption|].
  refine (@efold_preserves _ _
            (fun s => dict_get (parameterNameFor.topLevelField f) s
                      = Some (option_map SqlText (JSON_stringify_read value)))
            _ _ _ _ _ Hget H).
  intros G s s' HG Hs Hbody. cbv beta in Hbody.
  destruct (entry_get entry G) as [nested|]; [|discriminate].
  destruct (nestedFieldData objectType G "primitives") as [data|];
    [|discriminate].
  simpl in Hbody.
  refine (@efold_preserves _ _
            (fun s => dict_get (parameterNameFor.topLevelField f) s
                      = Some (option_map SqlText (JSON_stringify_read value)))
            _ _ _ _ _ _ Hbody).
  - intros e a a' _ Ha Hegg. cbv beta in Hegg.
    destruct (egg_get nested e) as [[v|]|]; try discriminate.
    simpl in Hegg.
    inversion Hegg; subst. rewrite dict_get_set_other; [assumption|].
    unfold parameterNameFor.nestedField, parameterNameFor.topLevelField.
    simpl. discriminate.
  - rewrite dict_get_set_other; [assumption|].
    unfold parameterNameFor.topLevelField. simpl. intros E.
    apply Hnot. inversion E; subst. assumption.
Qed.

(** The statement of the third block leaves in the column of a
    primitive field the value bound to the parameter of the field. *)
Lemma updates_field objectType sets bound values f v0 :
  primitivesUpdates objectType = Return sets ->
  In f (primitiveFieldNames objectType) ->
  ~ In f (nestedFieldNames objectType) ->
  no_dot f ->
  assignments sets bound = Return values ->
  dict_get (parameterNameFor.topLevelField f) bound = Some (Some v0) ->
  forall row, dict_get f (assign values row) = Some v0.
Proof.
  unfold primitivesUpdates. intros Hsets Hf Hnot Hdot Hvalues Hbound.
  destruct (eggColumns objectType) as [eggs|]; [|discriminate].
  simpl in Hsets. inversion Hsets; subst sets; clear Hsets.
  apply assignments_values in Hvalues.
  apply assign_last.
  - intros c v Hin Hc.
    destruct (Forall2_In_right Hvalues _ Hin) as (set & Hset & Hfst & Hget).
    cbn [fst snd] in Hfst, Hget.
    apply in_app_or in Hset. destruct Hset as [Hset|Hset];
      [|apply in_app_or in Hset; destruct Hset as [Hset|Hset]];
      apply in_map_iff in Hset; destruct Hset as (x & <- & Hx);
      cbn [fst snd] in *.
    + subst. rewrite Hbound in Hget. now inversion Hget.
    + subst. contradiction.
    + exfalso. apply (no_dot_not_egg (fst x) (snd x)).
      unfold eggColumnName in Hfst. rewrite <- Hfst, Hc. exact Hdot.
  - assert (Hin : In (f, parameterNameFor.topLevelField f)
        (map (fun f => (f, parameterNameFor.topLevelField f))
             (primitiveFieldNames objectType)
         ++ map (fun f => (f, parameterNameFor.topLevelField f))
             (nestedFieldNames objectType)
         ++ map (fun pair => (eggColumnName pair,
                              parameterNameFor.nestedField (fst pair) (snd pair)))
             eggs)%list).
    { apply in_or_app. left. apply in_map_iff. exists f. auto. }
    destruct (Forall2_In_left Hvalues _ Hin) as ([c v] & Hcv & Hfst & _).
    cbn [fst snd] in Hfst. subst c. eauto.
Qed.

(** The update of a record returns only if every parameter of the
    statement is bound to a value. *)
Lemma update_primitives_bound tableName sets update bound db db' column
    parameter :
  _makeSingleUpdateFunction (updatePrimitives_statement tableName sets)
  = Return update ->
  update bound db = Ok tt db' ->
  In (column, parameter) sets ->
  exists v, dict_get parameter bound = Some (Some v).
Proof.
  intros Hmake Hrun Hin.
  eapply single_update_Ok in Hrun; [|exact Hmake]. simpl in Hrun.
  apply sql_update_primitives_Ok in Hrun.
  destruct Hrun as (t & table & values & id & _ & _ & Hvalues & _).
  apply assignments_values in Hvalues.
  destruct (Forall2_In_left Hvalues _ Hin) as ([c v] & _ & _ & Hget).
  cbn [fst snd] in Hget. eauto.
Qed.

(** The assignments of the statement of the third block. *)
Lemma primitivesUpdates_In objectType sets :
  primitivesUpdates objectType = Return sets ->
  (forall f, In f (primitiveFieldNames objectType) ->
             In (f, parameterNameFor.topLevelField f) sets)
  /\ (forall f, In f (nestedFieldNames objectType) ->
                In (f, parameterNameFor.topLevelField f) sets)
  /\ exists eggs,
       eggColumns objectType = Return eggs
       /\ forall pair, In pair eggs ->
            In (eggColumnName pair,
                parameterNameFor.nestedField (fst pair) (snd pair)) sets.
Proof.
  unfold primitivesUpdates. intros Hsets.
  destruct (eggColumns objectType) as [eggs|]; [|discriminate].
  simpl in Hsets. inversion Hsets; subst sets; clear Hsets.
  split; [|split].
  - intros f Hf. apply in_or_app. left. apply in_map_iff. exists f. auto.
  - intros f Hf. apply in_or_app. right. apply in_or_app. left.
    apply in_map_iff. exists f. auto.
  - exists eggs. split; [reflexivity|]. intros pair Hpair.
    apply in_or_app. right. apply in_or_app. right.
    apply in_map_iff. exists pair. auto.
Qed.

(** The update of the record of an object sets the column in its rows. *)
Lemma update_primitives_sets tableName sets update bound db db' column id0 v0 :
  _makeSingleUpdateFunction (updatePrimitives_statement tableName sets)
  = Return update ->
  update bound db = Ok tt db' ->
  dict_get "id" bound = Some (Some (SqlText id0)) ->
  (forall values, assignments sets bound = Return values ->
     forall row, dict_get column (assign values row) = Some v0) ->
  holds (column_is (sql_identifier tableName) column id0 v0) db'.
Proof.
  intros Hmake Hrun Hid Hassign.
  eapply single_update_Ok in Hrun; [|exact Hmake]. simpl in Hrun.
  apply sql_update_primitives_Ok in Hrun.
  destruct Hrun as (t & table & values & id & Ht & Htable & Hvalues & Hid'
                    & Ht' & Hchanges).
  rewrite Hid in Hid'. inversion Hid'; subst id; clear Hid'.
  eexists. split; [exact Ht'|]. unfold column_is. simpl.
  rewrite dict_get_set_same. eexists. split; [reflexivity|]. simpl.
  symmetry in Hchanges. apply filter_one_In in Hchanges.
  destruct Hchanges as (r & Hr & Hsel). simpl in Hsel.
  apply String.eqb_eq in Hsel. split.
  - eexists. split; [apply in_map; exact Hr|].
    simpl. rewrite Hsel, String.eqb_refl. reflexivity.
  - intros row Hrow Hrowid. apply in_map_iff in Hrow.
    destruct Hrow as (r' & <- & Hr'). simpl in *.
    destruct (String.eqb_spec (p_id r') id0) as [E|E]; simpl in *.
    + now apply Hassign.
    + contradiction.
Qed.

(** The update of the record of another object keeps the column. *)
Lemma update_primitives_keeps tableName sets update bound tableKey column
    id0 v0 id' :
  _makeSingleUpdateFunction (updatePrimitives_statement tableName sets)
  = Return update ->
  dict_get "id" bound = Some (Some (SqlText id')) ->
  id' <> id0 ->
  hoare (column_is tableKey column id0 v0) anything (update bound).
Proof.
  intros Hmake Hid Hne db (t & Ht & table & Htable & Hrow & Hrows).
  destruct (update bound db) as [[] db'|] eqn:Hrun; [|exact Logic.I].
  split; [|exact Logic.I].
  eapply single_update_Ok in Hrun; [|exact Hmake]. simpl in Hrun.
  apply sql_update_primitives_Ok in Hrun.
  destruct Hrun as (t0 & table0 & values & id & Ht0 & Htable0 & Hvalues & Hid'
                    & Ht' & Hchanges).
  rewrite Ht in Ht0. inversion Ht0; subst t0; clear Ht0.
  rewrite Hid in Hid'. inversion Hid'; subst id; clear Hid'.
  eexists. split; [exact Ht'|]. unfold column_is. simpl.
  destruct (String.eqb_spec (sql_identifier tableName) tableKey) as [E|E].
  - subst tableKey. rewrite Htable in Htable0.
    inversion Htable0; subst table0; clear Htable0.
    rewrite dict_get_set_same. eexists. split; [reflexivity|]. simpl.
    assert (Hkeep : forall r, p_id r = id0 ->
              (if String.eqb (p_id r) id'
               then {| p_id := p_id r; p_values := assign values (p_values r) |}
               else r) = r).
    { intros r Hr. destruct (String.eqb_spec (p_id r) id'); [congruence|].
      reflexivity. }
    split.
    + destruct Hrow as (row & Hin & Hrowid). exists row. split; [|assumption].
      apply in_map_iff. exists row. split; [now apply Hkeep | assumption].
    + intros row Hin Hrowid. apply in_map_iff in Hin.
      destruct Hin as (r & <- & Hr).
      destruct (String.eqb_spec (p_id r) id') as [E|E]; simpl in Hrowid.
      * congruence.
      * now apply Hrows.
  - rewrite dict_get_set_other by assumption. exists table. auto.
Qed.

(** The third block: once it has returned, the column of a primitive
    field holds, in the rows of the object of a record, the JSON text of
    the value the record has for the field. *)
Lemma updateAllPrimitives_stores typename objectType batch entry f db db' :
  updateAllPrimitives typename objectType batch db = Ok tt db' ->
  In entry batch ->
  NoDup (map entry_id batch) ->
  In f (primitiveFieldNames objectType) ->
  ~ In f (nestedFieldNames objectType) ->
  no_dot f ->
  holds (primitive_stored ("primitives_" ++ typename) entry f) db'.
Proof.
  unfold updateAllPrimitives. intros H Hin Hnodup Hf Hnot Hdot.
  apply bind_Ok in H. destruct H as (sets & d & Hsets & H).
  apply lift_Ok in Hsets. destruct Hsets as [Hsets ->].
  apply bind_Ok in H. destruct H as (update & d & Hupdate & H).
  assert (Hmake :
    exists tableName,
      _primitivesTableName typename = Return tableName
      /\ _makeSingleUpdateFunction (updatePrimitives_statement tableName sets)
         = Return update).
  { destruct sets as [|set sets].
    - exfalso. unfold primitivesUpdates in Hsets.
      destruct (eggColumns objectType); [|discriminate]. simpl in Hsets.
      inversion Hsets as [E]. apply app_eq_nil in E. destruct E as [E _].
      apply map_eq_nil in E. rewrite E in Hf. contradiction.
    - apply bind_Ok in Hupdate. destruct Hupdate as (tableName & d1 & Hname & Hu).
      apply lift_Ok in Hname. destruct Hname as [Hname ->].
      apply bind_Ok in Hu. destruct Hu as ([] & d2 & _ & Hu).
      apply lift_Ok in Hu. destruct Hu as [Hu _]. eauto. }
  clear Hupdate. destruct Hmake as (tableName & Hname & Hmake).
  apply primitivesTableName_identifier in Hname.
  apply in_split in Hin. destruct Hin as (pre & post & ->).
  apply forEach_split_Ok in H. destruct H as (d1 & d2 & _ & Hentry & Hpost).
  apply bind_Ok in Hentry. destruct Hentry as (bound & d3 & Hbound & Hrun).
  apply lift_Ok in Hbound. destruct Hbound as [Hbound ->].
  destruct (primitivesOf_field _ _ _ f Hbound Hf Hnot)
    as (value & Hvalue & Hget).
  assert (Htext : exists text, JSON_stringify_read value = Some text).
  { destruct (@primitivesUpdates_In _ _ Hsets) as (Hsets_in & _).
    assert (Hv : exists v, dict_get (parameterNameFor.topLevelField f) bound
                           = Some (Some v)).
    { eapply update_primitives_bound; [exact Hmake | exact Hrun |].
      apply Hsets_in. exact Hf. }
    destruct Hv as (v & Hv).
    rewrite Hget in Hv. destruct (JSON_stringify_read value) as [text|];
      [eauto | discriminate]. }
  destruct Htext as (text & Htext). rewrite Htext in Hget. simpl in Hget.
  assert (Hcolumn :
    holds (column_is ("primitives_" ++ typename) f (entry_id entry)
                     (SqlText text)) d2).
  { rewrite <- Hname.
    eapply update_primitives_sets; [exact Hmake | exact Hrun | |].
    - eapply primitivesOf_id; eassumption.
    - intros values Hvalues row.
      eapply updates_field; [exact Hsets | exact Hf | exact Hnot | exact Hdot
                            | exact Hvalues | exact Hget]. }
  eapply hoare_Ok with (Q := anything) in Hpost; [| | exact Hcolumn].
  - destruct Hpost as [(t' & Ht' & Hc) _]. exists t'. split; [assumption|].
    exists value, text. auto.
  - apply hoare_forEach. intros other Hother.
    apply hoare_bind with (Q := fun b =>
      primitivesOf typename objectType other = Return b); [apply hoare_lift|].
    intros bound' Hbound'.
    eapply update_primitives_keeps;
      [exact Hmake | eapply primitivesOf_id; eassumption |].
    rewrite map_app in Hnodup. apply NoDup_remove_2 in Hnodup.
    intros E. apply Hnodup. apply in_or_app. right. rewrite <- E.
    now apply in_map.
Qed.

(** The registrar keeps the column of an object that has its row. *)
Lemma registerObject_column m tableKey column id0 v0 typename id :
  triple (column_is tableKey column id0 v0)
         (_nontransactionallyRegisterObject m typename id)
         (fun _ => column_is tableKey column id0 v0).
Proof.
  eapply triple_weaken;
    [| | apply t_registerObject with (I := column_is tableKey column id0 v0)];
    [auto | intros a t H; apply H | | | |]; unfold column_is;
    try (simpl; auto; fail).
  intros t table (tb & Htb & Hrow & Hrows) _ Hkey Hfresh.
  unfold set_primitives_tables. cbn [primitives_tables].
  destruct (String.eqb_spec ("primitives_" ++ typename) tableKey) as [E|Hne].
  - rewrite E in *. rewrite Htb in Hkey. inversion Hkey; subst tb; clear Hkey.
    rewrite dict_get_set_same. eexists. split; [reflexivity|]. simpl. split.
    + destruct Hrow as (row & Hin & Hid). exists row.
      split; [apply in_or_app; now left | assumption].
    + intros row Hin Hid. apply in_app_or in Hin.
      destruct Hin as [Hin|[<-|[]]]; [now apply Hrows|].
      simpl in Hid. subst id. destruct Hrow as (row & Hin & Hid).
      now elim (Hfresh row Hin).
  - rewrite dict_get_set_other by assumption. exists tb. auto.
Qed.

Lemma updateAllLinks_column m typename objectType batch tableKey column id0 v0 :
  triple (column_is tableKey column id0 v0)
         (updateAllLinks m typename objectType batch)
         (fun _ => column_is tableKey column id0 v0).
Proof.
  apply t_updateAllLinks with (G := fun _ => True); auto.
  intros typename0 id. apply registerObject_column.
Qed.

Lemma triple_of_Ok {A} (c : M A) (Q : A -> Tables -> Prop) :
  triple (fun _ => True) c (fun _ _ => True) ->
  (forall db a db', c db = Ok a db' -> holds (Q a) db') ->
  triple (fun _ => True) c Q.
Proof.
  intros Hc HQ db t Ht _. specialize (Hc db t Ht Logic.I).
  destruct (c db) as [a db'|] eqn:E; [|exact Logic.I].
  destruct Hc as (t' & -> & _). exists t'. split; [reflexivity|].
  destruct (HQ _ _ _ E) as (t'' & Ht'' & H). simpl in Ht''.
  now inversion Ht''; subst.
Qed.

Lemma updateOwnData_primitives m updateId batch entry typeFields fieldname :
  _buildSchemaInfo (_schema m) = Return (_schemaInfo m) ->
  NoDup (map entry_id batch) ->
  In entry batch ->
  dict_get (entry_typename (hd entry batch)) (_schema m)
  = Some (OBJECT typeFields) ->
  dict_get fieldname typeFields = Some PRIMITIVE ->
  no_dot fieldname ->
  triple (fun _ => True) (_nontransactionallyUpdateOwnData m updateId batch)
         (fun _ =>
            primitive_stored ("primitives_" ++ entry_typename (hd entry batch))
                             entry fieldname).
Proof.
  intros Hinfo Hnodup Hin Htype Hfield Hdot.
  unfold _nontransactionallyUpdateOwnData.
  destruct batch as [|first rest] eqn:Ebatch; [contradiction|].
  simpl in Htype. rewrite Htype. rewrite <- Ebatch in *.
  replace (hd entry batch) with first by now rewrite Ebatch.
  clear Ebatch.
  destruct (_buildSchemaInfo_objectType _ _ Hinfo Htype)
    as (objectType & HobjectType & Hbuild).
  rewrite HobjectType.
  apply buildObjectTypeInfo_names in Hbuild.
  destruct Hbuild as (Hprimitives & _ & _ & Hnested).
  assert (Hname : In fieldname (primitiveFieldNames objectType)).
  { rewrite Hprimitives. apply filter_In.
    split; [eapply dict_get_In_keys; eauto|].
    unfold is_primitive_field. now rewrite Hfield. }
  assert (Hnot : ~ In fieldname (nestedFieldNames objectType)).
  { rewrite Hnested. intros H. apply filter_In in H. destruct H as [_ H].
    unfold is_nested_field in H. rewrite Hfield in H. discriminate. }
  tthen (fun (_ : unit) (_ : Tables) => True).
  { apply t_checkObjectsExist with (I := fun _ : Tables => True). }
  intros _.
  tthen (fun (_ : unit) (_ : Tables) => True).
  { apply t_setLastUpdates with (I := fun _ : Tables => True). auto. }
  intros _.
  tthen (fun (_ : unit) =>
           primitive_stored ("primitives_" ++ entry_typename first)
                            entry fieldname).
  { apply triple_of_Ok.
    - apply t_updateAllPrimitives with (I := fun _ : Tables => True). auto.
    - intros db [] db' H.
      eapply updateAllPrimitives_stores; [exact H | | | | |]; assumption. }
  intros _ db t Ht (value & text & Hvalue & Htext & Hcolumn).
  eapply triple_weaken
    with (Q := fun _ => column_is ("primitives_" ++ entry_typename first)
                                  fieldname (entry_id entry) (SqlText text));
    [intros t0 H; exact H | intros _ t0 H; exists value, text; auto
     | apply updateAllLinks_column | exact Ht | exact Hcolumn].
Qed.

Lemma updateOwnData_typename m updateId batch db db' entry :
  _nontransactionallyUpdateOwnData m updateId batch db = Ok tt db' ->
  In entry batch ->
  entry_typename (hd entry batch) = entry_typename entry.
Proof.
  unfold _nontransactionallyUpdateOwnData. intros H Hin.
  destruct batch as [|first rest]; [contradiction|].
  destruct (dict_get (entry_typename first) (_schema m))
    as [[| |typeFields0|typeClauses]|]; try discriminate; try (undeclared ltac:(discriminate)).
  apply bind_Ok in H. destruct H as ([] & db1 & Hcheck & _).
  symmetry. exact (checkObjectsExist_Ok _ _ _ Hcheck entry Hin).
Qed.

(** X19.  An own-data ingestion that returns has stored every primitive
    field of every record: for a batch with one record per id and a
    primitive field, with no dot in its name, of the type of the record,
    the field does not read as [undefined] on the record,
    [JSON.stringify] gives a text for what it reads as (for a value of
    the response, the JSON text of the value; a number as the runtime
    prints it), the object has a row in the table of primitives of the
    type, and the column of the field holds that text in each row of
    the object. *)
Theorem _updateOwnData_primitive (m : Mirror) (updateId : UpdateId)
    (batch : OwnDataUpdateResult) (db db' : Db) (entry : Entry)
    (typeFields : Dict FieldType) (fieldname : Fieldname) :
  _buildSchemaInfo (_schema m) = Return (_schemaInfo m) ->
  NoDup (map entry_id batch) ->
  In entry batch ->
  dict_get (entry_typename entry) (_schema m) = Some (OBJECT typeFields) ->
  dict_get fieldname typeFields = Some PRIMITIVE ->
  no_dot fieldname ->
  _updateOwnData m updateId batch db = Ok tt db' ->
  exists t' table value text,
    tables db' = Some t'
    /\ entry_get entry fieldname = Some value
    /\ JSON_stringify_read value = Some text
    /\ dict_get ("primitives_" ++ entry_typename entry) (primitives_tables t')
       = Some table
    /\ (exists row, In row (pt_rows table) /\ p_id row = entry_id entry)
    /\ forall row, In row (pt_rows table) -> p_id row = entry_id entry ->
         dict_get fieldname (p_values row) = Some (SqlText text).
Proof.
  intros Hinfo Hnodup Hin Htype Hfield Hdot H.
  unfold _updateOwnData in H. apply _inTransaction_Ok in H.
  destruct H as (_ & db2 & H & ->).
  pose proof (updateOwnData_typename _ _ _ _ entry H Hin) as Hfirst.
  destruct (@updateOwnData_tables m updateId batch _ db2 H) as (t & Ht);
    [intros ->; contradiction|]. simpl in Ht.
  eapply triple_Ok in H;
    [| eapply updateOwnData_primitives with (entry := entry);
       [exact Hinfo | exact Hnodup | exact Hin
        | rewrite Hfirst; exact Htype | exact Hfield | exact Hdot]
     | exact Ht | exact Logic.I].
  destruct H
    as (t' & -> & value & text & Hvalue & Htext & table & Htable & Hrow & Hrows).
  rewrite Hfirst in Htable. exists t', table, value, text. auto 10.
Qed.


(** *** The links of the node eggs *)












(** *** The nested fields *)


(** The presence of a nested field of the record is bound to the
    parameter of the field: 0 when the field is [null], 1 otherwise. *)
Lemma primitivesOf_presence typename objectType entry bound F nested :
  primitivesOf typename objectType entry = Return bound ->
  In F (nestedFieldNames objectType) ->
  entry_get entry F = Some nested ->
  dict_get (parameterNameFor.topLevelField F) bound
  = Some (Some (SqlInteger (if is_nullish nested then 0 else 1))).
Proof.
  unfold primitivesOf. intros H HF Hnested.
  destruct (efold _ (primitiveFieldNames objectType) _) as [bound1|] eqn:E1;
    [|discriminate].
  simpl in H. clear E1.
  refine (@efold_invariant _ _
            (fun before s =>
               In F before ->
               dict_get (parameterNameFor.topLevelField F) s
               = Some (Some (SqlInteger (if is_nullish nested then 0 else 1))))
            _ _ _ [] _ _ _ H HF);
    [|intros []].
  intros before G s s' Hbefore Hbody Hin. cbv beta in Hbody.
  destruct (entry_get entry G) as [nestedG|] eqn:EG; [|discriminate].
  destruct (nestedFieldData objectType G "primitives") as [data|];
    [|discriminate].
  simpl in Hbody.
  refine (@efold_preserves _ _
            (fun s => dict_get (parameterNameFor.topLevelField F) s
                      = Some (Some (SqlInteger
                                      (if is_nullish nested then 0 else 1))))
            _ _ _ _ _ _ Hbody).
  - intros e a a' _ Ha Hegg. cbv beta in Hegg.
    destruct (egg_get nestedG e) as [[primitive|]|]; simpl in Hegg;
      try discriminate.
    inversion Hegg; subst. rewrite dict_get_set_other; [assumption|].
    unfold parameterNameFor.nestedField, parameterNameFor.topLevelField.
    simpl. discriminate.
  - destruct (String.eqb_spec G F) as [->|Hne].
    + rewrite Hnested in EG. inversion EG; subst.
      apply dict_get_set_same.
    + rewrite dict_get_set_other.
      * apply Hbefore. apply in_app_or in Hin.
        destruct Hin as [Hin|[Hin|[]]]; [assumption | contradiction].
      * unfold parameterNameFor.topLevelField. simpl. congruence.
Qed.





(** The third block, for a column: once it has returned, the column
    holds, in the rows of the object of a record, the value that the
    statement assigns to it from the parameters bound for the record. *)
Lemma updateAllPrimitives_column typename objectType batch entry column
    (V : SqlValue -> Prop) db db' :
  updateAllPrimitives typename objectType batch db = Ok tt db' ->
  In entry batch ->
  NoDup (map entry_id batch) ->
  (forall sets bound values,
      primitivesUpdates objectType = Return sets ->
      primitivesOf typename objectType entry = Return bound ->
      assignments sets bound = Return values ->
      exists v0,
        V v0 /\ forall row, dict_get column (assign values row) = Some v0) ->
  exists v0,
    V v0
    /\ holds (column_is ("primitives_" ++ typename) column (entry_id entry) v0)
             db'.
Proof.
  unfold updateAllPrimitives. intros H Hin Hnodup Hassign.
  apply bind_Ok in H. destruct H as (sets & d & Hsets & H).
  apply lift_Ok in Hsets. destruct Hsets as [Hsets ->].
  apply bind_Ok in H. destruct H as (update & d & Hupdate & H).
  apply in_split in Hin. destruct Hin as (pre & post & ->).
  apply forEach_split_Ok in H. destruct H as (d1 & d2 & _ & Hentry & Hpost).
  apply bind_Ok in Hentry. destruct Hentry as (bound & d3 & Hbound & Hrun).
  apply lift_Ok in Hbound. destruct Hbound as [Hbound ->].
  assert (Hmake :
    exists tableName,
      _primitivesTableName typename = Return tableName
      /\ _makeSingleUpdateFunction (updatePrimitives_statement tableName sets)
         = Return update).
  { destruct sets as [|set sets].
    - exfalso.
      destruct (Hassign [] bound [] Hsets Hbound eq_refl) as (v0 & _ & Hv0).
      specialize (Hv0 []). discriminate.
    - apply bind_Ok in Hupdate. destruct Hupdate as (tableName & d4 & Hname & Hu).
      apply lift_Ok in Hname. destruct Hname as [Hname ->].
      apply bind_Ok in Hu. destruct Hu as ([] & d5 & _ & Hu).
      apply lift_Ok in Hu. destruct Hu as [Hu _]. eauto. }
  clear Hupdate. destruct Hmake as (tableName & Hname & Hmake).
  apply primitivesTableName_identifier in Hname.
  assert (Hvalues : exists values, assignments sets bound = Return values).
  { pose proof Hrun as Hrun'.
    eapply single_update_Ok in Hrun'; [|exact Hmake]. simpl in Hrun'.
    apply sql_update_primitives_Ok in Hrun'.
    destruct Hrun' as (t & table & values & id & _ & _ & Hvalues & _). eauto. }
  destruct Hvalues as (values & Hvalues).
  destruct (Hassign sets bound values Hsets Hbound Hvalues) as (v0 & HV & Hv0).
  exists v0. split; [exact HV|].
  assert (Hcolumn :
    holds (column_is ("primitives_" ++ typename) column (entry_id entry) v0)
          d2).
  { rewrite <- Hname.
    eapply update_primitives_sets; [exact Hmake | exact Hrun | |].
    - eapply primitivesOf_id; eassumption.
    - intros values' Hvalues' row. rewrite Hvalues in Hvalues'.
      inversion Hvalues'; subst values'. apply Hv0. }
  eapply hoare_Ok with (Q := anything) in Hpost; [| | exact Hcolumn].
  - apply Hpost.
  - apply hoare_forEach. intros other Hother.
    apply hoare_bind with (Q := fun b =>
      primitivesOf typename objectType other = Return b); [apply hoare_lift|].
    intros bound' Hbound'.
    eapply update_primitives_keeps;
      [exact Hmake | eapply primitivesOf_id; eassumption |].
    rewrite map_app in Hnodup. apply NoDup_remove_2 in Hnodup.
    intros E. apply Hnodup. apply in_or_app. right. rewrite <- E.
    now apply in_map.
Qed.

(** A returning own-data ingestion, for a column: the same, the fourth
    block keeping the column. *)
Lemma updateOwnData_column m updateId batch db db' entry objectType column
    (V : SqlValue -> Prop) :
  _nontransactionallyUpdateOwnData m updateId batch db = Ok tt db' ->
  In entry batch ->
  NoDup (map entry_id batch) ->
  dict_get (entry_typename entry) (objectTypes (_schemaInfo m))
  = Some objectType ->
  (forall sets bound values,
      primitivesUpdates objectType = Return sets ->
      primitivesOf (entry_typename entry) objectType entry = Return bound ->
      assignments sets bound = Return values ->
      exists v0,
        V v0 /\ forall row, dict_get column (assign values row) = Some v0) ->
  exists v0,
    V v0
    /\ holds (column_is ("primitives_" ++ entry_typename entry) column
                        (entry_id entry) v0) db'.
Proof.
  intros H Hin Hnodup Hot Hassign.
  unfold _nontransactionallyUpdateOwnData in H.
  destruct batch as [|first rest] eqn:Ebatch; [contradiction|].
  rewrite <- Ebatch in *.
  destruct (dict_get (entry_typename first) (_schema m))
    as [[| |typeFields0|typeClauses]|] eqn:Es; try discriminate;
    try (undeclared ltac:(discriminate)).
  apply bind_Ok in H. destruct H as ([] & db1 & Hcheck & H).
  apply bind_Ok in H. destruct H as ([] & db2 & Hlast & H).
  pose proof (checkObjectsExist_Ok _ _ _ Hcheck entry Hin) as Htypename.
  rewrite <- Htypename in H. rewrite Hot in H.
  apply bind_Ok in H. destruct H as ([] & db3 & Hprim & Hlinks).
  assert (Hcolumn :
    exists v0,
      V v0
      /\ holds (column_is ("primitives_" ++ entry_typename entry) column
                          (entry_id entry) v0) db3).
  { eapply updateAllPrimitives_column; eauto. }
  destruct Hcolumn as (v0 & HV & Hcolumn).
  exists v0. split; [exact HV|].
  destruct Hcolumn as (t3 & Ht3 & Hcolumn).
  eapply triple_Ok in Hlinks;
    [| apply updateAllLinks_column | exact Ht3 | exact Hcolumn].
  destruct Hlinks as (t' & -> & Hcolumn'). exists t'. split; [reflexivity|].
  exact Hcolumn'.
Qed.

Lemma updateOwnData_objectType m updateId batch db db' entry typeFields :
  _buildSchemaInfo (_schema m) = Return (_schemaInfo m) ->
  _nontransactionallyUpdateOwnData m updateId batch db = Ok tt db' ->
  In entry batch ->
  dict_get (entry_typename entry) (_schema m) = Some (OBJECT typeFields) ->
  exists objectType bound,
    dict_get (entry_typename entry) (objectTypes (_schemaInfo m))
    = Some objectType
    /\ buildObjectTypeInfo typeFields = Return objectType
    /\ primitivesOf (entry_typename entry) objectType entry = Return bound.
Proof.
  intros Hinfo H Hin Htype.
  destruct (updateOwnData_Ok _ _ _ _ H entry Hin)
    as (tf & objectType & Htf & Hot & [bound Hbound] & _).
  destruct (_buildSchemaInfo_objectType _ _ Hinfo Htype)
    as (ot & Hot' & Hbuild).
  rewrite Hot in Hot'. inversion Hot'; subst ot; clear Hot'.
  exists objectType, bound. auto.
Qed.

(** X22.  An own-data ingestion that returns has stored the presence of
    every nested field of every record: for a batch with one record per
    id and a nested field, with no dot in its name, of the type of the
    record, the record has a value for the field, the object has a row
    in the table of primitives of the type, and the column of the field
    holds, in each row of the object, 0 when the value is [null] and 1
    otherwise, also when the value is a property that the record
    inherits. *)
Theorem _updateOwnData_nested (m : Mirror) (updateId : UpdateId)
    (batch : OwnDataUpdateResult) (db db' : Db) (entry : Entry)
    (typeFields : Dict FieldType) (nestFieldname : Fieldname)
    (eggs : Dict EggFieldType) :
  _buildSchemaInfo (_schema m) = Return (_schemaInfo m) ->
  NoDup (map entry_id batch) ->
  In entry batch ->
  dict_get (entry_typename entry) (_schema m) = Some (OBJECT typeFields) ->
  dict_get nestFieldname typeFields = Some (NESTED eggs) ->
  no_dot nestFieldname ->
  _updateOwnData m updateId batch db = Ok tt db' ->
  exists t' table nested,
    tables db' = Some t'
    /\ entry_get entry nestFieldname = Some nested
    /\ dict_get ("primitives_" ++ entry_typename entry) (primitives_tables t')
       = Some table
    /\ (exists row, In row (pt_rows table) /\ p_id row = entry_id entry)
    /\ forall row, In row (pt_rows table) -> p_id row = entry_id entry ->
         dict_get nestFieldname (p_values row)
         = Some (SqlInteger (if is_nullish nested then 0 else 1)).
Proof.
  intros Hinfo Hnodup Hin Htype HF Hdot H.
  unfold _updateOwnData in H. apply _inTransaction_Ok in H.
  destruct H as (_ & db2 & H & ->).
  destruct (updateOwnData_objectType _ _ _ _ _ Hinfo H Hin Htype)
    as (objectType & bound & Hot & Hbuild & Hbound).
  destruct (buildObjectTypeInfo_covers _ Hbuild nestFieldname
              (dict_get_In_keys _ _ HF)) as (_ & _ & Hn).
  destruct (Hn eggs HF) as (HFin & _).
  destruct (primitivesOf_Return _ _ _ Hbound) as [_ Hnest].
  destruct (Hnest nestFieldname HFin) as (nested & Hnested & _).
  eapply updateOwnData_column
    with (column := nestFieldname)
         (V := fun v0 =>
                 v0 = SqlInteger (if is_nullish nested then 0 else 1))
    in H; [| exact Hin | exact Hnodup | exact Hot |].
  - destruct H as (v0 & -> & t' & Ht' & table & Htable & Hrow & Hrows).
    exists t', table, nested. simpl. auto.
  - intros sets bound' values Hsets Hbound' Hvalues.
    eexists. split; [reflexivity|]. intros row.
    eapply updates_marker; [exact Hsets | exact HFin | exact Hdot
                           | exact Hvalues |].
    eapply primitivesOf_presence; eassumption.
Qed.


(** ** What an extraction holds *)

Lemma sql_select_primitives_Ok temp tableName columns db rows db' :
  sql_select_primitives temp tableName columns db = Ok rows db' ->
  db' = db
  /\ exists t table,
       tables db = Some t
       /\ dict_get (sql_identifier tableName) (primitives_tables t)
          = Some table
       /\ forall id,
            In id (map row_id rows)
            <-> In id (map fst temp)
                /\ exists r, In r (pt_rows table) /\ p_id r = id.
Proof.
  unfold sql_select_primitives. intros H.
  apply bind_Ok in H. destruct H as (t & d & Hget & H).
  apply getTables_Ok in Hget. destruct Hget as [Ht ->].
  destruct (dict_get (sql_identifier tableName) (primitives_tables t))
    as [table|] eqn:Etable; [|discriminate].
  destruct (negb _); [discriminate|].
  unfold ret in H. inversion H; subst rows db'; clear H.
  split; [reflexivity|]. exists t, table. repeat split; auto.
  - apply in_map_iff in H. destruct H as (row & <- & Hrow).
    apply in_flat_map in Hrow. destruct Hrow as (x & Hx & Hrow).
    apply in_map_iff in Hrow. destruct Hrow as (r & <- & Hr).
    apply filter_In in Hr. destruct Hr as [_ Hr].
    apply String.eqb_eq in Hr. simpl. rewrite <- Hr. now apply in_map.
  - apply in_map_iff in H. destruct H as (row & <- & Hrow).
    apply in_flat_map in Hrow. destruct Hrow as (x & Hx & Hrow).
    apply in_map_iff in Hrow. destruct Hrow as (r & <- & Hr).
    apply filter_In in Hr. destruct Hr as [Hr _]. simpl. eauto.
  - intros [Hid (r & Hr & Hrid)]. apply in_map_iff in Hid.
    destruct Hid as (x & Hx & Hin). apply in_map_iff.
    eexists. split; [|apply in_flat_map; exists x; split; [exact Hin|];
                       apply in_map; apply filter_In; split; [exact Hr|]].
    + simpl. assumption.
    + apply String.eqb_eq. rewrite Hrid. exact Hx.
Qed.

(** The records created for a typename: one under the id of every row
    that the table of primitives of the type has for an id of the
    temporary table; the database is only read. *)
Lemma createObjects_keys (JSON_parse : string -> Except Value) m temp
    allObjects typename db allObjects' db' :
  createObjects JSON_parse m temp allObjects typename db = Ok allObjects' db' ->
  db' = db
  /\ exists t table,
       tables db = Some t
       /\ dict_get ("primitives_" ++ typename) (primitives_tables t)
          = Some table
       /\ forall id,
            In id (dict_keys allObjects')
            <-> In id (dict_keys allObjects)
                \/ (In id (map fst temp)
                    /\ exists r, In r (pt_rows table) /\ p_id r = id).
Proof.
  unfold createObjects. intros H.
  destruct (dict_get typename (objectTypes (_schemaInfo m))) as [objectType|];
    [|discriminate].
  apply bind_Ok in H. destruct H as (tableName & d & Hname & H).
  apply lift_Ok in Hname. destruct Hname as [Hname ->].
  apply bind_Ok in H. destruct H as (eggs & d & Heggs & H).
  apply lift_Ok in Heggs. destruct Heggs as [_ ->].
  apply bind_Ok in H. destruct H as (rows & d & Hrows & H).
  apply sql_select_primitives_Ok in Hrows.
  destruct Hrows as (-> & t & table & Ht & Htable & Hrows).
  apply lift_Ok in H. destruct H as [Hfold ->]. split; [reflexivity|].
  rewrite (primitivesTableName_identifier _ Hname) in Htable.
  exists t, table. split; [assumption|]. split; [assumption|].
  intros id. rewrite <- Hrows. clear Hrows. revert id.
  refine (@efold_invariant _ _
            (fun before s =>
               forall id,
                 In id (dict_keys s)
                 <-> In id (dict_keys allObjects) \/ In id (map row_id before))
            _ _ _ [] _ _ _ Hfold); [|simpl; tauto].
  intros before row s s' Hinv Hbody id. cbv beta in Hbody.
  destruct (objectOfRow JSON_parse typename objectType row) as [object|];
    [|discriminate].
  simpl in Hbody. inversion Hbody; subst s'; clear Hbody.
  rewrite dict_keys_set, map_app, in_app_iff, Hinv. simpl. intuition.
Qed.

Lemma forEachWith_readonly {X S} (I : list X -> S -> Prop)
    (body : S -> X -> M S) db (xs : list X) :
  (forall before x s s' db',
      I before s -> body s x db = Ok s' db' ->
      db' = db /\ I (before ++ [x])%list s') ->
  forall before s0 s db',
    I before s0 -> forEachWith xs s0 body db = Ok s db' ->
    db' = db /\ I (before ++ xs)%list s.
Proof.
  intros Hstep. induction xs as [|x xs IH]; simpl; intros before s0 s db' H0 H.
  - unfold ret in H. inversion H; subst. now rewrite app_nil_r.
  - apply bind_Ok in H. destruct H as (s1 & d & Hx & H).
    destruct (Hstep _ _ _ _ _ H0 Hx) as [-> H1].
    replace (before ++ x :: xs)%list with ((before ++ [x]) ++ xs)%list
      by now rewrite <- app_assoc.
    now apply IH with (s0 := s1).
Qed.

Lemma dict_keys_reset {V} (k : string) (v w : V) (d : Dict V) :
  dict_get k d = Some w ->
  forall id, In id (dict_keys (dict_set k v d)) <-> In id (dict_keys d).
Proof.
  intros Hget id. rewrite dict_keys_set. apply dict_get_In_keys in Hget.
  split; [intros [->|H]; assumption | auto].
Qed.

(** Adding a link or the datum of a connection creates no record. *)
Lemma addLink_keys allObjects link allObjects' :
  addLink allObjects link = Return allObjects' ->
  forall id, In id (dict_keys allObjects') <-> In id (dict_keys allObjects).
Proof.
  unfold addLink. intros H id.
  destruct (getObject allObjects (l_parent_id link)) as [parent|] eqn:Ep;
    [|discriminate]. simpl in H. apply getObject_Return in Ep.
  destruct (resolveChild allObjects (l_child_id link)) as [child|];
    [|discriminate]. simpl in H.
  destruct (split_on "." (l_fieldname link)) as [|p1 [|p2 [|p3 ps]]];
    try discriminate.
  - inversion H; subst. eapply dict_keys_reset; eauto.
  - destruct (dict_get p1 parent) as [[| | | | |target|]|]; try discriminate.
    + inversion H; subst. tauto.
    + inversion H; subst. eapply dict_keys_reset; eauto.
    + destruct (getObject allObjects target) as [other|] eqn:Eo;
        [|discriminate]. simpl in H. apply getObject_Return in Eo.
      inversion H; subst. eapply dict_keys_reset; eauto.
Qed.

Lemma addConnectionDatum_keys allObjects datum allObjects' :
  addConnectionDatum allObjects datum = Return allObjects' ->
  forall id, In id (dict_keys allObjects') <-> In id (dict_keys allObjects).
Proof.
  unfold addConnectionDatum. intros H id.
  destruct (getObject allObjects (datum_parentId datum)) as [parent|] eqn:Ep;
    [|discriminate]. simpl in H. apply getObject_Return in Ep.
  destruct (datum_entry datum) as [entry|].
  - destruct (resolveChild _ (e_child_id entry)) as [child|]; [|discriminate].
    simpl in H.
    destruct (dict_get (datum_fieldname datum) _) as [[| | | | | |items]|];
      try discriminate.
    inversion H; subst. rewrite dict_keys_set, dict_keys_set.
    apply dict_get_In_keys in Ep. intuition; subst; assumption.
  - inversion H; subst. eapply dict_keys_reset; eauto.
Qed.

(** What a returning extraction has done: the database is as it was,
    and the records of the graph are those of the rows that the tables
    of primitives of the typenames of the temporary table have for its
    ids. *)
Lemma extract_Ok_keys (JSON_parse : string -> Except Value) m rootId db t
    graph db' :
  tables db = Some t ->
  extract JSON_parse m rootId db = Ok graph db' ->
  db' = db
  /\ graph_root graph = rootId
  /\ In rootId (dict_keys (graph_objects graph))
  /\ forall id,
       In id (dict_keys (graph_objects graph))
       <-> In id (map fst (sql_transitive_objects t rootId))
           /\ exists typename table r,
                In typename (map snd (sql_transitive_objects t rootId))
                /\ dict_get ("primitives_" ++ typename) (primitives_tables t)
                   = Some table
                /\ In r (pt_rows table) /\ p_id r = id.
Proof.
  intros Ht H. unfold extract in H.
  apply _inTransaction_Ok in H. destruct H as (Hidle & db2 & H & ->).
  apply bind_Ok in H. destruct H as (t0 & db1 & Hget & H).
  apply getTables_Ok in Hget. simpl in Hget. destruct Hget as [Ht0 ->].
  rewrite Ht in Ht0. inversion Ht0; subst t0; clear Ht0.
  set (temp := sql_transitive_objects t rootId) in *.
  destruct (sql_never_updated t temp); [|discriminate].
  apply bind_Ok in H. destruct H as (all1 & db3 & Hcreate & H).
  apply (@forEachWith_readonly _ _
           (fun before s =>
              forall id,
                In id (dict_keys s)
                <-> In id (map fst temp)
                    /\ exists typename table r,
                         In typename before
                         /\ dict_get ("primitives_" ++ typename)
                                     (primitives_tables t) = Some table
                         /\ In r (pt_rows table) /\ p_id r = id)
           _ _ _) with (before := []) in Hcreate.
  - destruct Hcreate as [-> H1]. simpl in H1.
    apply bind_Ok in H. destruct H as (all2 & db4 & Hl & H).
    apply lift_Ok in Hl. destruct Hl as [Hl ->].
    apply bind_Ok in H. destruct H as (all3 & db5 & Hc & H).
    apply lift_Ok in Hc. destruct Hc as [Hc ->].
    assert (H2 : forall id, In id (dict_keys all2) <-> In id (dict_keys all1)).
    { refine (efold_preserves
                (fun s => forall id,
                            In id (dict_keys s) <-> In id (dict_keys all1))
                _ _ _ _ _ Hl); [|tauto].
      intros l s s' _ Hs Hbody id. rewrite <- Hs.
      now apply addLink_keys with (link := l). }
    assert (H3 : forall id, In id (dict_keys all3) <-> In id (dict_keys all1)).
    { refine (efold_preserves
                (fun s => forall id,
                            In id (dict_keys s) <-> In id (dict_keys all1))
                _ _ _ _ _ Hc); [|exact H2].
      intros d s s' _ Hs Hbody id. rewrite <- Hs.
      now apply addConnectionDatum_keys with (datum := d). }
    destruct (dict_get rootId all3) as [root|] eqn:Eroot; [|discriminate].
    unfold ret in H. inversion H; subst graph db2; clear H. simpl.
    split; [destruct db; simpl in *; now subst|].
    split; [reflexivity|].
    split; [eapply dict_get_In_keys; eassumption|].
    intros id. rewrite H3, H1.
    split; intros [Hid (typename & table & r & Htn & Hrest)];
      (split; [assumption|]); exists typename, table, r;
      (split; [|assumption]).
    + now apply nodup_In in Htn.
    + now apply nodup_In.
  - intros before typename s s' d Hinv Hbody.
    apply createObjects_keys in Hbody.
    destruct Hbody as (-> & t1 & table & Ht1 & Htable & Hkeys).
    simpl in Ht1. rewrite Ht in Ht1. inversion Ht1; subst t1; clear Ht1.
    split; [reflexivity|]. intros id. rewrite Hkeys, Hinv. split.
    + intros [[Hid (tn & tb & r & Htn & Hrest)] | [Hid (r & Hr & Hrid)]].
      * split; [assumption|]. exists tn, tb, r.
        split; [apply in_or_app; now left | assumption].
      * split; [assumption|]. exists typename, table, r.
        split; [apply in_or_app; right; now left | auto].
    + intros [Hid (tn & tb & r & Htn & Htb & Hr & Hrid)].
      apply in_app_or in Htn. destruct Htn as [Htn|[<-|[]]].
      * left. split; [assumption|]. exists tn, tb, r. auto.
      * right. split; [assumption|]. rewrite Htable in Htb.
        inversion Htb; subst tb. eauto.
  - simpl. intros id. split; [intros [] | intros [_ (tn & _ & _ & [] & _)]].
Qed.

(** X24.  What an extraction that returns holds: in a database of a mirror,
    the records of the graph are those of the registered objects that
    the root transitively depends on, by the links and the entries of
    connections that have a child, the root among them; and the
    database is as it was. *)
Theorem extract_objects (stringify : Config -> string)
    (JSON_parse : string -> Except Value) (schema : Schema)
    (blacklist : list ObjectId) (m : Mirror) (rootId : ObjectId)
    (db : Db) (graph : ExtractedGraph) (db' : Db) :
  mirror_db stringify schema blacklist m db ->
  extract JSON_parse m rootId db = Ok graph db' ->
  db' = db
  /\ graph_root graph = rootId
  /\ In rootId (dict_keys (graph_objects graph))
  /\ exists t,
       tables db = Some t
       /\ forall id,
            In id (dict_keys (graph_objects graph))
            <-> In id (map o_id (objects t)) /\ reachable t rootId id.
Proof.
  intros Hdb H.
  destruct (mirror_db_fully_registered Hdb) as (t & Ht & Hfull).
  destruct (@extract_Ok_keys JSON_parse m rootId db t graph db' Ht H) as (Hsame & Hroot & Hin & Hkeys).
  split; [assumption|]. split; [assumption|]. split; [assumption|].
  exists t. split; [assumption|]. intros id. rewrite Hkeys. split.
  - intros [Hid _]. apply in_map_iff in Hid.
    destruct Hid as ([id' typename] & Heq & Hrow). simpl in Heq. subst id'.
    apply in_transitive_objects in Hrow.
    destruct Hrow as (o & Ho & Hoid & _ & Hreach).
    split; [|assumption]. rewrite <- Hoid. now apply in_map.
  - intros [Hid Hreach]. apply in_map_iff in Hid.
    destruct Hid as (o & Hoid & Ho).
    assert (Hrow : In (id, o_typename o) (sql_transitive_objects t rootId)).
    { apply in_transitive_objects. exists o. auto. }
    split; [apply in_map_iff; exists (id, o_typename o); auto|].
    destruct (Hfull o Ho) as (typeFields & _ & (table & r & Htable & Hr & Hrid)
                              & _).
    exists (o_typename o), table, r.
    split; [apply in_map_iff; exists (id, o_typename o); auto|].
    rewrite <- Hoid. auto.
Qed.

Lemma reachable_unregistered t rootId id :
  references_resolve t ->
  ~ In rootId (map o_id (objects t)) ->
  reachable t rootId id -> id = rootId.
Proof.
  intros (_ & Hlinks & Hconnections & _) Hnot Hreach.
  induction Hreach as [|x y _ IH Hdep]; [reflexivity|]. subst x. exfalso.
  destruct Hdep as [l child Hl _ | c e child Hc _ _ _].
  - apply Hnot. now apply Hlinks.
  - apply Hnot. now apply Hconnections.
Qed.

(** X25.  Extracting from a database of a mirror an id that is not
    registered throws that there is no such object, and leaves the
    database as it was. *)
Theorem extract_unregistered (stringify : Config -> string)
    (JSON_parse : string -> Except Value) (schema : Schema)
    (blacklist : list ObjectId) (m : Mirror) (rootId : ObjectId) (db : Db) :
  mirror_db stringify schema blacklist m db ->
  (forall t, tables db = Some t -> ~ In rootId (map o_id (objects t))) ->
  extract JSON_parse m rootId db
  = Throw ("No such object: " ++ JSON_stringify_string rootId) db.
Proof.
  intros Hdb Hnot.
  destruct (mirror_db_references_resolve Hdb) as (t & Ht & Hresolve).
  destruct (mirror_db_idle Hdb) as [Hidle _].
  specialize (Hnot t Ht).
  assert (Htemp : sql_transitive_objects t rootId = []).
  { destruct (sql_transitive_objects t rootId) as [|[id typename] rows] eqn:E;
      [reflexivity|]. exfalso.
    assert (Hrow : In (id, typename) (sql_transitive_objects t rootId))
      by (rewrite E; now left).
    apply in_transitive_objects in Hrow.
    destruct Hrow as (o & Ho & Hoid & _ & Hreach).
    apply (reachable_unregistered Hresolve Hnot) in Hreach.
    rewrite Hreach in Hoid. apply Hnot. rewrite <- Hoid. now apply in_map. }
  unfold extract, _inTransaction. rewrite Hidle.
  unfold bind at 1. unfold getTables. cbn [tables]. rewrite Ht, Htemp.
  reflexivity.
Qed.

(** ** Paging through a connection *)

Lemma NoDup_map_same {X K} (key : X -> K) (l : list X) (x y : X) :
  NoDup (map key l) -> In x l -> In y l -> key x = key y -> x = y.
Proof.
  induction l as [|a l IH]; simpl; intros Hnodup Hx Hy Hkey; [contradiction|].
  inversion Hnodup as [|? ? Hnot Hrest]; subst.
  destruct Hx as [->|Hx], Hy as [->|Hy]; auto.
  - elim Hnot. rewrite Hkey. now apply in_map.
  - elim Hnot. rewrite <- Hkey. now apply in_map.
Qed.

Lemma left_outer_join_updates_cases last_update us u :
  In u (left_outer_join_updates last_update us) ->
  u = None
  \/ exists row, u = Some row /\ In row us
                 /\ last_update = Some (u_rowid row).
Proof.
  unfold left_outer_join_updates.
  destruct (filter _ us) as [|u0 rest] eqn:Ef.
  - intros [<-|[]]. now left.
  - intros Hin. right. apply in_map_iff in Hin.
    destruct Hin as (row & <- & Hrow). rewrite <- Ef in Hrow.
    apply filter_In in Hrow. destruct Hrow as [Hrow Hmatch].
    exists row. split; [reflexivity|]. split; [assumption|].
    destruct last_update as [x|]; simpl in Hmatch; [|discriminate].
    apply Z.eqb_eq in Hmatch. now subst.
Qed.

Lemma left_outer_join_updates_some last_update us :
  exists u, In u (left_outer_join_updates last_update us).
Proof.
  unfold left_outer_join_updates.
  destruct (filter _ us) as [|u0 rest]; eexists; simpl; eauto.
Qed.

(** X26.  After an ingestion into a connection that returned, in a
    database of a mirror: if the page has a next page, [_findOutdated]
    lists the connection, whatever the threshold, with the end cursor
    of the page; if it has none, [_findOutdated] does not list the
    connection, for any threshold up to the time of the update of the
    ingestion. *)
Theorem connection_paging (stringify : Config -> string) (schema : Schema)
    (blacklist : list ObjectId) (m : Mirror) (updateId : UpdateId)
    (objectId : ObjectId) (fieldname : Fieldname)
    (queryResult : ConnectionFieldResult) (db db' : Db) (since : Z) :
  mirror_db stringify schema blacklist m db ->
  _updateConnection m updateId objectId fieldname queryResult db = Ok tt db' ->
  exists t' plan,
    tables db' = Some t'
    /\ _findOutdated since db' = Ok plan db'
    /\ (hasNextPage (pageInfo queryResult) = true ->
        exists pc,
          In pc (plan_connections plan)
          /\ pc_objectId pc = objectId /\ pc_fieldname pc = fieldname
          /\ pc_endCursor pc = Some (endCursor (pageInfo queryResult)))
    /\ (hasNextPage (pageInfo queryResult) = false ->
        (forall u, In u (updates t') -> u_rowid u = updateId ->
                   since <= u_time_epoch_millis u) ->
        forall pc,
          In pc (plan_connections plan) ->
          ~ (pc_objectId pc = objectId /\ pc_fieldname pc = fieldname)).
Proof.
  intros Hdb H.
  assert (Hdb' : mirror_db stringify schema blacklist m db').
  { eapply mirror_db_step; [exact Hdb|].
    eapply step_updateConnection. exact H. }
  destruct (mirror_db_keys_unique Hdb') as (t' & Ht' & Hkeys).
  destruct (mirror_db_references_resolve Hdb') as (t1 & Ht1 & Hresolve).
  rewrite Ht' in Ht1. inversion Ht1; subst t1; clear Ht1.
  destruct (mirror_db_idle Hdb') as [Hidle _].
  assert (Hstored : connection_stored updateId queryResult objectId fieldname t').
  { unfold _updateConnection in H. apply _inTransaction_Ok in H.
    destruct H as (_ & db2 & H & ->).
    destruct (updateConnection_tables _ _ _ _ _ _ H) as (t & Ht).
    eapply triple_Ok in H;
      [|apply updateConnection_stored|exact Ht|exact Logic.I].
    destruct H as (t2 & -> & Hstored). simpl in Ht'.
    inversion Ht'; subst t2. exact Hstored. }
  destruct Hstored as (c & Hc & Hlast & Htotal & Hnext & Hcursor).
  unfold connection_of in Hc. pose proof (find_some _ _ Hc) as [Hcin Hcsel].
  apply andb_true_iff in Hcsel. destruct Hcsel as [Hcid Hcf].
  apply String.eqb_eq in Hcid, Hcf.
  exists t'. eexists. split; [assumption|]. split.
  { unfold _findOutdated, _inTransaction. rewrite Hidle.
    unfold bind, getTables, ret. cbn [tables]. rewrite Ht'.
    destruct db' as [i mt tb]. simpl in Hidle, Ht'. subst i tb.
    cbn [meta tables]. reflexivity. }
  cbn [plan_connections]. split.
  - intros Hpage. rewrite Hpage in Hnext.
    destruct Hresolve as (_ & _ & Hconnections & _).
    destruct (Hconnections c Hcin) as [Hreg _]. unfold registered in Hreg.
    apply in_map_iff in Hreg. destruct Hreg as (o & Ho & Hoin).
    destruct (left_outer_join_updates_some (c_last_update c) (updates t'))
      as [u Hu].
    exists {| pc_objectTypename := o_typename o;
              pc_objectId := c_object_id c;
              pc_fieldname := c_fieldname c;
              pc_endCursor := Some (c_end_cursor c) |}.
    split; [|cbn; rewrite Hcursor; auto].
    apply in_map_iff.
    exists {| ocr_objectTypename := o_typename o;
              ocr_objectId := c_object_id c;
              ocr_fieldname := c_fieldname c;
              ocr_neverUpdated := is_null (c_last_update c);
              ocr_endCursor := c_end_cursor c |}.
    split; [cbn; now rewrite Hlast|].
    unfold sql_outdated_connections. apply in_map_iff.
    exists (c, u, o). split; [reflexivity|].
    apply filter_In. split.
    + apply in_flat_map. exists c. split; [exact Hcin|].
      apply in_flat_map. exists u. split; [exact Hu|].
      apply in_map. apply filter_In. split; [exact Hoin|].
      rewrite Ho. apply String.eqb_refl.
    + cbv beta iota. rewrite Hnext. reflexivity.
  - intros Hpage Htime pc Hpc [Hid Hf]. rewrite Hpage in Hnext.
    apply in_map_iff in Hpc. destruct Hpc as (row & <- & Hrow).
    unfold sql_outdated_connections in Hrow. apply in_map_iff in Hrow.
    destruct Hrow as ([[c' u] o] & <- & Hrow). cbn in Hid, Hf.
    apply filter_In in Hrow. destruct Hrow as [Hrow Hsel].
    apply in_flat_map in Hrow. destruct Hrow as (c0 & Hc0 & Hrow).
    apply in_flat_map in Hrow. destruct Hrow as (u0 & Hu0 & Hrow).
    apply in_map_iff in Hrow. destruct Hrow as (o0 & Heq & _).
    inversion Heq; subst c0 u0 o0; clear Heq.
    assert (c' = c).
    { destruct Hkeys as (_ & _ & _ & _ & _ & Hunique & _).
      apply (NoDup_map_same _ _ _ _ Hunique Hc0 Hcin). congruence. }
    subst c'. cbv beta iota in Hsel. rewrite Hnext, Hlast in Hsel.
    simpl in Hsel. rewrite Hlast in Hu0.
    apply left_outer_join_updates_cases in Hu0.
    destruct Hu0 as [->|(row & -> & Hrowin & Hrowid)]; [discriminate|].
    simpl in Hsel. apply Z.ltb_lt in Hsel.
    inversion Hrowid as [Hrow]. specialize (Htime row Hrowin (eq_sym Hrow)).
    lia.
Qed.

(** ** The tables the constructor creates *)

Lemma forEach_prefix {X} (I : list X -> Db -> Prop) (xs : list X)
    (body : X -> M unit) :
  (forall before x db db',
      I before db -> body x db = Ok tt db' -> I (before ++ [x])%list db') ->
  forall before db db',
    I before db -> forEach xs body db = Ok tt db' -> I (before ++ xs)%list db'.
Proof.
  intros Hstep. induction xs as [|x xs IH]; simpl; intros before db db' H0 H.
  - unfold ret in H. inversion H; subst. now rewrite app_nil_r.
  - apply bind_Ok in H. destruct H as ([] & d & Hx & H).
    replace (before ++ x :: xs)%list with ((before ++ [x]) ++ xs)%list
      by now rewrite <- app_assoc.
    eapply IH; [|exact H]. eapply Hstep; eauto.
Qed.

(** The table created for an object type: under the name
    [primitives_T], without rows, with a column for every primitive
    field, every nested field and every primitive egg. *)
Lemma createPrimitivesTable_creates typename type db db' :
  createPrimitivesTable typename type db = Ok tt db' ->
  exists t eggs,
    tables db = Some t
    /\ eggColumns type = Return eggs
    /\ db' = with_tables db
               (set_primitives_tables t
                  (primitives_tables t
                     ++ [(("primitives_" ++ typename)%string,
                          {| pt_columns :=
                               (primitiveFieldNames type
                                  ++ nestedFieldNames type
                                  ++ map eggColumnName eggs)%list;
                             pt_rows := [] |})])%list).
Proof.
  unfold createPrimitivesTable. intros H.
  apply bind_Ok in H. destruct H as ([] & d1 & H1 & H).
  apply lift_Ok in H1. destruct H1 as [_ ->].
  apply bind_Ok in H. destruct H as ([] & d2 & H2 & H).
  apply lift_Ok in H2. destruct H2 as [_ ->].
  apply bind_Ok in H. destruct H as ([] & d3 & H3 & H).
  apply lift_Ok in H3. destruct H3 as [_ ->].
  apply bind_Ok in H. destruct H as (tableName & d4 & Hname & H).
  apply lift_Ok in Hname. destruct Hname as [Hname ->].
  apply bind_Ok in H. destruct H as (eggs & d5 & Heggs & H).
  apply lift_Ok in Heggs. destruct Heggs as [Heggs ->].
  unfold sql_create_primitives_table in H.
  apply bind_Ok in H. destruct H as (t & d6 & Hget & H).
  apply getTables_Ok in Hget. destruct Hget as [Ht ->].
  destruct (existsb _ (primitives_tables t)); [discriminate|].
  destruct (negb _); [discriminate|].
  unfold putTables in H. inversion H; subst db'; clear H.
  rewrite (primitivesTableName_identifier _ Hname).
  exists t, eggs. auto.
Qed.

(** The tables the constructor leaves in an empty database. *)
Lemma Mirror_constructor_tables (stringify : Config -> string) (schema : Schema)
    (blacklist : list ObjectId) (m : Mirror) (db : Db) :
  Mirror_constructor stringify schema blacklist empty_db = Ok m db ->
  exists t,
    tables db = Some t
    /\ updates t = [] /\ objects t = [] /\ links t = []
    /\ connections t = [] /\ connection_entries t = []
    /\ Forall2
         (fun typename (kv : string * PrimitivesTable) =>
            fst kv = "primitives_" ++ typename
            /\ pt_rows (snd kv) = []
            /\ exists type eggs,
                 dict_get typename (objectTypes (_schemaInfo m)) = Some type
                 /\ eggColumns type = Return eggs
                 /\ pt_columns (snd kv)
                    = (primitiveFieldNames type ++ nestedFieldNames type
                         ++ map eggColumnName eggs)%list)
         (dict_keys (objectTypes (_schemaInfo m)))
         (primitives_tables t).
Proof.
  intros H. unfold Mirror_constructor in H.
  apply bind_Ok in H. destruct H as (info & db0 & Hinfo & H).
  apply lift_Ok in Hinfo. destruct Hinfo as [Hinfo ->].
  apply bind_Ok in H. destruct H as ([] & db1 & Hinit & Hret).
  unfold ret in Hret. inversion Hret; subst m db1; clear Hret.
  cbn [_schemaInfo].
  unfold _initialize in Hinit. apply _inTransaction_Ok in Hinit.
  destruct Hinit as (_ & db2 & Hinit & ->).
  unfold bind, sql_create_meta_if_not_exists, sql_select_config, sql_insert_meta,
    sql_create_structural_tables in Hinit. simpl in Hinit.
  cbn [tables].
  apply (@forEach_prefix _
           (fun before d =>
              exists t,
                tables d = Some t
                /\ updates t = [] /\ objects t = [] /\ links t = []
                /\ connections t = [] /\ connection_entries t = []
                /\ Forall2
                     (fun typename (kv : string * PrimitivesTable) =>
                        fst kv = "primitives_" ++ typename
                        /\ pt_rows (snd kv) = []
                        /\ exists type eggs,
                             dict_get typename (objectTypes info) = Some type
                             /\ eggColumns type = Return eggs
                             /\ pt_columns (snd kv)
                                = (primitiveFieldNames type
                                     ++ nestedFieldNames type
                                     ++ map eggColumnName eggs)%list)
                     before (primitives_tables t))
           _ _) with (before := []) in Hinit.
  - exact Hinit.
  - intros before typename d d' (t & Ht & Hu & Ho & Hl & Hc & He & Hall) Hbody.
    destruct (dict_get typename (objectTypes info)) as [type|] eqn:Etype;
      [|discriminate].
    apply createPrimitivesTable_creates in Hbody.
    destruct Hbody as (t0 & eggs & Ht0 & Heggs & ->).
    rewrite Ht in Ht0. inversion Ht0; subst t0; clear Ht0.
    eexists. split; [reflexivity|]. simpl. repeat (split; [assumption|]).
    apply Forall2_app; [assumption|]. constructor; [|constructor].
    simpl. split; [reflexivity|]. split; [reflexivity|]. eauto.
  - exists empty_tables. simpl. repeat (split; [reflexivity|]). constructor.
Qed.

(** X27.  The tables the constructor leaves in an empty database: the
    five structural tables, empty, and one table of primitives for
    every object type, in the order of the types, named [primitives_T],
    without rows, whose columns after [id] are the primitive fields of
    the type, then its nested fields, then ["nested.egg"] for every
    primitive egg. *)
Theorem constructor_tables (stringify : Config -> string) (schema : Schema)
    (blacklist : list ObjectId) (m : Mirror) (db : Db) :
  Mirror_constructor stringify schema blacklist empty_db = Ok m db ->
  exists t,
    tables db = Some t
    /\ updates t = [] /\ objects t = [] /\ links t = []
    /\ connections t = [] /\ connection_entries t = []
    /\ Forall2
         (fun typename (kv : string * PrimitivesTable) =>
            fst kv = "primitives_" ++ typename
            /\ pt_rows (snd kv) = []
            /\ exists type eggs,
                 dict_get typename (objectTypes (_schemaInfo m)) = Some type
                 /\ eggColumns type = Return eggs
                 /\ pt_columns (snd kv)
                    = (primitiveFieldNames type ++ nestedFieldNames type
                         ++ map eggColumnName eggs)%list)
         (dict_keys (objectTypes (_schemaInfo m)))
         (primitives_tables t).
Proof. apply Mirror_constructor_tables. Qed.

(** ** What is fetched next *)

Lemma left_outer_join_updates_None us :
  left_outer_join_updates None us = [None].
Proof.
  unfold left_outer_join_updates. now rewrite filter_nothing.
Qed.

(** X28.  An object registered for the first time is to be fetched:
    whatever the threshold, [_findOutdated] then lists the object,
    under its typename, and each connection field of its type, with an
    undefined end cursor. *)
Theorem registered_is_outdated (m : Mirror) (typename : Typename)
    (id : ObjectId) (db : Db) (t : Tables) (db' : Db) (since : Z) :
  _buildSchemaInfo (_schema m) = Return (_schemaInfo m) ->
  tables db = Some t ->
  registered_typename t id = None ->
  registerObject m typename id db = Ok tt db' ->
  exists plan,
    _findOutdated since db' = Ok plan db'
    /\ In {| po_typename := typename; po_id := id |} (plan_objects plan)
    /\ forall typeFields f elementType,
         dict_get typename (_schema m) = Some (OBJECT typeFields) ->
         dict_get f typeFields = Some (CONNECTION elementType) ->
         In {| pc_objectTypename := typename; pc_objectId := id;
               pc_fieldname := f; pc_endCursor := None |}
            (plan_connections plan).
Proof.
  intros Hinfo Ht Hnone H. unfold registerObject in H.
  apply _inTransaction_Ok in H. destruct H as (Hidle & db2 & H & ->).
  eapply registerObject_new_tables in H; [|exact Ht|exact Hnone].
  destruct H as (typeFields & objectType & table & ls & cs & Hschema & Htype
                 & Htable & -> & _ & _ & _ & Hcs & Hconns & _).
  match goal with |- context [with_tables _ ?x] => set (t' := x) end.
  pose (o := {| o_id := id; o_typename := typename; o_last_update := None |}).
  assert (Ho : In o (objects t'))
    by (unfold t'; simpl; apply in_or_app; right; now left).
  unfold _findOutdated, _inTransaction, bind, getTables, ret. simpl.
  eexists. split; [reflexivity|]. simpl. split.
  - unfold sql_outdated_objects. apply in_map_iff. exists (o, None).
    split; [reflexivity|]. apply filter_In. split; [|reflexivity].
    apply in_flat_map. exists o. split; [exact Ho|].
    change (o_last_update o) with (@None UpdateId).
    rewrite left_outer_join_updates_None. now left.
  - intros typeFields' f elementType Hschema' Hf.
    rewrite Hschema in Hschema'. inversion Hschema'; subst typeFields'.
    destruct (_buildSchemaInfo_objectType _ _ Hinfo Hschema)
      as (entry & Hentry & Hbuild).
    rewrite Htype in Hentry. inversion Hentry; subst entry; clear Hentry.
    pose proof (is_connection_field_In _ _ Hbuild Hf) as Hin.
    rewrite <- Hconns in Hin. apply in_map_iff in Hin.
    destruct Hin as (c & Hname & Hc).
    rewrite Forall_forall in Hcs.
    destruct (Hcs c Hc) as (Hcid & Hlast & _ & Hnext & Hcursor).
    apply in_map_iff.
    exists {| ocr_objectTypename := typename;
              ocr_objectId := id;
              ocr_fieldname := f;
              ocr_neverUpdated := true;
              ocr_endCursor := None |}.
    split; [reflexivity|].
    unfold sql_outdated_connections. apply in_map_iff.
    exists (c, None, o). split; [simpl; now rewrite Hcid, Hname, Hlast, Hcursor|].
    apply filter_In. split.
    + apply in_flat_map. exists c.
      split; [unfold t'; simpl; apply in_or_app; now right|].
      apply in_flat_map. exists None.
      split; [rewrite Hlast, left_outer_join_updates_None; now left|].
      apply in_map. apply filter_In. split; [exact Ho|].
      simpl. rewrite Hcid. apply String.eqb_refl.
    + cbv beta iota. rewrite Hlast, Hnext. reflexivity.
Qed.

(** ** When a registration returns *)

(** *** The tables of primitives are kept *)



(** *** The names the constructor has checked *)


(** *** Names without duplicates *)






(** *** The inserts return *)










(** ** What an own-data ingestion leaves alone *)

Lemma filter_snoc_out {X} (p : X -> bool) (l : list X) (x : X) :
  p x = false -> filter p (l ++ [x]) = filter p l.
Proof. intros H. rewrite filter_app. simpl. rewrite H. apply app_nil_r. Qed.

Lemma filter_map_out {X} (p : X -> bool) (f : X -> X) (l : list X) :
  (forall x, p (f x) = p x) -> (forall x, p x = true -> f x = x) ->
  filter p (map f l) = filter p l.
Proof.
  intros Hp Hf. induction l as [|x l IH]; simpl; [reflexivity|].
  rewrite Hp. destruct (p x) eqn:E; [|assumption].
  now rewrite Hf, IH.
Qed.

Lemma eqb_other (a b : string) : a <> b -> String.eqb a b = false.
Proof. apply String.eqb_neq. Qed.

(** The registrar leaves the rows of a registered object alone. *)
Lemma registerObject_untouched m id0 t0 typename id :
  triple (untouched id0 t0) (_nontransactionallyRegisterObject m typename id)
         (fun _ => untouched id0 t0).
Proof.
  destruct (String.eqb_spec id id0) as [->|Hne].
  - unfold _nontransactionallyRegisterObject.
    tthen (fun a t => untouched id0 t0 t /\ a = registered_typename t id0).
    { unfold sql_select_typename, triple. triple_statement. auto. }
    intros existing db t Ht [HI Hexisting].
    destruct existing as [existing|].
    + destruct (String.eqb existing typename); simpl; [|exact Logic.I].
      exists t. split; [now apply with_tables_same | exact HI].
    + exfalso. destruct HI as [Hreg _].
      symmetry in Hexisting. now apply registered_typename_None in Hexisting.
  - eapply triple_weaken;
      [| | apply t_registerObject with (I := untouched id0 t0)];
      [auto | intros a t H; apply H | | | |];
      unfold untouched, object_rows, link_rows, connection_rows.
    + intros t fields (Hreg & Ho & Hl & Hc & He & Hp) _ _.
      cbn [objects links connections connection_entries primitives_tables].
      split; [now apply registered_insert|].
      rewrite filter_snoc_out by (simpl; now apply eqb_other). auto.
    + intros t table (Hreg & Ho & Hl & Hc & He & Hp) _ Htable _.
      unfold set_primitives_tables.
      cbn [objects links connections connection_entries primitives_tables].
      repeat (split; [assumption|]).
      intros key table0 Hkey. destruct (Hp key table0 Hkey) as (tb & Htb & Hrows).
      destruct (String.eqb_spec ("primitives_" ++ typename) key) as [E|E].
      * rewrite E in *. rewrite dict_get_set_same. eexists.
        split; [reflexivity|]. rewrite Htable in Htb.
        inversion Htb; subst tb. rewrite <- Hrows. unfold primitives_rows.
        cbn [pt_rows]. apply filter_snoc_out. simpl. now apply eqb_other.
      * rewrite dict_get_set_other by assumption. eauto.
    + intros t f (Hreg & Ho & Hl & Hc & He & Hp) _ _.
      cbn [objects links connections connection_entries primitives_tables].
      split; [exact Hreg|]. split; [assumption|].
      rewrite filter_snoc_out by (simpl; now apply eqb_other). auto.
    + intros t f (Hreg & Ho & Hl & Hc & He & Hp) _ _.
      cbn [objects links connections connection_entries primitives_tables].
      split; [exact Hreg|]. split; [assumption|]. split; [assumption|].
      rewrite filter_snoc_out by (simpl; now apply eqb_other). auto.
Qed.

Lemma setLastUpdates_untouched id0 t0 updateId batch :
  ~ In id0 (map entry_id batch) ->
  triple (untouched id0 t0) (setLastUpdates updateId batch)
         (fun _ => untouched id0 t0).
Proof.
  intros Hout. unfold setLastUpdates. apply triple_lift_bind.
  intros update Hupdate. apply triple_forEach. intros entry Hin.
  assert (Hne : entry_id entry <> id0).
  { intros E. apply Hout. rewrite <- E. now apply in_map. }
  eapply t_single_update; [exact Hupdate|]. simpl.
  unfold sql_update_last_update, triple. triple_statement.
  unfold untouched, object_rows, link_rows, connection_rows in HP |- *.
  destruct HP as (Hreg & Ho & Hl & Hc & He & Hp).
  cbn [objects links connections connection_entries primitives_tables].
  split; [apply registered_last_update; exact Hreg|].
  split; [|auto]. rewrite <- Ho. apply filter_map_out.
  - intros o. now destruct (String.eqb (o_id o) (entry_id entry)).
  - intros o Hsel. apply String.eqb_eq in Hsel.
    rewrite Hsel, eqb_other; [reflexivity|]. congruence.
Qed.

Lemma updateAllPrimitives_untouched id0 t0 typename objectType batch :
  ~ In id0 (map entry_id batch) ->
  triple (untouched id0 t0) (updateAllPrimitives typename objectType batch)
         (fun _ => untouched id0 t0).
Proof.
  intros Hout. unfold updateAllPrimitives. apply triple_lift_bind.
  intros sets _.
  tthen (fun (update : Bindings -> M unit) t =>
           (forall bound id,
               dict_get "id" bound = Some (Some (SqlText id)) -> id <> id0 ->
               triple (untouched id0 t0) (update bound)
                      (fun _ => untouched id0 t0))
           /\ untouched id0 t0 t).
  - destruct sets as [|set sets].
    + apply triple_ret. intros t Ht. split; [|assumption].
      intros bound id _ _. now apply triple_ret.
    + apply triple_lift_bind. intros tableName _.
      tthen (fun _ : unit => untouched id0 t0).
      { unfold sql_prepare_update_primitives, triple. triple_statement.
        assumption. }
      intros _.
      destruct (_makeSingleUpdateFunction _) as [update|msg] eqn:Eu;
        [|apply triple_throw].
      apply triple_ret. intros t Ht. split; [|assumption].
      intros bound id Hid Hne. eapply t_single_update; [exact Eu|]. simpl.
      intros db t1 Ht1 HP. unfold sql_update_primitives, bind, getTables.
      rewrite Ht1.
      destruct (dict_get (sql_identifier tableName) (primitives_tables t1))
        as [table|] eqn:Et; [|exact Logic.I].
      destruct (assignments (set :: sets) bound) as [values|msg];
        simpl; [|exact Logic.I].
      unfold bound_parameter. rewrite Hid. simpl.
      eexists; split; [reflexivity|].
      unfold untouched, object_rows, link_rows, connection_rows,
        set_primitives_tables in HP |- *.
      destruct HP as (Hreg & Ho & Hl & Hc & He & Hp).
      cbn [objects links connections connection_entries primitives_tables].
      repeat (split; [assumption|]).
      intros key table0 Hkey. destruct (Hp key table0 Hkey) as (tb & Htb & Hrows).
      destruct (String.eqb_spec (sql_identifier tableName) key) as [E|E].
      * rewrite E in *. rewrite dict_get_set_same. eexists.
        split; [reflexivity|]. rewrite Et in Htb.
        inversion Htb; subst tb. rewrite <- Hrows. unfold primitives_rows.
        cbn [pt_rows]. apply filter_map_out.
        -- intros r. now destruct (String.eqb (p_id r) id).
        -- intros r Hsel. apply String.eqb_eq in Hsel.
           rewrite Hsel, eqb_other; [reflexivity|]. congruence.
      * rewrite dict_get_set_other by assumption. eauto.
  - intros update. apply triple_pure. intros Hupdate.
    apply triple_forEach. intros entry Hin.
    apply triple_lift_bind. intros bound Hbound.
    apply Hupdate with (id := entry_id entry).
    + eapply primitivesOf_id; eassumption.
    + intros E. apply Hout. rewrite <- E. now apply in_map.
Qed.

Lemma updateAllLinks_untouched m id0 t0 typename objectType batch :
  ~ In id0 (map entry_id batch) ->
  triple (untouched id0 t0) (updateAllLinks m typename objectType batch)
         (fun _ => untouched id0 t0).
Proof.
  intros Hout.
  apply t_updateAllLinks with (G := fun args => parentId args <> id0).
  - intros typename0 id. apply registerObject_untouched.
  - unfold untouched, object_rows, link_rows, connection_rows.
    intros t args (Hreg & Ho & Hl & Hc & He & Hp) _ Hne.
    cbn [objects links connections connection_entries primitives_tables].
    split; [exact Hreg|]. split; [assumption|]. split; [|auto].
    rewrite <- Hl. apply filter_map_out.
    + intros l. now destruct (_ && _).
    + intros l Hsel. apply String.eqb_eq in Hsel. rewrite Hsel.
      destruct (String.eqb_spec id0 (parentId args)); [congruence|reflexivity].
  - intros entry args Hin Hargs E. apply Hout.
    destruct Hargs; simpl in E; rewrite <- E; now apply in_map.
Qed.

Lemma updateOwnData_untouched m id0 t0 updateId batch :
  ~ In id0 (map entry_id batch) ->
  triple (untouched id0 t0) (_nontransactionallyUpdateOwnData m updateId batch)
         (fun _ => untouched id0 t0).
Proof.
  intros Hout. unfold _nontransactionallyUpdateOwnData.
  destruct batch as [|first rest] eqn:Ebatch; [now apply triple_ret|].
  rewrite <- Ebatch in *.
  destruct (dict_get _ (_schema m)) as [[| |fields|typeClauses]|];
    try apply triple_throw; try (undeclared ltac:(apply triple_throw)).
  tthen (fun _ : unit => untouched id0 t0);
    [apply t_checkObjectsExist|]. intros _.
  tthen (fun _ : unit => untouched id0 t0);
    [now apply setLastUpdates_untouched|]. intros _.
  destruct (dict_get _ (objectTypes (_schemaInfo m))) as [objectType|];
    [|apply triple_throw].
  tthen (fun _ : unit => untouched id0 t0);
    [now apply updateAllPrimitives_untouched|]. intros _.
  now apply updateAllLinks_untouched.
Qed.

(** X30.  An own-data ingestion leaves alone the objects that are not
    in the batch: a registered object that has no record in the batch
    keeps its rows in [objects], [links], [connections] and in every
    table of primitives, as they were; and the entries of the
    connections are as they were. *)
Theorem _updateOwnData_others (m : Mirror) (updateId : UpdateId)
    (batch : OwnDataUpdateResult) (db db' : Db) (t : Tables) (id : ObjectId) :
  tables db = Some t ->
  In id (map o_id (objects t)) ->
  ~ In id (map entry_id batch) ->
  _updateOwnData m updateId batch db = Ok tt db' ->
  exists t',
    tables db' = Some t'
    /\ filter (fun o => String.eqb (o_id o) id) (objects t')
       = filter (fun o => String.eqb (o_id o) id) (objects t)
    /\ filter (fun l => String.eqb (l_parent_id l) id) (links t')
       = filter (fun l => String.eqb (l_parent_id l) id) (links t)
    /\ filter (fun c => String.eqb (c_object_id c) id) (connections t')
       = filter (fun c => String.eqb (c_object_id c) id) (connections t)
    /\ connection_entries t' = connection_entries t
    /\ forall key table,
         dict_get key (primitives_tables t) = Some table ->
         exists table',
           dict_get key (primitives_tables t') = Some table'
           /\ filter (fun r => String.eqb (p_id r) id) (pt_rows table')
              = filter (fun r => String.eqb (p_id r) id) (pt_rows table).
Proof.
  intros Ht Hreg Hout H. unfold _updateOwnData in H.
  apply _inTransaction_Ok in H. destruct H as (_ & db2 & H & ->).
  eapply triple_Ok in H;
    [| apply updateOwnData_untouched with (id0 := id) (t0 := t); exact Hout
     | exact Ht |].
  - destruct H as (t' & -> & _ & Ho & Hl & Hc & He & Hp).
    exists t'. split; [reflexivity|]. auto 10.
  - unfold untouched. repeat split; auto. intros key table Hkey. eauto.
Qed.

End Properties.

(** ** Instances on the small mirror *)

#[global] Existing Instance example_runtime.

(** Registering the issue again does nothing; registering its id as a
    user throws and changes nothing. *)
Lemma registerObject_again_instance :
  registerObject example_mirror "Issue" "i1" example_registered
  = Ok tt example_registered
  /\ exists msg,
       registerObject example_mirror "User" "i1" example_registered
       = Throw msg example_registered.
Proof.
  assert (Ht : tables example_registered
               = Some (tables_of example_registered)) by reflexivity.
  assert (Hreg : registered_typename (tables_of example_registered) "i1"
                 = Some "Issue") by reflexivity.
  split.
  - destruct (registerObject_again example_mirror "Issue" "i1"
                example_registered Ht Hreg) as [Hsame _].
    apply Hsame; reflexivity.
  - destruct (registerObject_again example_mirror "User" "i1"
                example_registered Ht Hreg) as [_ Hother].
    apply Hother. discriminate.
Defined.

(** Initializing the mirror again over its database does nothing; a
    mirror of another schema is refused, and the database is as it was. *)
Lemma _initialize_populated_instance :
  _initialize example_stringify example_mirror example_constructed
  = Ok tt example_constructed
  /\ _initialize example_stringify example_other_mirror example_constructed
     = Throw incompatible_message example_constructed.
Proof.
  assert (Hin : inTransaction example_constructed = false) by reflexivity.
  assert (Hmeta : meta example_constructed
                  = Some (Some "MIRROR_v3:Issue,User:bad")) by reflexivity.
  split.
  - destruct (_initialize_populated example_stringify example_mirror
                example_constructed Hin Hmeta) as [Hsame _].
    apply Hsame. reflexivity.
  - destruct (_initialize_populated example_stringify example_other_mirror
                example_constructed Hin Hmeta) as [_ Hother].
    apply Hother. discriminate.
Defined.


(** The plan of the database in which the two users were never updated
    and the connection of the issue has a next page. *)
Lemma _findOutdated_exact_instance :
  exists plan,
    _findOutdated 10 example_paged = Ok plan example_paged
    /\ map po_id (plan_objects plan) = ["i1"; "u1"; "u2"]
    /\ map pc_endCursor (plan_connections plan) = [Some (Some "cursor1")].
Proof.
  destruct (@_findOutdated_exact 10 example_paged (tables_of example_paged))
    as (plan & outdated & outdated_connection & typename_of & Hplan & _).
  - reflexivity.
  - reflexivity.
  - repeat constructor. simpl. intuition.
  - repeat constructor; simpl; intuition discriminate.
  - intros c [<-|[]]. eexists. split; [left; reflexivity | reflexivity].
  - exists plan. split; [exact Hplan|].
    vm_compute in Hplan. inversion Hplan; subst plan. split; reflexivity.
Defined.

(** The query from a known [null] cursor passes [first] and [after]. *)
Lemma _queryConnection_arguments_instance :
  exists connectionArguments children,
    example_selections = [field "comments" connectionArguments children]
    /\ dict_get "first" connectionArguments = Some (literal (LitNumber 10))
    /\ dict_get "after" connectionArguments = Some (literal LitNull)
    /\ dict_keys connectionArguments = ["first"; "after"].
Proof.
  assert (H : _queryConnection example_mirror "Issue" "comments" (Some None) 10
              = Return example_selections) by reflexivity.
  exact (_queryConnection_arguments example_mirror "Issue" "comments"
           (Some None) 10 H).
Defined.

(** Before the users are fetched, extracting the issue throws. *)
Lemma extract_never_fetched_instance :
  exists msg,
    extract example_JSON_parse example_mirror "i1" example_paged
    = Throw msg example_paged.
Proof.
  assert (Ht : tables example_paged = Some (tables_of example_paged))
    by reflexivity.
  assert (Hnever : never_fetched (tables_of example_paged) "i1" ("u1", None)).
  { split.
    - apply reachable_step with (x := "i1"); [apply reachable_root|].
      refine (@depends_link _ {| l_rowid := 1; l_parent_id := "i1";
                                 l_fieldname := "author";
                                 l_child_id := Some "u1" |} "u1" _ _);
        [simpl; auto | reflexivity].
    - exists {| o_id := "u1"; o_typename := "User"; o_last_update := None |}.
      simpl. auto. }
  destruct (extract_never_fetched example_JSON_parse example_mirror
              example_paged Ht Hnever) as (msg & Hthrow & _).
  exists msg. exact Hthrow.
Defined.



(** The run of the small mirror, step by step. *)
Lemma example_complete_reached :
  mirror_db example_stringify example_schema example_blacklist
            example_mirror example_complete.
Proof.
  apply mirror_db_step with (db := example_paged).
  - apply mirror_db_step with (db := example_owned).
    + apply mirror_db_step with (db := example_begun).
      * apply mirror_db_step with (db := example_registered).
        -- apply mirror_db_step with (db := example_constructed).
           ++ apply mirror_db_constructed. vm_compute. reflexivity.
           ++ apply (@step_registerObject _ example_mirror "Issue" "i1").
              vm_compute. reflexivity.
        -- apply (@step_createUpdate _ example_mirror 5 1).
           vm_compute. reflexivity.
      * apply (@step_updateOwnData _ example_mirror 1 [example_issue]).
        vm_compute. reflexivity.
    + apply (@step_updateConnection _ example_mirror 1 "i1" "comments"
               example_page).
      vm_compute. reflexivity.
  - apply (@step_updateOwnData _ example_mirror 1
             [example_user "u1"; example_user "u2"]).
    vm_compute. reflexivity.
Qed.

(** The constraints hold in the database the run ends in. *)
Lemma keys_unique_always_instance : holds keys_unique example_complete.
Proof. exact (keys_unique_always example_complete_reached). Defined.

Lemma references_resolve_always_instance :
  holds references_resolve example_complete.
Proof. exact (references_resolve_always example_complete_reached). Defined.

Lemma connections_consistent_always_instance :
  holds connections_consistent example_complete.
Proof. exact (connections_consistent_always example_complete_reached). Defined.

Lemma entries_numbered_always_instance :
  holds entries_numbered example_complete.
Proof. exact (entries_numbered_always example_complete_reached). Defined.



(** The end cursor of the comments of the issue: undefined once the
    issue is registered, the cursor of the page once it is ingested. *)
Lemma _getEndCursor_new_instance :
  _getEndCursor "i1" "comments" example_registered = Ok None example_registered.
Proof.
  apply (@_getEndCursor_new example_mirror "Issue" "i1" example_constructed
           (tables_of example_constructed) example_registered
           [("id", ID); ("title", PRIMITIVE);
            ("author", NODE "User" FAITHFUL);
            ("comments", CONNECTION "User");
            ("meta", NESTED [("date", EGG_PRIMITIVE);
                             ("user", EGG_NODE "User" FAITHFUL)])]
           "comments" "User");
    first [reflexivity | vm_compute; reflexivity].
Defined.

Lemma _getEndCursor_after_update_instance :
  _getEndCursor "i1" "comments" example_paged
  = Ok (Some (Some "cursor1")) example_paged.
Proof.
  apply (@_getEndCursor_after_update example_mirror 1 "i1" "comments"
           example_page example_owned example_paged).
  vm_compute. reflexivity.
Defined.

(** An id that was never registered has no connection. *)
Lemma connection_of_unregistered_instance :
  exists msg,
    _updateConnection example_mirror 1 "nobody" "comments" example_page
      example_complete = Throw msg example_complete.
Proof.
  destruct (@connection_of_unregistered _ example_stringify example_schema
              example_blacklist example_mirror example_complete
              (tables_of example_complete) 1 "nobody" "comments" example_page
              example_complete_reached eq_refl eq_refl) as [_ Hthrow].
  eexists. exact Hthrow.
Defined.

(** The issue is stamped by the ingestion of its record, and is not
    outdated after the update step that fetched it. *)
Lemma _updateOwnData_stamps_instance :
  exists t',
    tables example_owned = Some t'
    /\ (exists o, In o (objects t') /\ o_id o = "i1")
    /\ forall o, In o (objects t') -> o_id o = "i1" ->
                 o_last_update o = Some 1.
Proof.
  apply (@_updateOwnData_stamps _ example_mirror 1 [example_issue]
           example_begun example_owned example_issue).
  - vm_compute. reflexivity.
  - simpl. auto.
Defined.

Lemma ingested_not_outdated_instance :
  exists plan,
    _findOutdated 7 example_ingested = Ok plan example_ingested
    /\ ~ In "i1" (map po_id (plan_objects plan)).
Proof.
  apply (@ingested_not_outdated _ example_mirror 7 example_response
           example_registered example_ingested "owndata_0" [example_issue]
           example_issue 7).
  - vm_compute. reflexivity.
  - simpl. auto.
  - simpl. auto.
  - lia.
Defined.


(** Constructing the mirror again over the database the run ends in. *)
Lemma configuration_never_updated_instance :
  Mirror_constructor example_stringify example_schema example_blacklist
    example_complete
  = Ok example_mirror example_complete.
Proof.
  destruct (configuration_never_updated example_complete_reached)
    as (_ & _ & Hagain).
  exact Hagain.
Defined.



(** A response with a key of neither kind. *)
Lemma _updateData_bad_key_instance :
  exists msg,
    _updateData example_mirror 1 [("bogus", OwnDataResult [])] example_begun
    = Throw msg example_begun.
Proof.
  destruct (@_updateData_bad_key _ example_mirror 1
              [("bogus", OwnDataResult [])] example_begun "bogus"
              (OwnDataResult [])) as [Hthrow _].
  - simpl. auto.
  - reflexivity.
  - reflexivity.
  - exact Hthrow.
Defined.

(** The ingestion of the record of the issue has stored its title and
    the link of its author. *)
Lemma _updateOwnData_primitive_instance :
  exists t' table value text,
    tables example_owned = Some t'
    /\ entry_get example_issue "title" = Some value
    /\ JSON_stringify_read value = Some text
    /\ dict_get ("primitives_" ++ entry_typename example_issue)
                (primitives_tables t')
       = Some table
    /\ (exists row, In row (pt_rows table) /\ p_id row = entry_id example_issue)
    /\ forall row, In row (pt_rows table) -> p_id row = entry_id example_issue ->
         dict_get "title" (p_values row) = Some (SqlText text).
Proof.
  apply (@_updateOwnData_primitive _ example_mirror 1 [example_issue]
           example_begun example_owned example_issue
           [("id", ID); ("title", PRIMITIVE);
            ("author", NODE "User" FAITHFUL);
            ("comments", CONNECTION "User");
            ("meta", NESTED [("date", EGG_PRIMITIVE);
                             ("user", EGG_NODE "User" FAITHFUL)])]
           "title").
  - vm_compute. reflexivity.
  - simpl. constructor; [intros []|constructor].
  - simpl. auto.
  - reflexivity.
  - reflexivity.
  - simpl. repeat split; discriminate.
  - vm_compute. reflexivity.
Defined.



(** The ingestion of the record of the issue with an object for its
    nested field has stored the presence of the field, the date, and the
    link of the user. *)
Lemma _updateOwnData_nested_instance :
  exists t' table nested,
    tables example_owned_dated = Some t'
    /\ entry_get example_issue_dated "meta" = Some nested
    /\ dict_get ("primitives_" ++ entry_typename example_issue_dated)
                (primitives_tables t')
       = Some table
    /\ (exists row, In row (pt_rows table)
                    /\ p_id row = entry_id example_issue_dated)
    /\ forall row, In row (pt_rows table) ->
         p_id row = entry_id example_issue_dated ->
         dict_get "meta" (p_values row)
         = Some (SqlInteger (if is_nullish nested then 0 else 1)).
Proof.
  apply (@_updateOwnData_nested _ example_mirror 1 [example_issue_dated]
           example_begun example_owned_dated example_issue_dated
           example_issue_fields "meta"
           [("date", EGG_PRIMITIVE); ("user", EGG_NODE "User" FAITHFUL)]).
  - vm_compute. reflexivity.
  - simpl. constructor; [intros []|constructor].
  - simpl. auto.
  - reflexivity.
  - reflexivity.
  - simpl. repeat split; discriminate.
  - vm_compute. reflexivity.
Defined.



(** The graph extracted from the issue holds the issue and the two users
    it depends on; nothing is extracted from an id that is not
    registered. *)
Lemma extract_objects_instance :
  example_complete = example_complete
  /\ graph_root example_graph = "i1"
  /\ In "i1" (dict_keys (graph_objects example_graph))
  /\ exists t,
       tables example_complete = Some t
       /\ forall id,
            In id (dict_keys (graph_objects example_graph))
            <-> In id (map o_id (objects t)) /\ reachable t "i1" id.
Proof.
  apply (@extract_objects _ example_stringify example_JSON_parse example_schema
           example_blacklist example_mirror "i1" example_complete
           example_graph example_complete example_complete_reached).
  vm_compute. reflexivity.
Defined.

Lemma extract_unregistered_instance :
  extract example_JSON_parse example_mirror "nobody" example_complete
  = Throw ("No such object: " ++ JSON_stringify_string "nobody")
          example_complete.
Proof.
  apply (@extract_unregistered _ example_stringify example_JSON_parse
           example_schema example_blacklist example_mirror "nobody"
           example_complete example_complete_reached).
  intros t Ht. vm_compute in Ht. inversion Ht; subst t; clear Ht.
  simpl. intuition discriminate.
Defined.

Lemma example_owned_reached :
  mirror_db example_stringify example_schema example_blacklist
            example_mirror example_owned.
Proof.
  apply mirror_db_step with (db := example_begun).
  - apply mirror_db_step with (db := example_registered).
    + apply mirror_db_step with (db := example_constructed).
      * apply mirror_db_constructed. vm_compute. reflexivity.
      * apply (@step_registerObject _ example_mirror "Issue" "i1").
        vm_compute. reflexivity.
    + apply (@step_createUpdate _ example_mirror 5 1).
      vm_compute. reflexivity.
  - apply (@step_updateOwnData _ example_mirror 1 [example_issue]).
    vm_compute. reflexivity.
Qed.

(** The comments of the issue, whose page has a next page, are listed by
    [_findOutdated] with the cursor of the page. *)
Lemma connection_paging_instance :
  exists t' plan,
    tables example_paged = Some t'
    /\ _findOutdated 0 example_paged = Ok plan example_paged
    /\ (hasNextPage (pageInfo example_page) = true ->
        exists pc,
          In pc (plan_connections plan)
          /\ pc_objectId pc = "i1" /\ pc_fieldname pc = "comments"
          /\ pc_endCursor pc = Some (endCursor (pageInfo example_page)))
    /\ (hasNextPage (pageInfo example_page) = false ->
        (forall u, In u (updates t') -> u_rowid u = 1 ->
                   0 <= u_time_epoch_millis u) ->
        forall pc,
          In pc (plan_connections plan) ->
          ~ (pc_objectId pc = "i1" /\ pc_fieldname pc = "comments")).
Proof.
  apply (@connection_paging _ example_stringify example_schema example_blacklist
           example_mirror 1 "i1" "comments" example_page example_owned
           example_paged 0 example_owned_reached).
  vm_compute. reflexivity.
Defined.

(** The tables of the small mirror once constructed; and the issue, once
    registered, is listed as outdated with its comments. *)
Lemma constructor_tables_instance :
  exists t,
    tables example_constructed = Some t
    /\ updates t = [] /\ objects t = [] /\ links t = []
    /\ connections t = [] /\ connection_entries t = []
    /\ Forall2
         (fun typename (kv : string * PrimitivesTable) =>
            fst kv = "primitives_" ++ typename
            /\ pt_rows (snd kv) = []
            /\ exists type eggs,
                 dict_get typename (objectTypes (_schemaInfo example_mirror))
                 = Some type
                 /\ eggColumns type = Return eggs
                 /\ pt_columns (snd kv)
                    = (primitiveFieldNames type ++ nestedFieldNames type
                         ++ map eggColumnName eggs)%list)
         (dict_keys (objectTypes (_schemaInfo example_mirror)))
         (primitives_tables t).
Proof.
  apply (@constructor_tables example_stringify example_schema
           example_blacklist example_mirror example_constructed).
  vm_compute. reflexivity.
Defined.

Lemma registered_is_outdated_instance :
  exists plan,
    _findOutdated 0 example_registered = Ok plan example_registered
    /\ In {| po_typename := "Issue"; po_id := "i1" |} (plan_objects plan)
    /\ forall typeFields f elementType,
         dict_get "Issue" (_schema example_mirror) = Some (OBJECT typeFields) ->
         dict_get f typeFields = Some (CONNECTION elementType) ->
         In {| pc_objectTypename := "Issue"; pc_objectId := "i1";
               pc_fieldname := f; pc_endCursor := None |}
            (plan_connections plan).
Proof.
  apply (@registered_is_outdated example_mirror "Issue" "i1"
           example_constructed (tables_of example_constructed)
           example_registered 0).
  - vm_compute. reflexivity.
  - reflexivity.
  - reflexivity.
  - vm_compute. reflexivity.
Defined.


(** The ingestion of the records of the two users leaves the rows of the
    issue as they were. *)
Lemma _updateOwnData_others_instance :
  exists t',
    tables example_complete = Some t'
    /\ filter (fun o => String.eqb (o_id o) "i1") (objects t')
       = filter (fun o => String.eqb (o_id o) "i1")
                (objects (tables_of example_paged))
    /\ filter (fun l => String.eqb (l_parent_id l) "i1") (links t')
       = filter (fun l => String.eqb (l_parent_id l) "i1")
                (links (tables_of example_paged))
    /\ filter (fun c => String.eqb (c_object_id c) "i1") (connections t')
       = filter (fun c => String.eqb (c_object_id c) "i1")
                (connections (tables_of example_paged))
    /\ connection_entries t' = connection_entries (tables_of example_paged)
    /\ forall key table,
         dict_get key (primitives_tables (tables_of example_paged))
         = Some table ->
         exists table',
           dict_get key (primitives_tables t') = Some table'
           /\ filter (fun r => String.eqb (p_id r) "i1") (pt_rows table')
              = filter (fun r => String.eqb (p_id r) "i1") (pt_rows table).
Proof.
  apply (@_updateOwnData_others _ example_mirror 1
           [example_user "u1"; example_user "u2"] example_paged
           example_complete (tables_of example_paged) "i1").
  - reflexivity.
  - vm_compute. auto.
  - simpl. intuition discriminate.
  - vm_compute. reflexivity.
Defined.
